(* ===== verification/_CoqProject ===== *)
-Q . S2P
Prelude.v
PyMonad.v
Text.v
PyDict.v
Json.v
JsonFacts.v
JsonPrefix.v
Config.v
Exports.v
Fields.v
Store.v
StoreSpec.v
Sha256.v
Ring.v
RingFacts.v
Aof.v
AofFacts.v
Snapshot.v
Election.v
ElectionSafety.v
ElectionLog.v
Storage.v
StorageFacts.v
Durable.v
LastWriter.v
Membership.v
MembershipFacts.v
ReadCoordinator.v
ReadFacts.v
Protocol.v
ProtocolFacts.v
Routing.v
Placement.v
Migration.v
MigrationFacts.v
RateLimiter.v
RateLimiterFacts.v
FaultInjection.v
VersionVector.v
Merkle.v
MerkleFacts.v
Replication.v
Parse.v
Connections.v
Coordinator.v
CoordinatorFacts.v
ElectionRound.v
ClusterWire.v
Node.v
NodeReads.v
NodeAdmin.v
NodeLoop.v
NodeFacts.v
NodeAnswers.v
NodeReadFacts.v
NodeMigrationFacts.v
Handover.v
TopologyFacts.v
NodeInvariant.v
NodeDurable.v
Fleet.v
ReadYourWrites.v
Blackout.v
Main.v
Cli.v
CliFacts.v
Showcase.v
