(* ===== verification/Prelude.v ===== *)
(** * MiniDB in Rocq

    MiniDB (src/minidb) is a distributed key-value store in Python: nodes with
    an in-memory store, an append-only file and snapshots; a gossip membership
    and a simplified leader election; two-phase replication of writes from the
    leader; reads at five consistency levels with read repair; a consistent hash
    ring with key migration; a line-framed JSON protocol; rate limits,
    backpressure and fault injection; version vectors, Merkle trees and
    anti-entropy; a command line client.  This development models that code and
    proves what makes its parts correct.  This file is the prelude: exceptions
    as values, tactics and generic lemmas; the comment describes the whole.

    ** How the code is modelled

    - A method that mutates its object, calls callbacks and may raise is a
      program of [PyMonad]: [prog S E A] takes the object's state [S] to a new
      state, the list of the calls made (events [E]) and a result that is [Ok]
      or [Raise].  A raise keeps the state and the events made before it.
      [catch] is [try/except], [zoom] runs a component inside its owner.  Invariants
      of programs are proved with the rules of [preserves] and [ensures].
    - A method under a lock is one atomic step.  Where the source releases the
      lock (asking for votes) the method is several steps.  Threads are left
      out: one round of each background loop is a step.
    - The clock, random numbers and what other processes answer are arguments.
      A clock value is [time], a number of microseconds in [Z]; a float that is
      not a time (rates, probabilities) is an exact rational.
    - A [dict] is its list of items in insertion order ([PyDict]), because the
      order shows; the lemmas relate it to [gmap].  A shared mutable object is a
      heap cell or a slot (Membership, Migration).
    - JSON values, [json.dumps] and [json.loads] are written out ([Json]), and
      so are [str.strip], [int()], [float()] ([Text], [Parse]), [bisect]
      ([Ring]) and SHA-256 on 32-bit words ([Sha256]).  Reading a field of a decoded dict
      with its default or its [KeyError] is [Fields].
    - A file is its text; what is written but not synced is kept apart, so a
      crash can lose it.  A save or a compaction is its sequence of file
      operations, which can stop after any of them.

    ** The files

    The store: [Store] is storage/kv_store.py, [StoreSpec] its abstract
    specification (a finite map of unexpired keys) with the refinement.
    Persistence: [Aof] and [AofFacts] are storage/aof.py, [Snapshot] is
    storage/snapshot.py, [Storage] and [StorageFacts] the part of node.py that
    applies log entries, repairs, recovers and maintains; [Durable] is the
    invariant that the file covers the store, over all of these operations, with
    the file open or closed and its lines whole;
    [LastWriter] is the order of values that all of it shares.
    The cluster: [Membership] and [MembershipFacts] are cluster/membership.py;
    [Election], [ElectionSafety] (a step relation for a cluster of managers)
    and [ElectionLog] are cluster/election.py; [Replication] is
    cluster/replication.py; [ReadCoordinator] and [ReadFacts] are
    cluster/read_coordinator.py; [Coordinator], [CoordinatorFacts],
    [ElectionRound] and [ClusterWire] are cluster/coordinator.py, which runs
    the other parts on its fields and handles the cluster messages.
    Sharding: [Ring] and [RingFacts] are sharding/consistent_hash.py, [Routing]
    is sharding/partition.py and router.py, [Placement] the interface that the
    ring promises its clients, [Migration] and [MigrationFacts] are
    sharding/migration.py.
    The network: [Protocol] and [ProtocolFacts] are network/protocol.py with the
    stream handling of network/server.py and client.py; [Connections] the
    connections themselves: the client's proxy to one node and its
    thread-local sockets, the pool, and the server's table of clients.
    Chaos and repair: [RateLimiter], [RateLimiterFacts], [FaultInjection],
    [VersionVector], [Merkle] and [MerkleFacts] (with repair/anti_entropy.py).
    The node: [Node] (writes), [NodeReads] (reads, replica commands, migration
    and topology) and [NodeAdmin] (reports, dispatch, lifecycle) are
    minidb/node.py, over all of the above, and [NodeLoop] its background loops
    and callbacks, with [react], the node as a whole: one step per command,
    cluster message or loop round.  Their theorems are in [NodeFacts],
    [NodeAnswers], [NodeReadFacts], [NodeMigrationFacts], [TopologyFacts],
    [NodeInvariant] (one invariant of all the parts, kept by [react]),
    [NodeDurable] (the file of a node covers its store, kept by [react]), [Fleet]
    (a cluster of whole nodes, which refines the cluster of election managers),
    [Handover] (a migration task of one node and the node that receives it),
    [ReadYourWrites] (a write, its replicas and a later read composed) and
    [Blackout] (the same with a crash of every node between the two).
    The processes: [Main] is minidb/main.py, from the start of a node over its
    life to the two stops at its end; [Cli] and [CliFacts] are minidb/cli.py;
    [Exports] is what the packages export; [Showcase] the demonstrations of
    examples/.
    Definitions keep the source's names inside a module per class.  The ring's
    and the Merkle tree's hash are the classes [RingHash] and [MerkleHash]: the
    theorems hold for every hash, with SHA-256 as the instance of the code.

    ** What is proved

    - Storage: the store refines the map specification under every sequence of
      operations; a log line round-trips and a torn one is rejected; a crash
      keeps a prefix of the log that holds every synced entry; what the store
      holds survives a crash after any operations, and so does an acknowledged
      write, on a file without a torn line; whatever a node reacted to, a crash takes from its keys only those
      whose last line was not synced or lacks metadata, and an orderly exit
      none; compaction keeps the live data; a snapshot round-trips
      and what each crash point of a save leaves is stated exactly.
    - Cluster: at most one leader per term for a fixed membership, for the
      election managers and, by refinement, for whole nodes whatever else reaches
      them, given that votes are counted as they were cast and that a candidate
      sees the whole cluster (the refinement itself needs no such view); a silent leader is replaced in one round when a majority can vote,
      and the others then follow; the log applies each committed entry once and in order; the
      membership invariant, the convergence of gossip within an incarnation,
      however its messages come, and the failure detector's states; a prepared entry
      is applied once, at its commit; a replication succeeds exactly when
      enough followers acknowledge; every message of a coordinator decodes, and
      does at the receiver what the sender meant.
    - Reads and writes: an acknowledged write is what a later quorum read at any
      node answers, also when every node crashed and recovered in between; which outcome a write has in which state; a write
      through any follower is the write at the leader; a quorum read sees every
      write that a majority holds; remote reads and repairs are local ones,
      a repair up to its times when they are zero;
      replicas that receive the same values, each in its order and at its times, agree.
    - Sharding: replica sets are the distinct nodes met clockwise; a join moves
      keys to the joiner only; the ring depends on its nodes, not its
      history; the partitions of a cluster's nodes hold each key at exactly its
      replicas; the topology follows the membership; routing targets; a migration
      ends, completed exactly when every batch was accepted and the delete
      succeeded, and deletes only what was delivered; a batch arrives newest-wins, so
      a value that migrates is at the source or, as new, at the target.
    - Protocol: what the server handles, and what the client reads, does not
      depend on how TCP cuts the stream; a thread's calls on a proxy use its own
      socket only.
    - The node as a whole: every line at the client port is answered by exactly
      one line, whatever is in it, whatever fails and whatever else reaches the
      node in between; every input keeps the
      invariant of all the parts; a node grants one vote per term over its life.
    - Bounds: admissions of the token bucket, from above and below, exactly when
      the sliding window admits, and the range of the adaptive rate.  Version
      vectors merge to the least upper bound.  Merkle comparison reports only
      differing buckets, and all of them where no hashes collide.
    - Behaviour that its comments or documents do not promise is stated as
      theorems too: [stale_staged_entry_applied], [join_learns_nothing],
      [restart_resurrects_overwritten_value], [compaction_drops_concurrent_write],
      [unreachable_quorum_reads_null], [gossip_order_matters],
      [two_leaders_without_assumptions], [expired_partition_still_blocks],
      [ambiguous_entries], [client_default_hides_node_default],
      [torn_line_swallows_next_write], [unstamped_repair_wins_locally], [node_repairs_nothing], [join_buries_local],
      [reopened_connection_outlives_close], [showcase_counts_no_key].

    ** Bounds and fuel

    Recursion that is not structural carries fuel, and the fuel passed is
    enough: the length of the text for the JSON parser (shown by the round
    trip), of the buffer for the server's loop, of the list for [bisect], for
    the Merkle levels and for the hash blocks.  Retries ([forward_rounds]) have the
    source's own bound.  Characters are code points below 256; a float is a
    multiple of a microsecond, printed without an exponent.  Integers are
    unbounded in Python and so in the model; the words of SHA-256 wrap.

    ** Not modelled

    In the demonstrations, the frame that waits for the user and starts the
    nodes on real ports; argument
    parsing; a signal before the idle loop of main or during its last stop, and
    the threads that run between its two stops; threads, sockets and file
    handles, whose effects are the arguments above; the creation of directories
    and the history file of the client; the interleaving of two client commands
    inside one node, whose write path holds one lock.  The abstract hash of the collision-free Merkle theorem stands for
    the absence of a collision among the hashed texts. *)

From Stdlib Require Export Ascii String Lia ZArith.
From stdpp Require Export numbers pretty strings base decidable option gmap list.

#[global] Open Scope Z_scope.
#[global] Unset Printing Records.

(** ** Python exceptions as values

    A handler that may raise returns [res A].  The constructors are the
    exception classes the source distinguishes in its [except] clauses. *)
Inductive exn :=
  | KeyError
  | ValueError
  | JSONDecodeError (** a subclass of [ValueError] *)
  | TypeError
  | AttributeError
  | IndexError
  | OSError
  | PlainException (msg : string).

Inductive res (A : Type) :=
  | Ok (a : A)
  | Raise (e : exn).
Arguments Ok {A} a.
Arguments Raise {A} e.

#[export] Instance exn_eq_dec : EqDecision exn.
Proof. solve_decision. Defined.

#[export] Instance res_eq_dec {A} `{EqDecision A} : EqDecision (res A).
Proof. solve_decision. Defined.

Definition res_bind {A B} (m : res A) (f : A → res B) : res B :=
  match m with Ok a => f a | Raise e => Raise e end.

Definition res_map {A B} (f : A → B) (m : res A) : res B :=
  match m with Ok a => Ok (f a) | Raise e => Raise e end.

Definition res_of_option {A} (e : exn) (o : option A) : res A :=
  match o with Some a => Ok a | None => Raise e end.

Declare Scope py_scope.
Delimit Scope py_scope with py.
Notation "x ←! m ; k" := (res_bind m (λ x, k))
  (at level 20, m at level 100, k at level 200, right associativity) : py_scope.
#[global] Open Scope py_scope.

(** [isinstance(e, ValueError)]: a decode error is one. *)
Definition is_value_error (e : exn) : bool :=
  match e with ValueError | JSONDecodeError => true | _ => false end.

(** ** Tactics of the development *)

Create HintDb minidb.
Create Rewrite HintDb minidb.

(** Split on the innermost match or decision of the goal, keep the equation. *)
Ltac step_match :=
  match goal with
  | |- context [decide ?P] => destruct (decide P)
  | |- context [match ?x with _ => _ end] =>
      lazymatch x with
      | context [match _ with _ => _ end] => fail
      | _ => destruct x eqn:?
      end
  end.

Ltac split_all := repeat first [ progress simplify_eq/= | step_match ].

(** Turn boolean tests of [Z] into propositions everywhere. *)
Ltac zbool :=
  repeat match goal with
  | H : andb _ _ = true |- _ => apply andb_true_iff in H as [? ?]
  | H : orb _ _ = false |- _ => apply orb_false_iff in H as [? ?]
  | H : negb _ = true |- _ => apply negb_true_iff in H
  | H : negb _ = false |- _ => apply negb_false_iff in H
  | H : Z.ltb _ _ = true |- _ => apply Z.ltb_lt in H
  | H : Z.ltb _ _ = false |- _ => apply Z.ltb_ge in H
  | H : Z.leb _ _ = true |- _ => apply Z.leb_le in H
  | H : Z.leb _ _ = false |- _ => apply Z.leb_gt in H
  | H : Z.eqb _ _ = true |- _ => apply Z.eqb_eq in H
  | H : Z.eqb _ _ = false |- _ => apply Z.eqb_neq in H
  | H : Z.gtb _ _ = _ |- _ => rewrite Z.gtb_ltb in H
  | H : Z.geb _ _ = _ |- _ => rewrite Z.geb_leb in H
  | H : bool_decide _ = true |- _ => apply bool_decide_eq_true_1 in H
  | H : bool_decide _ = false |- _ => apply bool_decide_eq_false_1 in H
  end.

(** ** Time

    [time.time()] and every duration is a float number of seconds in the
    source.  The model counts microseconds in [Z]: the code only adds,
    subtracts and compares them, and tests them for truth (0.0 is false). *)
Definition time := Z.
Definition seconds (s : Z) : time := s * 1000000.

(** The truth value of an [Optional[float]]: [None] and [0.0] are false. *)
Definition truthy_time (t : option time) : bool :=
  match t with Some t => negb (Z.eqb t 0) | None => false end.

(** The truth value of a [str]. *)
Definition truthy_str (s : string) : bool :=
  match s with EmptyString => false | _ => true end.

(** The truth value of an [Optional[str]]. *)
Definition truthy_ostr (s : option string) : bool :=
  match s with Some s => truthy_str s | None => false end.

(** [x or y] on strings. *)
Definition str_or (x y : string) : string := if truthy_str x then x else y.

(** ** Strings *)

(** Python compares [str] by code points, as [String.le] does. *)
Definition str_leb (a b : string) : bool := bool_decide (String.le a b).
Definition str_ltb (a b : string) : bool := negb (str_leb b a).

Lemma str_leb_refl a : str_leb a a = true.
Proof. apply bool_decide_eq_true_2. reflexivity. Qed.

Lemma str_leb_total a b : str_leb a b = true ∨ str_leb b a = true.
Proof.
  unfold str_leb. destruct (total String.le a b) as [H|H];
    [left|right]; by apply bool_decide_eq_true_2.
Qed.

Lemma str_leb_trans a b c :
  str_leb a b = true → str_leb b c = true → str_leb a c = true.
Proof.
  unfold str_leb. intros ?%bool_decide_eq_true_1 ?%bool_decide_eq_true_1.
  apply bool_decide_eq_true_2. by etrans.
Qed.

Lemma str_leb_antisym a b :
  str_leb a b = true → str_leb b a = true → a = b.
Proof.
  unfold str_leb. intros ?%bool_decide_eq_true_1 ?%bool_decide_eq_true_1.
  by apply (anti_symm String.le).
Qed.

Lemma str_ltb_irrefl a : str_ltb a a = false.
Proof. unfold str_ltb. by rewrite str_leb_refl. Qed.

Lemma str_ltb_leb a b : str_ltb a b = true → str_leb a b = true.
Proof.
  unfold str_ltb. intros H%negb_true_iff.
  destruct (str_leb_total a b); congruence.
Qed.

(** [s.startswith(prefix)] *)
Fixpoint startswith (s prefix : string) {struct prefix} : bool :=
  match prefix, s with
  | EmptyString, _ => true
  | String c p, String d s => bool_decide (c = d) && startswith s p
  | String _ _, EmptyString => false
  end.

Lemma startswith_spec s p : startswith s p = true ↔ ∃ t, s = String.append p t.
Proof.
  revert s. induction p as [|c p IH]; intros s; simpl.
  - split; intros; [by exists s|done].
  - destruct s as [|d s]; simpl.
    + split; [intros [=]|]. intros [t [=]].
    + rewrite andb_true_iff, IH, bool_decide_eq_true. split.
      * intros [-> [t ->]]. by exists t.
      * intros [t Ht]. injection Ht as -> ->. eauto.
Qed.

(** [s.endswith(c)] and [s[:-1]] for a one character suffix. *)
Fixpoint last_char (s : string) : option ascii :=
  match s with
  | EmptyString => None
  | String c EmptyString => Some c
  | String _ s => last_char s
  end.

Fixpoint drop_last (s : string) : string :=
  match s with
  | EmptyString => EmptyString
  | String _ EmptyString => EmptyString
  | String c s => String c (drop_last s)
  end.

Lemma last_char_app s c : last_char (String.append s (String c EmptyString)) = Some c.
Proof.
  induction s as [|d s IH]; [done|]. simpl.
  destruct s; [done|]. apply IH.
Qed.

Lemma drop_last_app s c : drop_last (String.append s (String c EmptyString)) = s.
Proof.
  induction s as [|d s IH]; [done|]. simpl in *.
  destruct s; [done|]. simpl in *. by rewrite IH.
Qed.

Lemma str_app_cons c a b : String.append (String c a) b = String c (String.append a b).
Proof. reflexivity. Qed.

Lemma str_app_nil_l a : String.append EmptyString a = a.
Proof. reflexivity. Qed.

Lemma str_app_assoc a b c :
  String.append a (String.append b c) = String.append (String.append a b) c.
Proof. induction a as [|x a IH]; [done|]. rewrite ?str_app_cons. by rewrite IH. Qed.

Lemma str_app_nil_r a : String.append a EmptyString = a.
Proof. induction a as [|x a IH]; [done|]. rewrite ?str_app_cons. by rewrite IH. Qed.

(** [s.upper()] and [s.lower()] on ASCII letters. *)
Definition upper_char (c : ascii) : ascii :=
  let n := N_of_ascii c in
  if ((97 <=? n) && (n <=? 122))%N then ascii_of_N (n - 32) else c.
Definition lower_char (c : ascii) : ascii :=
  let n := N_of_ascii c in
  if ((65 <=? n) && (n <=? 90))%N then ascii_of_N (n + 32) else c.

Fixpoint str_map (f : ascii → ascii) (s : string) : string :=
  match s with
  | EmptyString => EmptyString
  | String c s => String (f c) (str_map f s)
  end.
Definition upper (s : string) : string := str_map upper_char s.
Definition lower (s : string) : string := str_map lower_char s.

(** ** Lists *)

(** [xs[:n]] and [xs[-n:]] for [n >= 0] (Python's [-0:] is the whole list). *)
Definition last_n {A} (n : nat) (xs : list A) : list A := drop (length xs - n) xs.

Lemma last_n_length {A} n (xs : list A) : length (last_n n xs) = Nat.min n (length xs).
Proof. unfold last_n. rewrite length_drop. lia. Qed.

Lemma pfilter_ext {A} (P Q : A → Prop) `{!∀ x, Decision (P x), !∀ x, Decision (Q x)}
    (l : list A) :
  (∀ x, x ∈ l → P x ↔ Q x) → base.filter P l = base.filter Q l.
Proof.
  induction l as [|x l IH]; intros Hin; [done|]. rewrite !filter_cons.
  rewrite IH by (intros y Hy; apply Hin; by right).
  destruct (Hin x ltac:(by left)). repeat case_decide; tauto.
Qed.

Lemma pfilter_all {A} (P : A → Prop) `{!∀ x, Decision (P x)} (l : list A) :
  (∀ x, x ∈ l → P x) → base.filter P l = l.
Proof.
  induction l as [|x l IH]; intros Hin; [done|]. rewrite filter_cons_True by (apply Hin; by left).
  f_equal. apply IH. intros y Hy. apply Hin. by right.
Qed.

Lemma pfilter_none {A} (P : A → Prop) `{!∀ x, Decision (P x)} (l : list A) :
  (∀ x, x ∈ l → ¬ P x) → base.filter P l = [].
Proof.
  induction l as [|x l IH]; intros Hin; [done|]. rewrite filter_cons_False by (apply Hin; by left).
  apply IH. intros y Hy. apply Hin. by right.
Qed.

Lemma pfilter_fmap {A B} (f : A → B) (P : B → Prop) `{!∀ x, Decision (P x)} (l : list A) :
  base.filter P (f <$> l) = f <$> base.filter (λ x, P (f x)) l.
Proof.
  induction l as [|x l IH]; [done|]. rewrite fmap_cons, !filter_cons, IH. by case_decide.
Qed.

Lemma pfilter_take_length {A} (P : A → Prop) `{!∀ x, Decision (P x)} n (l : list A) :
  (length (base.filter P (take n l)) <= length (base.filter P l))%nat.
Proof. rewrite <-(take_drop n l) at 2. rewrite filter_app, length_app. lia. Qed.

(** Python's [max(xs, key=...)]: the first maximal element. *)
Fixpoint max_from {A} (lt : A → A → bool) (best : A) (xs : list A) : A :=
  match xs with
  | [] => best
  | x :: xs => max_from lt (if lt best x then x else best) xs
  end.

Lemma max_from_in {A} (lt : A → A → bool) best xs :
  max_from lt best xs = best ∨ max_from lt best xs ∈ xs.
Proof.
  revert best. induction xs as [|x xs IH]; intros best; simpl; [by left|].
  destruct (IH (if lt best x then x else best)) as [->|Hin].
  - destruct (lt best x); [right; left|by left].
  - right. by right.
Qed.

Section max_from_upper.
Context {A : Type} (lt : A → A → bool).
(** [lt a b] is [key a < key b] for a total order of keys. *)
Hypothesis lt_irrefl : ∀ a, lt a a = false.
Hypothesis lt_neg_trans : ∀ a b c, lt a b = false → lt b c = false → lt a c = false.
Hypothesis lt_asym : ∀ a b, lt a b = true → lt b a = false.

Lemma max_from_upper best xs :
  lt (max_from lt best xs) best = false ∧
  ∀ x, x ∈ xs → lt (max_from lt best xs) x = false.
Proof using All.
  revert best. induction xs as [|y xs IH]; intros best; simpl.
  { split; [apply lt_irrefl|]. intros x Hx. by apply not_elem_of_nil in Hx. }
  destruct (IH (if lt best y then y else best)) as [H1 H2].
  destruct (lt best y) eqn:E.
  - split; [by eapply lt_neg_trans; [exact H1|apply lt_asym]|].
    intros x [->|Hx]%elem_of_cons; auto.
  - split; [done|]. intros x [->|Hx]%elem_of_cons; eauto.
Qed.
End max_from_upper.
