(* ===== verification/PyMonad.v ===== *)
(** Methods that mutate an object, call callbacks and may raise.

    [prog S E A] runs on the object's state [S], records the callbacks it
    makes as events [E] in their order, and returns an [A] or raises.  A raise
    keeps the state and the events made before it, as Python does. *)

From S2P Require Import Prelude.

Definition prog (S E A : Type) : Type := S → S * list E * res A.

#[export] Instance prog_ret {S E} : MRet (prog S E) := λ A a s, (s, [], Ok a).

#[export] Instance prog_bind {S E} : MBind (prog S E) := λ A B f m s,
  match m s with
  | (s, es, Raise x) => (s, es, Raise x)
  | (s, es, Ok a) => match f a s with (s, es', r) => (s, es ++ es', r) end
  end.

Definition get_state {S E} : prog S E S := λ s, (s, [], Ok s).
Definition put_state {S E} (s' : S) : prog S E () := λ _, (s', [], Ok tt).
Definition modify {S E} (f : S → S) : prog S E () := λ s, (f s, [], Ok tt).
Definition emit {S E} (e : E) : prog S E () := λ s, (s, [e], Ok tt).
Definition raise {S E A} (x : exn) : prog S E A := λ s, (s, [], Raise x).
Definition lift {S E A} (r : res A) : prog S E A := λ s, (s, [], r).

(** [try: m except Exception: h]. *)
Definition catch {S E A} (m : prog S E A) (h : exn → prog S E A) : prog S E A := λ s,
  match m s with
  | (s, es, Raise x) => match h x s with (s, es', r) => (s, es ++ es', r) end
  | r => r
  end.

Fixpoint for_each {S E X} (f : X → prog S E ()) (xs : list X) : prog S E () :=
  match xs with [] => mret () | x :: xs => f x;; for_each f xs end.

(** The parts of an outcome. *)
Definition state_of {S E A} (r : S * list E * res A) : S := r.1.1.
Definition events_of {S E A} (r : S * list E * res A) : list E := r.1.2.
Definition result_of {S E A} (r : S * list E * res A) : res A := r.2.

(** A bind that returned ran both parts. *)
Lemma bind_ok_inv {S E A B} (p : prog S E A) (f : A → prog S E B) s s' es b :
  (p ≫= f) s = (s', es, Ok b) →
  ∃ s1 es1 a es2, p s = (s1, es1, Ok a) ∧ f a s1 = (s', es2, Ok b) ∧ es = es1 ++ es2.
Proof.
  unfold mbind, prog_bind. destruct (p s) as [[s1 es1] [a|x]]; [|done].
  destruct (f a s1) as [[s2 es2] r] eqn:E2. intros [= -> <- ->]. eauto 10.
Qed.

Lemma bind_ok {S E A B} (p : prog S E A) (f : A → prog S E B) s s1 es1 a s' es2 r :
  p s = (s1, es1, Ok a) → f a s1 = (s', es2, r) → (p ≫= f) s = (s', es1 ++ es2, r).
Proof. unfold mbind, prog_bind. intros -> ->. done. Qed.

(** A first part without events is transparent. *)
Lemma bind_silent {S E A B} (p : prog S E A) (f : A → prog S E B) s s1 a :
  p s = (s1, [], Ok a) → (p ≫= f) s = f a s1.
Proof. unfold mbind, prog_bind. intros ->. by destruct (f a s1) as [[??]?]. Qed.

Lemma get_bind {S E B} (f : S → prog S E B) s : (get_state ≫= f) s = f s s.
Proof. unfold mbind, prog_bind, get_state. by destruct (f s s) as [[??]?]. Qed.

Lemma lift_ok_bind {S E A B} (a : A) (f : A → prog S E B) s : (lift (Ok a) ≫= f) s = f a s.
Proof. unfold mbind, prog_bind, lift. by destruct (f a s) as [[??]?]. Qed.

Lemma lift_raise_bind {S E A B} x (f : A → prog S E B) s :
  (lift (Raise x) ≫= f) s = (s, [], Raise x).
Proof. done. Qed.

Lemma modify_bind {S E B} g (f : unit → prog S E B) s : (modify g ≫= f) s = f tt (g s).
Proof. unfold mbind, prog_bind, modify. by destruct (f tt (g s)) as [[??]?]. Qed.

Lemma put_bind {S E B} s' (f : unit → prog S E B) s : (put_state s' ≫= f) s = f tt s'.
Proof. unfold mbind, prog_bind, put_state. by destruct (f tt s') as [[??]?]. Qed.

Lemma ret_bind {S E A B} (a : A) (f : A → prog S E B) s : (mret a ≫= f) s = f a s.
Proof. unfold mbind, prog_bind, mret, prog_ret. by destruct (f a s) as [[??]?]. Qed.

Lemma bind_assoc {S E A B C} (m : prog S E A) (f : A → prog S E B) (k : B → prog S E C) s :
  (m ≫= λ x, f x ≫= k) s = ((m ≫= f) ≫= k) s.
Proof.
  unfold mbind, prog_bind. destruct (m s) as [[s1 e1] [a|x]]; [|done].
  destruct (f a s1) as [[s2 e2] [b|x]]; [|done].
  destruct (k b s2) as [[s3 e3] r]. by rewrite app_assoc.
Qed.

(** ** Programs whose runs only make steps of a preorder

    [preserves R p]: every run of [p], raising or not, ends in a state that is
    related to the first one by [R]. *)
Definition preserves {S E A} (R : relation S) (p : prog S E A) : Prop := ∀ s, R s (state_of (p s)).

Create HintDb preserves.

Section preserves.
Context {S E : Type} {R : relation S} `{!PreOrder R}.

Lemma preserves_bind {A B} (p : prog S E A) (f : A → prog S E B) :
  preserves R p → (∀ a, preserves R (f a)) → preserves R (p ≫= f).
Proof.
  intros Hp Hf s. specialize (Hp s). unfold mbind, prog_bind, state_of in *.
  destruct (p s) as [[s1 es] [a|x]]; simpl in *; [|done].
  specialize (Hf a s1). unfold state_of in Hf. destruct (f a s1) as [[s2 es'] r].
  simpl in *. by etrans.
Qed.

(** A program that leaves the state alone. *)
Lemma preserves_pure {A} (p : prog S E A) : (∀ s, state_of (p s) = s) → preserves R p.
Proof. intros Hp s. by rewrite Hp. Qed.

Lemma preserves_ret {A} (a : A) : preserves R (mret a : prog S E A).
Proof. by apply preserves_pure. Qed.
Lemma preserves_get : preserves R (get_state : prog S E S).
Proof. by apply preserves_pure. Qed.
Lemma preserves_lift {A} (r : res A) : preserves R (lift r : prog S E A).
Proof. by apply preserves_pure. Qed.
Lemma preserves_emit e : preserves R (emit e : prog S E ()).
Proof. by apply preserves_pure. Qed.
Lemma preserves_modify f : (∀ s, R s (f s)) → preserves R (modify f : prog S E ()).
Proof. intros Hf s. apply Hf. Qed.

(** What follows a [get_state] starts where it read. *)
Lemma preserves_state {A} (f : S → prog S E A) : (∀ s, R s (state_of (f s s))) → preserves R (get_state ≫= f).
Proof.
  intros Hf s. specialize (Hf s). unfold mbind, prog_bind, get_state, state_of in *.
  by destruct (f s s) as [[??]?].
Qed.

Lemma preserves_catch {A} (p : prog S E A) (h : exn → prog S E A) :
  preserves R p → (∀ x, preserves R (h x)) → preserves R (catch p h).
Proof.
  intros Hp Hh s. specialize (Hp s). unfold catch, state_of in *.
  destruct (p s) as [[s1 es] [a|x]]; simpl in *; [done|].
  specialize (Hh x s1). unfold state_of in Hh. destruct (h x s1) as [[s2 es'] r]. simpl in *. by etrans.
Qed.

Lemma preserves_for_each {X} (f : X → prog S E ()) xs :
  (∀ x, preserves R (f x)) → preserves R (for_each f xs).
Proof. intros Hf. induction xs as [|x xs IH]; [apply preserves_ret|]. by apply preserves_bind. Qed.

End preserves.

#[export] Hint Extern 1 (preserves _ _) =>
  first [apply preserves_ret | apply preserves_get | apply preserves_lift | apply preserves_emit] : preserves.
#[export] Hint Extern 2 (preserves _ (for_each _ _)) => apply preserves_for_each; intros ? : preserves.

(** A weaker preorder. *)
Lemma preserves_mono {S E A} (R R' : relation S) (p : prog S E A) :
  (∀ s s', R s s' → R' s s') → preserves R p → preserves R' p.
Proof. intros HR Hp s. apply HR, Hp. Qed.

(** Walks through binds and matches; what remains goes to the hints. *)
Ltac solve_preserves :=
  lazymatch goal with
  | |- preserves _ (_ ≫= _) => apply preserves_bind; [|intros ?]; solve_preserves
  | |- preserves _ (match ?b with _ => _ end) => destruct b; solve_preserves
  | |- preserves _ (modify _) => apply preserves_modify; intros ?; eauto with preserves
  | |- preserves _ (catch _ _) => apply preserves_catch; [|intros ?]; solve_preserves
  | |- preserves _ (for_each _ _) => apply preserves_for_each; intros ?; solve_preserves
  | |- _ => first [done | eauto with preserves]
  end.

(** ** Programs whose results satisfy a predicate

    [yields P p]: whatever [p] returns, when it does not raise, satisfies [P]. *)
Definition yields {S E A} (P : A → Prop) (p : prog S E A) : Prop :=
  ∀ s, match result_of (p s) with Ok a => P a | Raise _ => True end.

Create HintDb yields.

Section yields.
Context {S E : Type}.

Lemma yields_ret {A} (P : A → Prop) a : P a → yields P (mret a : prog S E A).
Proof. by intros Ha s. Qed.

Lemma yields_bind {A B} (P : B → Prop) (p : prog S E A) (f : A → prog S E B) :
  (∀ a, yields P (f a)) → yields P (p ≫= f).
Proof.
  intros Hf s. unfold mbind, prog_bind. destruct (p s) as [[s1 es] [a|x]]; [|done].
  specialize (Hf a s1). by destruct (f a s1) as [[??] r].
Qed.

(** With what is known of the first program's result. *)
Lemma yields_bind_with {A B} (Q : A → Prop) (P : B → Prop) (p : prog S E A) (f : A → prog S E B) :
  yields Q p → (∀ a, Q a → yields P (f a)) → yields P (p ≫= f).
Proof.
  intros Hp Hf s. specialize (Hp s). unfold mbind, prog_bind, result_of in *.
  destruct (p s) as [[s1 es] [a|x]]; [|done].
  specialize (Hf a Hp s1). unfold result_of in Hf. by destruct (f a s1) as [[??] r].
Qed.

Lemma yields_lift {A} (P : A → Prop) (r : res A) : (∀ a, r = Ok a → P a) → yields P (lift r : prog S E A).
Proof. intros Hr s. destruct r as [a|x]; [by apply Hr|done]. Qed.

Lemma yields_raise {A} (P : A → Prop) x : yields P (raise x : prog S E A).
Proof. by intros s. Qed.

Lemma yields_mono {A} (P Q : A → Prop) (p : prog S E A) : (∀ a, P a → Q a) → yields P p → yields Q p.
Proof. intros HPQ Hp s. specialize (Hp s). destruct (result_of (p s)); auto. Qed.

(** A guarded program whose handler only returns always has a result. *)
Lemma catch_result {A} (P : A → Prop) (p : prog S E A) (h : exn → A) s :
  yields P p → (∀ x, P (h x)) → ∃ a, result_of (catch p (λ x, mret (h x)) s) = Ok a ∧ P a.
Proof.
  intros Hp Hh. specialize (Hp s). unfold catch, result_of in *.
  destruct (p s) as [[s1 es] [a|x]]; [by exists a|]. by exists (h x).
Qed.

End yields.

(** Walks through binds and matches down to the returned values. *)
Ltac solve_yields :=
  lazymatch goal with
  | |- yields _ (_ ≫= _) => apply yields_bind; intros ?; solve_yields
  | |- yields _ (match ?b with _ => _ end) => destruct b; solve_yields
  | |- yields _ (raise _) => apply yields_raise
  | |- yields _ (mret _) => apply yields_ret; solve_yields
  | |- yields _ _ => solve [eauto 2 with yields]
  | |- ?P (match ?b with _ => _ end) => destruct b; solve_yields
  | |- _ => first [done | solve [eauto with yields]]
  end.

(** A program on a part of the state: [get] reads the part, [set] writes it
    back, and [ev] handles its events on the whole. *)
Definition zoom {S S' E E' A} (get : S → S') (set : S' → S → S) (ev : E' → E)
    (m : prog S' E' A) : prog S E A := λ s,
  match m (get s) with (s', es, r) => (set s' s, ev <$> es, r) end.

Lemma preserves_zoom {S S' E E' A} (R : relation S) (R' : relation S') (get : S → S') (set : S' → S → S)
    (ev : E' → E) (p : prog S' E' A) :
  (∀ s s', R' (get s) s' → R s (set s' s)) → preserves R' p → preserves R (zoom get set ev p).
Proof.
  intros HR Hp s. specialize (Hp (get s)). unfold zoom, state_of in *.
  destruct (p (get s)) as [[s' es] r]. by apply HR.
Qed.

(** ** Programs that keep an invariant

    [ensures I Ev P p]: from a state with [I], every run of [p] ends in one
    with [I], makes only events with [Ev], and what it returns satisfies [P]. *)
Definition ensures {S E A} (I : S → Prop) (Ev : E → Prop) (P : A → Prop) (p : prog S E A) : Prop :=
  ∀ s, I s → I (state_of (p s)) ∧ Forall Ev (events_of (p s)) ∧
    match result_of (p s) with Ok a => P a | Raise _ => True end.

Create HintDb ensures.

Section ensures.
Context {S E : Type} {I : S → Prop} {Ev : E → Prop}.

Lemma ensures_ret {A} (P : A → Prop) (a : A) : P a → ensures I Ev P (mret a).
Proof. intros Ha s Hs. by split_and!; [|constructor|]. Qed.

Lemma ensures_raise {A} (P : A → Prop) x : ensures I Ev P (raise x).
Proof. intros s Hs. by split_and!; [|constructor|]. Qed.

Lemma ensures_lift {A} (P : A → Prop) (r : res A) : (∀ a, r = Ok a → P a) → ensures I Ev P (lift r).
Proof. intros Hr s Hs. destruct r; (split_and!; [done|constructor|]); [by apply Hr|done]. Qed.

Lemma ensures_emit (P : () → Prop) e : Ev e → P tt → ensures I Ev P (emit e).
Proof. intros He HP s Hs. by split_and!; [|repeat constructor|]. Qed.

Lemma ensures_modify (P : () → Prop) f : (∀ s, I s → I (f s)) → P tt → ensures I Ev P (modify f).
Proof. intros Hf HP s Hs. split_and!; [by apply Hf|constructor|done]. Qed.

Lemma ensures_put (P : () → Prop) s' : I s' → P tt → ensures I Ev P (put_state s').
Proof. intros Hs' HP s _. by split_and!; [|constructor|]. Qed.

Lemma ensures_bind {A B} (Q : A → Prop) (P : B → Prop) (p : prog S E A) (f : A → prog S E B) :
  ensures I Ev Q p → (∀ a, Q a → ensures I Ev P (f a)) → ensures I Ev P (p ≫= f).
Proof.
  intros Hp Hf s Hs. specialize (Hp s Hs). unfold mbind, prog_bind, state_of, events_of, result_of in *.
  destruct (p s) as [[s1 es] [a|x]]; simpl in *; [|by destruct Hp as (? & ? & _)].
  destruct Hp as (Hs1 & Hes & Ha). specialize (Hf a Ha s1 Hs1). unfold state_of, events_of, result_of in Hf.
  destruct (f a s1) as [[s2 es'] r]. destruct Hf as (? & ? & ?). split_and!; [done| |done].
  by apply Forall_app.
Qed.

Lemma ensures_get {A} (P : A → Prop) (f : S → prog S E A) :
  (∀ s, I s → ensures I Ev P (f s)) → ensures I Ev P (get_state ≫= f).
Proof. intros Hf s Hs. rewrite get_bind. by apply Hf. Qed.

Lemma ensures_lift_bind {A B} (P : B → Prop) (r : res A) (f : A → prog S E B) :
  (∀ a, r = Ok a → ensures I Ev P (f a)) → ensures I Ev P (lift r ≫= f).
Proof.
  intros Hf. apply (ensures_bind (λ a, r = Ok a)); [by apply ensures_lift|done].
Qed.

Lemma ensures_catch {A} (P : A → Prop) (p : prog S E A) (h : exn → prog S E A) :
  ensures I Ev P p → (∀ x, ensures I Ev P (h x)) → ensures I Ev P (catch p h).
Proof.
  intros Hp Hh s Hs. specialize (Hp s Hs). unfold catch, state_of, events_of, result_of in *.
  destruct (p s) as [[s1 es] [a|x]]; simpl in *; [done|]. destruct Hp as (Hs1 & Hes & _).
  specialize (Hh x s1 Hs1). unfold state_of, events_of, result_of in Hh.
  destruct (h x s1) as [[s2 es'] r]. destruct Hh as (? & ? & ?). split_and!; [done| |done].
  by apply Forall_app.
Qed.

Lemma ensures_mono {A} (P Q : A → Prop) (p : prog S E A) :
  (∀ a, P a → Q a) → ensures I Ev P p → ensures I Ev Q p.
Proof.
  intros HPQ Hp s Hs. destruct (Hp s Hs) as (? & ? & ?). split_and!; [done..|].
  destruct (result_of (p s)); auto.
Qed.

Lemma ensures_for_each {X} (f : X → prog S E ()) xs :
  (∀ x, x ∈ xs → ensures I Ev (λ _, True) (f x)) → ensures I Ev (λ _, True) (for_each f xs).
Proof.
  induction xs as [|x xs IH]; intros Hf; [by apply ensures_ret|].
  apply (ensures_bind (λ _, True)); [apply Hf; left|]. intros _ _. apply IH. intros y Hy. apply Hf. by right.
Qed.

(** A preserved state, with nothing asked of events and result. *)
Lemma ensures_preserves {A} (p : prog S E A) :
  ensures I (λ _, True) (λ _, True) p ↔ preserves (λ s s', I s → I s') p.
Proof.
  split; intros Hp s Hs; [by apply Hp|]. split_and!; [by apply Hp|by apply Forall_true|by destruct (result_of _)].
Qed.
End ensures.

Lemma ensures_zoom {S S' E E' A} (I : S → Prop) (I' : S' → Prop) (Ev : E → Prop) (Ev' : E' → Prop) (P : A → Prop)
    (get : S → S') (set : S' → S → S) (ev : E' → E) (p : prog S' E' A) :
  (∀ s, I s → I' (get s)) → (∀ s s', I s → I' s' → I (set s' s)) → (∀ e, Ev' e → Ev (ev e)) →
  ensures I' Ev' P p → ensures I Ev P (zoom get set ev p).
Proof.
  intros Hget Hset Hev Hp s Hs. specialize (Hp (get s) (Hget s Hs)). unfold zoom, state_of, events_of, result_of in *.
  destruct (p (get s)) as [[s' es] r]. destruct Hp as (? & Hes & ?). split_and!; [by apply Hset| |done].
  simpl. apply Forall_fmap. by eapply Forall_impl.
Qed.

Ltac settle_ensures := first [assumption | exact I | eauto with ensures].

(** Walks through a program; what a bound program returns is known when a
    hint gives it, and what is left goes to the hints. *)
Ltac solve_ensures :=
  lazymatch goal with
  | |- ensures _ _ _ (get_state ≫= _) => apply ensures_get; intros ? ?; solve_ensures
  | |- ensures _ _ _ (lift _ ≫= _) => apply ensures_lift_bind; intros ? ?; solve_ensures
  | |- ensures _ _ _ (_ ≫= _) =>
      first [ eapply ensures_bind; [solve [eauto 2 with ensures]|intros ? ?]
            | apply (ensures_bind (λ _, True)); [|intros ? _] ]; solve_ensures
  | |- ensures _ _ _ (match ?b with _ => _ end) => destruct b eqn:?; solve_ensures
  | |- ensures _ _ _ (mret _) => apply ensures_ret; settle_ensures
  | |- ensures _ _ _ (raise _) => apply ensures_raise
  | |- ensures _ _ _ (lift _) => apply ensures_lift; intros ? ?; settle_ensures
  | |- ensures _ _ _ (emit _) => apply ensures_emit; settle_ensures
  | |- ensures _ _ _ (modify _) => apply ensures_modify; [intros ? ?|]; settle_ensures
  | |- ensures _ _ _ (catch _ _) => apply ensures_catch; [|intros ?]; solve_ensures
  | |- ensures _ _ _ (for_each _ _) => apply ensures_for_each; intros ? ?; solve_ensures
  | |- _ => settle_ensures
  end.

(** ** Python lists indexed by integers *)

(** [xs[i]]: a negative index counts from the end. *)
Definition py_index {A} (xs : list A) (i : Z) : res A :=
  let n := Z.of_nat (length xs) in
  let i := if i <? 0 then i + n else i in
  if (i <? 0) then Raise IndexError else res_of_option IndexError (xs !! Z.to_nat i).

(** [xs[:i]] *)
Definition py_take {A} (i : Z) (xs : list A) : list A :=
  take (Z.to_nat (if i <? 0 then i + Z.of_nat (length xs) else i)) xs.

Lemma py_index_ok {A} (xs : list A) (i : Z) x :
  0 <= i → xs !! Z.to_nat i = Some x → py_index xs i = Ok x.
Proof.
  intros Hi Hx. unfold py_index.
  destruct (Z.ltb_spec i 0); [lia|]. destruct (Z.ltb_spec i 0); [lia|]. by rewrite Hx.
Qed.
