(* ===== verification/Text.v ===== *)
(** Text as Python handles it: character classes of strings, [strip], and the
    lines of a text file. *)

From S2P Require Import Prelude.

Definition newline : ascii := "010"%char.

(** ** Strings over an alphabet *)

Fixpoint str_all (P : ascii → bool) (s : string) : bool :=
  match s with EmptyString => true | String c s => P c && str_all P s end.

(** [c in s] *)
Definition str_has (c : ascii) (s : string) : bool := negb (str_all (λ d, bool_decide (d ≠ c)) s).

Lemma str_all_app P a b : str_all P (String.append a b) = str_all P a && str_all P b.
Proof.
  induction a as [|c a IH]; [done|]. rewrite str_app_cons. simpl. rewrite IH.
  by rewrite andb_assoc.
Qed.

Lemma str_all_impl P Q s :
  (∀ c, P c = true → Q c = true) → str_all P s = true → str_all Q s = true.
Proof. intros H. induction s; simpl; [done|]. rewrite !andb_true_iff. intros [? ?]; auto. Qed.

Lemma str_has_cons c d s : str_has c (String d s) = bool_decide (d = c) || str_has c s.
Proof.
  unfold str_has. simpl. rewrite negb_andb. f_equal. by repeat case_bool_decide.
Qed.

Lemma str_has_app c a b : str_has c (String.append a b) = str_has c a || str_has c b.
Proof. unfold str_has. by rewrite str_all_app, negb_andb. Qed.

(** ** [strip] *)

(** [str.isspace] on ASCII, which [str.strip] removes. *)
Definition py_space (c : ascii) : bool :=
  let n := N_of_ascii c in
  ((9 <=? n) && (n <=? 13) || (28 <=? n) && (n <=? 32))%N.

Fixpoint lstrip (s : string) : string :=
  match s with
  | EmptyString => EmptyString
  | String c s' => if py_space c then lstrip s' else s
  end.

Fixpoint rstrip (s : string) : string :=
  match s with
  | EmptyString => EmptyString
  | String c s' =>
      match rstrip s' with
      | EmptyString => if py_space c then EmptyString else String c EmptyString
      | t => String c t
      end
  end.

Definition strip (s : string) : string := rstrip (lstrip s).

Lemma rstrip_prefix s : ∃ w, s = String.append (rstrip s) w.
Proof.
  induction s as [|c s [w IH]]; [by exists EmptyString|]. simpl.
  destruct (rstrip s) as [|d t]; [|exists w; rewrite !str_app_cons in *; by rewrite IH].
  destruct (py_space c); [by exists (String c s)|exists s; by rewrite str_app_cons].
Qed.

Lemma rstrip_end s c : py_space c = false →
  rstrip (String.append s (String c EmptyString)) = String.append s (String c EmptyString).
Proof.
  intros Hc. induction s as [|d s IH]; [simpl; by rewrite Hc|].
  rewrite str_app_cons. simpl. rewrite IH. by destruct s.
Qed.

(** Text between two visible characters is left alone. *)
Lemma strip_enclosed a s b : py_space a = false → py_space b = false →
  strip (String a (String.append s (String b EmptyString))) =
  String a (String.append s (String b EmptyString)).
Proof.
  intros Ha Hb. unfold strip. simpl lstrip. rewrite Ha. rewrite <-str_app_cons.
  by apply rstrip_end.
Qed.

(** ** Lines *)

(** Iterating over a text file: one line per newline, and a last one without. *)
Fixpoint lines (s : string) : list string :=
  match s with
  | EmptyString => []
  | String c s' =>
      if decide (c = newline) then EmptyString :: lines s'
      else match lines s' with
           | [] => [String c EmptyString]
           | l :: ls => String c l :: ls
           end
  end.

(** Text with a newline after each line. *)
Definition unlines (ls : list string) : string :=
  foldr (λ l s, String.append l (String newline s)) EmptyString ls.

Lemma lines_app l rest : str_has newline l = false →
  lines (String.append l (String newline rest)) = l :: lines rest.
Proof.
  induction l as [|c l IH]; intros Hl; [done|].
  rewrite str_has_cons in Hl. apply orb_false_iff in Hl as [Hc%bool_decide_eq_false_1 Hl].
  rewrite str_app_cons. simpl. rewrite decide_False by done. by rewrite IH.
Qed.

Lemma lines_last l : str_has newline l = false → l ≠ EmptyString → lines l = [l].
Proof.
  induction l as [|c l IH]; intros Hl Hne; [done|].
  rewrite str_has_cons in Hl. apply orb_false_iff in Hl as [Hc%bool_decide_eq_false_1 Hl].
  simpl. rewrite decide_False by done. destruct l as [|d l]; [done|]. by rewrite IH.
Qed.

Lemma lines_unlines ls rest : Forall (λ l, str_has newline l = false) ls →
  lines (String.append (unlines ls) rest) = ls ++ lines rest.
Proof.
  induction 1 as [|l ls Hl _ IH]; [done|]. simpl.
  rewrite <-str_app_assoc, str_app_cons, lines_app by done. by rewrite IH.
Qed.

Lemma unlines_app a b : unlines (a ++ b) = String.append (unlines a) (unlines b).
Proof.
  induction a as [|l a IH]; [done|]. simpl. rewrite IH, <-str_app_assoc. done.
Qed.

(** ** Prefixes *)

(** [s[:n]] *)
Fixpoint str_take (n : nat) (s : string) : string :=
  match n, s with
  | S n, String c s => String c (str_take n s)
  | _, _ => EmptyString
  end.

(** [s[n:]] *)
Fixpoint str_drop (n : nat) (s : string) : string :=
  match n, s with
  | S n, String _ s => str_drop n s
  | _, _ => s
  end.

Lemma str_take_drop n s : String.append (str_take n s) (str_drop n s) = s.
Proof. revert n. induction s as [|c s IH]; intros [|n]; simpl; rewrite ?str_app_cons, ?IH; done. Qed.

Lemma str_take_app_l n s t : (n <= String.length s)%nat →
  str_take n (String.append s t) = str_take n s.
Proof.
  revert n. induction s as [|c s IH]; intros [|n] Hn; simpl in *; try done; [lia|].
  rewrite ?str_app_cons. f_equal. apply IH. lia.
Qed.

Lemma str_take_app_r n s t : (String.length s <= n)%nat →
  str_take n (String.append s t) = String.append s (str_take (n - String.length s) t).
Proof.
  revert n. induction s as [|c s IH]; intros n Hn; simpl in *.
  - by rewrite Nat.sub_0_r.
  - destruct n as [|n]; [lia|]. rewrite !str_app_cons. simpl. f_equal. apply IH. lia.
Qed.

(** A cut of a text of lines is whole lines and a strict prefix of the next. *)
Lemma unlines_take n ls :
  ∃ k torn rest, str_take n (unlines ls) = String.append (unlines (take k ls)) torn ∧
    (torn = EmptyString ∨ ls !! k = Some (String.append torn rest)).
Proof.
  revert n. induction ls as [|l ls IH]; intros n.
  { exists 0%nat, EmptyString, EmptyString. split; [by destruct n|by left]. }
  simpl. destruct (decide (n <= String.length l)%nat) as [Hle|Hgt].
  - exists 0%nat, (str_take n l), (str_drop n l). split; [by apply str_take_app_l|].
    right. simpl. by rewrite str_take_drop.
  - destruct (IH (n - S (String.length l))%nat) as (k & torn & rest & Heq & Ht).
    exists (S k), torn, rest. split; [|done]. simpl. rewrite str_take_app_r by lia.
    rewrite <-str_app_assoc, str_app_cons, <-Heq.
    destruct (n - String.length l)%nat as [|m] eqn:E; [lia|].
    replace (n - S (String.length l))%nat with m by lia. done.
Qed.
