(* ===== verification/PyDict.v ===== *)
(** Python dictionaries: insertion-ordered finite maps.

    The order in which a [dict] lists its keys is observable in MiniDB (the
    first leader of the membership table, the first active fault, the first
    live nodes of a replica set), so a dictionary is the list of its items in
    insertion order.  Assigning to a present key keeps its place, a new key
    goes last, deleting forgets the place.  The reading laws hold for every
    list; [dict_wf] (distinct keys) is kept by every operation.  [dict_map]
    is the abstraction to stdpp's [gmap]. *)

From S2P Require Import Prelude.
From stdpp Require Import fin_maps.

Abbreviation dict K V := (list (K * V)) (only parsing).

Section dict.
Context {K V : Type} `{EqDecision K}.
Implicit Types (d : dict K V) (k : K) (v : V).

(** [d.get(k)] *)
Fixpoint dict_get d k : option V :=
  match d with
  | [] => None
  | (k', v) :: d => if decide (k = k') then Some v else dict_get d k
  end.

(** [d[k] = v] *)
Fixpoint dict_set k v d : dict K V :=
  match d with
  | [] => [(k, v)]
  | (k', v') :: d =>
      if decide (k = k') then (k, v) :: d else (k', v') :: dict_set k v d
  end.

(** [del d[k]], [d.pop(k, None)] *)
Definition dict_del k d : dict K V := base.filter (λ p, p.1 ≠ k) d.

(** [k in d] *)
Definition dict_mem k d : bool := bool_decide (is_Some (dict_get d k)).

(** [d.get(k, dflt)] *)
Definition dict_get_or d k (dflt : V) : V := default dflt (dict_get d k).

Definition dict_keys d : list K := d.*1.
Definition dict_values d : list V := d.*2.
Definition dict_wf d : Prop := NoDup (dict_keys d).

(** [{**d, **e}] / [d.update(e)] *)
Definition dict_update d (e : dict K V) : dict K V :=
  fold_left (λ d p, dict_set p.1 p.2 d) e d.

Lemma dict_get_set k k' v d :
  dict_get (dict_set k v d) k' = if decide (k = k') then Some v else dict_get d k'.
Proof.
  induction d as [|[k1 v1] d IH]; simpl; repeat case_decide; simplify_eq/=;
    repeat case_decide; naive_solver.
Qed.

Lemma dict_get_set_eq k v d : dict_get (dict_set k v d) k = Some v.
Proof. rewrite dict_get_set. by case_decide. Qed.

Lemma dict_get_set_ne k k' v d : k ≠ k' → dict_get (dict_set k v d) k' = dict_get d k'.
Proof. intros. rewrite dict_get_set. by case_decide. Qed.

Lemma dict_get_del k k' d :
  dict_get (dict_del k d) k' = if decide (k = k') then None else dict_get d k'.
Proof.
  unfold dict_del. induction d as [|[k1 v1] d IH]; simpl; [by case_decide|].
  rewrite filter_cons. simpl.
  repeat case_decide; simplify_eq/=; repeat case_decide; naive_solver.
Qed.

Lemma dict_get_del_eq k d : dict_get (dict_del k d) k = None.
Proof. rewrite dict_get_del. by case_decide. Qed.

Lemma dict_get_del_ne k k' d : k ≠ k' → dict_get (dict_del k d) k' = dict_get d k'.
Proof. intros. rewrite dict_get_del. by case_decide. Qed.

Lemma dict_get_Some_in d k v : dict_get d k = Some v → (k, v) ∈ d.
Proof.
  induction d as [|[k1 v1] d IH]; simpl; [done|].
  case_decide; intros; simplify_eq; [left|right; auto].
Qed.

Lemma dict_get_is_Some d k : is_Some (dict_get d k) ↔ k ∈ dict_keys d.
Proof.
  unfold dict_keys. induction d as [|[k1 v1] d IH]; simpl.
  - split; [intros [? [=]]|by intros ?%not_elem_of_nil].
  - rewrite elem_of_cons, <-IH. case_decide as E.
    + split; [by left|by eexists].
    + split; [by right|by intros [?|?]].
Qed.

Lemma dict_get_None d k : dict_get d k = None ↔ k ∉ dict_keys d.
Proof. rewrite <-dict_get_is_Some, eq_None_not_Some. done. Qed.

Lemma dict_in_get d k v : dict_wf d → (k, v) ∈ d → dict_get d k = Some v.
Proof.
  unfold dict_wf, dict_keys. induction d as [|[k1 v1] d IH]; simpl.
  { by intros _ ?%not_elem_of_nil. }
  intros [Hni Hnd]%NoDup_cons [?|Hin]%elem_of_cons; simplify_eq.
  - by case_decide.
  - case_decide; simplify_eq; [|by apply IH].
    destruct Hni. apply list_elem_of_fmap. by exists (k1, v).
Qed.

Lemma dict_mem_true k d : dict_mem k d = true ↔ is_Some (dict_get d k).
Proof. unfold dict_mem. by rewrite bool_decide_eq_true. Qed.

Lemma dict_mem_false k d : dict_mem k d = false ↔ dict_get d k = None.
Proof. unfold dict_mem. rewrite bool_decide_eq_false, eq_None_not_Some. done. Qed.

Lemma dict_mem_keys k d : dict_mem k d = true ↔ k ∈ dict_keys d.
Proof. by rewrite dict_mem_true, dict_get_is_Some. Qed.

Lemma dict_keys_set k v d :
  dict_keys (dict_set k v d) = if dict_mem k d then dict_keys d else dict_keys d ++ [k].
Proof.
  unfold dict_mem, dict_keys. induction d as [|[k1 v1] d IH]; simpl; [done|].
  case_decide; simplify_eq/=; [done|].
  rewrite IH. by repeat case_bool_decide.
Qed.

Lemma dict_keys_del k d : dict_keys (dict_del k d) = base.filter (λ k', k' ≠ k) (dict_keys d).
Proof.
  unfold dict_del, dict_keys. induction d as [|[k1 v1] d IH]; simpl; [done|].
  rewrite !filter_cons. simpl. case_decide; simpl; [f_equal|]; apply IH.
Qed.

Lemma dict_wf_nil : dict_wf [].
Proof. constructor. Qed.

Lemma dict_wf_set k v d : dict_wf d → dict_wf (dict_set k v d).
Proof.
  unfold dict_wf. rewrite dict_keys_set. destruct (dict_mem k d) eqn:E; [done|].
  intros Hnd. apply NoDup_app. split_and!; [done| |apply NoDup_singleton].
  intros x Hx ->%list_elem_of_singleton.
  apply dict_mem_keys in Hx. congruence.
Qed.

Lemma dict_wf_del k d : dict_wf d → dict_wf (dict_del k d).
Proof. unfold dict_wf. rewrite dict_keys_del. apply NoDup_filter. Qed.

Lemma dict_wf_update d e : dict_wf d → dict_wf (dict_update d e).
Proof.
  unfold dict_update. revert d. induction e as [|[k v] e IH]; simpl; [done|].
  intros d Hd. apply IH. by apply dict_wf_set.
Qed.

Lemma dict_in_wf_unique d k v v' :
  dict_wf d → (k, v) ∈ d → (k, v') ∈ d → v = v'.
Proof.
  intros Hwf H1%(dict_in_get _ _ _ Hwf) H2%(dict_in_get _ _ _ Hwf). congruence.
Qed.

Lemma dict_set_length k v d :
  length (dict_set k v d) = if dict_mem k d then length d else S (length d).
Proof.
  pose proof (f_equal length (dict_keys_set k v d)) as H.
  unfold dict_keys in H. rewrite length_fmap in H. rewrite H.
  destruct (dict_mem k d); rewrite ?length_app, length_fmap; simpl; lia.
Qed.

Lemma dict_get_app d e k :
  dict_get (d ++ e) k = match dict_get d k with Some v => Some v | None => dict_get e k end.
Proof.
  induction d as [|[k1 v1] d IH]; simpl; [done|]. by case_decide.
Qed.

Lemma dict_set_app_fresh k v d : dict_get d k = None → dict_set k v d = d ++ [(k, v)].
Proof.
  induction d as [|[k1 v1] d IH]; simpl; [done|].
  case_decide; [done|]. intros ?. by rewrite IH.
Qed.

Lemma dict_update_fresh d e :
  NoDup (dict_keys (d ++ e)) → dict_update d e = d ++ e.
Proof.
  unfold dict_update, dict_keys. revert d.
  induction e as [|[k v] e IH]; simpl; intros d Hnd; [by rewrite app_nil_r|].
  rewrite dict_set_app_fresh.
  - rewrite IH; [by rewrite <-app_assoc|]. by rewrite <-app_assoc.
  - apply dict_get_None. intros Hin.
    rewrite fmap_app in Hnd. apply NoDup_app in Hnd as (_ & Hd & _).
    apply (Hd k Hin). simpl. by left.
Qed.

(** Reading a filtered dictionary, for a test of key and value. *)
Lemma dict_get_filter (P : K * V → Prop) `{!∀ p, Decision (P p)} d k :
  dict_wf d →
  dict_get (base.filter P d) k =
    match dict_get d k with
    | Some v => if decide (P (k, v)) then Some v else None
    | None => None
    end.
Proof.
  unfold dict_wf, dict_keys. induction d as [|[k1 v1] d IH]; simpl; [done|].
  intros [Hni Hnd]%NoDup_cons. rewrite filter_cons.
  destruct (decide (P (k1, v1))) as [HP|HP]; simpl; case_decide; simplify_eq.
  - by rewrite decide_True.
  - by apply IH.
  - rewrite decide_False by done. rewrite IH by done.
    apply dict_get_None in Hni. by rewrite Hni.
  - by apply IH.
Qed.

Lemma dict_wf_filter (P : K * V → Prop) `{!∀ p, Decision (P p)} d :
  dict_wf d → dict_wf (base.filter P d).
Proof.
  unfold dict_wf, dict_keys. intros Hnd.
  eapply sublist_NoDup; [exact Hnd|].
  apply fmap_sublist, sublist_filter.
Qed.
End dict.

(** Rebuilding the values of a dictionary with a comprehension. *)
Definition dict_map_values {K V W} (f : V → W) (d : dict K V) : dict K W :=
  (λ p, (p.1, f p.2)) <$> d.

Lemma dict_get_map_values {K V W} `{EqDecision K} (f : V → W) (d : dict K V) k :
  dict_get (dict_map_values f d) k = f <$> dict_get d k.
Proof.
  unfold dict_map_values.
  induction d as [|[k1 v1] d IH]; simpl; [done|]. by case_decide.
Qed.

Lemma dict_keys_map_values {K V W} (f : V → W) (d : dict K V) :
  dict_keys (dict_map_values f d) = dict_keys d.
Proof. unfold dict_keys, dict_map_values. by rewrite <-list_fmap_compose. Qed.

(** The abstraction to finite maps. *)
Definition dict_map {K V} `{Countable K} (d : dict K V) : gmap K V := list_to_map d.

Section dict_map.
Context {K V : Type} `{Countable K}.
Implicit Types (d : dict K V).

Lemma lookup_dict_map d k : dict_map d !! k = dict_get d k.
Proof.
  unfold dict_map. induction d as [|[k1 v1] d IH]; simpl; [apply lookup_empty|].
  case_decide; simplify_eq.
  - apply lookup_insert_eq.
  - by rewrite lookup_insert_ne.
Qed.

Lemma dict_map_set k v d : dict_map (dict_set k v d) = <[k := v]> (dict_map d).
Proof.
  apply map_eq. intros k'. rewrite lookup_dict_map, dict_get_set, lookup_insert.
  by repeat case_decide; rewrite ?lookup_dict_map.
Qed.

Lemma dict_map_del k d : dict_map (dict_del k d) = base.delete k (dict_map d).
Proof.
  apply map_eq. intros k'. rewrite lookup_dict_map, dict_get_del, lookup_delete.
  by repeat case_decide; rewrite ?lookup_dict_map.
Qed.
End dict_map.

#[export] Hint Resolve dict_wf_nil dict_wf_set dict_wf_del dict_wf_update : minidb.
#[export] Hint Rewrite @dict_get_set_eq @dict_get_del_eq : minidb.

(** Compute reads after writes with the disequalities at hand. *)
Ltac simplify_dict :=
  repeat first
    [ progress simplify_eq/=
    | rewrite dict_get_set_eq in *
    | rewrite dict_get_del_eq in *
    | rewrite dict_get_set_ne in * by congruence
    | rewrite dict_get_del_ne in * by congruence ].
