(* ===== verification/JsonFacts.v ===== *)
(** The round trip of [json.dumps] and [json.loads], and the alphabet of
    printed text: every character of [dumps j] is printable ASCII. *)

From S2P Require Import Prelude.
From S2P Require Import Text.
From S2P Require Import PyDict.
From S2P Require Import Json.

(** ** Strings *)

Lemma scan_esc_char c t : scan_str (String.append (esc_char c) t) = cons_char c (scan_str t).
Proof. destruct c as [[] [] [] [] [] [] [] []]; reflexivity. Qed.

Lemma scan_esc_str s rest :
  scan_str (String.append (esc_str s) (String dquote rest)) = Some (s, rest).
Proof.
  induction s as [|c s IH]; [reflexivity|].
  simpl esc_str. rewrite <-str_app_assoc, scan_esc_char, IH. reflexivity.
Qed.

Lemma dump_str_app s rest :
  String.append (dump_str s) rest = String dquote (String.append (esc_str s) (String dquote rest)).
Proof. unfold dump_str, chr. rewrite str_app_cons. by rewrite <-str_app_assoc. Qed.

(** ** Numbers *)

(** What may follow a number: nothing that the number grammar would eat. *)
Definition num_stop (s : string) : Prop :=
  match s with
  | EmptyString => True
  | String c _ => digit_val c = None ∧ c ≠ "."%char ∧ c ≠ "e"%char ∧ c ≠ "E"%char
  end.

Lemma digit_val_char n : (n < 10)%N → digit_val (pretty_N_char n) = Some n.
Proof.
  intros Hn.
  assert (n = 0 ∨ n = 1 ∨ n = 2 ∨ n = 3 ∨ n = 4 ∨ n = 5 ∨ n = 6 ∨ n = 7 ∨ n = 8 ∨ n = 9)%N
    as H by lia.
  by repeat destruct H as [->|H]; [..|subst].
Qed.

Lemma scan_digits_go x s acc :
  (0 < x)%N → ∃ k, scan_digits acc (pretty_N_go x s) = scan_digits (acc * 10 ^ k + x) s.
Proof.
  revert s acc. induction (N.lt_wf_0 x) as [x _ IH]. intros s acc Hx.
  rewrite pretty_N_go_step by done.
  assert (x `mod` 10 < 10)%N by (apply N.mod_lt; done).
  destruct (decide (x / 10 = 0)%N) as [E|E].
  - rewrite E, pretty_N_go_0. exists 1%N. simpl scan_digits.
    rewrite digit_val_char by done.
    f_equal. apply N.div_small_iff in E; [|done]. rewrite N.mod_small by done. lia.
  - assert (Hq : (x / 10 < x)%N) by by apply N.div_lt.
    assert (Hq' : (0 < x / 10)%N) by by apply N.neq_0_lt_0.
    destruct (IH (x / 10)%N Hq (String (pretty_N_char (x `mod` 10)) s) acc Hq') as [k ->].
    exists (N.succ k). simpl scan_digits. rewrite digit_val_char by done. f_equal.
    rewrite N.pow_succ_r', (N.mul_comm 10), N.mul_assoc. pose proof (N.div_mod x 10). lia.
Qed.

(** The first digit of a positive number is not zero. *)
Lemma pretty_N_go_head x s : (0 < x)%N →
  ∃ d t, (0 < d < 10)%N ∧ pretty_N_go x s = String (pretty_N_char d) t.
Proof.
  revert s. induction (N.lt_wf_0 x) as [x _ IH]. intros s Hx.
  rewrite pretty_N_go_step by done.
  destruct (decide (x / 10 = 0)%N) as [E|E].
  - rewrite E, pretty_N_go_0. apply N.div_small_iff in E; [|done].
    exists x, s. split; [lia|]. by rewrite N.mod_small.
  - apply IH; [by apply N.div_lt|by apply N.neq_0_lt_0].
Qed.

Lemma pretty_N_go_app x s t :
  String.append (pretty_N_go x s) t = pretty_N_go x (String.append s t).
Proof.
  revert s. induction (N.lt_wf_0 x) as [x _ IH]. intros s.
  destruct (decide (x = 0)%N) as [->|Hx]; [by rewrite !pretty_N_go_0|].
  rewrite !(pretty_N_go_step x) by lia. rewrite IH by (apply N.div_lt; lia). done.
Qed.

Lemma scan_digits_stop acc s : starts_digit s = false → scan_digits acc s = (acc, s).
Proof.
  destruct s as [|c s]; [done|]. simpl. intros H%bool_decide_eq_false_1.
  destruct (digit_val c); [|done]. by destruct H.
Qed.

Lemma scan_nat_pretty (n : N) rest :
  starts_digit rest = false → scan_nat (String.append (pretty n) rest) = Some (n, rest).
Proof.
  intros Hr. unfold pretty, pretty_N. case_decide as E; [by subst|].
  rewrite pretty_N_go_app. change (String.append "" rest) with rest.
  destruct (pretty_N_go_head n rest ltac:(lia)) as (d & t & Hd & Heq).
  rewrite Heq. simpl scan_nat. rewrite digit_val_char by lia.
  destruct (scan_digits_go n rest 0%N ltac:(lia)) as [k Hk].
  rewrite Heq in Hk. simpl in Hk. rewrite digit_val_char in Hk by lia.
  rewrite (scan_digits_stop _ rest) in Hk by done.
  destruct d as [|d]; [lia|].
  assert (scan_digits (N.pos d) t = (n, rest)) as ->; [|done].
  exact Hk.
Qed.

Lemma num_stop_starts s : num_stop s → starts_digit s = false.
Proof.
  destruct s as [|c s]; [done|]. simpl. intros (-> & _).
  apply bool_decide_eq_false_2. by intros [? ?].
Qed.

Lemma num_stop_exp s : num_stop s → is_exp s = false.
Proof.
  destruct s as [|c s]; [done|]. simpl. intros (_ & _ & ? & ?).
  apply bool_decide_eq_false_2. tauto.
Qed.

Lemma scan_unsigned_int neg (n : N) rest :
  num_stop rest →
  scan_unsigned neg (String.append (pretty n) rest) =
    Some (JInt ((if neg then -1 else 1) * Z.of_N n), rest).
Proof.
  intros Hr. unfold scan_unsigned.
  rewrite scan_nat_pretty by by apply num_stop_starts.
  pose proof (num_stop_exp _ Hr) as He.
  destruct rest as [|c rest]; [done|]. rewrite He.
  destruct Hr as (_ & Hdot & _).
  destruct c as [[] [] [] [] [] [] [] []]; try reflexivity. by destruct Hdot.
Qed.

Lemma scan_frac_stop room scale acc s :
  starts_digit s = false → scan_frac room scale acc s = Some (acc, s).
Proof.
  destruct s as [|c s]; [by destruct room|]. simpl. intros H%bool_decide_eq_false_1.
  destruct room; simpl; destruct (digit_val c); try done; by destruct H.
Qed.

Lemma frac_mod_0 f k : (k ≠ 0)%N → (f mod k =? 0)%N = true → (f = k * (f / k))%N.
Proof. intros Hk H%N.eqb_eq. pose proof (N.div_mod f k Hk). lia. Qed.

Lemma scan_frac_digits f rest :
  (f < 1000000)%N → starts_digit rest = false →
  scan_frac 6 100000 0 (String.append (frac_digits f) rest) = Some (f, rest) ∧
  starts_digit (String.append (frac_digits f) rest) = true.
Proof.
  intros Hf Hr.
  assert (Hd : ∀ k, digit_val (digit ((f / k) mod 10)) = Some ((f / k) mod 10)%N)
    by (intros; apply digit_val_char, N.mod_lt; done).
  assert (Hs : ∀ n t, starts_digit (String (digit (n mod 10)) t) = true).
  { intros n t. simpl. apply bool_decide_eq_true_2.
    unfold digit. rewrite digit_val_char by (apply N.mod_lt; done). by eexists. }
  unfold frac_digits, chr.
  repeat match goal with
  | |- context [N.eqb ?a ?b] =>
      let E := fresh "E" in destruct (N.eqb a b) eqn:E
  end; rewrite ?str_app_cons; (split; [|apply Hs]);
  simpl scan_frac; repeat (rewrite Hd; simpl scan_frac);
  change (String.append "" rest) with rest;
  rewrite scan_frac_stop by done; f_equal; f_equal;
  repeat match goal with
  | E : (_ =? 0)%N = true |- _ => apply N.eqb_eq in E
  | E : (_ =? 0)%N = false |- _ => clear E
  end;
  change (100000 / 10)%N with 10000%N; change (10000 / 10)%N with 1000%N;
  change (1000 / 10)%N with 100%N; change (100 / 10)%N with 10%N;
  change (10 / 10)%N with 1%N; zify; Z.to_euclidean_division_equations; lia.
Qed.

(** ** Values *)

(** The first character of a printed number is a sign or a digit, so the
    parser reaches [scan_number]. *)
Definition number_head (c : ascii) : Prop := c = "-"%char ∨ is_Some (digit_val c).

Lemma pretty_N_head (n : N) : ∃ c t, pretty n = String c t ∧ is_Some (digit_val c).
Proof.
  unfold pretty, pretty_N. case_decide; [by exists "0"%char, ""; split; [|eexists]|].
  destruct (pretty_N_go_head n "" ltac:(lia)) as (d & t & Hd & ->).
  exists (pretty_N_char d), t. split; [done|]. rewrite digit_val_char by lia. by eexists.
Qed.

Lemma parse_number_head fuel c s :
  number_head c → parse_value (S fuel) (String c s) = scan_number (String c s).
Proof.
  intros [->|[d Hd]]; [done|].
  destruct c as [[] [] [] [] [] [] [] []]; try discriminate Hd; reflexivity.
Qed.

Lemma scan_number_digit c s :
  is_Some (digit_val c) → scan_number (String c s) = scan_unsigned false (String c s).
Proof. intros [d Hd]. destruct c as [[] [] [] [] [] [] [] []]; try discriminate Hd; reflexivity. Qed.

Lemma scan_number_pretty n s :
  scan_number (String.append (pretty (n : N)) s) = scan_unsigned false (String.append (pretty n) s).
Proof.
  destruct (pretty_N_head n) as (c & t & -> & Hc). rewrite str_app_cons.
  by apply scan_number_digit.
Qed.

Lemma pretty_Z_nonneg (n : N) : pretty (Z.of_N n) = pretty n.
Proof. by destruct n. Qed.

Lemma pretty_Z_neg (z : Z) : z < 0 → pretty z = String "-" (pretty (Z.to_N (- z))).
Proof. destruct z; [lia..|]. done. Qed.

Lemma scan_number_int z rest :
  num_stop rest → scan_number (String.append (dump_int z) rest) = Some (JInt z, rest).
Proof.
  intros Hr. unfold dump_int. destruct (Z.ltb_spec z 0) as [Hz|Hz].
  - rewrite pretty_Z_neg by done. rewrite str_app_cons. simpl scan_number.
    rewrite scan_unsigned_int by done. do 3 f_equal. lia.
  - rewrite <-(Z2N.id z) at 1 by done. rewrite pretty_Z_nonneg, scan_number_pretty.
    rewrite scan_unsigned_int by done. do 3 f_equal. lia.
Qed.

Lemma scan_unsigned_float neg (n f : N) rest :
  (f < 1000000)%N → num_stop rest →
  scan_unsigned neg (String.append (String.append (pretty n) (String "." (frac_digits f))) rest) =
    Some (JFloat ((if neg then -1 else 1) * (Z.of_N n * 1000000 + Z.of_N f)), rest).
Proof.
  intros Hf Hr. unfold scan_unsigned.
  rewrite <-str_app_assoc, str_app_cons, scan_nat_pretty by done.
  destruct (scan_frac_digits f rest Hf (num_stop_starts _ Hr)) as [-> ->].
  by rewrite num_stop_exp.
Qed.

Lemma scan_number_float t rest :
  num_stop rest → scan_number (String.append (dump_float t) rest) = Some (JFloat t, rest).
Proof.
  intros Hr. unfold dump_float. set (n := Z.to_N (Z.abs t)).
  assert (Hm : (n mod 1000000 < 1000000)%N) by (apply N.mod_lt; done).
  assert (Hn : Z.of_N (n / 1000000) * 1000000 + Z.of_N (n mod 1000000) = Z.abs t).
  { pose proof (N.div_mod n 1000000 ltac:(done)). lia. }
  destruct (Z.ltb_spec t 0) as [Hz|Hz].
  - rewrite str_app_cons. simpl scan_number.
    rewrite scan_unsigned_float by done. do 3 f_equal. lia.
  - rewrite <-str_app_assoc, scan_number_pretty, str_app_assoc.
    rewrite scan_unsigned_float by done. do 3 f_equal. lia.
Qed.

Lemma dump_number_head j :
  match j with JInt _ | JFloat _ => ∃ c t, dumps j = String c t ∧ number_head c | _ => True end.
Proof.
  destruct j; try done; simpl.
  - unfold dump_int. destruct (Z.ltb_spec z 0).
    + rewrite pretty_Z_neg by done. eexists _, _. split; [done|by left].
    + rewrite <-(Z2N.id z) by done. rewrite pretty_Z_nonneg.
      destruct (pretty_N_head (Z.to_N z)) as (c & t & -> & Hc).
      eexists _, _. split; [done|by right].
  - unfold dump_float. destruct (Z.ltb t 0); [eexists _, _; split; [done|by left]|].
    destruct (pretty_N_head (Z.to_N (Z.abs t) / 1000000)) as (c & u & -> & Hc).
    rewrite str_app_cons. eexists _, _. split; [done|by right].
Qed.

(** What may follow a value inside a document. *)
Definition value_stop (s : string) : Prop :=
  match s with
  | EmptyString => True
  | String c _ => c = ","%char ∨ c = "]"%char ∨ c = "}"%char
  end.

Lemma value_num_stop s : value_stop s → num_stop s.
Proof. destruct s; [done|]. simpl. by intros [->|[->| ->]]. Qed.

Lemma value_stop_ws s : value_stop s → skip_ws s = s.
Proof. destruct s; [done|]. simpl. by intros [->|[->| ->]]. Qed.

(** A printed value starts with a character that is not white space. *)
Lemma dumps_head j :
  ∃ c t, dumps j = String c t ∧ is_ws c = false ∧ c ≠ "]"%char ∧ c ≠ "}"%char.
Proof.
  pose proof (dump_number_head j) as H.
  destruct j as [|[]| | |s|xs|d]; try (by eexists _, _); simpl dumps in *;
    destruct H as (c & r & -> & [->|[v Hv]]); eexists _, _;
    (split; [done|]); try done;
    destruct c as [[] [] [] [] [] [] [] []]; try discriminate Hv; done.
Qed.

Lemma dumps_skip_ws j rest :
  skip_ws (String.append (dumps j) rest) = String.append (dumps j) rest.
Proof.
  destruct (dumps_head j) as (c & t & -> & Hws & _). rewrite str_app_cons. simpl. by rewrite Hws.
Qed.

Lemma str_length_app a b :
  String.length (String.append a b) = (String.length a + String.length b)%nat.
Proof. induction a as [|c a IH]; [done|]. rewrite str_app_cons. simpl. by rewrite IH. Qed.

Lemma str_length_cons c s : String.length (String c s) = S (String.length s).
Proof. reflexivity. Qed.

Definition parses (j : json) : Prop := ∀ fuel rest,
  (String.length (dumps j) < fuel)%nat → value_stop rest → json_wf j →
  parse_value fuel (String.append (dumps j) rest) = Some (j, rest).

Lemma dump_elems_skip_ws y ys t :
  skip_ws (String.append (dump_elems (y :: ys)) t) = String.append (dump_elems (y :: ys)) t.
Proof. simpl dump_elems. destruct ys; rewrite <-?str_app_assoc; apply dumps_skip_ws. Qed.

Lemma dump_members_skip_ws p d t :
  skip_ws (String.append (dump_members (p :: d)) t) = String.append (dump_members (p :: d)) t.
Proof. simpl dump_members. unfold dump_str. destruct d; by rewrite !str_app_cons. Qed.

Lemma parse_elems_dump xs fuel rest :
  xs ≠ [] → Forall parses xs → Forall json_wf xs →
  (String.length (dump_elems xs) < pred fuel)%nat →
  parse_elems fuel (String.append (dump_elems xs) (String "]" rest)) = Some (xs, rest).
Proof.
  revert fuel. induction xs as [|x xs IH]; intros fuel Hne; [done|].
  intros [Hx Hxs]%Forall_cons [Wx Wxs]%Forall_cons.
  destruct fuel as [|fuel]; [simpl; lia|]. simpl pred.
  destruct xs as [|y ys].
  - simpl dump_elems. intros Hlen. simpl parse_elems.
    rewrite Hx by (try done; simpl; tauto). done.
  - change (dump_elems (x :: y :: ys)) with
      (String.append (dumps x) (String "," (String " " (dump_elems (y :: ys))))).
    rewrite str_length_app, !str_length_cons. intros Hlen.
    rewrite <-str_app_assoc, !str_app_cons.
    pose proof (dump_elems_skip_ws y ys (String "]" rest)) as Hws.
    specialize (IH fuel ltac:(done) Hxs Wxs ltac:(lia)).
    remember (dump_elems (y :: ys)) as body. simpl parse_elems.
    rewrite Hx; [|lia|simpl; tauto|done]. simpl. by rewrite Hws, IH.
Qed.

Lemma parse_members_dump d fuel rest :
  d ≠ [] → Forall (λ p, parses p.2) d → Forall (λ p, json_wf p.2) d →
  (String.length (dump_members d) < pred fuel)%nat →
  parse_members fuel (String.append (dump_members d) (String "}" rest)) = Some (d, rest).
Proof.
  revert fuel. induction d as [|[k v] d IH]; intros fuel Hne; [done|].
  intros [Hx Hxs]%Forall_cons [Wx Wxs]%Forall_cons. simpl in Hx, Wx.
  destruct fuel as [|fuel]; [simpl; lia|]. simpl pred.
  destruct d as [|p d].
  - simpl dump_members. rewrite str_length_app, !str_length_cons. intros Hlen.
    rewrite <-str_app_assoc, !str_app_cons, dump_str_app.
    simpl parse_members. rewrite scan_esc_str. simpl.
    rewrite dumps_skip_ws, Hx; [done|lia|simpl; tauto|done].
  - change (dump_members ((k, v) :: p :: d)) with
      (String.append (dump_str k) (String ":" (String " "
        (String.append (dumps v) (String "," (String " " (dump_members (p :: d)))))))).
    rewrite !str_length_app, !str_length_cons, str_length_app, !str_length_cons. intros Hlen.
    rewrite <-str_app_assoc, !str_app_cons, dump_str_app.
    pose proof (dump_members_skip_ws p d (String "}" rest)) as Hws.
    specialize (IH fuel ltac:(done) Hxs Wxs ltac:(lia)).
    remember (dump_members (p :: d)) as body. simpl parse_members.
    rewrite scan_esc_str. simpl.
    rewrite <-!str_app_assoc, !str_app_cons, dumps_skip_ws, Hx; [|lia|simpl; tauto|done].
    simpl. by rewrite Hws, IH.
Qed.

Lemma parse_number_dump j :
  match j with JInt _ | JFloat _ => parses j | _ => True end.
Proof.
  pose proof (dump_number_head j) as H.
  destruct j; try done; intros fuel rest Hlen Hr _;
    destruct H as (c & t' & Heq & Hc);
    (destruct fuel as [|fuel]; [lia|]);
    rewrite Heq, str_app_cons, parse_number_head, <-str_app_cons, <-Heq by done.
  - apply scan_number_int. by apply value_num_stop.
  - apply scan_number_float. by apply value_num_stop.
Qed.

Lemma dump_elems_head x xs : ∃ c t,
  dump_elems (x :: xs) = String c t ∧ is_ws c = false ∧ c ≠ "]"%char.
Proof.
  destruct (dumps_head x) as (c & t & Heq & ? & ? & _). simpl dump_elems.
  destruct xs; rewrite Heq; rewrite ?str_app_cons; by eexists _, _.
Qed.

Lemma parse_array fuel c s xs rest :
  is_ws c = false → c ≠ "]"%char → parse_elems fuel (String c s) = Some (xs, rest) →
  parse_value (S fuel) (String "[" (String c s)) = Some (JArr xs, rest).
Proof.
  intros Hws Hc Hp. simpl parse_value. rewrite Hws. revert Hc Hp. clear.
  intros Hc Hp. destruct c as [[] [] [] [] [] [] [] []]; first [by destruct Hc|by rewrite Hp].
Qed.

Lemma parse_object fuel s d rest :
  parse_members fuel (String dquote s) = Some (d, rest) →
  parse_value (S fuel) (String "{" (String dquote s)) =
    Some (JObj (dict_update [] d), rest).
Proof.
  intros Hp. etrans; [|exact (f_equal (λ r, match r with
    Some (d, rest) => Some (JObj (dict_update [] d), rest) | None => None end) Hp)].
  reflexivity.
Qed.

Lemma parse_value_dumps j : parses j.
Proof.
  induction j as [|b|z|t|s|xs IH|d IH] using json_ind_nested.
  - intros [|fuel] rest Hlen; [simpl in *; lia|done].
  - destruct b; intros [|fuel] rest Hlen; [simpl in *; lia|done|simpl in *; lia|done].
  - apply (parse_number_dump (JInt z)).
  - apply (parse_number_dump (JFloat t)).
  - intros [|fuel] rest Hlen _ _; [simpl in *; lia|].
    simpl dumps. rewrite dump_str_app. simpl parse_value. by rewrite scan_esc_str.
  - intros fuel rest Hlen Hr Hwf%json_wf_arr.
    rewrite dumps_arr in *. rewrite str_length_cons, str_length_app in Hlen. simpl in Hlen.
    rewrite str_app_cons, <-str_app_assoc, (str_app_cons "]" EmptyString), str_app_nil_l.
    destruct fuel as [|fuel]; [lia|]. destruct xs as [|x xs]; [done|].
    pose proof (parse_elems_dump (x :: xs) fuel rest ltac:(done) IH Hwf ltac:(lia)) as Hp.
    destruct (dump_elems_head x xs) as (c & t & Heq & Hws & Hc).
    rewrite Heq, str_app_cons in *. by apply parse_array.
  - intros fuel rest Hlen Hr [Hnd Hwf]%json_wf_obj.
    rewrite dumps_obj in *. rewrite str_length_cons, str_length_app in Hlen. simpl in Hlen.
    rewrite str_app_cons, <-str_app_assoc, (str_app_cons "}" EmptyString), str_app_nil_l.
    destruct fuel as [|fuel]; [lia|]. destruct d as [|p d]; [done|].
    pose proof (parse_members_dump (p :: d) fuel rest ltac:(done) IH Hwf ltac:(lia)) as Hp.
    assert (Heq : ∃ t, dump_members (p :: d) = String dquote t).
    { destruct d; eexists; [done|]. simpl dump_members. unfold dump_str.
      by rewrite str_app_cons. }
    destruct Heq as [t Heq]. rewrite Heq, str_app_cons in *.
    erewrite parse_object by exact Hp.
    by rewrite dict_update_fresh.
Qed.

(** The text printed for a value parses to that value. *)
Lemma loads_dumps j : json_wf j → loads (dumps j) = Ok j.
Proof.
  intros Hwf. unfold loads.
  pose proof (dumps_skip_ws j EmptyString) as Hs. rewrite str_app_nil_r in Hs. rewrite Hs.
  pose proof (parse_value_dumps j (S (String.length (dumps j))) EmptyString
                ltac:(lia) I Hwf) as Hp.
  rewrite str_app_nil_r in Hp. by rewrite Hp.
Qed.

(** ** The alphabet of printed text *)

Definition printable (c : ascii) : bool :=
  let n := N_of_ascii c in ((32 <=? n) && (n <=? 126))%N.

Lemma printable_esc_str s : str_all printable (esc_str s) = true.
Proof.
  induction s as [|c s IH]; [done|]. simpl esc_str. rewrite str_all_app, IH, andb_true_r.
  destruct c as [[] [] [] [] [] [] [] []]; reflexivity.
Qed.

Lemma printable_dump_str s : str_all printable (dump_str s) = true.
Proof.
  unfold dump_str. simpl. by rewrite str_all_app, printable_esc_str.
Qed.

Lemma digit_printable n : (n < 10)%N → printable (pretty_N_char n) = true.
Proof.
  intros Hn.
  assert (n = 0 ∨ n = 1 ∨ n = 2 ∨ n = 3 ∨ n = 4 ∨ n = 5 ∨ n = 6 ∨ n = 7 ∨ n = 8 ∨ n = 9)%N
    as H by lia.
  by repeat destruct H as [->|H]; [..|subst].
Qed.

Lemma printable_pretty_N (n : N) : str_all printable (pretty n) = true.
Proof.
  unfold pretty, pretty_N. case_decide; [done|].
  assert (Hgo : ∀ x s, str_all printable (pretty_N_go x s) = str_all printable s).
  { intros x. induction (N.lt_wf_0 x) as [x _ IH]. intros s.
    destruct (decide (x = 0)%N) as [->|Hx]; [by rewrite pretty_N_go_0|].
    rewrite pretty_N_go_step by lia. rewrite IH by (apply N.div_lt; lia). simpl.
    by rewrite digit_printable by (apply N.mod_lt; done). }
  by rewrite Hgo.
Qed.

Lemma printable_frac f : str_all printable (frac_digits f) = true.
Proof.
  assert (Hd : ∀ k, printable (digit ((f / k) mod 10)) = true)
    by (intros; apply digit_printable, N.mod_lt; done).
  unfold frac_digits, chr. repeat case_match; simpl; by rewrite ?Hd.
Qed.

Lemma printable_pretty_Z (z : Z) : str_all printable (pretty z) = true.
Proof.
  destruct (Z.ltb_spec z 0).
  - rewrite pretty_Z_neg by done. simpl. apply printable_pretty_N.
  - rewrite <-(Z2N.id z) by done. rewrite pretty_Z_nonneg. apply printable_pretty_N.
Qed.

Lemma printable_dump_float t : str_all printable (dump_float t) = true.
Proof.
  unfold dump_float. destruct (Z.ltb t 0); cbn [str_all]; rewrite str_all_app;
    cbn [str_all]; by rewrite printable_pretty_N, printable_frac.
Qed.

Lemma printable_dumps j : str_all printable (dumps j) = true.
Proof.
  induction j as [|[]|z|t|s|xs IH|d IH] using json_ind_nested; try done.
  - apply printable_pretty_Z.
  - apply printable_dump_float.
  - apply printable_dump_str.
  - rewrite dumps_arr. cbn [str_all]. rewrite str_all_app. cbn [str_all].
    rewrite andb_true_r. cbn.
    induction IH as [|x xs Hx IH1 IH2]; [done|]. simpl dump_elems.
    destruct xs; [done|]. rewrite str_all_app, Hx. apply IH2.
  - rewrite dumps_obj. cbn [str_all]. rewrite str_all_app. cbn [str_all].
    rewrite andb_true_r. cbn.
    induction IH as [|x d Hx IH1 IH2]; [done|]. simpl dump_members.
    destruct d; rewrite str_all_app, printable_dump_str; cbn [str_all]; [done|].
    rewrite str_all_app, Hx. apply IH2.
Qed.

(** A printed value never holds a newline. *)
Lemma dumps_no_newline j : str_has newline (dumps j) = false.
Proof.
  unfold str_has. apply negb_false_iff.
  eapply str_all_impl; [|apply printable_dumps].
  intros c Hc. apply bool_decide_eq_true_2. intros ->. discriminate Hc.
Qed.
