(* ===== verification/JsonPrefix.v ===== *)
(** A text cut short is not JSON: the parser reads a closed value the same way
    whatever follows it, so no strict prefix of a printed object decodes. *)

From S2P Require Import Prelude.
From S2P Require Import Text.
From S2P Require Import PyDict.
From S2P Require Import Json.
From S2P Require Import JsonFacts.

Abbreviation app := String.append.

Lemma skip_ws_app a t : skip_ws a ≠ EmptyString → skip_ws (app a t) = app (skip_ws a) t.
Proof.
  induction a as [|c a IH]; [done|]. rewrite ?str_app_cons. simpl.
  destruct (is_ws c); [apply IH|]. intros _. by rewrite ?str_app_cons.
Qed.

(** [b] is [a] followed by [t], for parser results. *)
Lemma skip_ws_match a t c r : skip_ws a = String c r → skip_ws (app a t) = String c (app r t).
Proof. intros Ha. rewrite skip_ws_app by congruence. by rewrite Ha, str_app_cons. Qed.

Lemma scan_str_app s x r t : scan_str s = Some (x, r) → scan_str (app s t) = Some (x, app r t).
Proof.
  remember (String.length s) as n eqn:Hn. revert s x r Hn.
  induction (lt_wf n) as [n _ IH]. intros s x r -> Hs.
  assert (Hrec : ∀ s' ch y q, (String.length s' < String.length s)%nat →
    cons_char ch (scan_str s') = Some (y, q) →
    cons_char ch (scan_str (app s' t)) = Some (y, app q t)).
  { intros s' ch y q Hlt Hc. unfold cons_char in *.
    destruct (scan_str s') as [[z q']|] eqn:E; [|done]. simplify_eq.
    by rewrite (IH _ Hlt s' z q eq_refl E). }
  destruct s as [|c s']; [done|]. rewrite ?str_app_cons. simpl in Hs |- *.
  destruct (decide (c = dquote)) as [->|Hq]; [by simplify_eq|].
  destruct (decide (c = bslash)) as [Hb|Hb].
  - destruct s' as [|e s'']; [done|]. rewrite ?str_app_cons.
    destruct (decide (e = "u"%char)) as [->|Hu].
    + destruct s'' as [|h1 [|h2 [|h3 [|h4 rest]]]]; try done.
      rewrite !str_app_cons. repeat case_match; try done. apply Hrec; [simpl; lia|done].
    + assert (Hsame : ∀ u, scan_str (String bslash (String e u)) =
        match unescape e with Some ch => cons_char ch (scan_str u) | None => None end).
      { intros u. cbn [scan_str]. rewrite decide_False, decide_True by done.
        clear -Hu. destruct e as [[] [] [] [] [] [] [] []]; try reflexivity. by destruct Hu. }
      subst c. pose proof (Hsame s'') as H1. pose proof (Hsame (app s'' t)) as H2.
      cbn [scan_str] in H1, H2. rewrite decide_False, decide_True in H1, H2 by done.
      rewrite H1 in Hs. rewrite H2. destruct (unescape e); [|done].
      apply Hrec; [simpl; lia|done].
  - destruct (N_of_ascii c <? 32)%N; [done|]. apply Hrec; [simpl; lia|done].
Qed.

(** ** Numbers *)

(** The rest after a value starts with a character that cannot continue a
    number. *)
Definition stops (r : string) : Prop :=
  ∃ c r', r = String c r' ∧ digit_val c = None ∧ c ≠ "."%char ∧ c ≠ "e"%char ∧ c ≠ "E"%char.

Lemma scan_digits_app acc s n r t : scan_digits acc s = (n, r) → r ≠ EmptyString →
  scan_digits acc (app s t) = (n, app r t).
Proof.
  revert acc. induction s as [|c s IH]; intros acc; simpl; [by intros [= <- <-]|].
  rewrite ?str_app_cons. simpl. destruct (digit_val c); [apply IH|].
  intros [= <- <-] _. by rewrite ?str_app_cons.
Qed.

Lemma scan_frac_app room scale acc s n r t :
  scan_frac room scale acc s = Some (n, r) → r ≠ EmptyString →
  scan_frac room scale acc (app s t) = Some (n, app r t).
Proof.
  revert room scale acc. induction s as [|c s IH]; intros room scale acc; simpl.
  { by intros [= <- <-]. }
  rewrite ?str_app_cons. simpl. destruct (digit_val c).
  - destruct room; [done|]. apply IH.
  - intros [= <- <-] _. by rewrite ?str_app_cons.
Qed.

Lemma scan_nat_app s n r t : scan_nat s = Some (n, r) → r ≠ EmptyString →
  scan_nat (app s t) = Some (n, app r t).
Proof.
  destruct s as [|c s]; [done|]. rewrite ?str_app_cons. simpl.
  destruct (digit_val c) as [[|d]|]; [by intros [= <- <-]| |done].
  intros [= Hd] Hr. f_equal. by apply scan_digits_app.
Qed.

Lemma is_exp_stops r : stops r → is_exp r = false.
Proof.
  intros (c & r' & -> & _ & _ & He & HE). simpl. apply bool_decide_eq_false_2. tauto.
Qed.

Lemma scan_unsigned_app neg s j r t : scan_unsigned neg s = Some (j, r) → stops r →
  scan_unsigned neg (app s t) = Some (j, app r t).
Proof.
  intros Hs Hr. assert (Hstop : stops (app r t)).
  { destruct Hr as (c & r' & -> & Hc). exists c, (app r' t). by rewrite ?str_app_cons. }
  assert (Hne : r ≠ EmptyString) by (by destruct Hr as (? & ? & -> & _)).
  unfold scan_unsigned in *. destruct (scan_nat s) as [[n rest]|] eqn:En; [|done].
  assert (Hrest : rest ≠ EmptyString).
  { intros ->. simpl in Hs. by simplify_eq. }
  rewrite (scan_nat_app _ _ _ t En Hrest). destruct rest as [|c rest]; [done|].
  rewrite ?str_app_cons. destruct (decide (c = "."%char)) as [->|Hdot].
  - destruct rest as [|d rest].
    { simpl in Hs. simplify_eq. destruct Hr as (c & r' & Heq & _ & Hc & _). by simplify_eq. }
    rewrite ?str_app_cons. change (starts_digit (String d (app rest t)))
      with (starts_digit (String d rest)).
    destruct (starts_digit (String d rest)).
    + destruct (scan_frac 6 100000 0 (String d rest)) as [[f q]|] eqn:Ef; [|done].
      destruct (is_exp q); [done|]. simplify_eq.
      rewrite <-str_app_cons, (scan_frac_app _ _ _ _ _ _ t Ef Hne).
      by rewrite is_exp_stops.
    + simplify_eq. destruct Hr as (c & r' & Heq & _ & Hc & _). by simplify_eq.
  - assert (Hsame : ∀ q, match String c q with
      | String "." s1 => if starts_digit s1 then
            match scan_frac 6 100000 0 s1 with
            | Some (f, rest) => if is_exp rest then None
                else Some (JFloat ((if neg then -1 else 1) * (Z.of_N n * 1000000 + Z.of_N f)), rest)
            | None => None end
          else Some (JInt ((if neg then -1 else 1) * Z.of_N n), String c q)
      | _ => if is_exp (String c q) then None
             else Some (JInt ((if neg then -1 else 1) * Z.of_N n), String c q) end =
      if is_exp (String c q) then None
      else Some (JInt ((if neg then -1 else 1) * Z.of_N n), String c q)).
    { intros q. clear -Hdot. destruct c as [[] [] [] [] [] [] [] []]; try reflexivity.
      by destruct Hdot. }
    rewrite Hsame in Hs |- *. simpl is_exp in *.
    destruct (bool_decide _); [done|]. simplify_eq. by rewrite ?str_app_cons.
Qed.

Lemma scan_number_app s j r t : scan_number s = Some (j, r) → stops r →
  scan_number (app s t) = Some (j, app r t).
Proof.
  destruct s as [|c s]; [done|]. intros Hs Hr. rewrite ?str_app_cons.
  destruct (decide (c = "-"%char)) as [->|Hc].
  - by apply scan_unsigned_app.
  - assert (Hsame : ∀ q, scan_number (String c q) = scan_unsigned false (String c q)).
    { intros q. clear -Hc. destruct c as [[] [] [] [] [] [] [] []]; try reflexivity.
      by destruct Hc. }
    rewrite Hsame in *. rewrite <-str_app_cons. by apply scan_unsigned_app.
Qed.

(** ** Values *)

(** A value whose last character shows its end. *)
Definition closed (j : json) : Prop := match j with JInt _ | JFloat _ => False | _ => True end.

(** What separates values cannot continue a number. *)
Lemma skip_ws_stops s c r : skip_ws s = String c r → stops (String c r) → stops s.
Proof.
  destruct s as [|d s]; [done|]. simpl. destruct (is_ws d) eqn:Ed; [|by intros [= -> ->]].
  intros _ _. exists d, s. split; [done|]. clear r c.
  destruct d as [[] [] [] [] [] [] [] []]; try discriminate Ed; by split_and!.
Qed.

Lemma stops_sep c r : c ∈ [","; "]"; "}"]%char → stops (String c r).
Proof.
  intros Hc. exists c, r. split; [done|].
  repeat (apply elem_of_cons in Hc as [->|Hc]; [by split_and!|]). by apply not_elem_of_nil in Hc.
Qed.

Section extension.
Context (t : string).

(** Parsing [s] is not changed by more fuel and more text. *)
Definition extends {A} (stop : A → string → Prop) (p : nat → string → option (A * string))
    (fuel : nat) : Prop :=
  ∀ fuel' s x r, (fuel <= fuel')%nat → p fuel s = Some (x, r) → stop x r →
    p fuel' (app s t) = Some (x, app r t).

Definition value_stop (j : json) (r : string) : Prop := closed j ∨ stops r.
Definition any_stop {A} (x : A) (r : string) : Prop := True.

Lemma elems_extend fuel :
  extends value_stop parse_value fuel → extends any_stop parse_elems fuel →
  extends any_stop parse_elems (S fuel).
Proof.
  intros IHv IHe [|fuel'] s xs r Hle Hp _; [lia|]. simpl in Hp |- *.
  destruct (parse_value fuel s) as [[x s1]|] eqn:Ev; [|done].
  destruct (skip_ws s1) as [|c s2] eqn:Ews; [done|].
  destruct (decide (c = ","%char)) as [->|H1].
  - destruct (parse_elems fuel (skip_ws s2)) as [[ys q]|] eqn:Ee; [|done]. simplify_eq.
    assert (stops s1) as Hst by (by eapply skip_ws_stops; [|apply stops_sep; left]).
    rewrite (IHv fuel' s x s1 ltac:(lia) Ev ltac:(by right)), (skip_ws_match _ _ _ _ Ews).
    assert (Hne : skip_ws s2 ≠ EmptyString).
    { intros E0. rewrite E0 in Ee. destruct fuel as [|[|]]; done. }
    rewrite skip_ws_app by done.
    by rewrite (IHe fuel' _ ys r ltac:(lia) Ee I).
  - destruct (decide (c = "]"%char)) as [->|H2].
    + simplify_eq.
      assert (stops s1) as Hst by (by eapply skip_ws_stops; [|apply stops_sep; right; left]).
      by rewrite (IHv fuel' s x s1 ltac:(lia) Ev ltac:(by right)), (skip_ws_match _ _ _ _ Ews).
    + exfalso. clear -Hp H1 H2. destruct c as [[] [] [] [] [] [] [] []]; done.
Qed.

Lemma members_extend fuel :
  extends value_stop parse_value fuel → extends any_stop parse_members fuel →
  extends any_stop parse_members (S fuel).
Proof.
  intros IHv IHe [|fuel'] s xs r Hle Hp _; [lia|]. destruct s as [|c s]; [done|].
  rewrite str_app_cons. simpl in Hp |- *. case_decide; [|done].
  destruct (scan_str s) as [[k s1]|] eqn:Ek; [|done]. rewrite (scan_str_app _ _ _ t Ek).
  destruct (skip_ws s1) as [|d s2] eqn:E1; [done|]. rewrite (skip_ws_match _ _ _ _ E1).
  destruct (decide (d = ":"%char)) as [->|Hd];
    [|exfalso; clear -Hp Hd; destruct d as [[] [] [] [] [] [] [] []]; done].
  destruct (parse_value fuel (skip_ws s2)) as [[v s3]|] eqn:Ev; [|done].
  assert (Hne : skip_ws s2 ≠ EmptyString).
  { intros E0. rewrite E0 in Ev. by destruct fuel. }
  rewrite skip_ws_app by done.
  destruct (skip_ws s3) as [|e s4] eqn:E3; [done|].
  destruct (decide (e = ","%char)) as [->|He].
  - destruct (parse_members fuel (skip_ws s4)) as [[ms q]|] eqn:Ee; [|done]. simplify_eq.
    assert (stops s3) as Hst by (by eapply skip_ws_stops; [|apply stops_sep; left]).
    rewrite (IHv fuel' _ v s3 ltac:(lia) Ev ltac:(by right)), (skip_ws_match _ _ _ _ E3).
    assert (Hne' : skip_ws s4 ≠ EmptyString).
    { intros E0. rewrite E0 in Ee. by destruct fuel. }
    rewrite skip_ws_app by done.
    by rewrite (IHe fuel' _ ms r ltac:(lia) Ee I).
  - destruct (decide (e = "}"%char)) as [->|He'];
      [|exfalso; clear -Hp He He'; destruct e as [[] [] [] [] [] [] [] []]; done].
    simplify_eq.
    assert (stops s3) as Hst by (by eapply skip_ws_stops; [|apply stops_sep; do 2 right; left]).
    by rewrite (IHv fuel' _ v s3 ltac:(lia) Ev ltac:(by right)), (skip_ws_match _ _ _ _ E3).
Qed.

(** The branch of an opening bracket: the closing one, or a body. *)
Lemma object_extend fuel : extends any_stop parse_members fuel →
  ∀ fuel' s j r, (fuel <= fuel')%nat →
  parse_value (S fuel) (String "{" s) = Some (j, r) →
  parse_value (S fuel') (String "{" (app s t)) = Some (j, app r t).
Proof.
  intros IH fuel' s j r Hle Hp. simpl in Hp |- *.
  destruct (skip_ws s) as [|c s1] eqn:E1; [by destruct fuel|].
  rewrite (skip_ws_match _ _ _ _ E1).
  destruct (decide (c = "}"%char)) as [->|Hc]; [by simplify_eq|].
  assert (Hsame : ∀ f q, match String c q with
    | String "}" rest => Some (JObj [], rest)
    | s1 => match parse_members f s1 with
            | Some (d, rest) => Some (JObj (dict_update [] d), rest) | None => None end
    end = match parse_members f (String c q) with
          | Some (d, rest) => Some (JObj (dict_update [] d), rest) | None => None end).
  { intros f q. clear -Hc. destruct c as [[] [] [] [] [] [] [] []]; try reflexivity.
    by destruct Hc. }
  rewrite Hsame in Hp |- *.
  destruct (parse_members fuel (String c s1)) as [[d q]|] eqn:Em; [|done]. simplify_eq.
  rewrite <-str_app_cons. by rewrite (IH fuel' _ d r Hle Em I).
Qed.

Lemma array_extend fuel : extends any_stop parse_elems fuel →
  ∀ fuel' s j r, (fuel <= fuel')%nat →
  parse_value (S fuel) (String "[" s) = Some (j, r) →
  parse_value (S fuel') (String "[" (app s t)) = Some (j, app r t).
Proof.
  intros IH fuel' s j r Hle Hp. simpl in Hp |- *.
  destruct (skip_ws s) as [|c s1] eqn:E1; [by destruct fuel as [|[]]|].
  rewrite (skip_ws_match _ _ _ _ E1).
  destruct (decide (c = "]"%char)) as [->|Hc]; [by simplify_eq|].
  assert (Hsame : ∀ f q, match String c q with
    | String "]" rest => Some (JArr [], rest)
    | s1 => match parse_elems f s1 with
            | Some (d, rest) => Some (JArr d, rest) | None => None end
    end = match parse_elems f (String c q) with
          | Some (d, rest) => Some (JArr d, rest) | None => None end).
  { intros f q. clear -Hc. destruct c as [[] [] [] [] [] [] [] []]; try reflexivity.
    by destruct Hc. }
  rewrite Hsame in Hp |- *.
  destruct (parse_elems fuel (String c s1)) as [[d q]|] eqn:Em; [|done]. simplify_eq.
  rewrite <-str_app_cons. by rewrite (IH fuel' _ d r Hle Em I).
Qed.

Lemma scan_number_closed s j r : scan_number s = Some (j, r) → closed j → False.
Proof.
  assert (Hu : ∀ neg u, scan_unsigned neg u = Some (j, r) → closed j → False).
  { intros neg u. unfold scan_unsigned. intros Hs Hc. repeat case_match; by simplify_eq. }
  destruct s as [|c s]; [done|]. unfold scan_number. intros Hs.
  repeat case_match; by eapply Hu.
Qed.

Lemma value_extend fuel :
  extends any_stop parse_elems fuel → extends any_stop parse_members fuel →
  extends value_stop parse_value (S fuel).
Proof.
  intros IHe IHm [|fuel'] s j r Hle Hp Hst; [lia|]. apply le_S_n in Hle.
  destruct s as [|c s]; [done|]. rewrite str_app_cons.
  destruct (decide (c = "{"%char)) as [->|H1]; [by eapply object_extend|].
  destruct (decide (c = "["%char)) as [->|H2]; [by eapply array_extend|].
  destruct (decide (c = dquote)) as [->|H3].
  { cbn [parse_value] in Hp |- *. rewrite decide_True in Hp |- * by done.
    destruct (scan_str s) as [[x q]|] eqn:E; [|done]. simplify_eq.
    by rewrite (scan_str_app _ _ _ t E). }
  destruct (decide (c = "n"%char)) as [->|H4].
  { destruct s as [|c1 [|c2 [|c3 s]]]; try done; rewrite ?str_app_cons; simpl in Hp |- *;
      repeat case_match; by simplify_eq. }
  destruct (decide (c = "t"%char)) as [->|H5].
  { destruct s as [|c1 [|c2 [|c3 s]]]; try done; rewrite ?str_app_cons; simpl in Hp |- *;
      repeat case_match; by simplify_eq. }
  destruct (decide (c = "f"%char)) as [->|H6].
  { destruct s as [|c1 [|c2 [|c3 [|c4 s]]]]; try done; rewrite ?str_app_cons; simpl in Hp |- *;
      repeat case_match; by simplify_eq. }
  assert (Hsame : ∀ f q, parse_value (S f) (String c q) = scan_number (String c q)).
  { intros f q. clear -H1 H2 H3 H4 H5 H6. cbn [parse_value]. rewrite decide_False by done.
    destruct c as [[] [] [] [] [] [] [] []]; first [reflexivity|done]. }
  rewrite Hsame in Hp |- *. rewrite <-str_app_cons.
  destruct Hst as [Hc|Hst]; [by destruct (scan_number_closed _ _ _ Hp)|].
  by apply scan_number_app.
Qed.

Lemma parser_extends fuel :
  extends value_stop parse_value fuel ∧ extends any_stop parse_elems fuel ∧
  extends any_stop parse_members fuel.
Proof.
  induction fuel as [|fuel (IHv & IHe & IHm)]; [by split_and!; intros ?|].
  split_and!; [by apply value_extend|by apply elems_extend|by apply members_extend].
Qed.
End extension.

Lemma loads_error s : loads s = Raise JSONDecodeError ∨ ∃ j, loads s = Ok j.
Proof. unfold loads. repeat case_match; eauto. Qed.

(** No strict prefix of a printed object decodes, white space at its end
    removed or not. *)
Lemma loads_torn d p t : json_wf (JObj d) → dumps (JObj d) = app p t → t ≠ EmptyString →
  loads (strip p) = Raise JSONDecodeError.
Proof.
  intros Hwf Hd Ht. destruct p as [|c p]; [done|].
  rewrite dumps_obj, str_app_cons in Hd. injection Hd as <- Hd.
  unfold strip. simpl lstrip. destruct (rstrip_prefix (String "{" p)) as [w Hw].
  destruct (rstrip (String "{" p)) as [|c q] eqn:Eq; [done|].
  rewrite str_app_cons in Hw. injection Hw as <- Hw.
  destruct (loads_error (String "{" q)) as [|[j Hj]]; [done|exfalso].
  unfold loads in Hj. change (skip_ws (String "{" q)) with (String "{" q) in Hj.
  destruct (parse_value _ (String "{" q)) as [[j' r]|] eqn:Ep; [|done].
  assert (Hclosed : closed j').
  { simpl in Ep. repeat case_match; by simplify_eq. }
  set (all := dumps (JObj d)).
  assert (Hall : all = app (String "{" q) (app w t)).
  { unfold all. rewrite dumps_obj, Hd, Hw, !str_app_cons. by rewrite <-str_app_assoc. }
  destruct (parser_extends (app w t) (S (String.length (String "{" q)))) as (He & _ & _).
  pose proof (He (S (S (String.length q)) + String.length all)%nat _ _ _
                (Nat.le_add_r _ _) Ep (or_introl Hclosed)) as H1.
  rewrite <-Hall in H1.
  pose proof (parse_value_dumps (JObj d) (S (S (String.length q)) + String.length all)%nat
                EmptyString ltac:(fold all; lia) I Hwf) as H2.
  rewrite str_app_nil_r in H2. fold all in H2. rewrite H1 in H2. injection H2 as _ H2.
  destruct t as [|b t]; [done|]. destruct r, w; done.
Qed.

(** ** What is parsed is well formed *)

Lemma scan_number_wf s j r : scan_number s = Some (j, r) → json_wf j.
Proof.
  assert (Hu : ∀ neg u, scan_unsigned neg u = Some (j, r) → json_wf j).
  { intros neg u. unfold scan_unsigned. intros Hs. repeat case_match; by simplify_eq. }
  destruct s as [|c s]; [done|]. unfold scan_number. intros Hs. repeat case_match; by eapply Hu.
Qed.

Definition values_wf (d : dict string json) : Prop := Forall (λ p, json_wf p.2) d.

Lemma dict_set_values k v d : json_wf v → values_wf d → values_wf (dict_set k v d).
Proof.
  intros Hv. induction 1 as [|[k' v'] d Hp Hd IH]; cbn [dict_set]; [by repeat constructor|].
  case_decide; by constructor.
Qed.

Lemma dict_update_values d e : values_wf d → values_wf e → values_wf (dict_update d e).
Proof.
  unfold dict_update. intros Hd He. revert d Hd. induction He as [|[k v] e Hp _ IH]; intros d Hd; [done|].
  apply IH. by apply dict_set_values.
Qed.

(** A literal that matches no alternative leaves the last one. *)
Ltac walk H :=
  repeat match type of H with
  | match ?x with _ => _ end = Some _ => destruct x eqn:?; try discriminate H
  end.

Lemma parser_wf fuel :
  (∀ s j r, parse_value fuel s = Some (j, r) → json_wf j) ∧
  (∀ s xs r, parse_elems fuel s = Some (xs, r) → Forall json_wf xs) ∧
  (∀ s d r, parse_members fuel s = Some (d, r) → values_wf d).
Proof.
  induction fuel as [|fuel (IHv & IHe & IHm)]; [done|]. split_and!; intros s x r Hp; simpl in Hp.
  - destruct s as [|c s]; [done|]. destruct (decide (c = dquote)); [walk Hp; by simplify_eq|].
    assert (Hobj : ∀ s1, match parse_members fuel s1 with
      Some (d, rest) => Some (JObj (dict_update [] d), rest) | None => None end = Some (x, r) → json_wf x).
    { intros s1. destruct (parse_members fuel s1) as [[d q]|] eqn:E; [|done]. intros [= <- <-].
      apply json_wf_obj. split; [apply dict_wf_update; constructor|]. apply dict_update_values; [constructor|by eapply IHm]. }
    assert (Harr : ∀ s1, match parse_elems fuel s1 with
      Some (xs, rest) => Some (JArr xs, rest) | None => None end = Some (x, r) → json_wf x).
    { intros s1. destruct (parse_elems fuel s1) as [[d q]|] eqn:E; [|done]. intros [= <- <-].
      apply json_wf_arr. by eapply IHe. }
    destruct c as [[] [] [] [] [] [] [] []]; try (by eapply scan_number_wf); try (walk Hp; by simplify_eq);
      (destruct (skip_ws s) as [|c q]; [first [exact (Harr _ Hp)|exact (Hobj _ Hp)]|]);
      destruct c as [[] [] [] [] [] [] [] []]; try (first [exact (Harr _ Hp)|exact (Hobj _ Hp)]);
      simplify_eq; first [done|by apply json_wf_obj; repeat constructor].
  - walk Hp; simplify_eq; repeat constructor; eauto.
  - walk Hp; simplify_eq; repeat constructor; cbn; eauto; by eapply IHm.
Qed.

Lemma loads_wf s j : loads s = Ok j → json_wf j.
Proof.
  unfold loads. destruct (parse_value _ _) as [[j' r]|] eqn:E; [|done].
  destruct (skip_ws r); [|done]. intros [= <-]. by eapply (proj1 (parser_wf _)).
Qed.
