(* ===== verification/Config.v ===== *)
(** The enumerations and the settings of [minidb/config.py].

    An [Enum] is an inductive type with its [.value] string; calling the enum
    on a string looks the value up and raises [ValueError] otherwise. *)

From S2P Require Import Prelude.

Inductive ConsistencyLevel := ONE | QUORUM | ALL | ANY | STRONG.
Inductive NodeRole := LEADER | FOLLOWER | CANDIDATE.
Inductive NodeState := ALIVE | SUSPECT | DEAD.

#[export] Instance consistency_eq_dec : EqDecision ConsistencyLevel.
Proof. solve_decision. Defined.
#[export] Instance role_eq_dec : EqDecision NodeRole.
Proof. solve_decision. Defined.
#[export] Instance state_eq_dec : EqDecision NodeState.
Proof. solve_decision. Defined.

(** An enumeration with string values, as the source's [Enum] classes. *)
Class PyEnum (A : Type) := {
  enum_members : list A;
  enum_value : A → string;
  enum_eq_dec :: EqDecision A;
  enum_complete : ∀ a, a ∈ enum_members;
  enum_value_inj : ∀ a b, enum_value a = enum_value b → a = b;
}.

Definition consistency_value (c : ConsistencyLevel) : string :=
  match c with
  | ONE => "ONE" | QUORUM => "QUORUM" | ALL => "ALL" | ANY => "ANY" | STRONG => "STRONG"
  end.

Definition role_value (r : NodeRole) : string :=
  match r with LEADER => "LEADER" | FOLLOWER => "FOLLOWER" | CANDIDATE => "CANDIDATE" end.

Definition state_value (s : NodeState) : string :=
  match s with ALIVE => "ALIVE" | SUSPECT => "SUSPECT" | DEAD => "DEAD" end.

(** Closes the two laws of an enumeration by cases. *)
Ltac solve_enum :=
  first [ by intros []; rewrite ?elem_of_cons; tauto
        | by intros [] [] [=] ].

#[export] Program Instance consistency_enum : PyEnum ConsistencyLevel := {|
  enum_members := [ONE; QUORUM; ALL; ANY; STRONG];
  enum_value := consistency_value |}.
Solve Obligations with solve_enum.

#[export] Program Instance role_enum : PyEnum NodeRole := {|
  enum_members := [LEADER; FOLLOWER; CANDIDATE];
  enum_value := role_value |}.
Solve Obligations with solve_enum.

#[export] Program Instance state_enum : PyEnum NodeState := {|
  enum_members := [ALIVE; SUSPECT; DEAD];
  enum_value := state_value |}.
Solve Obligations with solve_enum.

(** [SomeEnum(s)] *)
Definition enum_of {A} `{PyEnum A} (s : string) : res A :=
  res_of_option ValueError (snd <$> list_find (λ a, enum_value a = s) enum_members).

Lemma enum_of_value {A} `{PyEnum A} (a : A) : enum_of (enum_value a) = Ok a.
Proof.
  unfold enum_of.
  destruct (list_find_elem_of (λ b, enum_value b = enum_value a) enum_members a)
    as [[i b] Hf]; [apply enum_complete|done|].
  rewrite Hf. apply list_find_Some in Hf as (_ & Hb & _). simpl. f_equal.
  by apply enum_value_inj.
Qed.

Lemma enum_of_Ok {A} `{PyEnum A} s (a : A) : enum_of s = Ok a → enum_value a = s.
Proof.
  unfold enum_of. destruct (list_find _ _) as [[i b]|] eqn:Hf; [|done].
  apply list_find_Some in Hf as (_ & Hb & _). simpl. by intros [= <-].
Qed.

Module Config.

(** [NodeConfig]: the settings that the modelled parts read.  The data
    directory the source creates in [__post_init__] is not modelled. *)
Record NodeConfig := {
  node_id : string;
  host : string;
  client_port : Z;
  cluster_port : Z;
  aof_enabled : bool;
  snapshot_enabled : bool;
  snapshot_interval : time;
  aof_fsync_interval : time;
  heartbeat_interval : time;
  failure_timeout : time;
  dead_timeout : time;
  election_timeout_min : time;
  election_timeout_max : time;
  replication_factor : Z;
  default_consistency : ConsistencyLevel;
  virtual_nodes : nat;
}.

(** [get_default_config] *)
Definition get_default_config (nid : string) (port cport : Z) : NodeConfig := {|
  node_id := nid;
  host := "localhost";
  client_port := port;
  cluster_port := cport;
  aof_enabled := true;
  snapshot_enabled := true;
  snapshot_interval := seconds 300;
  aof_fsync_interval := seconds 1;
  heartbeat_interval := seconds 1;
  failure_timeout := seconds 5;
  dead_timeout := seconds 15;
  election_timeout_min := 1500000;
  election_timeout_max := seconds 3;
  replication_factor := 3;
  default_consistency := QUORUM;
  virtual_nodes := 150;
|}.

End Config.

Record ClusterConfig := mkCluster { seed_nodes : list string; min_nodes_for_quorum : Z }.

Definition default_cluster : ClusterConfig := mkCluster [] 2.

(** [ClusterConfig.add_seed_node] *)
Definition add_seed_node (address : string) (c : ClusterConfig) : ClusterConfig :=
  if decide (address ∈ seed_nodes c) then c
  else mkCluster (seed_nodes c ++ [address]) (min_nodes_for_quorum c).

Lemma add_seed_node_nodup a c : NoDup (seed_nodes c) →
  NoDup (seed_nodes (add_seed_node a c)) ∧ a ∈ seed_nodes (add_seed_node a c).
Proof.
  unfold add_seed_node. case_decide; [done|]. intros Hl. cbn. split; [|apply elem_of_app; right; by left].
  apply NoDup_app.
  split_and!; [done| |apply NoDup_singleton]. by intros x Hx ->%list_elem_of_singleton.
Qed.
