(* ===== verification/Exports.v ===== *)
(** [minidb/__init__.py]: the names that the package exports and imports on
    first use. *)

From S2P Require Import Prelude.
From S2P Require Import PyDict.
From stdpp Require Import sorting.

Module Exports.

Definition __all__ : list string :=
  ["NodeConfig"; "ConsistencyLevel"; "NodeRole"; "NodeState"; "DatabaseNode"; "create_node"; "DatabaseCLI";
   "run_cli"]%string.

(** Name, module and attribute. *)
Definition _EXPORTS : dict string (string * string) :=
  [("NodeConfig", ("minidb.config", "NodeConfig"));
   ("ConsistencyLevel", ("minidb.config", "ConsistencyLevel"));
   ("NodeRole", ("minidb.config", "NodeRole"));
   ("NodeState", ("minidb.config", "NodeState"));
   ("DatabaseNode", ("minidb.node", "DatabaseNode"));
   ("create_node", ("minidb.node", "create_node"));
   ("DatabaseCLI", ("minidb.cli", "DatabaseCLI"));
   ("run_cli", ("minidb.cli", "run_cli"))]%string.

Section package.
(** The objects of the program, and [getattr(import_module(m), a)]. *)
Context {object : Type} (import_from : string → string → res object).

Abbreviation globals := (dict string object).

(** [__getattr__]: the value, and the globals with it. *)
Definition __getattr__ (g : globals) (name : string) : globals * res object :=
  match dict_get _EXPORTS name with
  | None => (g, Raise AttributeError)
  | Some (m, a) =>
      match import_from m a with
      | Ok x => (dict_set name x g, Ok x)
      | Raise e => (g, Raise e)
      end
  end.

(** [minidb.name]: Python asks [__getattr__] only for a name it does not find. *)
Definition attribute (g : globals) (name : string) : globals * res object :=
  match dict_get g name with
  | Some x => (g, Ok x)
  | None => __getattr__ g name
  end.

Definition __dir__ (g : globals) : list string :=
  merge_sort String.le (remove_dups (dict_keys g ++ __all__)).

(** The table has an entry for every public name, and no others. *)
Lemma exports_public name : is_Some (dict_get _EXPORTS name) ↔ name ∈ __all__.
Proof.
  unfold _EXPORTS, __all__. cbn [dict_get]. rewrite !elem_of_cons, elem_of_nil.
  repeat (case_decide; [subst; naive_solver|]). split; [by intros [??]|naive_solver].
Qed.

(** A name that was found once is found again without an import, and the
    others are left as they were. *)
Lemma attribute_cached g name g' x : attribute g name = (g', Ok x) →
  attribute g' name = (g', Ok x) ∧ ∀ other, other ≠ name → dict_get g' other = dict_get g other.
Proof.
  unfold attribute. destruct (dict_get g name) as [y|] eqn:Hg; [intros [= <- <-]; by rewrite Hg|].
  unfold __getattr__. destruct (dict_get _EXPORTS name) as [[m a]|]; [|done].
  destruct (import_from m a) as [y|]; [|done]. intros [= <- <-].
  rewrite dict_get_set, decide_True by done. split; [done|]. intros other Hne.
  by rewrite dict_get_set, decide_False.
Qed.

End package.
End Exports.
