(* ===== verification/Fields.v ===== *)
(** Reading the fields of decoded JSON values, as every [from_dict] of the
    source does: a missing key raises [KeyError] or gives the default. *)

From S2P Require Import Prelude.
From S2P Require Import PyDict.
From S2P Require Import Json.
From S2P Require Import Config.

(** [data[name]] on a decoded value: only an object can be indexed by a
    string. *)
Definition subscript (j : json) (name : string) : res json :=
  match j with
  | JObj d => res_of_option KeyError (dict_get d name)
  | _ => Raise TypeError
  end.

Definition get_default (j : json) (name : string) (dflt : json) : res json :=
  match j with
  | JObj d => Ok (dict_get_or d name dflt)
  | _ => Raise AttributeError
  end.

(** The fields of a decoded entry at the types the dataclass declares.  Python
    does not check them: an object with a field of another JSON type, which
    the matching writer never produces, is outside the model and raises
    [TypeError]. *)
Definition as_time (j : json) : res time :=
  match j with JFloat t => Ok t | JInt n => Ok (seconds n) | _ => Raise TypeError end.
Definition as_int (j : json) : res Z :=
  match j with JInt n => Ok n | _ => Raise TypeError end.
Definition as_str (j : json) : res string :=
  match j with JStr s => Ok s | _ => Raise TypeError end.
Definition as_opt {A} (f : json → res A) (j : json) : res (option A) :=
  match j with JNull => Ok None | _ => res_map Some (f j) end.

Definition as_bool (j : json) : res bool :=
  match j with JBool b => Ok b | _ => Raise TypeError end.
Definition as_list (j : json) : res (list json) :=
  match j with JArr xs => Ok xs | _ => Raise TypeError end.
Definition as_dict (j : json) : res (dict string json) :=
  match j with JObj d => Ok d | _ => Raise TypeError end.

(** [SomeEnum(x)]: a [ValueError] when no member has that value. *)
Definition as_enum {A} `{PyEnum A} (j : json) : res A :=
  match j with JStr s => enum_of s | _ => Raise ValueError end.

(** [json.dumps] of an optional field. *)
Definition jopt {A} (f : A → json) (o : option A) : json :=
  match o with Some a => f a | None => JNull end.

(** A field that a writer leaves out when it is [None]. *)
Definition opt_field (name : string) (o : option json) : dict string json :=
  match o with Some j => [(name, j)] | None => [] end.

Fixpoint res_mapM {A B} (f : A → res B) (xs : list A) : res (list B) :=
  match xs with
  | [] => Ok []
  | x :: xs => (y ←! f x; ys ←! res_mapM f xs; Ok (y :: ys))%py
  end.
