(* ===== verification/Store.v ===== *)
(** [minidb/storage/kv_store.py]: the in-memory store with TTL.

    Every public method holds the store's re-entrant lock, so a method is one
    atomic function from the store and the clock to the store and the result.
    [KVSpec] is what the store promises: a finite map of unexpired keys. *)

From S2P Require Import Prelude.
From S2P Require Import PyDict.
From S2P Require Import Json.
From Stdlib Require Import QArith.
#[local] Open Scope Z_scope.

(** What [get_all_data] returns for a key, and what snapshots and AOF
    compaction accept: six fields, or the legacy three. *)
Inductive data_item :=
  | Item6 (value : json) (expires_at : option time) (version : Z)
          (created_at updated_at : time) (coordinator_id : string)
  | Item3 (value : json) (expires_at : option time) (version : Z).

Module KVStore.

Record KeyMetadata := mkMeta {
  value : json;
  created_at : time;
  updated_at : time;
  expires_at : option time;
  version : Z;
  coordinator_id : string;
}.

Record StoreStats := mkStats {
  hits : Z;
  misses : Z;
  sets : Z;
  deletes : Z;
  expired : Z;
  start_time : time;
}.

Record KVStore := mkStore {
  _store : dict string KeyMetadata;
  _stats : StoreStats;
  _ttl_index : dict time (list string);
}.

(** The optional arguments of [set]. *)
Record set_opts := mkOpts {
  o_ttl : option Z;
  o_version : option Z;
  o_expires_at : option time;
  o_created_at : option time;
  o_updated_at : option time;
  o_coordinator_id : option string;
}.
Definition no_opts : set_opts := mkOpts None None None None None None.

Definition init (now : time) : KVStore :=
  mkStore [] (mkStats 0 0 0 0 0 now) [].

Definition with_store (s : KVStore) d := mkStore d (_stats s) (_ttl_index s).
Definition with_stats (s : KVStore) f := mkStore (_store s) (f (_stats s)) (_ttl_index s).

Definition add_hit st := mkStats (hits st + 1) (misses st) (sets st) (deletes st) (expired st) (start_time st).
Definition add_miss st := mkStats (hits st) (misses st + 1) (sets st) (deletes st) (expired st) (start_time st).
Definition add_set st := mkStats (hits st) (misses st) (sets st + 1) (deletes st) (expired st) (start_time st).
Definition add_delete st := mkStats (hits st) (misses st) (sets st) (deletes st + 1) (expired st) (start_time st).
Definition add_expired st := mkStats (hits st) (misses st) (sets st) (deletes st) (expired st + 1) (start_time st).

(** [metadata.expires_at and time.time() > metadata.expires_at] *)
Definition is_expired (now : time) (m : KeyMetadata) : bool :=
  match expires_at m with
  | Some e => truthy_time (Some e) && (e <? now)
  | None => false
  end.

(** The metadata that [set] writes, from the entry already present. *)
Definition new_version (existing : option KeyMetadata) (o : set_opts) : Z :=
  let fresh := match existing with Some m => version m + 1 | None => 1 end in
  match o_version o with
  | Some v => if Z.eqb v 0 then fresh else v
  | None => fresh
  end.

Definition new_meta (now : time) (existing : option KeyMetadata) (v : json)
    (o : set_opts) : KeyMetadata :=
  let upd := default now (o_updated_at o) in
  let exp := match o_expires_at o with
             | Some e => Some e
             | None => match o_ttl o with Some t => Some (upd + seconds t) | None => None end
             end in
  {| value := v;
     created_at := match o_created_at o with
                   | Some c => c
                   | None => match existing with Some m => created_at m | None => upd end
                   end;
     updated_at := upd;
     expires_at := exp;
     version := new_version existing o;
     coordinator_id := match o_coordinator_id o with
                       | Some c => c
                       | None => match existing with Some m => coordinator_id m | None => "" end
                       end |}.

Definition set (now : time) (s : KVStore) (key : string) (v : json) (o : set_opts) : KVStore * bool :=
  let m := new_meta now (dict_get (_store s) key) v o in
  let index :=
    match expires_at m with
    | Some e => if truthy_time (Some e)
                then dict_set e (dict_get_or (_ttl_index s) e [] ++ [key]) (_ttl_index s)
                else _ttl_index s
    | None => _ttl_index s
    end in
  (mkStore (dict_set key m (_store s)) (add_set (_stats s)) index, true).

Definition _delete_internal (s : KVStore) (key : string) : KVStore :=
  if dict_mem key (_store s) then with_store s (dict_del key (_store s)) else s.

Definition get (now : time) (s : KVStore) (key : string) : KVStore * (json * bool) :=
  match dict_get (_store s) key with
  | None => (with_stats s add_miss, (JNull, false))
  | Some m =>
      if is_expired now m then
        (with_stats (_delete_internal s key) (λ st, add_expired (add_miss st)), (JNull, false))
      else (with_stats s add_hit, (value m, true))
  end.

Definition get_with_metadata (now : time) (s : KVStore) (key : string)
    : KVStore * option KeyMetadata :=
  match dict_get (_store s) key with
  | None => (s, None)
  | Some m => if is_expired now m then (_delete_internal s key, None) else (s, Some m)
  end.

Definition delete (s : KVStore) (key : string) : KVStore * bool :=
  if dict_mem key (_store s)
  then (with_stats (_delete_internal s key) add_delete, true)
  else (s, false).

Definition exists_ (now : time) (s : KVStore) (key : string) : KVStore * bool :=
  match dict_get (_store s) key with
  | None => (s, false)
  | Some m => if is_expired now m then (_delete_internal s key, false) else (s, true)
  end.

(** The keys found expired first, deleted one by one after. *)
Definition _cleanup_expired (now : time) (s : KVStore) : KVStore :=
  let expired_keys := dict_keys (base.filter (λ p, is_expired now p.2 = true) (_store s)) in
  fold_left (λ s key, with_stats (_delete_internal s key) add_expired) expired_keys s.

Definition cleanup_expired_keys := _cleanup_expired.

(** The pattern language of [keys]: everything, a prefix, or one key. *)
Definition matches (pattern key : string) : bool :=
  if decide (pattern = "*") then true
  else if decide (last_char pattern = Some "*"%char) then startswith key (drop_last pattern)
  else bool_decide (key = pattern).

Definition keys (now : time) (s : KVStore) (pattern : string) : KVStore * list string :=
  let s := _cleanup_expired now s in
  (s, base.filter (λ k, matches pattern k = true) (dict_keys (_store s))).

Definition to_item (m : KeyMetadata) : data_item :=
  Item6 (value m) (expires_at m) (version m) (created_at m) (updated_at m) (coordinator_id m).

Definition get_all_data (now : time) (s : KVStore) : KVStore * dict string data_item :=
  let s := _cleanup_expired now s in (s, dict_map_values to_item (_store s)).

Definition of_item (now : time) (i : data_item) : KeyMetadata :=
  match i with
  | Item6 v e ver c u co => mkMeta v c u e ver co
  | Item3 v e ver => mkMeta v now now e ver ""
  end.

(** One round of [load_data]'s loop: expired entries are skipped. *)
Definition load_item (now : time) (d : dict string KeyMetadata) (p : string * data_item) :=
  let m := of_item now p.2 in
  if is_expired now m then d else dict_set p.1 m d.

Definition load_data (now : time) (s : KVStore) (data : dict string data_item) : KVStore :=
  with_store s (fold_left (load_item now) data (_store s)).

Definition clear (s : KVStore) : KVStore := mkStore [] (_stats s) [].
Definition size (s : KVStore) : nat := length (_store s).
Definition get_version (s : KVStore) (key : string) : option Z :=
  version <$> dict_get (_store s) key.
Definition get_keys_for_shard (s : KVStore) (shard_keys : gset string) : dict string KeyMetadata :=
  base.filter (λ p, p.1 ∈ shard_keys) (_store s).

(** [StoreStats.hit_rate], [uptime] and [get_stats]. *)
Definition hit_rate (st : StoreStats) : Q :=
  let total := hits st + misses st in
  if 0 <? total then (hits st # Z.to_pos total)%Q else 0%Q.

Definition uptime (now : time) (st : StoreStats) : time := now - start_time st.

Record stats_view := mkView {
  v_stats : StoreStats;
  v_uptime : time;
  v_hit_rate : Q;
  v_key_count : nat;
  v_memory_keys : nat;
}.

Definition get_stats (now : time) (s : KVStore) : stats_view :=
  {| v_stats := _stats s;
     v_uptime := uptime now (_stats s);
     v_hit_rate := hit_rate (_stats s);
     v_key_count := length (_store s);
     v_memory_keys := sum_list_with String.length (dict_keys (_store s)) |}.

End KVStore.
