(* ===== verification/StoreSpec.v ===== *)
(** What the store promises, and that [KVStore] keeps the promise.

    [KVSpec] sees a finite map from keys to the metadata of unexpired entries
    and a clock.  It leaves open what the implementation leaves open: whether
    deleting a key that has expired reports [True], and what version and
    creation time a [set] takes over from an expired entry that was not
    swept yet. *)

From S2P Require Import Prelude.
From S2P Require Import PyDict.
From S2P Require Import Json.
From S2P Require Import Store.

Module KVSpec.
Import KVStore.

Inductive op :=
  | OSet (key : string) (v : json) (o : set_opts)
  | OGet (key : string)
  | OGetMeta (key : string)
  | ODelete (key : string)
  | OExists (key : string)
  | OKeys (pattern : string)
  | OCleanup
  | OGetAll
  | OLoad (data : dict string data_item)
  | OClear.

Inductive reply :=
  | RUnit
  | RBool (b : bool)
  | RVal (v : json) (found : bool)
  | RMeta (m : option KeyMetadata)
  | RKeys (ks : list string)
  | RData (d : dict string data_item).

(** One call of the implementation at time [now]. *)
Definition run (now : time) (s : KVStore) (o : op) : KVStore * reply :=
  match o with
  | OSet k v opts => let '(s, b) := set now s k v opts in (s, RBool b)
  | OGet k => let '(s, (v, b)) := get now s k in (s, RVal v b)
  | OGetMeta k => let '(s, m) := get_with_metadata now s k in (s, RMeta m)
  | ODelete k => let '(s, b) := delete s k in (s, RBool b)
  | OExists k => let '(s, b) := exists_ now s k in (s, RBool b)
  | OKeys p => let '(s, ks) := keys now s p in (s, RKeys ks)
  | OCleanup => (cleanup_expired_keys now s, RUnit)
  | OGetAll => let '(s, d) := get_all_data now s in (s, RData d)
  | OLoad d => (load_data now s d, RUnit)
  | OClear => (clear s, RUnit)
  end.

(** Time passes: what has expired at [now] is gone. *)
Definition expire (now : time) (M : gmap string KeyMetadata) : gmap string KeyMetadata :=
  base.filter (λ p, is_expired now p.2 = false) M.

(** Writing an entry that is already expired removes the key. *)
Definition put (now : time) (k : string) (m : KeyMetadata) (M : gmap string KeyMetadata) :=
  if is_expired now m then base.delete k M else <[k := m]> M.

Definition put_item (now : time) (M : gmap string KeyMetadata) (p : string * data_item) :=
  let m := of_item now p.2 in if is_expired now m then M else <[p.1 := m]> M.

Inductive spec_step (now : time) (M : gmap string KeyMetadata)
    : op → gmap string KeyMetadata → reply → Prop :=
  | SSet k v o old :
      (∀ m, M !! k = Some m → old = Some m) →
      spec_step now M (OSet k v o) (put now k (new_meta now old v o) M) (RBool true)
  | SGetHit k m : M !! k = Some m → spec_step now M (OGet k) M (RVal (value m) true)
  | SGetMiss k : M !! k = None → spec_step now M (OGet k) M (RVal JNull false)
  | SGetMeta k : spec_step now M (OGetMeta k) M (RMeta (M !! k))
  | SDelete k b :
      (is_Some (M !! k) → b = true) →
      spec_step now M (ODelete k) (base.delete k M) (RBool b)
  | SExists k : spec_step now M (OExists k) M (RBool (bool_decide (is_Some (M !! k))))
  | SKeys p ks :
      NoDup ks → (∀ k, k ∈ ks ↔ is_Some (M !! k) ∧ matches p k = true) →
      spec_step now M (OKeys p) M (RKeys ks)
  | SCleanup : spec_step now M OCleanup M RUnit
  | SGetAll d :
      dict_wf d → (∀ k, dict_get d k = to_item <$> M !! k) →
      spec_step now M OGetAll M (RData d)
  | SLoad d : spec_step now M (OLoad d) (fold_left (put_item now) d M) RUnit
  | SClear : spec_step now M OClear ∅ RUnit.

(** A run of calls, each with the time it is made at. *)
Fixpoint run_all (s : KVStore) (tr : list (time * op)) : KVStore * list reply :=
  match tr with
  | [] => (s, [])
  | (now, o) :: tr =>
      let '(s, r) := run now s o in
      let '(s, rs) := run_all s tr in (s, r :: rs)
  end.

Inductive spec_trace : time → gmap string KeyMetadata → list (time * op) →
    time → gmap string KeyMetadata → list reply → Prop :=
  | spec_nil t M : spec_trace t M [] t M []
  | spec_cons t now M o M' r tr t' M'' rs :
      t <= now →
      spec_step now (expire now M) o M' r →
      spec_trace now M' tr t' M'' rs →
      spec_trace t M ((now, o) :: tr) t' M'' (r :: rs).

(** The clock never runs backwards. *)
Fixpoint monotone (t : time) (tr : list (time * op)) : Prop :=
  match tr with [] => True | (now, _) :: tr => t <= now ∧ monotone now tr end.

Definition last_time (t : time) (tr : list (time * op)) : time :=
  fold_left (λ _ p, p.1) tr t.

End KVSpec.

(** ** The abstraction and its lemmas *)

Module KVFacts.
Import KVStore KVSpec.

Definition wf (s : KVStore) : Prop := dict_wf (_store s).

Definition live (now : time) (p : string * KeyMetadata) : Prop := is_expired now p.2 = false.
#[export] Instance live_dec now p : Decision (live now p).
Proof. unfold live. apply _. Defined.

Definition abs (now : time) (s : KVStore) : gmap string KeyMetadata :=
  dict_map (base.filter (live now) (_store s)).

Lemma lookup_abs now s k : wf s →
  abs now s !! k =
    match dict_get (_store s) k with
    | Some m => if is_expired now m then None else Some m
    | None => None
    end.
Proof.
  intros Hwf. unfold abs. rewrite lookup_dict_map, dict_get_filter by done.
  destruct (dict_get _ _) as [m|]; [|done].
  case_decide as Hd; unfold live in Hd; simpl in Hd; by destruct (is_expired now m).
Qed.

Lemma is_expired_mono t t' m : t <= t' → is_expired t m = true → is_expired t' m = true.
Proof.
  unfold is_expired. destruct (expires_at m) as [e|]; [|done].
  intros Ht H. zbool. apply andb_true_intro. split; [done|]. apply Z.ltb_lt. lia.
Qed.

Lemma abs_later t t' s : wf s → t <= t' → abs t' s = expire t' (abs t s).
Proof.
  intros Hwf Ht. apply map_eq. intros k. unfold expire.
  rewrite lookup_abs by done. symmetry.
  destruct (dict_get (_store s) k) as [m|] eqn:E.
  - destruct (is_expired t' m) eqn:Ex'.
    + apply map_lookup_filter_None. right. intros m'. rewrite lookup_abs, E by done.
      destruct (is_expired t m); intros; simplify_eq/=. congruence.
    + apply map_lookup_filter_Some. split; [|done]. rewrite lookup_abs, E by done.
      destruct (is_expired t m) eqn:Ex; [|done].
      apply (is_expired_mono _ _ _ Ht) in Ex. congruence.
  - apply map_lookup_filter_None. left. by rewrite lookup_abs, E.
Qed.

(** Two stores with the same reading at every key have the same abstraction. *)
Lemma abs_ext now s M :
  wf s →
  (∀ k, match dict_get (_store s) k with
        | Some m => if is_expired now m then None else Some m
        | None => None
        end = M !! k) →
  abs now s = M.
Proof. intros Hwf H. apply map_eq. intros k. rewrite lookup_abs by done. apply H. Qed.

(** ** Sweeping *)

Lemma store_delete_internal s k : _store (_delete_internal s k) = dict_del k (_store s).
Proof.
  unfold _delete_internal. destruct (dict_mem k (_store s)) eqn:E; [done|].
  apply dict_mem_false, dict_get_None in E. symmetry. apply pfilter_all.
  intros [k' m] Hin Heq. apply E. apply list_elem_of_fmap. by exists (k', m).
Qed.

Lemma sweep_store ks s :
  _store (fold_left (λ s key, with_stats (_delete_internal s key) add_expired) ks s) =
    base.filter (λ p, p.1 ∉ ks) (_store s).
Proof.
  revert s. induction ks as [|k ks IH]; intros s; simpl.
  - symmetry. apply pfilter_all. intros p _. apply not_elem_of_nil.
  - rewrite IH. simpl. rewrite store_delete_internal. unfold dict_del.
    rewrite list_filter_filter. apply list_filter_iff.
    intros p. rewrite not_elem_of_cons. tauto.
Qed.

Lemma cleanup_store now s : wf s →
  _store (_cleanup_expired now s) = base.filter (live now) (_store s).
Proof.
  intros Hwf. unfold _cleanup_expired. rewrite sweep_store.
  apply pfilter_ext. intros [k m] Hin. unfold live, dict_keys. simpl.
  rewrite <-not_true_iff_false. apply not_iff_compat.
  rewrite list_elem_of_fmap. split.
  - intros ([k' m'] & -> & [Hex Hin']%list_elem_of_filter). simpl in *.
    by rewrite (dict_in_wf_unique _ _ _ _ Hwf Hin Hin').
  - intros Hex. exists (k, m). split; [done|]. by apply list_elem_of_filter.
Qed.

Lemma cleanup_wf now s : wf s → wf (_cleanup_expired now s).
Proof. intros Hwf. unfold wf. rewrite cleanup_store by done. by apply dict_wf_filter. Qed.

Lemma cleanup_get now s k : wf s →
  dict_get (_store (_cleanup_expired now s)) k = abs now s !! k.
Proof. intros Hwf. rewrite cleanup_store by done. unfold abs. by rewrite lookup_dict_map. Qed.

Lemma cleanup_abs now s : wf s → abs now (_cleanup_expired now s) = abs now s.
Proof.
  intros Hwf. apply abs_ext; [by apply cleanup_wf|]. intros k.
  rewrite cleanup_get by done. rewrite lookup_abs by done.
  destruct (dict_get _ _) as [m|]; [|done]. by destruct (is_expired now m) eqn:E; rewrite ?E.
Qed.

(** ** Every operation refines the specification *)

Lemma set_step now s k v o : wf s →
  spec_step now (abs now s) (OSet k v o) (abs now (set now s k v o).1) (RBool true) ∧
  wf (set now s k v o).1.
Proof.
  intros Hwf. assert (Hwf' : wf (set now s k v o).1) by by apply dict_wf_set.
  split; [|done].
  replace (abs now (set now s k v o).1)
    with (put now k (new_meta now (dict_get (_store s) k) v o) (abs now s)).
  - constructor. intros m. rewrite lookup_abs by done.
    destruct (dict_get _ _) as [m'|]; [|done]. by destruct (is_expired now m').
  - symmetry. apply abs_ext; [done|]. intros k'. simpl. rewrite dict_get_set. unfold put.
    destruct (is_expired now (new_meta _ _ _ _)) eqn:E.
    + rewrite lookup_delete. case_decide; [by rewrite E|]. by rewrite lookup_abs.
    + rewrite lookup_insert. case_decide; [by rewrite E|]. by rewrite lookup_abs.
Qed.

(** Dropping an expired entry changes nothing that can be seen. *)
Lemma drop_expired_abs now s k m s' :
  wf s → dict_get (_store s) k = Some m → is_expired now m = true →
  _store s' = dict_del k (_store s) → abs now s' = abs now s ∧ wf s'.
Proof.
  intros Hwf Hk Hex Hs'. assert (wf s') by (unfold wf; rewrite Hs'; by apply dict_wf_del).
  split; [|done]. apply abs_ext; [done|]. intros k'. rewrite Hs', dict_get_del, lookup_abs by done.
  case_decide; [|done]. simplify_eq. by rewrite Hk, Hex.
Qed.

Lemma get_step now s k : wf s →
  let '(s', (v, b)) := get now s k in
  spec_step now (abs now s) (OGet k) (abs now s') (RVal v b) ∧ wf s'.
Proof.
  intros Hwf. unfold get. pose proof (lookup_abs now s k Hwf) as Hl.
  destruct (dict_get (_store s) k) as [m|] eqn:E; [|split; [by constructor|done]].
  destruct (is_expired now m) eqn:Ex; [|split; [by constructor|done]].
  edestruct (drop_expired_abs now s k m) as [Ha Hw]; [done..| |].
  { exact (store_delete_internal s k). }
  split; [|exact Hw]. rewrite <-Ha at 1. rewrite <-Ha in Hl. by apply SGetMiss.
Qed.

Lemma get_meta_step now s k : wf s →
  let '(s', m) := get_with_metadata now s k in
  abs now s' = abs now s ∧ m = abs now s !! k ∧ wf s'.
Proof.
  intros Hwf. unfold get_with_metadata. rewrite lookup_abs by done.
  destruct (dict_get (_store s) k) as [m|] eqn:E; [|done].
  destruct (is_expired now m) eqn:Ex; [|done].
  edestruct (drop_expired_abs now s k m) as [-> ?]; [done..|apply store_delete_internal|done].
Qed.

Lemma exists_step now s k : wf s →
  let '(s', b) := exists_ now s k in
  abs now s' = abs now s ∧ b = bool_decide (is_Some (abs now s !! k)) ∧ wf s'.
Proof.
  intros Hwf. pose proof (get_meta_step now s k Hwf) as H.
  unfold exists_, get_with_metadata in *.
  destruct (dict_get (_store s) k) as [m|]; [destruct (is_expired now m)|];
    destruct H as (Ha & Hm & ?); rewrite <-Hm; by split_and!.
Qed.

Lemma delete_step now s k : wf s →
  let '(s', b) := delete s k in
  spec_step now (abs now s) (ODelete k) (abs now s') (RBool b) ∧ wf s'.
Proof.
  intros Hwf. unfold delete. destruct (dict_mem k (_store s)) eqn:E.
  - assert (Hw : wf (with_stats (_delete_internal s k) add_delete)).
    { unfold wf. simpl. rewrite store_delete_internal. by apply dict_wf_del. }
    split; [|done].
    replace (abs now (with_stats (_delete_internal s k) add_delete))
      with (base.delete k (abs now s)); [by constructor|].
    symmetry. apply abs_ext; [done|]. intros k'. simpl.
    rewrite store_delete_internal, dict_get_del, lookup_delete, lookup_abs by done.
    by case_decide.
  - split; [|done]. apply dict_mem_false in E.
    assert (Hn : abs now s !! k = None) by by rewrite lookup_abs, E.
    rewrite <-(delete_id (abs now s) k Hn) at 2. constructor. rewrite Hn. by intros [? [=]].
Qed.

Lemma keys_step now s p : wf s →
  let '(s', ks) := keys now s p in
  spec_step now (abs now s) (OKeys p) (abs now s') (RKeys ks) ∧ wf s'.
Proof.
  intros Hwf. unfold keys. rewrite cleanup_abs by done. split; [|by apply cleanup_wf].
  constructor.
  - apply NoDup_filter. by apply cleanup_wf.
  - intros k. rewrite list_elem_of_filter, <-dict_get_is_Some, cleanup_get by done. tauto.
Qed.

Lemma load_step now s d : wf s →
  abs now (load_data now s d) = fold_left (put_item now) d (abs now s) ∧
  wf (load_data now s d).
Proof.
  revert s. induction d as [|[k i] d IH]; intros s Hwf; [by destruct s|].
  unfold load_data in *. simpl. unfold load_item at 2 4, put_item at 2. simpl.
  destruct (is_expired now (of_item now i)) eqn:E; [by apply IH|].
  assert (Hw : wf (with_store s (dict_set k (of_item now i) (_store s)))) by by apply dict_wf_set.
  destruct (IH _ Hw) as [Ha Hw']. split; [|exact Hw'].
  etrans; [exact Ha|]. f_equal. apply abs_ext; [done|]. intros k'. simpl.
  rewrite dict_get_set, lookup_insert, lookup_abs by done. case_decide; by rewrite ?E.
Qed.

Lemma run_step now s o : wf s →
  spec_step now (abs now s) o (abs now (run now s o).1) (run now s o).2 ∧
  wf (run now s o).1.
Proof.
  intros Hwf. destruct o as [k v o|k|k|k|k|p| | |d|]; unfold run.
  - exact (set_step now s k v o Hwf).
  - pose proof (get_step now s k Hwf) as H. by destruct (get now s k) as [s' [v b]].
  - pose proof (get_meta_step now s k Hwf) as H.
    destruct (get_with_metadata now s k) as [s' m]. destruct H as (Ha & -> & ?).
    simpl. rewrite Ha. by split; [constructor|].
  - pose proof (delete_step now s k Hwf) as H. by destruct (delete s k) as [s' b].
  - pose proof (exists_step now s k Hwf) as H.
    destruct (exists_ now s k) as [s' b]. destruct H as (Ha & -> & ?).
    simpl. rewrite Ha. by split; [constructor|].
  - pose proof (keys_step now s p Hwf) as H. by destruct (keys now s p) as [s' ks].
  - simpl. unfold cleanup_expired_keys. rewrite cleanup_abs by done.
    split; [constructor|by apply cleanup_wf].
  - simpl. rewrite cleanup_abs by done. split; [|by apply cleanup_wf]. constructor.
    + unfold dict_wf. rewrite dict_keys_map_values. by apply cleanup_wf.
    + intros k. by rewrite dict_get_map_values, cleanup_get.
  - destruct (load_step now s d Hwf) as [Ha ?]. simpl. rewrite Ha. by split; [constructor|].
  - simpl. split; [|constructor].
    replace (abs now (clear s)) with (∅ : gmap string KeyMetadata) by done. constructor.
Qed.

(** Claim C3.  The store refines the finite map of unexpired keys: every run
    of calls on a well-formed store, at times that never go back, gives
    replies and a final state that the specification allows. *)
Theorem kvstore_refines s t tr :
  wf s → monotone t tr →
  spec_trace t (abs t s) tr (last_time t tr)
    (abs (last_time t tr) (run_all s tr).1) (run_all s tr).2 ∧
  wf (run_all s tr).1.
Proof.
  revert s t. induction tr as [|[now o] tr IH]; intros s t Hwf; simpl.
  { split; [constructor|done]. }
  intros [Ht Hm]. destruct (run_step now s o Hwf) as [Hs Hw].
  destruct (run now s o) as [s' r]. simpl in *.
  destruct (IH s' now Hw Hm) as [Htr Hwf']. destruct (run_all s' tr) as [s'' rs]. simpl in *.
  split; [|done]. eapply spec_cons; [exact Ht| |exact Htr].
  by rewrite <-(abs_later t now).
Qed.

Definition example_run : list (time * op) :=
  [(10, OSet "k" (JStr "v") (mkOpts (Some 5) None None None None None));
   (20, OGet "k");
   (seconds 6, OGet "k");
   (seconds 6, ODelete "k")].

Lemma kvstore_refines_witness :
  (run_all (init 0) example_run).2 =
    [RBool true; RVal (JStr "v") true; RVal JNull false; RBool false] ∧
  spec_trace 0 ∅ example_run (seconds 6)
    (abs (seconds 6) (run_all (init 0) example_run).1) (run_all (init 0) example_run).2.
Proof.
  split; [vm_compute; reflexivity|].
  apply (kvstore_refines (init 0) 0 example_run).
  - constructor.
  - cbv [monotone example_run seconds]. lia.
Defined.

End KVFacts.
