(* ===== verification/Sha256.v ===== *)
(** SHA-256, the hash of the standard library that the ring and the Merkle
    trees use.  Words are 32-bit numbers with the wrap-around written out;
    the known answers at the end check the function. *)

From S2P Require Import Prelude.
#[local] Open Scope N_scope.

Definition add32 (a b : N) : N := (a + b) mod 0x100000000.
Definition rotr (k x : N) : N :=
  N.lor (N.shiftr x k) (N.shiftl x (32 - k) mod 0x100000000).
Definition ch (x y z : N) : N := N.lxor (N.land x y) (N.land (N.lxor x 0xffffffff) z).
Definition maj (x y z : N) : N := N.lxor (N.land x y) (N.lxor (N.land x z) (N.land y z)).
Definition big_sigma0 (x : N) : N := N.lxor (rotr 2 x) (N.lxor (rotr 13 x) (rotr 22 x)).
Definition big_sigma1 (x : N) : N := N.lxor (rotr 6 x) (N.lxor (rotr 11 x) (rotr 25 x)).
Definition small_sigma0 (x : N) : N := N.lxor (rotr 7 x) (N.lxor (rotr 18 x) (N.shiftr x 3)).
Definition small_sigma1 (x : N) : N := N.lxor (rotr 17 x) (N.lxor (rotr 19 x) (N.shiftr x 10)).

(** The constants of the standard are the first 32 fractional bits of roots of
    the first primes: cube roots for the rounds, square roots for the start. *)

Definition is_prime (n : N) : bool :=
  forallb (λ d, negb (n mod N.of_nat d =? 0)) (seq 2 (N.to_nat n - 2)).

(** The first 64 primes are below 312. *)
Definition primes : list N := base.filter (λ n, is_prime n = true) (N.of_nat <$> seq 2 310).

(** The greatest [r] with [r ^ 3 <= x], bit by bit from [2 ^ n]. *)
Fixpoint cube_root (n : nat) (r x : N) : N :=
  let r' := r + 2 ^ N.of_nat n in
  let r := if r' * r' * r' <=? x then r' else r in
  match n with O => r | S n => cube_root n r x end.

Definition round_constants : list N :=
  Eval vm_compute in
    (λ p, cube_root 35 0 (N.shiftl p 96) mod 0x100000000) <$> take 64 primes.

Definition initial_hash : list N :=
  Eval vm_compute in
    (λ p, N.sqrt (N.shiftl p 64) mod 0x100000000) <$> take 8 primes.

(** One round: the working variables and the last sixteen schedule words. *)
Definition round (st : list N * list N) (k : N) : list N * list N :=
  match st with
  | ([a; b; c; d; e; f; g; h], (w0 :: w1 :: _) as ws) =>
      let t1 := add32 h (add32 (big_sigma1 e) (add32 (ch e f g) (add32 k w0))) in
      let t2 := add32 (big_sigma0 a) (maj a b c) in
      let w := add32 (small_sigma1 (nth 14 ws 0)) (add32 (nth 9 ws 0) (add32 (small_sigma0 w1) w0)) in
      ([add32 t1 t2; a; b; c; add32 d t1; e; f; g], tail ws ++ [w])
  | _ => st
  end.

Definition compress (h : list N) (block : list N) : list N :=
  zip_with add32 h (fold_left round round_constants (h, block)).1.

(** Big-endian words of four bytes. *)
Fixpoint words_of (bs : list N) : list N :=
  match bs with
  | a :: b :: c :: d :: bs => (((a * 256 + b) * 256 + c) * 256 + d) :: words_of bs
  | _ => []
  end.

Fixpoint bytes_be (n : nat) (x : N) : list N :=
  match n with
  | O => []
  | S n => N.shiftr x (8 * N.of_nat n) mod 256 :: bytes_be n x
  end.

(** The padded message: a one bit, zeros, the length in bits. *)
Definition pad (bs : list N) : list N :=
  let len := length bs in
  bs ++ [128] ++ replicate ((119 - len mod 64) mod 64) 0 ++ bytes_be 8 (8 * N.of_nat len).

Fixpoint blocks (fuel : nat) (ws h : list N) : list N :=
  match fuel, ws with
  | S fuel, _ :: _ => blocks fuel (drop 16 ws) (compress h (take 16 ws))
  | _, _ => h
  end.

(** [s.encode()]: UTF-8, for code points below 256. *)
Fixpoint utf8 (s : string) : list N :=
  match s with
  | EmptyString => []
  | String c s =>
      let n := N_of_ascii c in
      (if n <? 128 then [n] else [192 + n / 64; 128 + n mod 64]) ++ utf8 s
  end.

Definition sha256_words (bs : list N) : list N :=
  let ws := words_of (pad bs) in blocks (length ws) ws initial_hash.

(** [int(hashlib.sha256(s.encode()).hexdigest(), 16)] *)
Definition sha256_int (s : string) : N :=
  fold_left (λ acc w, acc * 0x100000000 + w) (sha256_words (utf8 s)) 0.

Definition hex_char (n : N) : ascii := ascii_of_N (if n <? 10 then n + 48 else n + 87).

Fixpoint hex_be (n : nat) (x : N) : string :=
  match n with
  | O => EmptyString
  | S n => String (hex_char (N.shiftr x (4 * N.of_nat n) mod 16)) (hex_be n x)
  end.

(** [hashlib.sha256(s.encode()).hexdigest()] *)
Definition sha256_hex (s : string) : string :=
  fold_right String.append EmptyString (hex_be 8 <$> sha256_words (utf8 s)).

Example sha256_empty :
  sha256_hex "" = "e3b0c44298fc1c149afbf4c8996fb92427ae41e4649b934ca495991b7852b855".
Proof. vm_compute. reflexivity. Qed.

Example sha256_abc :
  sha256_hex "abc" = "ba7816bf8f01cfea414140de5dae2223b00361a396177a9cb410ff61f20015ad".
Proof. vm_compute. reflexivity. Qed.

Example sha256_two_blocks :
  sha256_hex "abcdbcdecdefdefgefghfghighijhijkijkljklmklmnlmnomnopnopq" =
    "248d6a61d20638b8e5c026930c3e6039a33ce45964ff2167f6ecedd419db06c1".
Proof. vm_compute. reflexivity. Qed.
