(* ===== verification/Ring.v ===== *)
(** [minidb/sharding/consistent_hash.py]: the consistent hash ring.

    The ring is the sorted list of (hash, node) pairs, searched with the
    standard library's [bisect].  The hash is a class with the source's
    SHA-256 as its instance, so the theorems hold for every hash function and
    the definitions compute. *)

From S2P Require Import Prelude.
From S2P Require Import PyDict.
From S2P Require Import Sha256.

(** The ring's [_hash]. *)
Class RingHash := ring_hash : string → N.

(** [ConsistentHashRing._hash] *)
Definition _hash (key : string) : N := sha256_int key.

#[export] Instance sha256_ring_hash : RingHash := _hash.

(** Python compares tuples from the left. *)
Definition pair_ltb (a b : N * string) : bool :=
  (a.1 <? b.1)%N || ((a.1 =? b.1)%N && str_ltb a.2 b.2).

(** ** [bisect] *)

(** The loops of [bisect_left] and [bisect_right]: [before a] tells whether
    the insertion point lies after [a]. *)
Fixpoint bisect_loop {A} (fuel : nat) (before : A → bool) (xs : list A) (lo hi : nat) : nat :=
  match fuel with
  | O => lo
  | S fuel =>
      if (lo <? hi)%nat then
        let mid := ((lo + hi) / 2)%nat in
        match xs !! mid with
        | Some a => if before a then bisect_loop fuel before xs (S mid) hi
                    else bisect_loop fuel before xs lo mid
        | None => lo
        end
      else lo
  end.

Definition bisect_left (xs : list (N * string)) (x : N * string) : nat :=
  bisect_loop (S (length xs)) (λ a, pair_ltb a x) xs 0 (length xs).

Definition bisect_right (xs : list (N * string)) (x : N * string) : nat :=
  bisect_loop (S (length xs)) (λ a, negb (pair_ltb x a)) xs 0 (length xs).

(** [bisect.insort] *)
Definition insort (xs : list (N * string)) (x : N * string) : list (N * string) :=
  let i := bisect_right xs x in take i xs ++ x :: drop i xs.

Module Ring.
Section ring.
Context `{RingHash}.

Record ConsistentHashRing := mkRing {
  virtual_nodes : nat;
  _ring : list (N * string);
  _nodes : gset string;
}.

Definition init (vn : nat) : ConsistentHashRing := mkRing vn [] ∅.

(** [f"{node_id}:{i}"] *)
Definition vnode_key (node_id : string) (i : nat) : string :=
  node_id +:+ ":" +:+ pretty i.

Definition vnode (node_id : string) (i : nat) : N * string :=
  (ring_hash (vnode_key node_id i), node_id).

Definition add_node (r : ConsistentHashRing) (node_id : string) : ConsistentHashRing :=
  if decide (node_id ∈ _nodes r) then r
  else mkRing (virtual_nodes r)
         (fold_left (λ ring i, insort ring (vnode node_id i)) (seq 0 (virtual_nodes r)) (_ring r))
         ({[node_id]} ∪ _nodes r).

Definition remove_node (r : ConsistentHashRing) (node_id : string) : ConsistentHashRing :=
  if decide (node_id ∈ _nodes r)
  then mkRing (virtual_nodes r) (base.filter (λ p, p.2 ≠ node_id) (_ring r)) (_nodes r ∖ {[node_id]})
  else r.

Definition get_node (r : ConsistentHashRing) (key : string) : option string :=
  match _ring r with
  | [] => None
  | _ =>
      let idx := bisect_left (_ring r) (ring_hash key, EmptyString) in
      let idx := if (idx =? length (_ring r))%nat then 0%nat else idx in
      snd <$> _ring r !! idx
  end.

(** The loop of [get_nodes] over [i in range(len(ring))], with its early
    [break] once [count] nodes are collected. *)
Fixpoint collect (ring : list (N * string)) (idx : nat) (count : Z)
    (idxs : list nat) (nodes : list string) (seen : gset string) : list string :=
  match idxs with
  | [] => nodes
  | i :: idxs =>
      match ring !! ((idx + i) mod length ring)%nat with
      | None => nodes
      | Some (_, node_id) =>
          if decide (node_id ∈ seen) then collect ring idx count idxs nodes seen
          else
            let nodes := nodes ++ [node_id] in
            if Z.of_nat (length nodes) >=? count then nodes
            else collect ring idx count idxs nodes ({[node_id]} ∪ seen)
      end
  end.

Definition get_nodes (r : ConsistentHashRing) (key : string) (count : Z) : list string :=
  match _ring r with
  | [] => []
  | _ =>
      let idx := bisect_left (_ring r) (ring_hash key, EmptyString) in
      collect (_ring r) idx count (seq 0 (length (_ring r))) [] ∅
  end.

Definition get_all_nodes (r : ConsistentHashRing) : list string := elements (_nodes r).
Definition get_node_count (r : ConsistentHashRing) : nat := size (_nodes r).
Definition get_ring_state (r : ConsistentHashRing) : list (N * string) := take 20 (_ring r).

(** [get_key_distribution]: how many sample keys each node owns. *)
Definition get_key_distribution (r : ConsistentHashRing) (sample_keys : list string)
    : dict string Z :=
  fold_left (λ d key,
    match get_node r key with
    | Some node => if truthy_str node then dict_set node (dict_get_or d node 0 + 1) d else d
    | None => d
    end) sample_keys [].

End ring.
End Ring.
