(* ===== verification/RingFacts.v ===== *)
(** The ring: [bisect] finds the insertion point, the ring is a function of
    its node set, owners and replica sets are the distinct nodes met clockwise
    from the key, and a node that joins or leaves moves only its own keys. *)

From S2P Require Import Prelude.
From S2P Require Import PyDict.
From S2P Require Import Sha256.
From S2P Require Import Ring.
From stdpp Require Import sorting.
#[local] Open Scope Z_scope.

(** ** [bisect] *)

(** [i] is the insertion point: [before] holds exactly left of it. *)
Definition cut_at {A} (before : A → bool) (xs : list A) (i : nat) : Prop :=
  (i <= length xs)%nat ∧
  ∀ j a, xs !! j = Some a → before a = true ↔ (j < i)%nat.

(** On a list that [before] splits into a true and a false part, the loop
    returns the length of the true part. *)
Lemma bisect_loop_spec {A} (before : A → bool) (xs : list A) fuel lo hi :
  (hi - lo < fuel)%nat → (lo <= hi <= length xs)%nat →
  (∀ i j a b, (i <= j)%nat → xs !! i = Some a → xs !! j = Some b →
    before b = true → before a = true) →
  (∀ i a, (i < lo)%nat → xs !! i = Some a → before a = true) →
  (∀ i a, (hi <= i)%nat → xs !! i = Some a → before a = false) →
  cut_at before xs (bisect_loop fuel before xs lo hi).
Proof.
  intros Hf Hb Hmono. revert lo hi Hf Hb.
  induction fuel as [|fuel IH]; intros lo hi Hf Hb Hlo Hhi; [lia|]. cbn [bisect_loop].
  destruct (Nat.ltb_spec lo hi) as [Hlt|Hge].
  - assert (Hmid : (lo <= (lo + hi) / 2 < hi)%nat).
    { split; [apply Nat.div_le_lower_bound; lia|apply Nat.Div0.div_lt_upper_bound; lia]. }
    set (mid := ((lo + hi) / 2)%nat) in *.
    destruct (lookup_lt_is_Some_2 xs mid ltac:(lia)) as [a Ha]. rewrite Ha.
    destruct (before a) eqn:Eb.
    + apply IH; [lia|lia| |done]. intros i b Hi Hib.
      apply (Hmono i mid b a ltac:(lia) Hib Ha Eb).
    + apply IH; [lia|lia|done|]. intros i b Hi Hib.
      destruct (before b) eqn:Ebb; [|done].
      rewrite (Hmono mid i a b Hi Ha Hib Ebb) in Eb. done.
  - split; [lia|]. intros j a Ha. destruct (Nat.lt_ge_cases j lo) as [Hj|Hj].
    + rewrite (Hlo _ _ Hj Ha). done.
    + rewrite (Hhi j a ltac:(lia) Ha). split; [done|lia].
Qed.

Lemma cut_at_take {A} (before : A → bool) (xs : list A) i a : cut_at before xs i →
  a ∈ take i xs → before a = true.
Proof.
  intros [_ Hc] (j & [Hj Hl]%lookup_take_Some)%list_elem_of_lookup. by apply (Hc j).
Qed.

Lemma cut_at_drop {A} (before : A → bool) (xs : list A) i a : cut_at before xs i →
  a ∈ drop i xs → before a = false.
Proof.
  intros [_ Hc] (j & Hj)%list_elem_of_lookup. rewrite lookup_drop in Hj.
  apply not_true_iff_false. rewrite (Hc _ _ Hj). lia.
Qed.

Lemma cut_at_filter {A} (before : A → bool) (xs : list A) i : cut_at before xs i →
  take i xs = base.filter (λ a, before a = true) xs ∧
  drop i xs = base.filter (λ a, before a = false) xs.
Proof.
  intros Hc. rewrite <-(take_drop i xs) at 2 4. rewrite !filter_app. split.
  - rewrite (pfilter_all _ (take i xs)), (pfilter_none _ (drop i xs)), app_nil_r; [done| |].
    + intros a Ha. by rewrite (cut_at_drop _ _ _ _ Hc Ha).
    + intros a Ha. by rewrite (cut_at_take _ _ _ _ Hc Ha).
  - rewrite (pfilter_none _ (take i xs)), (pfilter_all _ (drop i xs)); [done| |].
    + intros a Ha. by rewrite (cut_at_drop _ _ _ _ Hc Ha).
    + intros a Ha. by rewrite (cut_at_take _ _ _ _ Hc Ha).
Qed.

(** ** The order of the ring *)

Definition pair_le (a b : N * string) : Prop := pair_ltb b a = false.

Lemma pair_le_iff a b : pair_le a b ↔ (a.1 < b.1)%N ∨ (a.1 = b.1 ∧ str_leb a.2 b.2 = true).
Proof.
  unfold pair_le, pair_ltb, str_ltb. rewrite orb_false_iff, andb_false_iff, negb_false_iff.
  rewrite N.ltb_ge, N.eqb_neq. split; [|intros [?|[? ?]]; split; auto; lia].
  intros [H1 [H2|H2]]; [left; lia|]. destruct (N.eq_dec a.1 b.1); [by right|left; lia].
Qed.

#[export] Instance pair_le_trans : Transitive pair_le.
Proof.
  intros a b c. rewrite !pair_le_iff. intros [H1|[H1 H1']] [H2|[H2 H2']].
  - left. lia.
  - left. lia.
  - left. lia.
  - right. split; [congruence|]. by eapply str_leb_trans.
Qed.

#[export] Instance pair_le_antisym : AntiSymm (=) pair_le.
Proof.
  intros [h1 n1] [h2 n2]. rewrite !pair_le_iff. simpl.
  intros [?|[? ?]] [?|[? ?]]; try lia. f_equal; [done|by apply str_leb_antisym].
Qed.

Lemma pair_le_total a b : pair_le a b ∨ pair_le b a.
Proof.
  rewrite !pair_le_iff. destruct (N.lt_trichotomy a.1 b.1) as [?|[?|?]]; [tauto| |tauto].
  destruct (str_leb_total a.2 b.2); [left|right]; by right.
Qed.

Abbreviation sorted := (StronglySorted pair_le).

Lemma sorted_lookup (xs : list (N * string)) i j a b :
  sorted xs → (i <= j)%nat → xs !! i = Some a → xs !! j = Some b → pair_le a b.
Proof.
  intros Hs. revert i j. induction Hs as [|x xs Hs IH Hall]; intros i j Hij Ha Hb; [done|].
  rewrite Forall_forall in Hall.
  destruct i, j; simplify_eq/=; try lia.
  - rewrite pair_le_iff. right. split; [done|apply str_leb_refl].
  - apply Hall. apply list_elem_of_lookup. eauto.
  - eapply IH; [|done..]. lia.
Qed.

Lemma pair_ltb_trans_le a b x : pair_le a b → pair_ltb b x = true → pair_ltb a x = true.
Proof.
  intros Hab Hbx. destruct (pair_ltb a x) eqn:E; [done|].
  assert (pair_le x b) as Hxb by (etrans; [exact E|exact Hab]).
  unfold pair_le in Hxb. congruence.
Qed.

Lemma bisect_left_cut xs x : sorted xs → cut_at (λ a, pair_ltb a x) xs (bisect_left xs x).
Proof.
  intros Hs. apply bisect_loop_spec; [lia|lia| |lia|].
  - intros i j a b Hij Ha Hb. apply pair_ltb_trans_le. by eapply sorted_lookup.
  - intros i a Hi Ha. apply lookup_lt_Some in Ha. lia.
Qed.

Lemma bisect_right_cut xs x :
  sorted xs → cut_at (λ a, negb (pair_ltb x a)) xs (bisect_right xs x).
Proof.
  intros Hs. apply bisect_loop_spec; [lia|lia| |lia|].
  - intros i j a b Hij Ha Hb. rewrite !negb_true_iff. intros Hbx.
    change (pair_le a x). etrans; [|exact Hbx]. by eapply sorted_lookup.
  - intros i a Hi Ha. apply lookup_lt_Some in Ha. lia.
Qed.

Lemma insort_perm xs x : insort xs x ≡ₚ x :: xs.
Proof.
  unfold insort. rewrite <-Permutation_middle. by rewrite take_drop.
Qed.

Lemma insort_sorted xs x : sorted xs → sorted (insort xs x).
Proof.
  intros Hs. unfold insort. pose proof (bisect_right_cut xs x Hs) as Hc.
  set (i := bisect_right xs x) in *.
  assert (Hx : ∀ a, a ∈ drop i xs → pair_le x a).
  { intros a Ha. apply (cut_at_drop _ _ _ _ Hc) in Ha as Ha%negb_false_iff.
    destruct (pair_le_total x a) as [|Hax]; [done|]. unfold pair_le in Hax. congruence. }
  assert (Hy : ∀ a, a ∈ take i xs → pair_le a x).
  { intros a Ha. by apply (cut_at_take _ _ _ _ Hc) in Ha as Ha%negb_true_iff. }
  rewrite <-(take_drop i xs) in Hs. apply StronglySorted_app in Hs as (Hb & Hs1 & Hs2).
  apply StronglySorted_app. split_and!; [|done|].
  - intros a b Ha [->|Hin]%elem_of_cons; [by apply Hy|]. by apply Hb.
  - apply StronglySorted_cons. split; [|done]. by apply Forall_forall.
Qed.

Lemma sorted_filter (P : N * string → Prop) `{!∀ p, Decision (P p)} xs :
  sorted xs → sorted (base.filter P xs).
Proof.
  induction 1 as [|x xs Hs IH Hall]; [constructor|]. rewrite filter_cons. case_decide; [|done].
  apply StronglySorted_cons. split; [|done].
  rewrite Forall_forall in *. intros y [_ Hy]%list_elem_of_filter. by apply Hall.
Qed.

(** ** Distinct elements, first occurrence kept *)

Fixpoint dedup (seen : gset string) (l : list string) : list string :=
  match l with
  | [] => []
  | x :: l => if decide (x ∈ seen) then dedup seen l else x :: dedup ({[x]} ∪ seen) l
  end.

Lemma elem_of_dedup seen l x : x ∈ dedup seen l ↔ x ∈ l ∧ x ∉ seen.
Proof.
  revert seen. induction l as [|y l IH]; intros seen; simpl.
  { rewrite elem_of_nil. tauto. }
  rewrite elem_of_cons. case_decide.
  - rewrite IH. naive_solver.
  - rewrite elem_of_cons, IH, not_elem_of_union, not_elem_of_singleton.
    destruct (decide (x = y)); naive_solver.
Qed.

Lemma dedup_nodup seen l : NoDup (dedup seen l).
Proof.
  revert seen. induction l as [|y l IH]; intros seen; simpl; [constructor|].
  case_decide; [done|]. constructor; [|done]. rewrite elem_of_dedup. set_solver.
Qed.

Lemma dedup_ext seen seen' l :
  (∀ x, x ∈ l → x ∈ seen ↔ x ∈ seen') → dedup seen l = dedup seen' l.
Proof.
  revert seen seen'. induction l as [|y l IH]; intros seen seen' He; simpl; [done|].
  destruct (He y ltac:(by left)) as [H1 H2].
  repeat case_decide; try tauto.
  - apply IH. intros x Hx. apply He. by right.
  - f_equal. apply IH. intros x Hx. rewrite !elem_of_union.
    rewrite (He x ltac:(by right)). done.
Qed.

Lemma dedup_filter (P : string → Prop) `{!∀ x, Decision (P x)} seen l :
  base.filter P (dedup seen l) = dedup seen (base.filter P l).
Proof.
  revert seen. induction l as [|y l IH]; intros seen; simpl; [done|].
  rewrite filter_cons. destruct (decide (P y)) as [HP|HP].
  - simpl. case_decide; [done|]. rewrite filter_cons_True by done. by rewrite IH.
  - case_decide; [done|]. rewrite filter_cons_False by done. rewrite IH.
    apply dedup_ext. intros x [Hx _]%list_elem_of_filter.
    rewrite elem_of_union, elem_of_singleton. naive_solver.
Qed.

(** ** The ring *)

Module RingF.
Import Ring.
Section facts.
Context `{RingHash}.
Implicit Types r : ConsistentHashRing.

(** The pairs of the virtual nodes of a list of nodes. *)
Definition vnodes (vn : nat) (ns : list string) : list (N * string) :=
  ns ≫= λ n, vnode n <$> seq 0 vn.

(** The ring invariant: sorted, and exactly the virtual nodes of [_nodes]. *)
Definition wf r : Prop :=
  sorted (_ring r) ∧ _ring r ≡ₚ vnodes (virtual_nodes r) (elements (_nodes r)).

(** The ring read clockwise from the key's hash. *)
Definition clockwise r (key : string) : list (N * string) :=
  base.filter (λ p, (ring_hash key <= p.1)%N) (_ring r) ++
  base.filter (λ p, (p.1 < ring_hash key)%N) (_ring r).

(** The preference list: the distinct nodes met clockwise. *)
Definition preference r (key : string) : list string :=
  dedup ∅ (snd <$> clockwise r key).

Lemma insort_all_spec (f : nat → N * string) ns ring : sorted ring →
  sorted (fold_left (λ ring i, insort ring (f i)) ns ring) ∧
  fold_left (λ ring i, insort ring (f i)) ns ring ≡ₚ (f <$> ns) ++ ring.
Proof.
  revert ring. induction ns as [|n ns IH]; intros ring Hs; simpl; [done|].
  destruct (IH (insort ring (f n)) (insort_sorted _ _ Hs)) as [H1 H2].
  split; [done|]. rewrite H2, insort_perm. by rewrite Permutation_middle.
Qed.

Lemma init_wf vn : wf (init vn).
Proof. split; simpl; [constructor|]. by rewrite elements_empty. Qed.

Lemma add_node_wf r n : wf r → wf (add_node r n).
Proof.
  intros [Hs Hp]. unfold add_node. case_decide; [done|].
  destruct (insort_all_spec (vnode n) (seq 0 (virtual_nodes r)) _ Hs) as [H1 H2].
  split; simpl; [done|]. rewrite H2, Hp. unfold vnodes.
  rewrite elements_disj_union by set_solver. rewrite elements_singleton. done.
Qed.

Lemma elem_of_vnodes vn ns p : p ∈ vnodes vn ns → p.2 ∈ ns.
Proof.
  unfold vnodes. rewrite list_elem_of_bind. intros (n & Hin & Hn).
  apply list_elem_of_fmap in Hin as (i & -> & _). done.
Qed.

Lemma vnodes_filter vn ns n :
  base.filter (λ p, p.2 ≠ n) (vnodes vn ns) = vnodes vn (base.filter (λ m, m ≠ n) ns).
Proof.
  induction ns as [|m ns IH]; [done|].
  change (vnodes vn (m :: ns)) with ((vnode m <$> seq 0 vn) ++ vnodes vn ns).
  rewrite filter_app, filter_cons, IH. case_decide as Hm.
  - rewrite pfilter_all; [done|]. intros p (i & -> & _)%list_elem_of_fmap. done.
  - rewrite pfilter_none; [done|]. intros p (i & -> & _)%list_elem_of_fmap. simpl. tauto.
Qed.

Lemma remove_node_wf r n : wf r → wf (remove_node r n).
Proof.
  intros [Hs Hp]. unfold remove_node. case_decide; [|done].
  split; simpl; [by apply sorted_filter|].
  rewrite Hp, vnodes_filter. unfold vnodes.
  assert (base.filter (λ m, m ≠ n) (elements (_nodes r)) ≡ₚ elements (_nodes r ∖ {[n]})) as ->;
    [|done].
  apply NoDup_Permutation; [apply NoDup_filter, NoDup_elements|apply NoDup_elements|].
  intros x. rewrite list_elem_of_filter, !elem_of_elements. set_solver.
Qed.

#[local] Hint Resolve init_wf add_node_wf remove_node_wf : minidb.

(** Two rings over the same nodes are equal: the order of joins and leaves
    does not matter. *)
Lemma wf_unique r1 r2 : wf r1 → wf r2 →
  virtual_nodes r1 = virtual_nodes r2 → _nodes r1 = _nodes r2 → r1 = r2.
Proof.
  destruct r1 as [v1 l1 n1], r2 as [v2 l2 n2]. intros [Hs1 Hp1] [Hs2 Hp2] Hv Hn.
  simpl in *. subst. f_equal. apply (StronglySorted_unique pair_le); [done|done|].
  by rewrite Hp1, Hp2.
Qed.

Lemma remove_add r n : wf r → n ∉ _nodes r → remove_node (add_node r n) n = r.
Proof.
  intros Hr Hn. apply wf_unique; auto with minidb.
  - unfold remove_node, add_node. by repeat case_decide.
  - unfold remove_node, add_node. repeat case_decide; simpl in *; set_solver.
Qed.

Lemma clockwise_elem r key p : p ∈ clockwise r key ↔ p ∈ _ring r.
Proof.
  unfold clockwise. rewrite elem_of_app, !list_elem_of_filter.
  destruct (N.le_gt_cases (ring_hash key) p.1); naive_solver.
Qed.

Lemma preference_nodup r key : NoDup (preference r key).
Proof. apply dedup_nodup. Qed.

Lemma elem_of_preference r key n : wf r → (0 < virtual_nodes r)%nat →
  n ∈ preference r key ↔ n ∈ _nodes r.
Proof.
  intros [_ Hp] Hv. unfold preference. rewrite elem_of_dedup. split.
  - intros [(p & -> & Hin)%list_elem_of_fmap _]. apply clockwise_elem in Hin.
    rewrite Hp in Hin. apply elem_of_vnodes in Hin. by apply elem_of_elements in Hin.
  - intros Hn. split; [|set_solver]. apply list_elem_of_fmap.
    exists (vnode n 0). split; [done|]. apply clockwise_elem. rewrite Hp.
    unfold vnodes. apply list_elem_of_bind. exists n. split; [|by apply elem_of_elements].
    apply list_elem_of_fmap. exists 0%nat. split; [done|]. apply elem_of_seq. lia.
Qed.

Lemma preference_length r key : wf r → (0 < virtual_nodes r)%nat →
  length (preference r key) = size (_nodes r).
Proof.
  intros Hr Hv. unfold size, set_size; simpl. apply Permutation_length.
  apply NoDup_Permutation; [apply preference_nodup|apply NoDup_elements|].
  intros n. rewrite elem_of_elements. by apply elem_of_preference.
Qed.

Lemma preference_remove r key n : 
  preference (remove_node r n) key = base.filter (λ m, m ≠ n) (preference r key) ∨
  n ∉ _nodes r.
Proof.
  unfold remove_node. case_decide; [left|by right].
  unfold preference. rewrite dedup_filter. f_equal. unfold clockwise. simpl.
  rewrite !fmap_app, filter_app, !pfilter_fmap. f_equal; f_equal;
    rewrite !list_filter_filter; apply pfilter_ext; naive_solver.
Qed.

(** ** [get_nodes] and [get_node] *)

Lemma bisect_clockwise r key : sorted (_ring r) →
  let idx := bisect_left (_ring r) (ring_hash key, EmptyString) in
  clockwise r key = drop idx (_ring r) ++ take idx (_ring r) ∧ (idx <= length (_ring r))%nat.
Proof.
  intros Hs idx. pose proof (bisect_left_cut _ (ring_hash key, EmptyString) Hs) as Hc.
  split; [|apply Hc]. destruct (cut_at_filter _ _ _ Hc) as [Ht Hd].
  unfold clockwise, idx. rewrite Ht, Hd.
  assert (Hlt : ∀ p : N * string,
    pair_ltb p (ring_hash key, EmptyString) = (p.1 <? ring_hash key)%N).
  { intros p. unfold pair_ltb, str_ltb. simpl.
    assert (str_leb EmptyString p.2 = true) as -> by (by destruct p as [h []]).
    simpl. by rewrite andb_false_r, orb_false_r. }
  f_equal; apply pfilter_ext; intros p _; rewrite Hlt.
  - by rewrite N.ltb_ge.
  - by rewrite N.ltb_lt.
Qed.

(** The nodes of the ring positions [idx + i], read modulo its length. *)
Definition visited (ring : list (N * string)) (idx : nat) (idxs : list nat) : list string :=
  omap (λ i, snd <$> ring !! ((idx + i) mod length ring)%nat) idxs.

Lemma collect_spec ring idx count idxs ns seen : ring ≠ [] →
  (Z.of_nat (length ns) < count ∨ ns = []) →
  collect ring idx count idxs ns seen =
  ns ++ take (Z.to_nat (Z.max 1 (count - Z.of_nat (length ns))))
             (dedup seen (visited ring idx idxs)).
Proof.
  intros Hne. revert ns seen. induction idxs as [|i idxs IH]; intros ns seen Hc; simpl.
  { by rewrite take_nil, app_nil_r. }
  destruct (ring !! ((idx + i) mod length ring)%nat) as [[h n]|] eqn:E; simpl.
  2:{ apply lookup_ge_None in E. pose proof (Nat.mod_upper_bound (idx + i) (length ring)).
      destruct ring; simpl in *; [done|lia]. }
  case_decide as Hseen; [by apply IH|].
  destruct (Z.geb_spec (Z.of_nat (length (ns ++ [n]))) count) as [Hge|Hlt];
    rewrite length_app in *; simpl in *.
  - replace (Z.to_nat (Z.max 1 (count - Z.of_nat (length ns)))) with 1%nat by lia.
    simpl. by rewrite take_0.
  - rewrite IH by (rewrite length_app; simpl; lia). rewrite length_app; simpl.
    rewrite <-app_assoc. f_equal.
    replace (Z.to_nat (Z.max 1 (count - Z.of_nat (length ns))))
      with (S (Z.to_nat (Z.max 1 (count - Z.of_nat (length ns + 1))))) by lia.
    done.
Qed.

Lemma visited_all ring idx : (idx <= length ring)%nat →
  visited ring idx (seq 0 (length ring)) = snd <$> (drop idx ring ++ take idx ring).
Proof.
  intros Hidx.
  assert (Hlen : length (drop idx ring ++ take idx ring) = length ring).
  { rewrite length_app, length_drop, length_take. lia. }
  unfold visited. rewrite <-Hlen.
  transitivity (omap (λ i, snd <$> (drop idx ring ++ take idx ring) !! i)
                  (seq 0 (length (drop idx ring ++ take idx ring)))).
  - apply list_omap_ext. apply Forall2_same_length_lookup_2; [done|].
    intros i x y Hx Hy. simplify_eq. apply lookup_seq in Hx as [-> Hi]. rewrite Hlen in *.
    f_equal. simpl. destruct (Nat.lt_ge_cases i (length ring - idx)) as [Hlt|Hge].
    + rewrite lookup_app_l by (rewrite length_drop; lia).
      rewrite lookup_drop, Nat.mod_small by lia. done.
    + rewrite lookup_app_r by (rewrite length_drop; lia). rewrite length_drop.
      rewrite lookup_take_lt by lia. f_equal.
      replace (idx + i)%nat with (i - (length ring - idx) + 1 * length ring)%nat by lia.
      rewrite Nat.Div0.mod_add. apply Nat.mod_small. lia.
  - generalize (drop idx ring ++ take idx ring). clear. intros l.
    induction l as [|x l IH] using rev_ind; [done|].
    rewrite length_app, seq_app, omap_app, fmap_app. simpl. f_equal.
    + rewrite <-IH. apply list_omap_ext. apply Forall2_same_length_lookup_2; [done|].
      intros i y z Hy Hz. simplify_eq. apply lookup_seq in Hy as [-> Hi].
      by rewrite lookup_app_l.
    + rewrite lookup_app_r by lia. by rewrite Nat.sub_diag.
Qed.

Lemma get_nodes_preference r key count : wf r →
  get_nodes r key count = take (Z.to_nat (Z.max 1 count)) (preference r key).
Proof.
  intros [Hs _]. unfold get_nodes, preference.
  destruct (bisect_clockwise r key Hs) as [-> Hidx].
  destruct (_ring r) as [|p ring] eqn:E; [by rewrite drop_nil, take_nil; simpl; rewrite take_nil|].
  rewrite collect_spec; [|done|by right]. rewrite app_nil_l, Z.sub_0_r.
  by rewrite visited_all.
Qed.

Lemma get_node_preference r key : wf r → get_node r key = head (preference r key).
Proof.
  intros [Hs _]. unfold get_node, preference.
  destruct (bisect_clockwise r key Hs) as [-> Hidx].
  destruct (_ring r) as [|p ring] eqn:E; [by rewrite drop_nil, take_nil|].
  set (idx := bisect_left _ _) in *. clearbody idx.
  destruct (Nat.eqb_spec idx (length (p :: ring))) as [->|Hne].
  - rewrite drop_all, firstn_all. done.
  - destruct (lookup_lt_is_Some_2 (p :: ring) idx ltac:(lia)) as [q Hq].
    rewrite Hq, (drop_S _ _ _ Hq). done.
Qed.

(** [get_nodes] for as many nodes as there are: the whole preference list. *)
Lemma get_nodes_all r key : wf r → (0 < virtual_nodes r)%nat →
  get_nodes r key (Z.of_nat (get_node_count r)) = preference r key.
Proof.
  intros Hr Hv. rewrite get_nodes_preference by done. apply take_ge.
  rewrite preference_length by done. unfold get_node_count. lia.
Qed.

(** ** Properties *)

Inductive ring_op := Join (n : string) | Leave (n : string).

Definition ring_step r (o : ring_op) : ConsistentHashRing :=
  match o with Join n => add_node r n | Leave n => remove_node r n end.

Lemma ring_steps_wf ops r : wf r →
  wf (fold_left ring_step ops r) ∧
  virtual_nodes (fold_left ring_step ops r) = virtual_nodes r.
Proof.
  revert r. induction ops as [|o ops IH]; intros r Hr; simpl; [done|].
  destruct (IH (ring_step r o)) as [H1 H2].
  - destruct o; simpl; auto with minidb.
  - rewrite H2. split; [done|]. destruct o; simpl;
      unfold add_node, remove_node; by case_decide.
Qed.

(** Whatever the order and repetition of joins and leaves, two
    rings with the same node set are the same ring, so every cluster member
    with the same view assigns every key to the same owner and the same
    replicas. *)
Theorem ring_history_irrelevant vn ops1 ops2 key count :
  let r1 := fold_left ring_step ops1 (init vn) in
  let r2 := fold_left ring_step ops2 (init vn) in
  _nodes r1 = _nodes r2 →
  r1 = r2 ∧ get_node r1 key = get_node r2 key ∧
  get_nodes r1 key count = get_nodes r2 key count.
Proof.
  intros r1 r2 Hn. assert (r1 = r2) as ->; [|done].
  destruct (ring_steps_wf ops1 (init vn) (init_wf vn)) as [H1 Hv1].
  destruct (ring_steps_wf ops2 (init vn) (init_wf vn)) as [H2 Hv2].
  apply wf_unique; [done|done| |done]. unfold r1, r2. congruence.
Qed.

(** Claim C21. For a count of at least 1, [get_nodes] returns the first [count]
    distinct nodes met clockwise from the key: all of them members, no node twice, exactly
    [min count members] of them; [get_node] is the first. *)
Theorem get_nodes_replicas r key count :
  wf r → (0 < virtual_nodes r)%nat → (1 <= count)%Z →
  let ns := get_nodes r key count in
  ns = take (Z.to_nat count) (dedup ∅ (snd <$> clockwise r key)) ∧
  NoDup ns ∧ (∀ n, n ∈ ns → n ∈ _nodes r) ∧
  length ns = Nat.min (Z.to_nat count) (get_node_count r) ∧
  get_node r key = head ns.
Proof.
  intros Hr Hv Hc ns. subst ns. rewrite get_nodes_preference by done.
  replace (Z.max 1 count) with count by lia.
  split; [done|]. split_and!.
  - eapply sublist_NoDup; [apply preference_nodup|apply sublist_take].
  - intros n Hn. apply (elem_of_preference r key n Hr Hv). by apply elem_of_take in Hn as (i & ? & _); eapply list_elem_of_lookup_2.
  - by rewrite length_take, preference_length.
  - rewrite get_node_preference by done.
    destruct (Z.to_nat count) as [|k] eqn:E; [lia|]. by destruct (preference r key).
Qed.

(** Claim C20. A node that joins only inserts itself into the preference list
    of each key: the other nodes keep their order, so a key either keeps its
    owner or moves to the new node, and the same node leaving again restores
    the ring. *)
Theorem join_moves_only_to_joiner r n key :
  wf r → (0 < virtual_nodes r)%nat → n ∉ _nodes r →
  let r' := add_node r n in
  base.filter (λ m, m ≠ n) (get_nodes r' key (Z.of_nat (get_node_count r'))) =
    get_nodes r key (Z.of_nat (get_node_count r)) ∧
  (get_node r' key = Some n ∨ get_node r' key = get_node r key) ∧
  remove_node r' n = r.
Proof.
  intros Hr Hv Hn r'. assert (Hr' : wf r') by (by apply add_node_wf).
  assert (Hv' : (0 < virtual_nodes r')%nat) by (unfold r', add_node; by case_decide).
  assert (Hrm : remove_node r' n = r) by (by apply remove_add).
  assert (Hp : base.filter (λ m, m ≠ n) (preference r' key) = preference r key).
  { rewrite <-Hrm. destruct (preference_remove r' key n) as [->|Hni]; [done|].
    exfalso. apply Hni. unfold r', add_node. case_decide; set_solver. }
  rewrite !get_nodes_all, !get_node_preference by done.
  split_and!; [done| |done]. rewrite <-Hp.
  destruct (preference r' key) as [|m ms]; simpl; [by right|].
  rewrite filter_cons. case_decide as Hm; [by right|left].
  destruct (decide (m = n)) as [->|]; [done|by destruct Hm].
Qed.

End facts.

(** A ring of two nodes under the source's hash. *)
Definition ring_ab : ConsistentHashRing :=
  fold_left ring_step [Join "a"; Join "b"] (init 2).

Lemma ring_ab_wf : wf ring_ab.
Proof. exact (proj1 (ring_steps_wf [Join "a"; Join "b"] (init 2) (init_wf 2))). Qed.

Lemma ring_history_irrelevant_witness :
  fold_left ring_step [Join "b"; Join "c"; Join "a"; Leave "c"] (init 2) = ring_ab.
Proof.
  apply (ring_history_irrelevant 2 [Join "b"; Join "c"; Join "a"; Leave "c"]
           [Join "a"; Join "b"] "k" 1).
  vm_compute. reflexivity.
Defined.

Lemma get_nodes_replicas_witness :
  length (get_nodes ring_ab "user:1" 3) = 2%nat ∧ NoDup (get_nodes ring_ab "user:1" 3).
Proof.
  assert (Hv : (0 < virtual_nodes ring_ab)%nat) by (vm_compute; lia).
  destruct (get_nodes_replicas ring_ab "user:1" 3 ring_ab_wf Hv ltac:(lia))
    as (_ & Hnd & _ & Hlen & _).
  split; [|exact Hnd]. rewrite Hlen. vm_compute. reflexivity.
Defined.

Lemma join_moves_only_to_joiner_witness :
  remove_node (add_node ring_ab "c") "c" = ring_ab ∧
  (get_node (add_node ring_ab "c") "user:1" = Some "c"%string ∨
   get_node (add_node ring_ab "c") "user:1" = get_node ring_ab "user:1").
Proof.
  assert (Hv : (0 < virtual_nodes ring_ab)%nat) by (vm_compute; lia).
  assert (Hn : "c"%string ∉ _nodes ring_ab).
  { intros Hin. apply (bool_decide_pack _) in Hin. vm_compute in Hin. exact Hin. }
  destruct (join_moves_only_to_joiner ring_ab "c" "user:1" ring_ab_wf Hv Hn) as (_ & H1 & H2).
  split; assumption.
Defined.

End RingF.
