(* ===== verification/Aof.v ===== *)
(** [minidb/storage/aof.py]: the append-only file.

    A file is its text.  What [write] has buffered and [fsync] has not yet made
    durable is kept apart, so a crash can lose it. *)

From S2P Require Import Prelude.
From S2P Require Import Text.
From S2P Require Import PyDict.
From S2P Require Import Json.
From S2P Require Import Fields.
From S2P Require Import Config.
From S2P Require Import Store.

Inductive AOFCommand := SET | DELETE | EXPIRE.

Definition command_value (c : AOFCommand) : string :=
  match c with SET => "SET" | DELETE => "DELETE" | EXPIRE => "EXPIRE" end.

#[export] Instance AOFCommand_eq_dec : EqDecision AOFCommand.
Proof. solve_decision. Defined.

#[export] Program Instance AOFCommand_enum : PyEnum AOFCommand :=
  {| enum_members := [SET; DELETE; EXPIRE]; enum_value := command_value |}.
Solve Obligations with solve_enum.

Module AOF.

Record AOFEntry := mkEntry {
  timestamp : time;
  command : AOFCommand;
  key : string;
  value : json;
  ttl : option Z;
  expires_at : option time;
  version : Z;
  created_at : option time;
  coordinator_id : string;
}.

(** The dict that [to_line] builds, in its insertion order. *)
Definition to_data (e : AOFEntry) : dict string json :=
  [("ts", JFloat (timestamp e)); ("cmd", JStr (command_value (command e)));
   ("key", JStr (key e)); ("ver", JInt (version e))]%string
  ++ opt_field "val" (if is_none (value e) then None else Some (value e))
  ++ opt_field "ttl" (JInt <$> ttl e)
  ++ opt_field "exp" (JFloat <$> expires_at e)
  ++ opt_field "cts" (JFloat <$> created_at e)
  ++ opt_field "coord" (if truthy_str (coordinator_id e) then Some (JStr (coordinator_id e)) else None).

Definition to_line (e : AOFEntry) : string := dumps (JObj (to_data e)).

Definition from_data (data : json) : res AOFEntry :=
  (ts ←! subscript data "ts";
   cmd ←! (c ←! subscript data "cmd"; as_enum c);
   k ←! subscript data "key";
   v ←! get_default data "val" JNull;
   tl ←! get_default data "ttl" JNull;
   ex ←! get_default data "exp" JNull;
   ver ←! get_default data "ver" (JInt 1);
   ct ←! get_default data "cts" JNull;
   co ←! get_default data "coord" (JStr "");
   ts ←! as_time ts; k ←! as_str k; tl ←! as_opt as_int tl; ex ←! as_opt as_time ex;
   ver ←! as_int ver; ct ←! as_opt as_time ct; co ←! as_str co;
   Ok (mkEntry ts cmd k v tl ex ver ct co))%py.

Definition from_line (line : string) : res AOFEntry :=
  (data ←! loads (strip line); from_data data)%py.

(** ** The file *)

(** [synced] survives a crash, [pending] may not; [aof_bak] is the file that
    the last compaction replaced. *)
Record AOFPersistence := mkAof {
  synced : string;
  pending : string;
  aof_bak : option string;
  _last_fsync : time;
  _entries_since_compact : Z;
  _compact_threshold : Z;
  fsync_interval : time;
  is_open : bool;
}.

Definition init (now interval : time) (content : string) (bak : option string) : AOFPersistence :=
  mkAof content "" bak now 0 10000 interval true.

(** What a reader of the file sees. *)
Definition contents (a : AOFPersistence) : string := synced a +:+ pending a.

Definition _do_fsync (now : time) (a : AOFPersistence) : AOFPersistence :=
  if is_open a
  then mkAof (contents a) "" (aof_bak a) now (_entries_since_compact a) (_compact_threshold a)
         (fsync_interval a) true
  else a.

(** One round of [_fsync_loop]. *)
Definition fsync_tick (now : time) (a : AOFPersistence) : AOFPersistence := _do_fsync now a.

Definition write (s : string) (a : AOFPersistence) : AOFPersistence :=
  mkAof (synced a) (pending a +:+ s) (aof_bak a) (_last_fsync a) (_entries_since_compact a)
    (_compact_threshold a) (fsync_interval a) (is_open a).

Definition count_entry (a : AOFPersistence) : AOFPersistence :=
  mkAof (synced a) (pending a) (aof_bak a) (_last_fsync a) (_entries_since_compact a + 1)
    (_compact_threshold a) (fsync_interval a) (is_open a).

(** [append]; on a closed file the write raises. *)
Definition append (now : time) (a : AOFPersistence) (e : AOFEntry) (sync : bool)
    : res AOFPersistence :=
  if is_open a then
    let a := count_entry (write (to_line e +:+ chr newline) a) in
    Ok (if sync || (fsync_interval a <? now - _last_fsync a) then _do_fsync now a else a)
  else Raise AttributeError.

(** The entry [append] builds from its arguments. *)
Definition make_entry (now : time) (cmd : AOFCommand) (k : string) (v : json) (tl : option Z)
    (ver : Z) (ex ct ut : option time) (co : string) : AOFEntry :=
  mkEntry (default now ut) cmd k v tl ex ver ct co.

Section replay.
(** [apply_func], which may change its state and then raise. *)
Context {S : Type} (apply_func : S → AOFEntry → S * res unit).

(** The exceptions [replay] catches. *)
Definition corrupt (e : exn) : bool :=
  match e with JSONDecodeError | KeyError | ValueError => true | _ => false end.

Definition replay_line (st : S * Z * Z) (line : string) : res (S * Z * Z) :=
  let '(s, count, corrupted) := st in
  let line := strip line in
  if truthy_str line then
    match from_line line with
    | Ok e =>
        match apply_func s e with
        | (s, Ok _) => Ok (s, count + 1, corrupted)
        | (s, Raise x) => if corrupt x then Ok (s, count, corrupted + 1) else Raise x
        end
    | Raise x => if corrupt x then Ok (s, count, corrupted + 1) else Raise x
    end
  else Ok st.

Fixpoint replay_lines (st : S * Z * Z) (ls : list string) : res (S * Z * Z) :=
  match ls with
  | [] => Ok st
  | l :: ls => (st ←! replay_line st l; replay_lines st ls)%py
  end.

(** [None] is a file that does not exist. *)
Definition replay (file : option string) (s : S) : res (S * Z) :=
  match file with
  | None => Ok (s, 0)
  | Some text => res_map fst (replay_lines (s, 0, 0) (lines text))
  end.
End replay.

(** ** Compaction *)

(** The entry [compact] writes for one key, unless it has expired. *)
Definition compact_entry (now : time) (k : string) (i : data_item) : option AOFEntry :=
  let m := KVStore.of_item now i in
  if truthy_time (KVStore.expires_at m) && (default 0 (KVStore.expires_at m) <? now) then None
  else Some (mkEntry (KVStore.updated_at m) SET k (KVStore.value m) None (KVStore.expires_at m)
               (KVStore.version m) (Some (KVStore.created_at m)) (KVStore.coordinator_id m)).

Definition compact_text (now : time) (state : dict string data_item) : string :=
  fold_right (λ p s, match compact_entry now p.1 p.2 with
                     | Some e => to_line e +:+ chr newline +:+ s
                     | None => s
                     end) EmptyString state.

(** The files that [compact] works on. *)
Record files := mkFiles { f_aof : option string; f_bak : option string; f_tmp : option string }.

(** The file operations in the order in which [compact] performs them; the
    temporary file is complete and synced before the first rename. *)
Definition compact_steps (now : time) (state : dict string data_item) : list (files → files) :=
  [λ f, mkFiles (f_aof f) (f_bak f) (Some (compact_text now state));
   λ f, mkFiles (f_aof f) None (f_tmp f);
   λ f, match f_aof f with
        | Some old => mkFiles None (Some old) (f_tmp f)
        | None => f
        end;
   λ f, mkFiles (f_tmp f) (f_bak f) None].

(** The directory when [compact] starts, and after [i] of its steps. *)
Definition files_of (a : AOFPersistence) : files :=
  mkFiles (Some (contents a)) (aof_bak a) None.

Definition compact_upto (i : nat) (now : time) (a : AOFPersistence)
    (state : dict string data_item) : files :=
  fold_left (λ f step, step f) (take i (compact_steps now state)) (files_of a).

Definition compact (now : time) (a : AOFPersistence) (state : dict string data_item)
    : AOFPersistence :=
  let a := _do_fsync now a in
  let f := compact_upto 4 now a state in
  mkAof (default EmptyString (f_aof f)) "" (f_bak f) (_last_fsync a) 0 (_compact_threshold a)
    (fsync_interval a) true.

Definition should_compact (a : AOFPersistence) : bool :=
  _compact_threshold a <=? _entries_since_compact a.

Definition close (now : time) (a : AOFPersistence) : AOFPersistence :=
  let a := _do_fsync now a in
  mkAof (synced a) (pending a) (aof_bak a) (_last_fsync a) (_entries_since_compact a)
    (_compact_threshold a) (fsync_interval a) false.

Definition get_size (a : AOFPersistence) : nat := String.length (contents a).

(** A crash keeps what was synced and any part of what was not. *)
Definition crash (n : nat) (a : AOFPersistence) : string :=
  synced a +:+ str_take n (pending a).

End AOF.
