(* ===== verification/AofFacts.v ===== *)
(** The append-only file: entries round trip through their line, a replay
    applies the entries of the file in order, and a crash loses only entries
    that were not synced, a torn last line included. *)

From S2P Require Import Prelude.
From S2P Require Import Text.
From S2P Require Import PyDict.
From S2P Require Import Json.
From S2P Require Import JsonFacts.
From S2P Require Import JsonPrefix.
From S2P Require Import Config.
From S2P Require Import Store.
From S2P Require Import Aof.

Module AOFF.
Import AOF.

(** The value of an entry is a Python value: its dicts have distinct keys. *)
Definition entry_wf (e : AOFEntry) : Prop := json_wf (value e).

Lemma to_data_wf e : entry_wf e → json_wf (JObj (to_data e)).
Proof.
  intros Hv. apply json_wf_obj. unfold dict_wf, dict_keys, to_data.
  destruct e as [ts cmd k v tl ex ver ct co]. unfold entry_wf in Hv. simpl in *.
  destruct (is_none v), tl, ex, ct, (truthy_str co); simpl;
    (split; [apply (bool_decide_unpack _); vm_compute; exact I|repeat constructor; done]).
Qed.

Lemma from_data_to_data e : from_data (JObj (to_data e)) = Ok e.
Proof.
  destruct e as [ts cmd k v tl ex ver ct co]. unfold to_data. simpl.
  assert (Hv : is_none v = true → v = JNull) by (by destruct v).
  assert (Hco : truthy_str co = false → co = EmptyString) by (by destruct co).
  destruct cmd; destruct (is_none v); try rewrite (Hv eq_refl); clear Hv;
    destruct tl, ex, ct; destruct (truthy_str co); try rewrite (Hco eq_refl); clear Hco;
    reflexivity.
Qed.

Lemma to_line_no_newline e : str_has newline (to_line e) = false.
Proof. apply dumps_no_newline. Qed.

Lemma strip_to_line e : strip (to_line e) = to_line e.
Proof. unfold to_line. rewrite dumps_obj. by apply strip_enclosed. Qed.

Lemma to_line_truthy e : truthy_str (to_line e) = true.
Proof. reflexivity. Qed.

Lemma from_line_to_line e : entry_wf e → from_line (to_line e) = Ok e.
Proof.
  intros Hwf. unfold from_line. rewrite strip_to_line. unfold to_line.
  rewrite loads_dumps by (by apply to_data_wf). apply from_data_to_data.
Qed.

(** A line cut short is corrupt, never another entry. *)
Lemma from_line_torn e p t : entry_wf e → to_line e = String.append p t → t ≠ EmptyString →
  from_line p = Raise JSONDecodeError.
Proof.
  intros Hwf He Ht. unfold from_line. by rewrite (loads_torn _ _ _ (to_data_wf e Hwf) He Ht).
Qed.

Lemma torn_stripped e p t : entry_wf e → to_line e = String.append p t → p ≠ EmptyString →
  t ≠ EmptyString →
  truthy_str (strip p) = true ∧ from_line (strip p) = Raise JSONDecodeError.
Proof.
  intros Hwf He Hp Ht. destruct p as [|c p]; [done|].
  assert (c = "{"%char) as ->.
  { unfold to_line in He. rewrite dumps_obj, str_app_cons in He. by injection He. }
  unfold strip. simpl lstrip. destruct (rstrip_prefix (String "{" p)) as [w Hw]. split.
  - simpl. by destruct (rstrip p).
  - apply (from_line_torn e _ (String.append w t)); [done| |].
    + by rewrite str_app_assoc, <-Hw.
    + destruct w; [done|]. by rewrite str_app_cons.
Qed.

(** The text of a log. *)
Definition log_text (es : list AOFEntry) : string := unlines (to_line <$> es).

Lemma log_text_app a b : log_text (a ++ b) = String.append (log_text a) (log_text b).
Proof. unfold log_text. by rewrite fmap_app, unlines_app. Qed.

Section replay.
Context {S : Type} (apply_func : S → AOFEntry → S * res unit).
(** The applied function does not raise. *)
Hypothesis total : ∀ s e, (apply_func s e).2 = Ok tt.
Definition applied (es : list AOFEntry) (s : S) : S :=
  fold_left (λ s e, (apply_func s e).1) es s.

Lemma replay_line_entry s c k e : entry_wf e →
  replay_line apply_func (s, c, k) (to_line e) = Ok ((apply_func s e).1, c + 1, k).
Proof.
  intros Hwf. unfold replay_line. rewrite strip_to_line, to_line_truthy.
  rewrite from_line_to_line by done. pose proof (total s e) as Ht.
  by destruct (apply_func s e) as [s' [u|x]]; simplify_eq/=.
Qed.

Lemma replay_entries es rest st : Forall entry_wf es →
  replay_lines apply_func st ((to_line <$> es) ++ rest) =
  replay_lines apply_func (applied es st.1.1, st.1.2 + Z.of_nat (length es), st.2) rest.
Proof.
  intros Hwf. revert st. induction Hwf as [|e es He _ IH]; intros [[s c] k].
  { simpl. by rewrite Z.add_0_r. }
  rewrite fmap_cons. cbn [Datatypes.app replay_lines]. rewrite replay_line_entry by done.
  simpl. rewrite IH. simpl. by replace (c + 1 + Z.of_nat (length es)) with (c + Z.of_nat (1 + length es)) by lia.
Qed.

(** A log cut after [n] characters replays some of its first entries. *)
Lemma replay_cut es n st : Forall entry_wf es →
  ∃ k cor, (k <= length es)%nat ∧
    replay_lines apply_func st (lines (str_take n (log_text es))) =
      Ok (applied (take k es) st.1.1, st.1.2 + Z.of_nat k, cor).
Proof.
  destruct st as [[s c] cor]. intros Hwf. unfold log_text. simpl.
  destruct (unlines_take n (to_line <$> es)) as (k & torn & rest & -> & Ht).
  rewrite <-fmap_take in *.
  assert (Hlines : Forall (λ l, str_has newline l = false) (to_line <$> take k es)).
  { apply Forall_fmap, Forall_true. intros e. apply to_line_no_newline. }
  rewrite lines_unlines by done. rewrite replay_entries by (by apply Forall_take). simpl.
  rewrite length_take. destruct Ht as [->|Hl].
  { exists (Nat.min k (length es)), cor. split; [lia|]. simpl.
    destruct (Nat.le_ge_cases k (length es)); [by rewrite Nat.min_l|].
    rewrite Nat.min_r, !take_ge by lia. done. }
  apply list_lookup_fmap_Some in Hl as (e & Hte & He).
  assert (Hnl : str_has newline torn = false).
  { pose proof (to_line_no_newline e) as Hn. rewrite <-Hte, str_has_app in Hn.
    by apply orb_false_iff in Hn as [? _]. }
  apply lookup_lt_Some in He as Hlt. replace (Nat.min k (length es)) with k by lia.
  destruct (decide (torn = EmptyString)) as [->|Hne].
  { exists k, cor. split; [lia|]. done. }
  rewrite lines_last by done. rewrite Forall_lookup in Hwf. specialize (Hwf _ _ He).
  cbn [replay_lines]. destruct (decide (rest = EmptyString)) as [->|Hrest].
  - rewrite str_app_nil_r in Hte. subst torn. rewrite replay_line_entry by done.
    exists (Datatypes.S k), cor. split; [lia|]. simpl. f_equal. f_equal. f_equal; [|lia].
    rewrite (take_S_r _ _ _ He). unfold applied. by rewrite fold_left_app.
  - exists k, (cor + 1). split; [lia|]. unfold replay_line.
    destruct (torn_stripped e torn rest) as [Hst Hfl]; [done..|].
    by rewrite Hst, Hfl.
Qed.

(** The part before the cut's text is replayed whole. *)
Lemma replay_cut_above es es' n s : Forall entry_wf (es ++ es') →
  ∃ k, (length es <= k <= length (es ++ es'))%nat ∧
    replay apply_func (Some (log_text es +:+ str_take n (log_text es'))) s =
      Ok (applied (take k (es ++ es')) s, Z.of_nat k).
Proof.
  intros [Hwf Hwf']%Forall_app.
  destruct (replay_cut es' n (applied es s, Z.of_nat (length es), 0) Hwf')
    as (k & cor & Hk & Hrep).
  exists (length es + k)%nat. split; [rewrite length_app; lia|].
  unfold replay. unfold log_text at 1. rewrite lines_unlines
    by (apply Forall_fmap, Forall_true; intros e; apply to_line_no_newline).
  rewrite replay_entries by done. 
  simpl in Hrep. cbn [fst snd]. rewrite Z.add_0_l. rewrite Hrep. simpl.
  rewrite take_app_add, Nat2Z.inj_add. unfold applied. by rewrite fold_left_app.
Qed.
End replay.

(** ** Runs of the file *)

Inductive aof_op :=
  | OAppend (now : time) (e : AOFEntry) (sync : bool)
  | OTick (now : time).

Definition aof_step (a : AOFPersistence) (o : aof_op) : res AOFPersistence :=
  match o with
  | OAppend now e sync => append now a e sync
  | OTick now => Ok (fsync_tick now a)
  end.

Fixpoint aof_run (a : AOFPersistence) (ops : list aof_op) : res AOFPersistence :=
  match ops with
  | [] => Ok a
  | o :: ops => (a ←! aof_step a o; aof_run a ops)%py
  end.

Definition appended (ops : list aof_op) : list AOFEntry :=
  omap (λ o, match o with OAppend _ e _ => Some e | OTick _ => None end) ops.

(** How many entries an explicit sync has made durable, of how many. *)
Fixpoint synced_count (durable total : nat) (ops : list aof_op) : nat :=
  match ops with
  | [] => durable
  | OAppend _ _ sync :: ops => synced_count (if sync then S total else durable) (S total) ops
  | OTick _ :: ops => synced_count total total ops
  end.

Definition logged (a : AOFPersistence) (es es' : list AOFEntry) : Prop :=
  is_open a = true ∧ synced a = log_text es ∧ pending a = log_text es'.

Lemma fsync_logged now a es es' : logged a es es' → logged (_do_fsync now a) (es ++ es') [].
Proof.
  intros (Ho & Hs & Hp). unfold _do_fsync. rewrite Ho. split_and!; simpl; [done| |done].
  unfold contents. by rewrite Hs, Hp, log_text_app.
Qed.

Lemma log_text_snoc es e : log_text (es ++ [e]) = String.append (log_text es) (to_line e +:+ chr newline).
Proof. rewrite log_text_app. unfold log_text at 2. simpl. done. Qed.

Lemma append_logged now a e sync a' es es' : logged a es es' → append now a e sync = Ok a' →
  logged a' es (es' ++ [e]) ∧ sync = false ∨ logged a' (es ++ es' ++ [e]) [].
Proof.
  intros (Ho & Hs & Hp). unfold append. rewrite Ho. set (a1 := count_entry _).
  assert (H1 : logged a1 es (es' ++ [e])).
  { split_and!; simpl; [done..|]. by rewrite log_text_snoc, Hp. }
  destruct (sync || _) eqn:Eb; intros [= <-]; [right; by apply fsync_logged|left].
  apply orb_false_iff in Eb as [-> _]. done.
Qed.

Lemma aof_run_logged ops a a' es es' d : logged a es es' → (d <= length es)%nat →
  aof_run a ops = Ok a' →
  ∃ fs fs', logged a' fs fs' ∧ fs ++ fs' = es ++ es' ++ appended ops ∧
    (synced_count d (length (es ++ es')) ops <= length fs)%nat.
Proof.
  revert a es es' d. induction ops as [|o ops IH]; intros a es es' d Hl Hd Hr.
  { simplify_eq/=. exists es, es'. by rewrite app_nil_r. }
  destruct o as [now e sync|now]; simpl in Hr.
  - destruct (append now a e sync) as [a1|] eqn:Ea; [|done].
    assert (Hlen : length (es ++ es' ++ [e]) = S (length (es ++ es'))).
    { rewrite !length_app. simpl. lia. }
    destruct (append_logged _ _ _ _ _ _ _ Hl Ea) as [[H1 ->]|H1]; simpl in Hr.
    + destruct (IH _ _ _ d H1 Hd Hr) as (fs & fs' & Hf & Happ & Hc). exists fs, fs'.
      split; [done|]. rewrite Happ, <-!app_assoc. split; [done|]. simpl.
      by rewrite Hlen in Hc.
    + destruct (IH _ _ _ (if sync then S (length (es ++ es')) else d) H1) as (fs & fs' & Hf & Happ & Hc);
        [rewrite Hlen, length_app in *; destruct sync; lia|done|].
      exists fs, fs'. split; [done|]. rewrite Happ, <-!app_assoc. split; [done|].
      rewrite app_nil_r, Hlen in Hc. done.
  - apply (fsync_logged now) in Hl.
    destruct (IH _ _ _ (length (es ++ es')) Hl ltac:(lia) Hr) as (fs & fs' & Hf & Happ & Hc).
    exists fs, fs'. split; [done|]. rewrite Happ, <-!app_assoc. split; [done|].
    by rewrite app_nil_r in Hc.
Qed.

(** Claim C19. Whatever entries are appended, with or without sync, and
    wherever in the unsynced text a crash cuts the file, a replay applies a
    prefix of the appended entries in order, nothing else, and at least all
    entries up to the last sync. *)
Theorem aof_crash_recovery {S} (apply_func : S → AOFEntry → S * res unit)
    now interval bak ops a n s :
  aof_run (init now interval EmptyString bak) ops = Ok a →
  Forall entry_wf (appended ops) →
  (∀ s e, (apply_func s e).2 = Ok tt) →
  ∃ k, (synced_count 0 0 ops <= k <= length (appended ops))%nat ∧
    replay apply_func (Some (crash n a)) s =
      Ok (fold_left (λ s e, (apply_func s e).1) (take k (appended ops)) s, Z.of_nat k).
Proof.
  intros Hr Hwf Htot.
  destruct (aof_run_logged ops (init now interval EmptyString bak) a [] [] 0) as
    (es & es' & Hl & Happ & Hc); [by split_and!|done|done|].
  simpl in Happ, Hc. unfold crash. destruct Hl as (_ & -> & ->).
  destruct (replay_cut_above apply_func Htot es es' n s) as (k & Hk & Hrep);
    [by rewrite Happ|]. rewrite Happ in Hk, Hrep. exists k. split; [lia|done].
Qed.

(** Claim C33. An entry's line is one line, decodes to the entry, and cut
    short anywhere it is reported corrupt rather than decoded to another
    entry. *)
Theorem aof_line_roundtrip e p t :
  json_wf (value e) → to_line e = String.append p t → t ≠ EmptyString →
  from_line (to_line e) = Ok e ∧ lines (String.append (to_line e) (chr newline)) = [to_line e] ∧
  from_line p = Raise JSONDecodeError.
Proof.
  intros Hwf He Ht. split_and!; [by apply from_line_to_line| |by eapply from_line_torn].
  unfold chr. rewrite lines_app; [done|apply to_line_no_newline].
Qed.

(** ** The theorems on concrete logs *)

Definition entry_a : AOFEntry :=
  mkEntry (seconds 5) SET "a" (JObj [("n", JInt 1)]%string) None (Some (seconds 9)) 2
    (Some (seconds 4)) "node1".
Definition entry_b : AOFEntry := mkEntry (seconds 6) DELETE "a" JNull None None 1 None "".

Lemma entry_a_wf : entry_wf entry_a.
Proof.
  apply json_wf_obj. split; [apply (bool_decide_unpack _); vm_compute; exact I|repeat constructor].
Qed.

Lemma aof_line_roundtrip_witness :
  from_line (to_line entry_a) = Ok entry_a ∧ from_line (str_take 20 (to_line entry_a)) = Raise JSONDecodeError.
Proof.
  destruct (aof_line_roundtrip entry_a (str_take 20 (to_line entry_a))
              (str_drop 20 (to_line entry_a)) entry_a_wf) as (H1 & _ & H2);
    [vm_compute; reflexivity|vm_compute; discriminate|].
  split; assumption.
Defined.

Lemma aof_crash_recovery_witness :
  ∃ k : nat, (1 <= k <= 2)%nat ∧
    match aof_run (init 0 (seconds 1) EmptyString None)
            [OAppend (seconds 1) entry_a true; OAppend (seconds 1) entry_b false] with
    | Ok a => replay (λ l e, (l ++ [e], Ok tt)) (Some (crash 30 a)) [] =
                Ok (take k [entry_a; entry_b], Z.of_nat k)
    | Raise _ => False
    end.
Proof.
  destruct (aof_run (init 0 (seconds 1) EmptyString None)
            [OAppend (seconds 1) entry_a true; OAppend (seconds 1) entry_b false])
    as [a|x] eqn:Hr; [|discriminate Hr].
  destruct (aof_crash_recovery (λ l e, (l ++ [e], Ok tt)) 0 (seconds 1) None
              [OAppend (seconds 1) entry_a true; OAppend (seconds 1) entry_b false] a 30 [] Hr)
    as (k & Hk & Hrep).
  - apply Forall_cons. split; [exact entry_a_wf|]. apply Forall_cons. split; [exact I|].
    apply Forall_nil. exact I.
  - intros s e. reflexivity.
  - exists k. split; [exact Hk|]. rewrite Hrep.
    destruct k as [|[|[|k]]]; reflexivity.
Defined.

End AOFF.
