(* ===== verification/Snapshot.v ===== *)
(** [minidb/storage/snapshot.py]: full snapshots with an atomic rename, a
    backup of the previous one, and a metadata file.

    A gzip file is the text it decompresses to, or damaged.  The clock is read
    once per call. *)

From S2P Require Import Prelude.
From S2P Require Import PyDict.
From S2P Require Import Json.
From S2P Require Import JsonFacts.
From S2P Require Import Fields.
From S2P Require Import Store.

Inductive gzfile := GzText (text : string) | GzDamaged.

Module Snapshot.

Record SnapshotMetadata := mkSnapMeta {
  timestamp : time;
  key_count : Z;
  compressed_size : Z;
  checksum : string;
}.

(** The files of the data directory that the manager owns. *)
Record files := mkFiles {
  f_snap : option gzfile;
  f_tmp : option gzfile;
  f_bak : option gzfile;
  f_meta : option string;
}.

Record SnapshotPersistence := mkSnap {
  interval : time;
  _last_snapshot : time;
  disk : files;
}.

Definition init (interval : time) (disk : files) : SnapshotPersistence := mkSnap interval 0 disk.

(** ** Writing *)

Definition item_json (ts : time) (i : data_item) : json :=
  let m := KVStore.of_item ts i in
  JObj [("v", KVStore.value m); ("e", jopt JFloat (KVStore.expires_at m));
        ("ver", JInt (KVStore.version m)); ("created_at", JFloat (KVStore.created_at m));
        ("updated_at", JFloat (KVStore.updated_at m));
        ("coordinator_id", JStr (KVStore.coordinator_id m))]%string.

Definition snapshot_data (ts : time) (data : dict string data_item) : json :=
  JObj [("version", JInt 1); ("timestamp", JFloat ts);
        ("data", JObj (dict_map_values (item_json ts) data))]%string.

Section save.
(** [os.path.getsize] of a compressed text. *)
Context (gz_size : string → Z).

Definition metadata_text (ts : time) (data : dict string data_item) : string :=
  dumps (JObj [("timestamp", JFloat ts); ("key_count", JInt (Z.of_nat (length data)));
               ("compressed_size", JInt (gz_size (dumps (snapshot_data ts data))))]%string).

(** The file operations of [save] in their order. *)
Definition save_steps (ts : time) (data : dict string data_item) : list (files → files) :=
  [λ f, mkFiles (f_snap f) (Some (GzText (dumps (snapshot_data ts data)))) (f_bak f) (f_meta f);
   λ f, match f_snap f with
        | Some _ => mkFiles (f_snap f) (f_tmp f) None (f_meta f)
        | None => f
        end;
   λ f, match f_snap f with
        | Some s => mkFiles None (f_tmp f) (Some s) (f_meta f)
        | None => f
        end;
   λ f, mkFiles (f_tmp f) None (f_bak f) (f_meta f);
   λ f, mkFiles (f_snap f) (f_tmp f) (f_bak f) (Some (metadata_text ts data))].

(** The directory after the first [i] operations. *)
Definition save_upto (i : nat) (ts : time) (data : dict string data_item) (f : files) : files :=
  fold_left (λ f step, step f) (take i (save_steps ts data)) f.

(** [save]: [failing] is the operation that raises, if one does; the
    temporary file is removed and the caller told. *)
Definition save (ts now : time) (s : SnapshotPersistence) (data : dict string data_item)
    (failing : option nat) : SnapshotPersistence * bool :=
  match failing with
  | None => (mkSnap (interval s) now (save_upto 5 ts data (disk s)), true)
  | Some i =>
      let f := save_upto i ts data (disk s) in
      (mkSnap (interval s) (_last_snapshot s) (mkFiles (f_snap f) None (f_bak f) (f_meta f)), false)
  end.
End save.

(** ** Reading *)

(** One round of [load]'s loop; [None] is an expired entry, skipped. *)
Definition load_item (now : time) (top : json) (item : json) : res (option data_item) :=
  (e ←! get_default item "e" JNull; e ←! as_opt as_time e;
   if truthy_time e && (default 0 e <? now) then Ok None
   else
     v ←! subscript item "v";
     ver ←! get_default item "ver" (JInt 1); ver ←! as_int ver;
     ts ←! get_default top "timestamp" (JFloat now);
     ct ←! get_default item "created_at" ts; ct ←! as_time ct;
     ut ←! get_default item "updated_at" ts; ut ←! as_time ut;
     co ←! get_default item "coordinator_id" (JStr ""); co ←! as_str co;
     Ok (Some (Item6 v e ver ct ut co)))%py.

Fixpoint load_items (now : time) (top : json) (items : dict string json)
    (result : dict string data_item) : res (dict string data_item) :=
  match items with
  | [] => Ok result
  | (k, item) :: items =>
      (o ←! load_item now top item;
       load_items now top items
         match o with Some i => dict_set k i result | None => result end)%py
  end.

Definition decode (now : time) (g : gzfile) : res (dict string data_item) :=
  match g with
  | GzDamaged => Raise OSError
  | GzText text =>
      (top ←! loads text; data ←! subscript top "data"; items ←! as_dict data;
       load_items now top items [])%py
  end.

(** [load]: a snapshot that cannot be read is replaced by its backup and read
    again.  [depth] is the interpreter's recursion limit; the error raised
    there is caught by the call above. *)
Fixpoint load (depth : nat) (now : time) (f : files) : files * option (dict string data_item) :=
  match f_snap f with
  | None => (f, None)
  | Some g =>
      match decode now g with
      | Ok d => (f, Some d)
      | Raise _ =>
          match f_bak f with
          | None => (f, None)
          | Some b =>
              let f := mkFiles (Some b) (f_tmp f) (f_bak f) (f_meta f) in
              match depth with
              | O => (f, None)
              | S depth => load depth now f
              end
          end
      end
  end.

Definition get_metadata (f : files) : option SnapshotMetadata :=
  match f_meta f with
  | None => None
  | Some text =>
      match (d ←! loads text;
             ts ←! subscript d "timestamp"; ts ←! as_time ts;
             kc ←! subscript d "key_count"; kc ←! as_int kc;
             cs ←! subscript d "compressed_size"; cs ←! as_int cs;
             Ok (mkSnapMeta ts kc cs ""))%py with
      | Ok m => Some m
      | Raise _ => None
      end
  end.

Definition should_snapshot (now : time) (s : SnapshotPersistence) : bool :=
  interval s <=? now - _last_snapshot s.

Definition get_snapshot_time (f : files) : time :=
  match get_metadata f with Some m => timestamp m | None => 0 end.

(** ** Facts *)

(** What [load] returns for an item that [save] wrote. *)
Definition survives (now : time) (ts : time) (i : data_item) : option data_item :=
  let m := KVStore.of_item ts i in
  if KVStore.is_expired now m then None else Some (KVStore.to_item m).

Definition item_wf (i : data_item) : Prop :=
  match i with Item6 v _ _ _ _ _ | Item3 v _ _ => json_wf v end.

Definition data_wf (data : dict string data_item) : Prop :=
  dict_wf data ∧ Forall (λ p, item_wf p.2) data.

(** The data of a snapshot, without what has expired since. *)
Definition unexpired (now ts : time) (data : dict string data_item) : dict string data_item :=
  omap (λ p, pair p.1 <$> survives now ts p.2) data.

Lemma load_item_item_json now ts top i :
  load_item now (JObj top) (item_json ts i) = Ok (survives now ts i).
Proof.
  unfold load_item, survives, KVStore.is_expired, item_json.
  destruct i as [v [e|] ver c u co|v [e|] ver]; simpl;
    try (destruct (_ && _); [done|]); done.
Qed.

Lemma load_items_map now ts top data acc :
  dict_wf data → (∀ k, k ∈ dict_keys data → dict_get acc k = None) →
  load_items now (JObj top) (dict_map_values (item_json ts) data) acc =
    Ok (acc ++ unexpired now ts data).
Proof.
  revert acc. induction data as [|[k i] data IH]; intros acc Hwf Hfresh.
  { simpl. by rewrite app_nil_r. }
  unfold dict_wf in Hwf. simpl in Hwf. apply NoDup_cons in Hwf as [Hk Hwf].
  simpl. rewrite load_item_item_json. simpl. rewrite IH; [|done|].
  - f_equal. unfold unexpired. simpl. destruct (survives now ts i) as [i'|]; simpl; [|done].
    rewrite dict_set_app_fresh by (apply Hfresh; by left). by rewrite <-app_assoc.
  - intros k' Hk'. destruct (survives now ts i) as [i'|]; [|apply Hfresh; by right].
    rewrite dict_get_set_ne; [apply Hfresh; by right|]. intros <-. done.
Qed.

Lemma snapshot_data_wf ts data : data_wf data → json_wf (snapshot_data ts data).
Proof.
  intros [Hwf Hit]. apply json_wf_obj. split; [apply (bool_decide_unpack _); vm_compute; exact I|].
  repeat (apply Forall_cons; split; [try exact I|]); [|apply Forall_nil; exact I].
  apply json_wf_obj. split; [unfold dict_wf; by rewrite dict_keys_map_values|].
  apply Forall_forall. intros p Hp. unfold dict_map_values in Hp.
  apply list_elem_of_fmap in Hp as ([k i] & -> & Hin). simpl.
  rewrite Forall_forall in Hit. specialize (Hit _ Hin). simpl in Hit.
  apply json_wf_obj. split; [apply (bool_decide_unpack _); vm_compute; exact I|].
  destruct i as [v [e|] ver c u co|v [e|] ver];
    repeat (apply Forall_cons; split; [first [exact I|exact Hit]|]); apply Forall_nil; exact I.
Qed.

Lemma decode_snapshot now ts data : data_wf data →
  decode now (GzText (dumps (snapshot_data ts data))) = Ok (unexpired now ts data).
Proof.
  intros Hwf. unfold decode. rewrite loads_dumps by (by apply snapshot_data_wf). simpl.
  destruct Hwf as [Hwf _]. unfold snapshot_data. by rewrite load_items_map.
Qed.

(** ** Properties *)

(** Claim C35. A crash after any of the file operations of [save] leaves the
    old snapshot or the complete new one for [load], except between the two
    renames, where [load] finds no snapshot although both the backup and the
    complete temporary file exist. *)
Theorem snapshot_crash gz_size depth now ts old g f data i :
  f_snap f = Some g → decode now g = Ok old → data_wf data →
  (load depth now (save_upto gz_size i ts data f)).2 =
    match i with
    | 0 | 1 | 2 => Some old
    | 3 => None
    | _ => Some (unexpired now ts data)
    end%nat.
Proof.
  intros Hg Hold Hwf. pose proof (decode_snapshot now ts data Hwf) as Hnew.
  destruct f as [snap tmp bak meta]. simpl in Hg. subst snap.
  assert (Hsome : ∀ f d, f_snap f = Some g → d = old → (load depth now f).2 = Some d).
  { intros f d Hf ->. destruct depth; simpl; by rewrite Hf, Hold. }
  assert (Hsome' : ∀ f, f_snap f = Some (GzText (dumps (snapshot_data ts data))) →
    (load depth now f).2 = Some (unexpired now ts data)).
  { intros f Hf. destruct depth; cbn [load]; by rewrite Hf, Hnew. }
  destruct i as [|[|[|[|i]]]]; [by apply Hsome|by apply Hsome|by apply Hsome| |].
  - by destruct depth.
  - apply Hsome'. by destruct i as [|i]; [|destruct i].
Qed.

(** Claim C36. A saved snapshot loads back as the data that was saved, without
    the keys that have expired since; and a snapshot that cannot be read is
    replaced by the backup, with termination when the backup cannot be read
    either. *)
Theorem snapshot_roundtrip gz_size depth ts t1 now s data :
  data_wf data →
  let s' := (save gz_size ts t1 s data None).1 in
  load depth now (disk s') = (disk s', Some (unexpired now ts data)) ∧
  get_metadata (disk s') =
    Some (mkSnapMeta ts (Z.of_nat (length data)) (gz_size (dumps (snapshot_data ts data))) "") ∧
  (load (S depth) now (mkFiles (Some GzDamaged) None (f_snap (disk s')) None)).2 =
    Some (unexpired now ts data) ∧
  (load depth now (mkFiles (Some GzDamaged) None (Some GzDamaged) None)).2 = None.
Proof.
  intros Hwf s'. pose proof (decode_snapshot now ts data Hwf) as Hnew.
  assert (Hs : f_snap (disk s') = Some (GzText (dumps (snapshot_data ts data))) ∧
               f_meta (disk s') = Some (metadata_text gz_size ts data)).
  { unfold s'. by destruct s as [? ? [[] ? ? ?]]. }
  clearbody s'. destruct Hs as [Hsnap Hmeta]. split_and!.
  - destruct depth; cbn [load]; by rewrite Hsnap, Hnew.
  - unfold get_metadata. rewrite Hmeta. unfold metadata_text. rewrite loads_dumps; [done|].
    apply json_wf_obj. split; [apply (bool_decide_unpack _); vm_compute; exact I|].
    repeat constructor.
  - rewrite Hsnap. cbn [load f_snap f_bak]. change (decode now GzDamaged) with
      (Raise (A := dict string data_item) OSError). cbn match.
    destruct depth; cbn [load f_snap]; by rewrite Hnew.
  - induction depth as [|depth IH]; [done|]. exact IH.
Qed.

Definition sample : dict string data_item :=
  [("a", Item6 (JStr "x") (Some (seconds 9)) 3 (seconds 1) (seconds 2) "n1");
   ("b", Item3 (JInt 7) None 1)]%string.

Lemma sample_wf : data_wf sample.
Proof. split; [apply (bool_decide_unpack _); vm_compute; exact I|repeat constructor]. Qed.

Lemma snapshot_crash_witness :
  let f := mkFiles (Some (GzText (dumps (snapshot_data 0 [])))) None None None in
  (load 5 (seconds 10) (save_upto (λ _, 0) 2 (seconds 8) sample f)).2 = Some [] ∧
  (load 5 (seconds 10) (save_upto (λ _, 0) 3 (seconds 8) sample f)).2 = None ∧
  (load 5 (seconds 10) (save_upto (λ _, 0) 4 (seconds 8) sample f)).2 =
    Some (unexpired (seconds 10) (seconds 8) sample).
Proof.
  intros f. assert (Hold : decode (seconds 10) (GzText (dumps (snapshot_data 0 []))) = Ok [])
    by (vm_compute; reflexivity).
  pose proof (λ i, snapshot_crash (λ _, 0) 5 (seconds 10) (seconds 8) []
    (GzText (dumps (snapshot_data 0 []))) f sample i eq_refl Hold sample_wf) as Hc.
  split; [exact (Hc 2%nat)|split; [exact (Hc 3%nat)|exact (Hc 4%nat)]].
Defined.

Lemma snapshot_roundtrip_witness :
  let s := (save (λ _, 0) (seconds 8) (seconds 8) (init 0 (mkFiles None None None None)) sample None).1 in
  (load 0 (seconds 10) (disk s)).2 = Some [("b", Item6 (JInt 7) None 1 (seconds 8) (seconds 8) "")]%string.
Proof.
  intros s. destruct (snapshot_roundtrip (λ _, 0) 0 (seconds 8) (seconds 8) (seconds 10)
    (init 0 (mkFiles None None None None)) sample sample_wf) as [H1 _].
  fold s in H1. rewrite H1. vm_compute. reflexivity.
Defined.

End Snapshot.
