(* ===== verification/Election.v ===== *)
(** [minidb/cluster/election.py]: terms, votes and the replicated log of the
    simplified leader election.

    Every public method holds the manager's lock; [_start_election] releases
    it while it asks for votes, so it is two atomic steps.  The random
    timeouts and the clock are arguments. *)

From S2P Require Import Prelude.
From S2P Require Import PyMonad.
From S2P Require Import PyDict.
From S2P Require Import Json.
From S2P Require Import Config.
From S2P Require Import Fields.
From stdpp Require Import sorting.
#[local] Open Scope Z_scope.

Module LogEntry.

Record LogEntry := mkLog {
  term : Z;
  index : Z;
  command : string;
  key : string;
  value : json;
  ttl : option Z;
  timestamp : time;
  version : Z;
  expires_at : option time;
  created_at : option time;
  coordinator_id : string;
}.

Definition to_dict (e : LogEntry) : json :=
  JObj [("term", JInt (term e)); ("index", JInt (index e)); ("command", JStr (command e));
        ("key", JStr (key e)); ("value", value e); ("ttl", jopt JInt (ttl e));
        ("timestamp", JFloat (timestamp e)); ("version", JInt (version e));
        ("expires_at", jopt JFloat (expires_at e)); ("created_at", jopt JFloat (created_at e));
        ("coordinator_id", JStr (coordinator_id e))]%string.

Definition from_dict (d : json) : res LogEntry :=
  (tm ←! subscript d "term"; ix ←! subscript d "index"; cmd ←! subscript d "command";
   k ←! subscript d "key"; v ←! get_default d "value" JNull; tl ←! get_default d "ttl" JNull;
   ts ←! get_default d "timestamp" (JFloat 0); ver ←! get_default d "version" (JInt 1);
   ex ←! get_default d "expires_at" JNull; ct ←! get_default d "created_at" JNull;
   co ←! get_default d "coordinator_id" (JStr "");
   tm ←! as_int tm; ix ←! as_int ix; cmd ←! as_str cmd; k ←! as_str k;
   tl ←! as_opt as_int tl; ts ←! as_time ts; ver ←! as_int ver;
   ex ←! as_opt as_time ex; ct ←! as_opt as_time ct; co ←! as_str co;
   Ok (mkLog tm ix cmd k v tl ts ver ex ct co))%py.

(** The wire format of an entry is lossless. *)
Lemma from_dict_to_dict e : from_dict (to_dict e) = Ok e.
Proof. by destruct e as [tm ix cmd k v [tl|] ts ver [ex|] [ct|] co]. Qed.

End LogEntry.
Abbreviation LogEntry := LogEntry.LogEntry.

(** The callbacks the manager makes. *)
Inductive election_event :=
  | OnBecomeLeader
  | OnBecomeFollower (leader_id : option string)
  | ApplyEntry (e : LogEntry).

Module Election.

Record ElectionManager := mkElection {
  node_id : string;
  election_timeout_max : time;
  current_term : Z;
  voted_for : option string;
  role : NodeRole;
  leader_id : option string;
  log : list LogEntry;
  commit_index : Z;
  last_applied : Z;
  next_index : dict string Z;
  match_index : dict string Z;
  _last_heartbeat : time;
  _election_timeout : time;
}.

Abbreviation proc := (prog ElectionManager election_event).

Definition init (id : string) (tmax now rto : time) : ElectionManager :=
  mkElection id tmax 0 None FOLLOWER None [] 0 0 [] [] now rto.

(** Assignments to the fields. *)
Definition set_vote_state (m : ElectionManager) term vote r leader :=
  mkElection (node_id m) (election_timeout_max m) term vote r leader (log m) (commit_index m)
    (last_applied m) (next_index m) (match_index m) (_last_heartbeat m) (_election_timeout m).
Definition set_timing (m : ElectionManager) hb rto :=
  mkElection (node_id m) (election_timeout_max m) (current_term m) (voted_for m) (role m)
    (leader_id m) (log m) (commit_index m) (last_applied m) (next_index m) (match_index m) hb rto.
Definition set_log (m : ElectionManager) l :=
  mkElection (node_id m) (election_timeout_max m) (current_term m) (voted_for m) (role m)
    (leader_id m) l (commit_index m) (last_applied m) (next_index m) (match_index m)
    (_last_heartbeat m) (_election_timeout m).
Definition set_commit (m : ElectionManager) ci la :=
  mkElection (node_id m) (election_timeout_max m) (current_term m) (voted_for m) (role m)
    (leader_id m) (log m) ci la (next_index m) (match_index m)
    (_last_heartbeat m) (_election_timeout m).
Definition reset_indices (m : ElectionManager) :=
  mkElection (node_id m) (election_timeout_max m) (current_term m) (voted_for m) (role m)
    (leader_id m) (log m) (commit_index m) (last_applied m) [] []
    (_last_heartbeat m) (_election_timeout m).

Definition is_leader (m : ElectionManager) : bool := bool_decide (role m = LEADER).
Definition get_term (m : ElectionManager) : Z := current_term m.

Definition last_log_term (m : ElectionManager) : Z :=
  match last (log m) with Some e => LogEntry.term e | None => 0 end.

Definition _should_start_election (now : time) (m : ElectionManager) : bool :=
  if decide (role m = LEADER) then false else _election_timeout m <? now - _last_heartbeat m.

(** ** Elections *)

(** The first locked part of [_start_election]: the new term and the vote for
    itself; the result is the vote request. *)
Definition begin_election (rto : time) : proc (Z * Z * Z) :=
  modify (λ m, set_timing
    (set_vote_state m (current_term m + 1) (Some (node_id m)) CANDIDATE (leader_id m))
    (_last_heartbeat m) rto);;
  m ← get_state;
  mret (current_term m, Z.of_nat (length (log m)), last_log_term m).

Definition _become_leader : proc () :=
  modify (λ m, reset_indices
    (set_vote_state m (current_term m) (voted_for m) LEADER (Some (node_id m))));;
  emit OnBecomeLeader.

Definition required_majority (cluster_size : Z) : Z := Z.max 1 (cluster_size / 2 + 1).

(** The second locked part, with the votes that came back. *)
Definition finish_election (term votes_received cluster_size : Z) : proc () :=
  m ← get_state;
  if decide (role m ≠ CANDIDATE ∨ current_term m ≠ term) then mret ()
  else if required_majority cluster_size <=? votes_received then _become_leader
  else mret ().

(** [_start_election] when nothing else runs while the votes are asked for. *)
Definition _start_election (rto : time) (request_votes : Z → Z → Z → Z)
    (cluster_size : Z) : proc () :=
  r ← begin_election rto;
  let '(term, last_index, last_term) := r in
  finish_election term (request_votes term last_index last_term) cluster_size.

(** One round of [_election_loop] for a node that is not the leader. *)
Definition election_tick (now rto : time) (request_votes : Z → Z → Z → Z)
    (cluster_size : Z) : proc () :=
  m ← get_state;
  if _should_start_election now m then _start_election rto request_votes cluster_size
  else mret ().

Definition receive_heartbeat (now rto : time) (leader : string) (term : Z) : proc bool :=
  m ← get_state;
  if term <? current_term m then mret false
  else
    (if current_term m <? term
     then modify (λ m, set_vote_state m term None (role m) (leader_id m)) else mret ());;
    modify (λ m, set_timing m now rto);;
    m ← get_state;
    (if decide (role m ≠ FOLLOWER ∨ leader_id m ≠ Some leader)
     then
       modify (λ m, set_vote_state m (current_term m) (voted_for m) FOLLOWER (Some leader));;
       emit (OnBecomeFollower (Some leader))
     else mret ());;
    mret true.

Definition step_down (now rto : time) : proc () :=
  m ← get_state;
  if decide (role m = LEADER) then
    modify (λ m, set_timing
      (set_vote_state m (current_term m) (voted_for m) FOLLOWER None)
      (now + election_timeout_max m) rto);;
    emit (OnBecomeFollower None)
  else mret ().

Definition _is_log_up_to_date (m : ElectionManager) (index term : Z) : bool :=
  match last (log m) with
  | None => true
  | Some e =>
      if decide (term ≠ LogEntry.term e) then LogEntry.term e <? term
      else Z.of_nat (length (log m)) <=? index
  end.

Definition handle_vote_request (now : time) (candidate : string) (term index lterm : Z)
    : proc (Z * bool) :=
  m ← get_state;
  if term <? current_term m then mret (current_term m, false)
  else
    (if current_term m <? term
     then modify (λ m, set_vote_state m term None FOLLOWER (leader_id m)) else mret ());;
    m ← get_state;
    if decide (voted_for m = None ∨ voted_for m = Some candidate) then
      if _is_log_up_to_date m index lterm then
        modify (λ m, set_timing
          (set_vote_state m (current_term m) (Some candidate) (role m) (leader_id m))
          now (_election_timeout m));;
        mret (current_term m, true)
      else mret (current_term m, false)
    else mret (current_term m, false).

(** ** The log *)

Definition append_entry (now : time) (command key : string) (value : json) (ttl : option Z)
    : proc (option LogEntry) :=
  m ← get_state;
  if decide (role m ≠ LEADER) then mret None
  else
    let e := LogEntry.mkLog (current_term m) (Z.of_nat (length (log m)) + 1) command key value
               ttl now 1 None None "" in
    modify (λ m, set_log m (log m ++ [e]));;
    mret (Some e).

(** [_apply_committed_entries]: one round per entry between the two indices. *)
Fixpoint apply_loop (rounds : nat) : proc () :=
  match rounds with
  | O => mret ()
  | S rounds =>
      modify (λ m, set_commit m (commit_index m) (last_applied m + 1));;
      m ← get_state;
      e ← lift (py_index (log m) (last_applied m - 1));
      emit (ApplyEntry e);;
      apply_loop rounds
  end.

Definition _apply_committed_entries : proc () :=
  m ← get_state;
  apply_loop (Z.to_nat (commit_index m - last_applied m)).

(** One round of [handle_append_entries]' loop. *)
Definition append_one (data : json) : proc () :=
  e ← lift (LogEntry.from_dict data);
  m ← get_state;
  if LogEntry.index e <=? Z.of_nat (length (log m)) then
    old ← lift (py_index (log m) (LogEntry.index e - 1));
    if decide (LogEntry.term old ≠ LogEntry.term e)
    then modify (λ m, set_log m (py_take (LogEntry.index e - 1) (log m) ++ [e]))
    else mret ()
  else modify (λ m, set_log m (log m ++ [e])).

Definition append_and_commit (entries : list json) (leader_commit : Z) : proc (Z * bool * Z) :=
  for_each append_one entries;;
  m ← get_state;
  (if commit_index m <? leader_commit
   then modify (λ m, set_commit m (Z.min leader_commit (Z.of_nat (length (log m)))) (last_applied m));;
        _apply_committed_entries
   else mret ());;
  m ← get_state;
  mret (current_term m, true, Z.of_nat (length (log m))).

Definition handle_append_entries (now rto : time) (leader : string)
    (term prev_index prev_term : Z) (entries : list json) (leader_commit : Z)
    : proc (Z * bool * Z) :=
  m ← get_state;
  if term <? current_term m then mret (current_term m, false, 0)
  else
    receive_heartbeat now rto leader term;;
    m ← get_state;
    if 0 <? prev_index then
      if Z.of_nat (length (log m)) <? prev_index
      then mret (current_term m, false, Z.of_nat (length (log m)))
      else
        e ← lift (py_index (log m) (prev_index - 1));
        if decide (LogEntry.term e ≠ prev_term) then
          modify (λ m, set_log m (py_take (prev_index - 1) (log m)));;
          m ← get_state;
          mret (current_term m, false, Z.of_nat (length (log m)))
        else append_and_commit entries leader_commit
    else append_and_commit entries leader_commit.

(** The loop of [commit_entries] over the sorted indices. *)
Fixpoint commit_loop (all : list Z) (majority : Z) (idxs : list Z) : proc () :=
  match idxs with
  | [] => mret ()
  | idx :: idxs =>
      m ← get_state;
      if idx <=? commit_index m then mret ()
      else if majority <=? Z.of_nat (length (base.filter (λ i, idx <= i) all)) then
        if (0 <? idx) && (idx <=? Z.of_nat (length (log m))) then
          e ← lift (py_index (log m) (idx - 1));
          if decide (LogEntry.term e = current_term m)
          then modify (λ m, set_commit m idx (last_applied m));; _apply_committed_entries
          else mret ()
        else mret ()
      else commit_loop all majority idxs
  end.

Definition commit_entries (match_indices : dict string Z) (cluster_size : Z) : proc () :=
  m ← get_state;
  if decide (role m ≠ LEADER) then mret ()
  else
    let all := merge_sort (flip Z.le)
                 ((snd <$> match_indices) ++ [Z.of_nat (length (log m))]) in
    commit_loop all (cluster_size / 2 + 1) all.

Definition get_state_dict (m : ElectionManager) : json :=
  JObj [("node_id", JStr (node_id m)); ("role", JStr (role_value (role m)));
        ("term", JInt (current_term m)); ("leader_id", jopt JStr (leader_id m));
        ("voted_for", jopt JStr (voted_for m)); ("log_length", JInt (Z.of_nat (length (log m))));
        ("commit_index", JInt (commit_index m)); ("last_applied", JInt (last_applied m))]%string.

End Election.
