(* ===== verification/ElectionSafety.v ===== *)
(** Election safety: a cluster of election managers as a step relation, with
    the votes that were granted as a ghost record.

    With a fixed set of members that every node counts whole and that never
    restarts, at most one node leads in a term; without either assumption two
    nodes can lead in the same term. *)

From S2P Require Import Prelude.
From S2P Require Import PyMonad.
From S2P Require Import PyDict.
From S2P Require Import Json.
From S2P Require Import Config.
From S2P Require Import Election.
From stdpp Require Import sets fin_sets.
#[local] Open Scope Z_scope.

Module Cluster.
Import Election.

(** A granted vote: voter, candidate, term. *)
Abbreviation vote := (string * string * Z)%type.

Record cluster := mkCluster {
  nodes : gmap string ElectionManager;
  granted : gset vote;
}.

Definition update (s : cluster) (id : string) (m : ElectionManager) : cluster :=
  mkCluster (<[id := m]> (nodes s)) (granted s).

Definition grant (v : vote) (s : cluster) : cluster := mkCluster (nodes s) ({[v]} ∪ granted s).

Definition voters (g : gset vote) (c : string) (t : Z) : gset string :=
  set_map (λ p : vote, p.1.1) (base.filter (λ p : vote, p.1.2 = c ∧ p.2 = t) g).

(** The methods that neither start an election, nor vote, nor win. *)
Inductive call : ElectionManager → ElectionManager → Prop :=
  | call_heartbeat m now rto leader t : call m (state_of (receive_heartbeat now rto leader t m))
  | call_step_down m now rto : call m (state_of (step_down now rto m))
  | call_append m now cmd k val tl : call m (state_of (append_entry now cmd k val tl m))
  | call_append_entries m now rto leader t pi pt es lc :
      call m (state_of (handle_append_entries now rto leader t pi pt es lc m))
  | call_commit m mi n : call m (state_of (commit_entries mi n m)).

(** The atomic steps of the managers.  A candidate counts its own vote and
    the answers of the members that granted theirs; the answers may be lost,
    so the count is at most the number of granted votes.  A candidate finishes
    with the size of the cluster as it sees it: with [whole], that is at least
    its number of members. *)
Inductive step (whole : Prop) : cluster → cluster → Prop :=
  | step_begin s c m rto :
      nodes s !! c = Some m →
      let m' := state_of (begin_election rto m) in
      step whole s (grant (c, c, current_term m') (update s c m'))
  | step_vote s v c t m now index lterm :
      nodes s !! v = Some m →
      let r := handle_vote_request now c t index lterm m in
      step whole s (match result_of r with
              | Ok (_, true) => grant (v, c, t) (update s v (state_of r))
              | _ => update s v (state_of r)
              end)
  | step_finish s c m t votes cluster_size :
      nodes s !! c = Some m →
      votes <= Z.of_nat (size (voters (granted s) c t)) →
      (whole → Z.of_nat (size (nodes s)) <= cluster_size) →
      step whole s (update s c (state_of (finish_election t votes cluster_size m)))
  | step_call s v m m' :
      nodes s !! v = Some m → call m m' → step whole s (update s v m').

Definition initial (s : cluster) : Prop :=
  granted s = ∅ ∧
  ∀ id m, nodes s !! id = Some m → ∃ tmax now rto, m = init id tmax now rto.

(** ** The effect of a method on the vote of a node *)

(** The term and the vote are kept, or a new term starts without a vote; the
    node does not become a leader. *)
Definition benign (m m' : ElectionManager) : Prop :=
  node_id m' = node_id m ∧
  ((current_term m < current_term m' ∧ voted_for m' = None ∧ role m' ≠ LEADER) ∨
   (current_term m' = current_term m ∧ voted_for m' = voted_for m ∧
    (role m' = role m ∨ role m' ≠ LEADER))).

#[export] Instance benign_refl : Reflexive benign.
Proof. intros m. split; [done|]. right. auto. Qed.

#[export] Instance benign_trans : Transitive benign.
Proof.
  intros m1 m2 m3 [Hn [(?&?&?)|(?&?&[?|?])]] [Hn' [(?&?&?)|(?&?&[?|?])]];
    (split; [congruence|]); try (left; split_and!; [lia|congruence|congruence]; fail);
    right; (split_and!; [congruence|congruence|]); first [left; congruence|right; congruence].
Qed.

#[export] Instance benign_preorder : PreOrder benign.
Proof. split; apply _. Qed.

(** A program all of whose runs are benign. *)
Abbreviation benign_prog := (preserves benign).

(** The methods on the log change neither term nor vote nor role. *)
Lemma benign_set_log m l : benign m (set_log m l).
Proof. split; [done|right; auto]. Qed.
Lemma benign_set_commit m ci la : benign m (set_commit m ci la).
Proof. split; [done|right; auto]. Qed.

#[local] Hint Resolve benign_set_log benign_set_commit : preserves.

Lemma benign_apply_loop n : benign_prog (apply_loop n).
Proof. induction n as [|n IH]; cbn [apply_loop]; solve_preserves. Qed.
#[local] Hint Resolve benign_apply_loop : preserves.

Lemma benign_apply : benign_prog _apply_committed_entries.
Proof. unfold _apply_committed_entries. solve_preserves. Qed.
#[local] Hint Resolve benign_apply : preserves.

Lemma benign_append_one d : benign_prog (append_one d).
Proof. unfold append_one. solve_preserves. Qed.
#[local] Hint Resolve benign_append_one : preserves.

Lemma benign_append_and_commit es lc : benign_prog (append_and_commit es lc).
Proof. unfold append_and_commit. solve_preserves. Qed.
#[local] Hint Resolve benign_append_and_commit : preserves.

(** A heartbeat: a later term starts without a vote, the same term keeps it. *)
Lemma benign_receive_heartbeat now rto leader t : benign_prog (receive_heartbeat now rto leader t).
Proof.
  intros m. unfold receive_heartbeat, benign, state_of, mbind, prog_bind, get_state, modify.
  simpl. destruct (Z.ltb_spec t (current_term m)); [by split; [|right; auto]|].
  destruct (Z.ltb_spec (current_term m) t); simpl; case_decide; simpl;
    (split; [done|]); try (right; split_and!; [lia|done|by auto]; fail);
    try (left; split_and!; [lia|done|done]).
  left. split_and!; [lia|done|]. destruct (role m); naive_solver.
Qed.
#[local] Hint Resolve benign_receive_heartbeat : preserves.

Lemma benign_step_down now rto : benign_prog (step_down now rto).
Proof.
  intros m. unfold step_down, benign, state_of, mbind, prog_bind, get_state, modify.
  case_decide; simpl; (split; [done|]; right; auto).
Qed.

Lemma benign_append_entry now cmd k v tl : benign_prog (append_entry now cmd k v tl).
Proof. unfold append_entry. solve_preserves. Qed.

Lemma benign_append_entries now rto leader t pi pt es lc :
  benign_prog (handle_append_entries now rto leader t pi pt es lc).
Proof. unfold handle_append_entries. solve_preserves. Qed.

Lemma benign_commit_loop all maj idxs : benign_prog (commit_loop all maj idxs).
Proof. induction idxs as [|idx idxs IH]; cbn [commit_loop]; solve_preserves. Qed.
#[local] Hint Resolve benign_commit_loop : preserves.

Lemma benign_commit_entries mi n : benign_prog (commit_entries mi n).
Proof. unfold commit_entries. solve_preserves. Qed.

Lemma benign_call m m' : call m m' → benign m m'.
Proof.
  intros [now rto leader t|now rto|now cmd k v tl|now rto leader t pi pt es lc|mi n];
    [apply benign_receive_heartbeat|apply benign_step_down|apply benign_append_entry
    |apply benign_append_entries|apply benign_commit_entries].
Qed.

(** ** The invariant *)

Definition majority_of (s : cluster) : Z := required_majority (Z.of_nat (size (nodes s))).

Record inv (s : cluster) : Prop := {
  inv_id : ∀ id m, nodes s !! id = Some m → node_id m = id;
  inv_vote : ∀ v c t m, (v, c, t) ∈ granted s → nodes s !! v = Some m →
    t <= current_term m ∧ (t = current_term m → voted_for m = Some c);
  inv_voter : ∀ v c t, (v, c, t) ∈ granted s → is_Some (nodes s !! v);
  inv_once : ∀ v c c' t, (v, c, t) ∈ granted s → (v, c', t) ∈ granted s → c = c';
  inv_leader : ∀ id m, nodes s !! id = Some m → role m = LEADER →
    majority_of s <= Z.of_nat (size (voters (granted s) id (current_term m)));
}.

Lemma elem_of_voters g c t v : v ∈ voters g c t ↔ (v, c, t) ∈ g.
Proof.
  unfold voters. rewrite elem_of_map. split.
  - intros ([[v' c'] t'] & Hv & [[Hc Ht] Hin]%elem_of_filter). simpl in *. by subst.
  - intros Hin. exists (v, c, t). split; [done|]. by apply elem_of_filter.
Qed.

Lemma voters_mono g g' c t : g ⊆ g' → (size (voters g c t) <= size (voters g' c t))%nat.
Proof. intros Hg. apply subseteq_size. intros v. rewrite !elem_of_voters. by apply Hg. Qed.

Lemma majority_update s v m m' : nodes s !! v = Some m → majority_of (update s v m') = majority_of s.
Proof.
  intros Hm. unfold majority_of. simpl. rewrite map_size_insert_Some by eauto. done.
Qed.

Lemma inv_benign s v m m' : inv s → nodes s !! v = Some m → benign m m' → inv (update s v m').
Proof.
  intros [Hid Hvote Hvoter Honce Hlead] Hm [Hn Hb]. split; simpl; [| | |done|].
  - intros id m1 [[<- <-]|[Hne H1]]%lookup_insert_Some; [rewrite Hn|]; by apply Hid.
  - intros v' c t m1 Hg [[<- <-]|[Hne H1]]%lookup_insert_Some; [|by apply (Hvote v' c t)].
    destruct (Hvote v c t m Hg Hm) as [Hle Heq].
    destruct Hb as [(?&?&?)|(?&Hv&?)]; [split; lia|]. rewrite Hv. split; [lia|].
    intros ->. apply Heq. lia.
  - intros v' c t Hg. apply lookup_insert_is_Some'. right. by eapply Hvoter.
  - intros id m1 H1 Hr. rewrite (majority_update s v m m' Hm).
    apply lookup_insert_Some in H1 as [[<- <-]|[Hne H1]]; [|by apply Hlead].
    destruct Hb as [(?&?&?)|(Ht&?&Hrole)]; [done|]. rewrite Ht. apply Hlead; [done|].
    destruct Hrole; congruence.
Qed.

Lemma inv_grant s v c t m m' : inv s → nodes s !! v = Some m → node_id m' = node_id m →
  current_term m' = t → voted_for m' = Some c →
  (current_term m < t ∨ (current_term m = t ∧ (voted_for m = None ∨ voted_for m = Some c))) →
  (role m' = LEADER → role m = LEADER ∧ current_term m = t) →
  inv (grant (v, c, t) (update s v m')).
Proof.
  intros [Hid Hvote Hvoter Honce Hlead] Hm Hn Ht Hv Hold Hrole.
  assert (Hfresh : ∀ c', (v, c', t) ∈ granted s → c' = c).
  { intros c' Hg. destruct (Hvote v c' t m Hg Hm) as [Hle Heq].
    destruct Hold as [?|[Htm Hvf]]; [lia|]. specialize (Heq (eq_sym Htm)).
    destruct Hvf; congruence. }
  split; simpl.
  - intros id m1 [[<- <-]|[Hne H1]]%lookup_insert_Some; [rewrite Hn|]; by apply Hid.
  - intros v' c' t' m1 [Hg|Hg]%elem_of_union H1.
    + apply elem_of_singleton in Hg. simplify_eq. apply lookup_insert_Some in H1 as [[_ <-]|[? _]];
        [|done]. split; [lia|done].
    + apply lookup_insert_Some in H1 as [[<- <-]|[Hne H1]]; [|by apply (Hvote v' c' t')].
      destruct (Hvote v c' t' m Hg Hm) as [Hle Heq]. split; [lia|]. intros ->.
      rewrite Ht in *. rewrite Hv. f_equal. symmetry. by apply Hfresh.
  - intros v' c' t' [Hg|Hg]%elem_of_union; apply lookup_insert_is_Some'.
    + apply elem_of_singleton in Hg. simplify_eq. by left.
    + right. by eapply Hvoter.
  - intros v' c1 c2 t' [H1|H1]%elem_of_union [H2|H2]%elem_of_union;
      rewrite ?elem_of_singleton in *; simplify_eq; try done.
    + symmetry. by apply Hfresh.
    + by apply Hfresh.
    + by eapply Honce.
  - intros id m1 H1 Hr.
    change (majority_of (grant _ _)) with (majority_of (update s v m')).
    rewrite (majority_update s v m m' Hm).
    transitivity (Z.of_nat (size (voters (granted s) id (current_term m1)))).
    + apply lookup_insert_Some in H1 as [[<- <-]|[Hne H1]]; [|by apply Hlead].
      destruct (Hrole Hr) as [Hr0 Ht0]. rewrite Ht, <-Ht0. by apply Hlead.
    + apply Nat2Z.inj_le, voters_mono. set_solver.
Qed.

(** ** The steps preserve it *)

Lemma begin_effect rto m : let m' := state_of (begin_election rto m) in
  node_id m' = node_id m ∧ current_term m' = current_term m + 1 ∧
  voted_for m' = Some (node_id m) ∧ role m' = CANDIDATE.
Proof. done. Qed.

Lemma vote_effect now c t index lterm m :
  let r := handle_vote_request now c t index lterm m in
  let m' := state_of r in
  match result_of r with
  | Ok (_, true) =>
      node_id m' = node_id m ∧ current_term m' = t ∧ voted_for m' = Some c ∧
      (current_term m < t ∨ (current_term m = t ∧ (voted_for m = None ∨ voted_for m = Some c))) ∧
      (role m' = LEADER → role m = LEADER ∧ current_term m = t)
  | _ => benign m m'
  end.
Proof.
  unfold handle_vote_request, mbind, prog_bind, get_state, modify, state_of, result_of. simpl.
  destruct (Z.ltb_spec t (current_term m)); simpl; [reflexivity|].
  destruct (Z.ltb_spec (current_term m) t) as [Hlt|Hge]; simpl.
  - destruct (_is_log_up_to_date _ _ _); simpl.
    + split_and!; try done; [by left].
    + split; [done|]. left. done.
  - assert (current_term m = t) as Ht by lia. case_decide as Hvf; simpl; [|reflexivity].
    destruct (_is_log_up_to_date _ _ _); simpl; [|reflexivity].
    split_and!; try done; [by right].
Qed.

Lemma finish_effect t votes n m : let m' := state_of (finish_election t votes n m) in
  m' = m ∨ (node_id m' = node_id m ∧ current_term m' = t ∧ current_term m = t ∧
            voted_for m' = voted_for m ∧ role m' = LEADER ∧ required_majority n <= votes).
Proof.
  unfold finish_election, _become_leader, mbind, prog_bind, get_state, modify, state_of. simpl.
  case_decide as Hd; [by left|]. destruct (Z.leb_spec (required_majority n) votes); [right|by left].
  simpl. apply Decidable.not_or in Hd as [_ Ht]. apply dec_stable in Ht. done.
Qed.

Lemma required_majority_mono n n' : n <= n' → required_majority n <= required_majority n'.
Proof. intros Hn. unfold required_majority. pose proof (Z.div_le_mono n n' 2 ltac:(lia) Hn). lia. Qed.

Lemma inv_finish s c m t votes n : inv s → nodes s !! c = Some m →
  votes <= Z.of_nat (size (voters (granted s) c t)) → Z.of_nat (size (nodes s)) <= n →
  inv (update s c (state_of (finish_election t votes n m))).
Proof.
  intros Hinv Hm Hvotes Hn. destruct (finish_effect t votes n m) as [->|(Hid & Ht' & Ht & Hv & Hr & Hmaj)].
  { apply (inv_benign s c m); [done|done|reflexivity]. }
  set (m' := state_of _) in *. destruct Hinv as [Hids Hvote Hvoter Honce Hlead].
  split; simpl; [| | |done|].
  - intros id m1 [[<- <-]|[Hne H1]]%lookup_insert_Some; [rewrite Hid|]; by apply Hids.
  - intros v c' t' m1 Hg [[<- <-]|[Hne H1]]%lookup_insert_Some; [|by apply (Hvote v c' t')].
    rewrite Hv, Ht', <-Ht. by apply (Hvote c c' t' m).
  - intros v c' t' Hg. apply lookup_insert_is_Some'. right. by eapply Hvoter.
  - intros id m1 H1 Hrole. rewrite (majority_update s c m m' Hm).
    apply lookup_insert_Some in H1 as [[<- <-]|[Hne H1]]; [|by apply Hlead].
    rewrite Ht'. pose proof (required_majority_mono _ _ Hn). unfold majority_of. lia.
Qed.

Lemma step_inv s s' : inv s → step True s s' → inv s'.
Proof.
  intros Hinv Hs. destruct Hs as
    [s c m rto Hm m'|s v c t m now index lterm Hm r|s c m t votes n Hm Hv Hn|s v m m' Hm Hc].
  - destruct (begin_effect rto m) as (Hid & Ht & Hv & Hr). fold m' in Hid, Ht, Hv, Hr.
    eapply inv_grant; [done|done|done|done| | |].
    + by rewrite Hv, (inv_id _ Hinv _ _ Hm).
    + left. lia.
    + congruence.
  - pose proof (vote_effect now c t index lterm m) as He. fold r in He. simpl in He.
    destruct (result_of r) as [[t' [|]]|x].
    + destruct He as (?&?&?&?&?). by eapply inv_grant.
    + by eapply inv_benign.
    + by eapply inv_benign.
  - apply inv_finish; auto.
  - by eapply inv_benign, benign_call.
Qed.

Lemma initial_inv s : initial s → inv s.
Proof.
  intros [Hg Hm]. split; rewrite ?Hg; [|set_solver..|].
  { intros id m H1. by destruct (Hm id m H1) as (tmax & now & rto & ->). }
  intros id m H1 Hr. destruct (Hm id m H1) as (tmax & now & rto & ->). done.
Qed.

Lemma steps_inv s s' : inv s → rtc (step True) s s' → inv s'.
Proof. intros Hi Hs. induction Hs as [|s1 s2 s3 H12 _ IH]; [done|]. by eapply IH, step_inv. Qed.

Lemma steps_size s s' : rtc (step True) s s' → size (nodes s') = size (nodes s).
Proof.
  induction 1 as [|s1 s2 s3 H12 _ IH]; [done|]. rewrite IH. clear IH.
  destruct H12; repeat case_match; simpl; by rewrite map_size_insert_Some by eauto.
Qed.

(** Two majorities of the members share a voter. *)
Lemma majorities_meet (s : cluster) (A B : gset string) :
  (∀ v, v ∈ A ∪ B → is_Some (nodes s !! v)) →
  majority_of s <= Z.of_nat (size A) → majority_of s <= Z.of_nat (size B) →
  ∃ v, v ∈ A ∧ v ∈ B.
Proof.
  intros Hsub HA HB.
  assert (Hle : (size (A ∪ B) <= size (nodes s))%nat).
  { rewrite <-(size_dom (nodes s)). apply subseteq_size. intros v Hv. apply elem_of_dom. auto. }
  destruct (decide (A ∩ B = ∅)) as [Hd|Hd].
  - exfalso. rewrite size_union in Hle by set_solver.
    unfold majority_of, required_majority in *.
    pose proof (Z.div_mod (Z.of_nat (size (nodes s))) 2).
    pose proof (Z.mod_pos_bound (Z.of_nat (size (nodes s))) 2). lia.
  - apply set_choose_L in Hd as [v Hv]. exists v. set_solver.
Qed.

(** In a state of the invariant a term has one leader. *)
Lemma inv_one_leader s a b ma mb :
  inv s → nodes s !! a = Some ma → nodes s !! b = Some mb →
  is_leader ma = true → is_leader mb = true → current_term ma = current_term mb →
  a = b.
Proof.
  intros Hinv Ha Hb Hla Hlb Ht.
  apply bool_decide_eq_true_1 in Hla, Hlb.
  destruct (majorities_meet s (voters (granted s) a (current_term ma))
              (voters (granted s) b (current_term mb))) as (v & Hva & Hvb).
  - intros v [Hv|Hv]%elem_of_union; apply elem_of_voters in Hv; by eapply inv_voter.
  - by apply inv_leader.
  - by apply inv_leader.
  - apply elem_of_voters in Hva, Hvb. rewrite Ht in Hva. by eapply (inv_once _ Hinv).
Qed.

(** In every run of a cluster whose members are fixed and never
    restart, and where a candidate counts every member in the cluster size,
    two nodes that lead in the same term are the same node. *)
Theorem one_leader_per_term s0 s a b ma mb :
  initial s0 → rtc (step True) s0 s →
  nodes s !! a = Some ma → nodes s !! b = Some mb →
  is_leader ma = true → is_leader mb = true → current_term ma = current_term mb →
  a = b.
Proof.
  intros Hinit Hrun Ha Hb Hla Hlb Ht. eapply inv_one_leader; [|done..].
  by eapply steps_inv, Hrun; apply initial_inv.
Qed.

(** ** Concrete runs *)

Definition node (id : string) : ElectionManager := init id (seconds 3) 0 (seconds 2).
Definition abc : cluster := mkCluster {["a" := node "a"; "b" := node "b"; "c" := node "c"]}%string ∅.

(** [a] asks for votes in term 1, [b] grants one, [a] wins. *)
Definition a_begun : ElectionManager := state_of (begin_election (seconds 2) (node "a")).
Definition b_voted : ElectionManager :=
  state_of (handle_vote_request (seconds 3) "a" 1 0 0 (node "b")).
Definition a_leads : ElectionManager := state_of (finish_election 1 2 3 a_begun).

Definition abc_run : cluster :=
  update (grant ("b", "a", 1)%string (update (grant ("a", "a", 1)%string (update abc "a" a_begun))
    "b" b_voted)) "a" a_leads.

Lemma abc_reaches : rtc (step True) abc abc_run.
Proof.
  eapply rtc_l.
  { apply (step_begin _ abc "a" (node "a") (seconds 2)). reflexivity. }
  eapply rtc_l.
  { apply (step_vote _ _ "b" "a" 1 (node "b") (seconds 3) 0 0). reflexivity. }
  eapply rtc_l.
  { apply (step_finish _ _ "a" a_begun 1 2 3); [reflexivity| |]; vm_compute; discriminate. }
  apply rtc_refl.
Qed.

Lemma abc_initial : initial abc.
Proof.
  split; [done|]. intros id m Hm. apply elem_of_map_to_list in Hm.
  vm_compute in Hm. exists (seconds 3), 0, (seconds 2).
  repeat (apply elem_of_cons in Hm as [Hm|Hm]; [by simplify_eq|]). by apply not_elem_of_nil in Hm.
Qed.

Lemma one_leader_per_term_witness :
  (∃ m, nodes abc_run !! "a"%string = Some m ∧ is_leader m = true ∧ current_term m = 1) ∧
  ∀ b mb, nodes abc_run !! b = Some mb → is_leader mb = true → current_term mb = 1 →
    "a"%string = b.
Proof.
  split; [exists a_leads; split; [|split]; reflexivity|].
  intros b mb Hb Hl Ht.
  exact (one_leader_per_term abc abc_run "a" b a_leads mb abc_initial abc_reaches
           eq_refl Hb eq_refl Hl (eq_sym Ht)).
Defined.

(** The assumptions of election safety are needed: two nodes that
    each see the other as dead both win the next term with their own vote, and
    a voter that restarts, which forgets its term and its vote, grants a second
    vote in a term and elects a second leader. *)
Theorem two_leaders_without_assumptions :
  (∀ m1 m2 r1 r2, current_term m1 = current_term m2 →
    let t := current_term m1 + 1 in
    let l1 := state_of (finish_election t 1 1 (state_of (begin_election r1 m1))) in
    let l2 := state_of (finish_election t 1 1 (state_of (begin_election r2 m2))) in
    is_leader l1 = true ∧ is_leader l2 = true ∧ current_term l1 = current_term l2) ∧
  (let v1 := handle_vote_request (seconds 3) "a" 1 0 0 (node "b") in
   let restarted := node "b" in
   let v2 := handle_vote_request (seconds 9) "c" 1 0 0 restarted in
   let lead c := state_of (finish_election 1 2 3 (state_of (begin_election (seconds 2) (node c)))) in
   result_of v1 = Ok (1, true) ∧ result_of v2 = Ok (1, true) ∧
   is_leader (lead "a"%string) = true ∧ is_leader (lead "c"%string) = true ∧
   current_term (lead "a"%string) = current_term (lead "c"%string)).
Proof.
  split; [|vm_compute; by split_and!].
  intros m1 m2 r1 r2 Ht t l1 l2.
  assert (Hwin : ∀ m rto, t = current_term m + 1 →
    is_leader (state_of (finish_election t 1 1 (state_of (begin_election rto m)))) = true ∧
    current_term (state_of (finish_election t 1 1 (state_of (begin_election rto m)))) = t).
  { intros m rto ->. unfold finish_election, mbind, prog_bind, get_state, state_of. simpl.
    rewrite decide_False by naive_solver. done. }
  destruct (Hwin m1 r1 eq_refl) as [H1 H1']. destruct (Hwin m2 r2) as [H2 H2']; [lia|].
  split_and!; [done|done|]. unfold l1, l2. congruence.
Qed.

End Cluster.
