(* ===== verification/ElectionLog.v ===== *)
(** The replicated log of the election manager: what [handle_append_entries]
    applies, and in which order. *)

From S2P Require Import Prelude.
From S2P Require Import PyMonad.
From S2P Require Import PyDict.
From S2P Require Import Json.
From S2P Require Import Config.
From S2P Require Import Fields.
From S2P Require Import Election.
#[local] Open Scope Z_scope.

Module ElectionLog.
Import Election.

(** The entries among the callbacks of a run. *)
Definition applied (es : list election_event) : list LogEntry :=
  omap (λ e, match e with ApplyEntry x => Some x | _ => None end) es.

Lemma applied_entries l : applied (ApplyEntry <$> l) = l.
Proof. induction l as [|y l IH]; [done|]. simpl. by f_equal. Qed.

(** The log between two indices, the first excluded. *)
Definition slice (l : list LogEntry) (from to : Z) : list LogEntry :=
  take (Z.to_nat (to - from)) (drop (Z.to_nat from) l).

Lemma apply_loop_spec n m : 0 <= last_applied m →
  (n = 0%nat ∨ last_applied m + Z.of_nat n <= Z.of_nat (length (log m))) →
  apply_loop n m =
    (set_commit m (commit_index m) (last_applied m + Z.of_nat n),
     ApplyEntry <$> take n (drop (Z.to_nat (last_applied m)) (log m)), Ok tt).
Proof.
  revert m. induction n as [|n IH]; intros m Hla Hlen.
  { simpl. rewrite Z.add_0_r. by destruct m. }
  destruct Hlen as [?|Hlen]; [done|]. cbn [apply_loop].
  destruct (lookup_lt_is_Some_2 (log m) (Z.to_nat (last_applied m)) ltac:(lia)) as [e He].
  set (m1 := set_commit m (commit_index m) (last_applied m + 1)).
  erewrite bind_ok with (s1 := m1); [|reflexivity|].
  2:{ rewrite get_bind. erewrite bind_ok; [reflexivity| |].
      - unfold lift. simpl. erewrite py_index_ok; [reflexivity|lia|].
        by replace (last_applied m + 1 - 1) with (last_applied m) by lia.
      - erewrite bind_ok; [reflexivity|reflexivity|]. apply IH; simpl; lia. }
  simpl. rewrite (drop_S _ _ _ He). simpl.
  replace (Z.to_nat (last_applied m + 1)) with (S (Z.to_nat (last_applied m))) by lia.
  replace (last_applied m + 1 + Z.of_nat n) with (last_applied m + Z.of_nat (S n)) by lia. done.
Qed.

(** A run that makes no callback and keeps the two indices. *)
Definition quiet {A} (p : proc A) : Prop := ∀ m m' es r, p m = (m', es, r) →
  applied es = [] ∧ commit_index m' = commit_index m ∧ last_applied m' = last_applied m.

Lemma quiet_bind {A B} (p : proc A) (f : A → proc B) :
  quiet p → (∀ a, quiet (f a)) → quiet (p ≫= f).
Proof.
  intros Hp Hf m m' es r. unfold mbind, prog_bind.
  destruct (p m) as [[m1 es1] [a|x]] eqn:E1; [|intros [= <- <- <-]; by eapply Hp].
  destruct (f a m1) as [[m2 es2] r2] eqn:E2. intros [= <- <- <-].
  apply Hp in E1 as (H1 & H2 & H3). apply Hf in E2 as (H1' & H2' & H3').
  unfold applied in *. rewrite omap_app, H1, H1'. split_and!; [done|congruence..].
Qed.

Lemma quiet_modify f : (∀ m, commit_index (f m) = commit_index m ∧ last_applied (f m) = last_applied m) →
  quiet (modify f).
Proof. intros Hf m m' es r [= <- <- <-]. split; [done|apply Hf]. Qed.

Lemma quiet_same {A} (r : res A) : quiet (lift r).
Proof. by intros m m' es r' [= <- <- <-]. Qed.

Lemma quiet_get : quiet get_state.
Proof. by intros m m' es r' [= <- <- <-]. Qed.

Lemma quiet_append_one d : quiet (append_one d).
Proof.
  unfold append_one. apply quiet_bind; [apply quiet_same|intros e].
  apply quiet_bind; [apply quiet_get|intros m].
  destruct (_ <=? _); [|by apply quiet_modify].
  apply quiet_bind; [apply quiet_same|intros old].
  case_decide; [by apply quiet_modify|by intros ???? [= <- <- <-]].
Qed.

Lemma quiet_for_each {X} (f : X → proc ()) xs : (∀ x, quiet (f x)) → quiet (for_each f xs).
Proof.
  intros Hf. induction xs as [|x xs IH]; cbn [for_each]; [by intros ???? [= <- <- <-]|].
  apply quiet_bind; [done|by intros _].
Qed.

Lemma quiet_heartbeat now rto leader t : quiet (receive_heartbeat now rto leader t).
Proof.
  unfold receive_heartbeat. apply quiet_bind; [apply quiet_get|intros m].
  destruct (t <? current_term m); [by intros ???? [= <- <- <-]|].
  apply quiet_bind; [destruct (_ <? _); [by apply quiet_modify|by intros ???? [= <- <- <-]]|intros _].
  apply quiet_bind; [by apply quiet_modify|intros _].
  apply quiet_bind; [apply quiet_get|intros m'].
  apply quiet_bind; [|by intros _ ???? [= <- <- <-]].
  case_decide; [|by intros ???? [= <- <- <-]].
  apply quiet_bind; [by apply quiet_modify|]. by intros _ ???? [= <- <- <-].
Qed.

(** What a successful call promises about the state before and after. *)
Definition applies (m m' : ElectionManager) (es : list election_event) (lc : Z) : Prop :=
  applied es = slice (log m') (last_applied m) (commit_index m') ∧
  commit_index m' = (if commit_index m <? lc
                     then Z.min lc (Z.of_nat (length (log m'))) else commit_index m) ∧
  last_applied m' = Z.max (last_applied m) (commit_index m').

Lemma append_and_commit_spec entries lc m m' es x :
  0 <= last_applied m → last_applied m = commit_index m →
  append_and_commit entries lc m = (m', es, Ok x) →
  applies m m' es lc ∧ x = (current_term m', true, Z.of_nat (length (log m'))).
Proof.
  intros Hla Hci Hr. unfold append_and_commit in Hr.
  apply bind_ok_inv in Hr as (m1 & es1 & [] & es2 & Hf & Hr & ->).
  apply (quiet_for_each append_one entries quiet_append_one) in Hf as (He1 & Hc1 & Hl1).
  rewrite get_bind in Hr. apply bind_ok_inv in Hr as (m2 & es3 & [] & es4 & Hc & Hr & ->).
  rewrite get_bind in Hr. injection Hr as <- <- <-. rewrite app_nil_r. split; [|done].
  unfold applies, applied in *. rewrite omap_app, He1. simpl. rewrite <-Hc1, <-Hl1.
  rewrite <-Hc1, <-Hl1 in *. clear He1 Hc1 Hl1 es1 m. rename m1 into m.
  destruct (Z.ltb_spec (commit_index m) lc) as [Hlt|Hge].
  - set (ci := Z.min lc (Z.of_nat (length (log m)))) in *.
    apply bind_ok_inv in Hc as (m1 & e1 & [] & e2 & [= <- <-] & Hc & ->).
    unfold _apply_committed_entries in Hc. rewrite get_bind in Hc. simpl in Hc.
    rewrite apply_loop_spec in Hc by (simpl; lia). simplify_eq. simpl.
    unfold slice. split_and!; [|done|lia].
    apply applied_entries.
  - injection Hc as <- <-. unfold slice. rewrite Hci, Z.sub_diag. split_and!; [done|done|lia].
Qed.

(** Claim C27. A follower that accepts [handle_append_entries] raises its
    commit index to the leader's, bounded by its own log, and applies exactly
    the log entries between the old and the new index, each once and in log
    order; a follower that refuses applies nothing. *)
Theorem append_entries_applies now rto leader term pi pt entries lc m m' es t ok n :
  0 <= last_applied m → last_applied m = commit_index m →
  handle_append_entries now rto leader term pi pt entries lc m = (m', es, Ok (t, ok, n)) →
  t = current_term m' ∧ last_applied m' = Z.max (last_applied m) (commit_index m') ∧
  if ok then
    n = Z.of_nat (length (log m')) ∧
    applied es = slice (log m') (last_applied m) (commit_index m') ∧
    commit_index m' = (if commit_index m <? lc then Z.min lc n else commit_index m)
  else applied es = [] ∧ commit_index m' = commit_index m.
Proof.
  intros Hla Hci Hr. unfold handle_append_entries in Hr. rewrite get_bind in Hr.
  destruct (term <? current_term m).
  { injection Hr as <- <- <- <- <-. split_and!; [done|lia|done|done]. }
  apply bind_ok_inv in Hr as (m1 & es1 & b & es2 & Hh & Hr & ->).
  apply quiet_heartbeat in Hh as (He1 & Hc1 & Hl1).
  rewrite get_bind in Hr. unfold applied in *. rewrite omap_app, He1. simpl.
  rewrite <-Hc1, <-Hl1 in *. clear He1 Hc1 Hl1 es1 m b.
  assert (Hok : append_and_commit entries lc m1 = (m', es2, Ok (t, ok, n)) →
    t = current_term m' ∧ last_applied m' = Z.max (last_applied m1) (commit_index m') ∧
    if ok then n = Z.of_nat (length (log m')) ∧
      applied es2 = slice (log m') (last_applied m1) (commit_index m') ∧
      commit_index m' = (if commit_index m1 <? lc then Z.min lc n else commit_index m1)
    else applied es2 = [] ∧ commit_index m' = commit_index m1).
  { intros H. apply append_and_commit_spec in H as [(H1 & H2 & H3) [= -> -> ->]]; [|done..].
    split_and!; try done. }
  destruct (0 <? pi); [|by apply Hok].
  destruct (_ <? pi).
  { injection Hr as <- <- <- <- <-. split_and!; [done|lia|done|done]. }
  apply bind_ok_inv in Hr as (m2 & e1 & old & e2 & [= <- <- Hold] & Hr & ->).
  case_decide; [|by apply Hok].
  apply bind_ok_inv in Hr as (m3 & e3 & [] & e4 & [= <- <-] & Hr & ->).
  rewrite get_bind in Hr. injection Hr as <- <- <- <- <-. simpl. split_and!; [done|lia|done|done].
Qed.

(** A follower with two entries, one of them committed by this call. *)
Definition entry1 : json :=
  LogEntry.to_dict (LogEntry.mkLog 1 1 "SET" "a" (JInt 5) None 0 1 None None "").
Definition entry2 : json :=
  LogEntry.to_dict (LogEntry.mkLog 1 2 "DELETE" "a" JNull None 0 1 None None "").
Definition follower : ElectionManager := init "f" (seconds 3) 0 (seconds 2).

Lemma append_entries_applies_witness :
  match handle_append_entries 0 0 "l" 1 0 0 [entry1; entry2] 1 follower with
  | (m', es, Ok (t, ok, n)) =>
      ok = true ∧ n = 2 ∧ applied es = slice (log m') 0 1 ∧ length (applied es) = 1%nat
  | _ => False
  end.
Proof.
  destruct (handle_append_entries 0 0 "l" 1 0 0 [entry1; entry2] 1 follower)
    as [[m' es] [[[t ok] n]|x]] eqn:Hr; [|discriminate Hr].
  pose proof (append_entries_applies 0 0 "l" 1 0 0 [entry1; entry2] 1 follower m' es t ok n
                ltac:(simpl; lia) eq_refl Hr) as (_ & _ & H).
  vm_compute in Hr. injection Hr as <- <- <- <- <-.
  destruct H as (_ & H & _). split; [reflexivity|]. split; [reflexivity|].
  split; [exact H|reflexivity].
Defined.

End ElectionLog.
