(* ===== verification/Storage.v ===== *)
(** The persistence of a node ([minidb/node.py]): the store with its
    append-only file and its snapshots, how log entries and repaired values
    are written to both, recovery at startup, and the maintenance round. *)

From S2P Require Import Prelude.
From S2P Require Import PyMonad.
From S2P Require Import PyDict.
From S2P Require Import Json.
From S2P Require Import Config.
From S2P Require Import Store.
From S2P Require Import Aof.
From S2P Require Import Snapshot.
From S2P Require Import Election.

Module Storage.

(** The node's [store], [aof] and [snapshot]; the two last may be disabled. *)
Record storage := mkStorage {
  store : KVStore.KVStore;
  aof : option AOF.AOFPersistence;
  snapshot : option Snapshot.SnapshotPersistence;
}.

Abbreviation proc := (prog storage Empty_set).

Definition with_store (st : storage) s := mkStorage s (aof st) (snapshot st).
Definition with_aof (st : storage) a := mkStorage (store st) (Some a) (snapshot st).

(** [self.store.set(...)], [self.store.delete(...)], [self.store.get_with_metadata(...)] *)
Definition store_set (now : time) (k : string) (v : json) (o : KVStore.set_opts) : proc () :=
  modify (λ st, with_store st (KVStore.set now (store st) k v o).1).

Definition store_delete (k : string) : proc bool :=
  st ← get_state;
  let r := KVStore.delete (store st) k in
  put_state (with_store st r.1);; mret r.2.

Definition store_get_meta (now : time) (k : string) : proc (option KVStore.KeyMetadata) :=
  st ← get_state;
  let r := KVStore.get_with_metadata now (store st) k in
  put_state (with_store st r.1);; mret r.2.

(** [if self.aof: self.aof.append(...)] *)
Definition aof_append (now : time) (e : AOF.AOFEntry) (sync : bool) : proc () :=
  st ← get_state;
  match aof st with
  | None => mret ()
  | Some a =>
      a ← lift (AOF.append now a e sync);
      put_state (with_aof st a)
  end.

(** ** Committed log entries *)

Definition _apply_log_entry (now : time) (e : LogEntry) : proc () :=
  if decide (LogEntry.command e = "SET") then
    store_set now (LogEntry.key e) (LogEntry.value e)
      (KVStore.mkOpts None (Some (LogEntry.version e)) (LogEntry.expires_at e)
         (LogEntry.created_at e) (Some (LogEntry.timestamp e)) (Some (LogEntry.coordinator_id e)));;
    aof_append now
      (AOF.make_entry now SET (LogEntry.key e) (LogEntry.value e) (LogEntry.ttl e)
         (LogEntry.version e) (LogEntry.expires_at e) (LogEntry.created_at e)
         (Some (LogEntry.timestamp e)) (LogEntry.coordinator_id e)) true
  else if decide (LogEntry.command e = "DELETE") then
    _ ← store_delete (LogEntry.key e);
    aof_append now
      (AOF.make_entry now DELETE (LogEntry.key e) JNull None (LogEntry.version e) None None
         (Some (LogEntry.timestamp e)) (LogEntry.coordinator_id e)) true
  else mret ().

(** ** Values with metadata, newest first *)

(** [_metadata_sort_key]: tuples compare from the left. *)
Definition order : Type := Z * time * string.

Definition _metadata_sort_key (m : KVStore.KeyMetadata) : order :=
  (KVStore.version m, KVStore.updated_at m, KVStore.coordinator_id m).

Definition order_ltb (a b : order) : bool :=
  let '(v, u, c) := a in let '(v', u', c') := b in
  (v <? v') || ((v =? v') && ((u <? u') || ((u =? u') && str_ltb c c'))).

(** The shared body of [_apply_repair_data], [_handle_replica_set] and
    [_handle_import_keys]: the incoming value is written unless the stored one
    is strictly newer; the result tells whether it was written. *)
Definition put_newer (now : time) (k : string) (v : json) (version : Z) (expires_at : option time)
    (created_at updated_at : time) (coordinator_id : string) : proc bool :=
  current ← store_get_meta now k;
  if match current with
     | Some m => order_ltb (version, updated_at, coordinator_id) (_metadata_sort_key m)
     | None => false
     end
  then mret false
  else
    store_set now k v (KVStore.mkOpts None (Some version) expires_at (Some created_at)
                         (Some updated_at) (Some coordinator_id));;
    aof_append now (AOF.make_entry now SET k v None version expires_at (Some created_at)
                      (Some updated_at) coordinator_id) false;;
    mret true.

(** The metadata dict that travels with a repaired value. *)
Record repair_meta := mkRepair {
  r_updated_at : option time;
  r_created_at : option time;
  r_expires_at : option time;
  r_coordinator_id : option string;
}.

(** [float(x or y)] *)
Definition time_or (x : option time) (y : time) : time :=
  if truthy_time x then default y x else y.

Definition _apply_repair_data (now : time) (node_id key : string) (value : json) (version : Z)
    (m : repair_meta) : proc bool :=
  let updated_at := time_or (r_updated_at m) now in
  let created_at := time_or (r_created_at m) updated_at in
  put_newer now key value version (r_expires_at m) created_at updated_at
    (default node_id (r_coordinator_id m)).

(** [_get_data_for_repair]: key to (value, version). *)
Definition _get_data_for_repair (now : time) : proc (dict string (json * Z)) :=
  st ← get_state;
  let r := KVStore.get_all_data now (store st) in
  put_state (with_store st r.1);;
  mret (dict_map_values (λ i, let m := KVStore.of_item now i in
                              (KVStore.value m, KVStore.version m)) r.2).

(** [_receive_migration_keys] and [_delete_migrated_keys]. *)
Definition _receive_migration_keys (now : time) (data : dict string data_item) : proc bool :=
  for_each (λ p,
    match p.2 with
    | Item6 v e ver c u co =>
        store_set now p.1 v (KVStore.mkOpts None (Some ver) e (Some c) (Some u) (Some co));;
        aof_append now (AOF.make_entry now SET p.1 v None ver e (Some c) (Some u) co) false
    | Item3 v _ _ =>
        store_set now p.1 v KVStore.no_opts;;
        aof_append now (AOF.make_entry now SET p.1 v None 1 None None None "") false
    end) data;;
  mret true.

Definition _delete_migrated_keys (now : time) (node_id : string) (keys : list string) : proc () :=
  for_each (λ k,
    m ← store_get_meta now k;
    _ ← store_delete k;
    aof_append now (AOF.make_entry now DELETE k JNull None
                      (default 1 (KVStore.version <$> m)) None None (Some now)
                      (default node_id (KVStore.coordinator_id <$> m))) false) keys.

(** ** Startup and maintenance *)

(** The expiry that recovery gives an entry. *)
Definition recovered_expiry (e : AOF.AOFEntry) : option time :=
  match AOF.expires_at e with
  | Some x => Some x
  | None => match AOF.ttl e with
            | Some t => if t =? 0 then None else Some (AOF.timestamp e + seconds t)
            | None => None
            end
  end.

Definition apply_aof_entry (now : time) (s : KVStore.KVStore) (e : AOF.AOFEntry)
    : KVStore.KVStore * res unit :=
  match AOF.command e with
  | SET =>
      let ex := recovered_expiry e in
      if truthy_time ex && (default 0 ex <=? now) then (s, Ok tt)
      else ((KVStore.set now s (AOF.key e) (AOF.value e)
               (KVStore.mkOpts None (Some (AOF.version e)) ex (AOF.created_at e)
                  (Some (AOF.timestamp e)) (Some (AOF.coordinator_id e)))).1, Ok tt)
  | DELETE => ((KVStore.delete s (AOF.key e)).1, Ok tt)
  | EXPIRE => (s, Ok tt)
  end.

(** Python's recursion limit. *)
Definition recursion_limit : nat := 1000.

(** [_recover_data]: the snapshot first, then the log. *)
Definition _recover_data (now : time) : proc Z :=
  st ← get_state;
  (match snapshot st with
   | Some sn =>
       let r := Snapshot.load recursion_limit now (Snapshot.disk sn) in
       let sn := Snapshot.mkSnap (Snapshot.interval sn) (Snapshot._last_snapshot sn) r.1 in
       let s := match r.2 with
                | Some data => if decide (data = []) then store st
                               else KVStore.load_data now (store st) data
                | None => store st
                end in
       put_state (mkStorage s (aof st) (Some sn))
   | None => mret ()
   end);;
  st ← get_state;
  match aof st with
  | Some a =>
      r ← lift (AOF.replay (apply_aof_entry now) (Some (AOF.contents a)) (store st));
      put_state (with_store st r.1);; mret r.2
  | None => mret 0
  end.

Section maintenance.
Context (gz_size : string → Z).

(** The persistence part of one round of [_maintenance_loop]: expired keys
    go, and when a snapshot is due it is saved and the log compacted with
    the same data. *)
Definition maintenance_round (now : time) (failing : option nat) : proc () :=
  modify (λ st, with_store st (KVStore.cleanup_expired_keys now (store st)));;
  st ← get_state;
  match snapshot st with
  | Some sn =>
      if Snapshot.should_snapshot now sn then
        let r := KVStore.get_all_data now (store st) in
        let w := Snapshot.save gz_size now now sn r.2 failing in
        put_state (mkStorage r.1 (aof st) (Some w.1));;
        if w.2 then
          match aof st with
          | Some a => if AOF.should_compact a
                      then modify (λ st, with_aof st (AOF.compact now a r.2)) else mret ()
          | None => mret ()
          end
        else mret ()
      else mret ()
  | None => mret ()
  end.

(** One round of the file's fsync thread. *)
Definition fsync_round (now : time) : proc () :=
  modify (λ st, match aof st with Some a => with_aof st (AOF.fsync_tick now a) | None => st end).

(** The persistence part of [stop]. *)
Definition shutdown (now : time) (failing : option nat) : proc () :=
  st ← get_state;
  (match snapshot st with
   | Some sn =>
       let r := KVStore.get_all_data now (store st) in
       put_state (mkStorage r.1 (aof st) (Some (Snapshot.save gz_size now now sn r.2 failing).1))
   | None => mret ()
   end);;
  modify (λ st, match aof st with
                | Some a => with_aof st (AOF.close now a)
                | None => st
                end).
End maintenance.

End Storage.
