(* ===== verification/StorageFacts.v ===== *)
(** Durability of a node: what a restart recovers of the writes that were
    applied, compaction, and the order of values with metadata. *)

From S2P Require Import Prelude.
From S2P Require Import Text.
From S2P Require Import PyMonad.
From S2P Require Import PyDict.
From S2P Require Import Json.
From S2P Require Import Config.
From S2P Require Import Store.
From S2P Require Import StoreSpec.
From S2P Require Import Aof.
From S2P Require Import AofFacts.
From S2P Require Import Snapshot.
From S2P Require Import Election.
From S2P Require Import Storage.
#[local] Open Scope Z_scope.

Module StorageF.
Import Storage.

(** ** One log entry on one key *)

(** The entries that the write path builds: a SET or a DELETE, with its
    version, creation time and absolute expiry filled in. *)
Definition complete (e : LogEntry) : Prop :=
  LogEntry.command e = "DELETE"%string ∨
  LogEntry.command e = "SET"%string ∧ json_wf (LogEntry.value e) ∧ LogEntry.version e ≠ 0 ∧
  is_Some (LogEntry.created_at e) ∧ (LogEntry.expires_at e = None → LogEntry.ttl e = None).

(** The metadata a SET stores. *)
Definition entry_meta (e : LogEntry) : KVStore.KeyMetadata :=
  KVStore.mkMeta (LogEntry.value e) (default 0 (LogEntry.created_at e)) (LogEntry.timestamp e)
    (LogEntry.expires_at e) (LogEntry.version e) (LogEntry.coordinator_id e).

(** The line a committed entry writes to the file. *)
Definition aof_entry (e : LogEntry) : AOF.AOFEntry :=
  if decide (LogEntry.command e = "SET"%string)
  then AOF.mkEntry (LogEntry.timestamp e) SET (LogEntry.key e) (LogEntry.value e) (LogEntry.ttl e)
         (LogEntry.expires_at e) (LogEntry.version e) (LogEntry.created_at e) (LogEntry.coordinator_id e)
  else AOF.mkEntry (LogEntry.timestamp e) DELETE (LogEntry.key e) JNull None None
         (LogEntry.version e) None (LogEntry.coordinator_id e).

(** A SET that has expired when the node restarts. *)
Definition expired_set (now : time) (e : LogEntry) : bool :=
  bool_decide (LogEntry.command e = "SET"%string) &&
  truthy_time (LogEntry.expires_at e) && (default 0 (LogEntry.expires_at e) <=? now).

(** What an entry does to a key, when applied and when replayed. *)
Definition live_step (k : string) (o : option KVStore.KeyMetadata) (e : LogEntry) :=
  if decide (LogEntry.key e = k) then
    if decide (LogEntry.command e = "SET"%string) then Some (entry_meta e) else None
  else o.

Definition replay_step (now : time) (k : string) (o : option KVStore.KeyMetadata) (e : LogEntry) :=
  if expired_set now e then o else live_step k o e.

Definition lookup (s : KVStore.KVStore) (k : string) : option KVStore.KeyMetadata :=
  dict_get (KVStore._store s) k.

Lemma lookup_set now s k k' v o :
  lookup (KVStore.set now s k v o).1 k' =
    if decide (k = k') then Some (KVStore.new_meta now (lookup s k) v o) else lookup s k'.
Proof.
  unfold lookup, KVStore.set. simpl. case_decide as Hk; [subst; apply dict_get_set_eq|].
  by apply dict_get_set_ne.
Qed.

Lemma lookup_delete s k k' :
  lookup (KVStore.delete s k).1 k' = if decide (k = k') then None else lookup s k'.
Proof.
  unfold lookup, KVStore.delete, KVStore._delete_internal.
  destruct (dict_mem k (KVStore._store s)) eqn:E; simpl.
  - case_decide as Hk; [subst; apply dict_get_del_eq|by apply dict_get_del_ne].
  - apply dict_mem_false in E. case_decide; congruence.
Qed.

Lemma new_meta_complete now old e : complete e → LogEntry.command e = "SET"%string →
  KVStore.new_meta now old (LogEntry.value e)
    (KVStore.mkOpts None (Some (LogEntry.version e)) (LogEntry.expires_at e)
       (LogEntry.created_at e) (Some (LogEntry.timestamp e)) (Some (LogEntry.coordinator_id e)))
  = entry_meta e.
Proof.
  intros [H|(_ & _ & Hv & [c Hc] & _)] Hcmd; [congruence|].
  unfold KVStore.new_meta, KVStore.new_version, entry_meta. simpl. rewrite Hc. simpl.
  destruct (Z.eqb_spec (LogEntry.version e) 0); [done|].
  by destruct (LogEntry.expires_at e).
Qed.

Lemma aof_entry_wf e : complete e → AOFF.entry_wf (aof_entry e).
Proof.
  unfold AOFF.entry_wf, aof_entry. intros [->|(-> & ? & _)]; [by rewrite decide_False|].
  by rewrite decide_True.
Qed.

Lemma replay_lookup now s e k : complete e →
  lookup (apply_aof_entry now s (aof_entry e)).1 k = replay_step now k (lookup s k) e.
Proof.
  intros Hc. unfold aof_entry, replay_step, live_step, expired_set.
  destruct (decide (LogEntry.command e = "SET"%string)) as [Hs|Hs].
  - rewrite bool_decide_eq_true_2 by done. cbn [andb].
    assert (Hex : recovered_expiry (AOF.mkEntry (LogEntry.timestamp e) SET (LogEntry.key e)
      (LogEntry.value e) (LogEntry.ttl e) (LogEntry.expires_at e) (LogEntry.version e)
      (LogEntry.created_at e) (LogEntry.coordinator_id e)) = LogEntry.expires_at e).
    { unfold recovered_expiry. simpl. destruct (LogEntry.expires_at e) eqn:E; [done|].
      destruct Hc as [?|(_&_&_&_&Ht)]; [congruence|]. by rewrite Ht. }
    unfold apply_aof_entry. rewrite Hex. cbn [AOF.command AOF.key AOF.value AOF.version
      AOF.created_at AOF.timestamp AOF.coordinator_id].
    destruct (_ && _); [done|]. cbn [fst]. rewrite lookup_set, new_meta_complete by done. done.
  - rewrite bool_decide_eq_false_2 by done. simpl. apply lookup_delete.
Qed.

(** ** A run of log entries *)

Definition run_log (ops : list (time * LogEntry)) : proc () :=
  for_each (λ p, _apply_log_entry p.1 p.2) ops.

Definition entries (ops : list (time * LogEntry)) : list LogEntry := snd <$> ops.

Lemma aof_append_ok now x sync st a a' : aof st = Some a → AOF.append now a x sync = Ok a' →
  aof_append now x sync st = (with_aof st a', [], Ok tt).
Proof.
  intros Ha Hap. unfold aof_append. rewrite get_bind, Ha.
  erewrite bind_ok; [|unfold lift; by rewrite Hap|reflexivity]. done.
Qed.

Lemma apply_entry_spec now e st a es : complete e → aof st = Some a → AOFF.logged a es [] →
  ∃ s' a', _apply_log_entry now e st = (mkStorage s' (Some a') (snapshot st), [], Ok tt) ∧
    AOFF.logged a' (es ++ [aof_entry e]) [] ∧
    ∀ k, lookup s' k = live_step k (lookup (store st) k) e.
Proof.
  destruct st as [s0 a0 sn]. simpl. intros Hc -> Hl.
  assert (Happ : ∀ x, ∃ a', AOF.append now a x true = Ok a' ∧ AOFF.logged a' (es ++ [x]) []).
  { intros x. destruct (AOF.append now a x true) as [a'|y] eqn:E.
    - exists a'. split; [done|].
      by destruct (AOFF.append_logged _ _ _ _ _ _ _ Hl E) as [[_ ?]|].
    - exfalso. destruct Hl as (Ho & _). unfold AOF.append in E. by rewrite Ho in E. }
  unfold _apply_log_entry, aof_entry, live_step.
  destruct (decide (LogEntry.command e = "SET"%string)) as [Hs|Hs].
  - edestruct Happ as (a' & Hap & Hl').
    exists (KVStore.set now s0 (LogEntry.key e) (LogEntry.value e)
      (KVStore.mkOpts None (Some (LogEntry.version e)) (LogEntry.expires_at e)
         (LogEntry.created_at e) (Some (LogEntry.timestamp e))
         (Some (LogEntry.coordinator_id e)))).1, a'. split; [|split; [exact Hl'|]].
    + erewrite bind_ok; [|reflexivity|by erewrite aof_append_ok; [|reflexivity|exact Hap]]. done.
    + intros k. rewrite lookup_set, new_meta_complete by done. done.
  - destruct Hc as [Hd|[Hd _]]; [|done]. rewrite decide_True by done.
    edestruct Happ as (a' & Hap & Hl').
    exists (KVStore.delete s0 (LogEntry.key e)).1, a'. split; [|split; [exact Hl'|]].
    + erewrite bind_ok; [|reflexivity|by erewrite aof_append_ok; [|reflexivity|exact Hap]]. done.
    + intros k. apply lookup_delete.
Qed.

Lemma run_log_spec ops st a es : Forall complete (entries ops) →
  aof st = Some a → AOFF.logged a es [] →
  ∃ s' a', run_log ops st = (mkStorage s' (Some a') (snapshot st), [], Ok tt) ∧
    AOFF.logged a' (es ++ (aof_entry <$> entries ops)) [] ∧
    ∀ k, lookup s' k = fold_left (live_step k) (entries ops) (lookup (store st) k).
Proof.
  revert st a es. induction ops as [|[now e] ops IH]; intros st a es Hc Ha Hl.
  { exists (store st), a. rewrite app_nil_r. split_and!; [|done|done].
    destruct st; simpl in *. by rewrite Ha. }
  inversion_clear Hc as [|? ? Hce Hcs].
  destruct (apply_entry_spec now e st a es Hce Ha Hl) as (s1 & a1 & Hr1 & Hl1 & Hk1).
  destruct (IH (mkStorage s1 (Some a1) (snapshot st)) a1 _ Hcs eq_refl Hl1)
    as (s2 & a2 & Hr2 & Hl2 & Hk2).
  exists s2, a2. split_and!.
  - unfold run_log. cbn [for_each]. erewrite bind_ok; [|exact Hr1|exact Hr2]. done.
  - rewrite <-app_assoc in Hl2. done.
  - intros k. rewrite Hk2. simpl. by rewrite Hk1.
Qed.

(** The last entry of a key decides what both runs hold for it. *)
Definition last_of (k : string) (es : list LogEntry) : option LogEntry :=
  last (base.filter (λ e, LogEntry.key e = k) es).

Lemma steps_agree now k es o o' :
  match last_of k es with Some e => expired_set now e = false | None => o = o' end →
  fold_left (replay_step now k) es o = fold_left (live_step k) es o'.
Proof.
  induction es as [|e es IH] using rev_ind; [done|].
  unfold last_of in *. rewrite filter_app, !fold_left_app. simpl.
  rewrite filter_cons, filter_nil.
  assert (Hl : ∀ o1 o2, (LogEntry.key e ≠ k → o1 = o2) → live_step k o1 e = live_step k o2 e).
  { intros o1 o2 Ho. unfold live_step. case_decide; auto. }
  assert (Hr : ∀ o1, replay_step now k o1 e = if expired_set now e then o1 else live_step k o1 e)
    by done.
  destruct (decide (LogEntry.key e = k)) as [Hk|Hk].
  - rewrite last_snoc. intros He. rewrite Hr, He. by apply Hl.
  - rewrite app_nil_r. intros H.
    assert (Hn : ∀ o1, live_step k o1 e = o1) by (intros o1; unfold live_step; by rewrite decide_False).
    rewrite Hr, !Hn, IH by done. by destruct (expired_set now e).
Qed.

Lemma replay_all_lookup now es s k : Forall complete es →
  lookup (fold_left (λ s e, (apply_aof_entry now s e).1) (aof_entry <$> es) s) k =
    fold_left (replay_step now k) es (lookup s k).
Proof.
  intros Hc. revert s. induction Hc as [|e es He _ IH]; intros s; [done|].
  simpl. by rewrite IH, replay_lookup.
Qed.

(** ** Properties *)

(** The store a node starts with, and the one it recovers from a log file that
    a crash has cut and whatever snapshot it finds. *)
Definition fresh (now interval : time) : storage :=
  mkStorage (KVStore.init now) (Some (AOF.init now interval EmptyString None)) None.

Definition restart (now interval : time) (text : string)
    (sn : option Snapshot.SnapshotPersistence) : storage :=
  mkStorage (KVStore.init now) (Some (AOF.init now interval text None)) sn.

(** Recovery loads some store from the snapshot and replays the file. *)
Lemma recover_text now interval sn text (Q : KVStore.KVStore → KVStore.KVStore → Z → Prop) :
  (∀ s0, ∃ s c, AOF.replay (apply_aof_entry now) (Some text) s0 = Ok (s, c) ∧ Q s0 s c) →
  ∃ s0 st' c, _recover_data now (restart now interval text sn) = (st', [], Ok c) ∧
    (sn = None → s0 = KVStore.init now) ∧ aof st' = Some (AOF.init now interval text None) ∧
    Q s0 (store st') c.
Proof.
  intros Hrep.
  assert (Hgo : ∀ s0 sn0, ∃ st' c,
      (st ← get_state;
       match aof st with
       | Some a =>
           r ← lift (AOF.replay (apply_aof_entry now) (Some (AOF.contents a)) (store st));
           put_state (with_store st r.1);; mret r.2
       | None => mret 0
       end : proc Z)
      (mkStorage s0 (Some (AOF.init now interval text None)) sn0) = (st', [], Ok c) ∧
        aof st' = Some (AOF.init now interval text None) ∧ Q s0 (store st') c).
  { intros s0 sn0. destruct (Hrep s0) as (s & c & Hr & HQ). rewrite get_bind. cbn [aof store].
    change (AOF.contents (AOF.init now interval text None)) with (text +:+ EmptyString).
    rewrite str_app_nil_r, Hr, lift_ok_bind. by eexists _, c. }
  unfold _recover_data, restart. rewrite get_bind. cbn [snapshot store aof].
  destruct sn as [sn|].
  - set (s0 := match (Snapshot.load _ _ _).2 with Some data => _ | None => _ end).
    destruct (Hgo s0 (Some (Snapshot.mkSnap (Snapshot.interval sn) (Snapshot._last_snapshot sn)
      (Snapshot.load recursion_limit now (Snapshot.disk sn)).1))) as (st' & c & Hr & HQ).
    exists s0, st', c. split; [|by split].
    erewrite bind_ok; [|reflexivity|exact Hr]. done.
  - destruct (Hgo (KVStore.init now) None) as (st' & c & Hr & HQ).
    exists (KVStore.init now), st', c. split; [|by split].
    erewrite bind_ok; [|reflexivity|exact Hr]. done.
Qed.

Lemma apply_aof_entry_ok now s e : (apply_aof_entry now s e).2 = Ok tt.
Proof. unfold apply_aof_entry. by repeat case_match. Qed.

(** ... all of its entries, when it is a log that no crash has cut. *)
Lemma recover_entries now interval sn es : Forall AOFF.entry_wf es →
  ∃ s0 st', _recover_data now (restart now interval (AOFF.log_text es) sn) =
      (st', [], Ok (Z.of_nat (length es))) ∧
    (sn = None → s0 = KVStore.init now) ∧
    store st' = fold_left (λ s e, (apply_aof_entry now s e).1) es s0.
Proof.
  intros Hwf.
  destruct (recover_text now interval sn (AOFF.log_text es) (λ s0 s c,
    s = fold_left (λ s e, (apply_aof_entry now s e).1) es s0 ∧ c = Z.of_nat (length es)))
    as (s0 & st' & c & Hr & H0 & _ & Hs & ->); [|by exists s0, st'].
  intros s0. destruct (AOFF.replay_cut_above (apply_aof_entry now) (apply_aof_entry_ok now)) with
    (es := es) (es' := @nil AOF.AOFEntry) (n := 0%nat) (s := s0) as (k & Hk & Hr); [by rewrite app_nil_r|].
  change (str_take 0 (AOFF.log_text [])) with EmptyString in Hr.
  rewrite str_app_nil_r, app_nil_r in *. assert (k = length es) as -> by lia.
  rewrite firstn_all in Hr. by eexists _, _.
Qed.

Lemma recover_log now interval sn es : Forall complete es →
  ∃ s0 st', _recover_data now (restart now interval (AOFF.log_text (aof_entry <$> es)) sn) =
      (st', [], Ok (Z.of_nat (length es))) ∧
    (sn = None → ∀ k, lookup s0 k = None) ∧
    ∀ k, lookup (store st') k = fold_left (replay_step now k) es (lookup s0 k).
Proof.
  intros Hc. destruct (recover_entries now interval sn (aof_entry <$> es)) as (s0 & st' & Hr & H0 & Hs).
  { apply Forall_fmap. eapply Forall_impl; [exact Hc|]. apply aof_entry_wf. }
  rewrite length_fmap in Hr. exists s0, st'. split; [done|]. split.
  - intros Hsn. by rewrite (H0 Hsn).
  - intros k. rewrite Hs. by apply replay_all_lookup.
Qed.

(** Every write that [_apply_log_entry] has applied survives a
    crash: whatever unsynced text is lost, and whatever snapshot is loaded
    first, the restarted node replays every entry and holds for each written
    key what the node held before, unless the last write of the key has
    expired in between. *)
Theorem applied_writes_survive_restart t0 interval now n ops st a sn k :
  Forall complete (entries ops) →
  run_log ops (fresh t0 interval) = (st, [], Ok tt) → aof st = Some a →
  match last_of k (entries ops) with
  | Some e => expired_set now e = false
  | None => sn = None
  end →
  ∃ st', _recover_data now (restart now interval (AOF.crash n a) sn) =
           (st', [], Ok (Z.of_nat (length ops))) ∧
    lookup (store st') k = lookup (store st) k.
Proof.
  intros Hc Hrun Ha Hk.
  destruct (run_log_spec ops (fresh t0 interval) (AOF.init t0 interval EmptyString None) [] Hc)
    as (s' & a' & Hr & (_ & Hsync & Hpend) & Hlive); [done|by split_and!|].
  rewrite Hr in Hrun. simplify_eq/=.
  assert (AOF.crash n a = AOFF.log_text (aof_entry <$> entries ops)) as ->.
  { unfold AOF.crash. rewrite Hsync, Hpend. unfold AOFF.log_text at 2. simpl.
    by destruct n; rewrite str_app_nil_r. }
  destruct (recover_log now interval sn (entries ops) Hc) as (s0 & st' & Hrec & H0 & Hlook).
  exists st'. unfold entries in Hrec. rewrite length_fmap in Hrec. split; [exact Hrec|].
  rewrite Hlook, Hlive. apply steps_agree.
  destruct (last_of k (entries ops)); [done|]. by rewrite (H0 Hk).
Qed.

(** ** Compaction *)

(** Values that recovery gives back unchanged. *)
Definition meta_ok (m : KVStore.KeyMetadata) : Prop :=
  json_wf (KVStore.value m) ∧ KVStore.version m ≠ 0.

(** The recovered form of a stored entry. *)
Definition alive_at (now : time) (m : KVStore.KeyMetadata) : option KVStore.KeyMetadata :=
  if truthy_time (KVStore.expires_at m) && (default 0 (KVStore.expires_at m) <=? now)
  then None else Some m.

Definition compact_entries (now : time) (data : dict string data_item) : list AOF.AOFEntry :=
  omap (λ p, AOF.compact_entry now p.1 p.2) data.

Lemma compact_text_log now data :
  AOF.compact_text now data = AOFF.log_text (compact_entries now data).
Proof.
  induction data as [|[k i] data IH]; [done|]. simpl. rewrite IH.
  destruct (AOF.compact_entry now k i) as [e|]; simpl; [|done].
  unfold AOFF.log_text. simpl. unfold chr. by rewrite str_app_cons, str_app_nil_l.
Qed.

Lemma compact_contents now a data : AOF.is_open a = true →
  AOF.contents (AOF.compact now a data) = AOFF.log_text (compact_entries now data).
Proof.
  intros Ho. unfold AOF.compact, AOF.contents. simpl. by rewrite str_app_nil_r, compact_text_log.
Qed.

Lemma compacted_lookup now s k0 m k : KVStore.version m ≠ 0 →
  lookup (apply_aof_entry now s
    (AOF.mkEntry (KVStore.updated_at m) SET k0 (KVStore.value m) None (KVStore.expires_at m)
       (KVStore.version m) (Some (KVStore.created_at m)) (KVStore.coordinator_id m))).1 k =
  if decide (k0 = k) then match alive_at now m with Some m => Some m | None => lookup s k end
  else lookup s k.
Proof.
  intros Hv. unfold apply_aof_entry, alive_at, recovered_expiry.
  cbn [AOF.command AOF.key AOF.value AOF.version AOF.created_at AOF.timestamp AOF.coordinator_id
       AOF.expires_at AOF.ttl].
  replace (match KVStore.expires_at m with Some x => Some x | None => None end)
    with (KVStore.expires_at m) by (by destruct (KVStore.expires_at m)).
  destruct (_ && _); cbn [fst]; [by case_decide|]. rewrite lookup_set. case_decide; [|done].
  f_equal. unfold KVStore.new_meta, KVStore.new_version. simpl.
  destruct (Z.eqb_spec (KVStore.version m) 0); [done|].
  by destruct m as [? ? ? [] ? ?].
Qed.

Lemma compact_replay now now2 (d : dict string KVStore.KeyMetadata) s k :
  dict_wf d → Forall (λ p, meta_ok p.2) d → now <= now2 →
  lookup (fold_left (λ s e, (apply_aof_entry now2 s e).1)
            (compact_entries now (dict_map_values KVStore.to_item d)) s) k =
    match dict_get d k ≫= alive_at now2 with Some m => Some m | None => lookup s k end.
Proof.
  intros Hwf Hok Hle. revert s. induction d as [|[k0 m] d IH]; intros s; [done|].
  unfold dict_wf in Hwf. simpl in Hwf. apply NoDup_cons in Hwf as [Hk0 Hwf].
  apply Forall_cons in Hok as [[Hj Hv] Hok]. simpl in Hj, Hv.
  assert (Hstep : lookup (fold_left (λ s e, (apply_aof_entry now2 s e).1)
      match AOF.compact_entry now k0 (KVStore.to_item m) with Some e => [e] | None => [] end s) k =
    if decide (k0 = k) then match alive_at now2 m with Some m => Some m | None => lookup s k end
    else lookup s k).
  { unfold AOF.compact_entry. change (KVStore.of_item now (KVStore.to_item m)) with
      (KVStore.mkMeta (KVStore.value m) (KVStore.created_at m) (KVStore.updated_at m)
         (KVStore.expires_at m) (KVStore.version m) (KVStore.coordinator_id m)).
    cbn [KVStore.expires_at KVStore.updated_at KVStore.value KVStore.version KVStore.created_at
         KVStore.coordinator_id].
    destruct (truthy_time (KVStore.expires_at m) && _) eqn:Et;
      [|cbn [fold_left]; by apply compacted_lookup].
    apply andb_true_iff in Et as [Et Hlt%Z.ltb_lt]. cbn [fold_left]. unfold alive_at. rewrite Et.
    destruct (Z.leb_spec (default 0 (KVStore.expires_at m)) now2); [by case_decide|lia]. }
  assert (Hfold : compact_entries now (dict_map_values KVStore.to_item ((k0, m) :: d)) =
    match AOF.compact_entry now k0 (KVStore.to_item m) with Some e => [e] | None => [] end ++
    compact_entries now (dict_map_values KVStore.to_item d)).
  { unfold compact_entries. simpl. by destruct (AOF.compact_entry _ _ _). }
  rewrite Hfold, fold_left_app, IH by done. rewrite Hstep. simpl.
  destruct (decide (k0 = k)) as [->|Hne].
  - rewrite decide_True by done.
    assert (dict_get d k = None) as -> by by apply dict_get_None. done.
  - by rewrite decide_False by congruence.
Qed.

Lemma compact_entries_wf now (d : dict string KVStore.KeyMetadata) :
  Forall (λ p, meta_ok p.2) d →
  Forall AOFF.entry_wf (compact_entries now (dict_map_values KVStore.to_item d)).
Proof.
  induction 1 as [|[k m] d [Hj _] _ IH]; [constructor|]. unfold compact_entries in *. simpl.
  unfold AOF.compact_entry. destruct (_ && _); simpl; [done|]. by constructor.
Qed.

(** The data of a store, compacted and recovered. *)
Lemma compacted_recovery now now2 interval s :
  KVFacts.wf s → (∀ k m, lookup s k = Some m → meta_ok m) → now <= now2 →
  let r := KVStore.get_all_data now s in
  ∃ st' n, _recover_data now2
             (restart now2 interval (AOFF.log_text (compact_entries now r.2)) None) = (st', [], Ok n) ∧
    ∀ k, lookup (store st') k = lookup r.1 k ≫= alive_at now2.
Proof.
  intros Hwf Hok Hle r. unfold r. cbn [KVStore.get_all_data fst snd].
  set (s1 := KVStore._cleanup_expired now s).
  assert (Hst : KVStore._store s1 = base.filter (KVFacts.live now) (KVStore._store s))
    by (by apply KVFacts.cleanup_store).
  assert (Hwf1 : dict_wf (KVStore._store s1)) by (by apply KVFacts.cleanup_wf).
  assert (Hok1 : Forall (λ p, meta_ok p.2) (KVStore._store s1)).
  { apply Forall_forall. intros [k m] Hin. rewrite Hst in Hin.
    apply list_elem_of_filter in Hin as [_ Hin]. apply (Hok k). by apply dict_in_get. }
  destruct (recover_entries now2 interval None _ (compact_entries_wf now _ Hok1))
    as (s0 & st' & Hr & H0 & Hs).
  exists st'. eexists. split; [exact Hr|]. intros k. rewrite Hs, compact_replay by done.
  rewrite (H0 eq_refl). unfold lookup. by destruct (_ ≫= _).
Qed.

(** Claim C34. Compacting with the store's data loses nothing: a node that
    restarts from the compacted file alone holds, with all their metadata,
    exactly the keys of the store that have not expired by then, and the
    replaced file is kept as the backup. *)
Theorem compaction_preserves now now2 interval s a :
  KVFacts.wf s → (∀ k m, lookup s k = Some m → meta_ok m) → AOF.is_open a = true → now <= now2 →
  let r := KVStore.get_all_data now s in
  let a' := AOF.compact now a r.2 in
  AOF.aof_bak a' = Some (AOF.contents a) ∧
  ∃ st' n, _recover_data now2 (restart now2 interval (AOF.contents a') None) = (st', [], Ok n) ∧
    ∀ k, lookup (store st') k = lookup r.1 k ≫= alive_at now2.
Proof.
  intros Hwf Hok Ho Hle r a'. split.
  - change (AOF.aof_bak a') with (Some (AOF.contents (AOF._do_fsync now a))).
    unfold AOF._do_fsync. rewrite Ho. unfold AOF.contents at 1. simpl.
    by rewrite str_app_nil_r.
  - unfold a'. rewrite compact_contents by done. by apply compacted_recovery.
Qed.

(** ** What restarts and compaction do lose *)

Definition write (cmd k : string) (v : json) (ts : time) (ttl : option Z) : LogEntry :=
  LogEntry.mkLog 1 1 cmd k v ttl ts 1 (match ttl with Some t => Some (ts + seconds t) | None => None end)
    (Some ts) "n1".

(** A node that restarts after a key's last write has expired
    brings an older value of the key back to life: the replay skips the
    expired write and keeps the write that it had replaced. *)
Theorem restart_resurrects_overwritten_value now k v1 v2 ts1 ts2 ttl interval st a n :
  json_wf v1 → json_wf v2 → 0 < ts2 + seconds ttl <= now →
  run_log [(ts1, write "SET" k v1 ts1 None); (ts2, write "SET" k v2 ts2 (Some ttl))]
    (fresh 0 interval) = (st, [], Ok tt) → aof st = Some a →
  KVStore.exists_ (now + 1) (store st) k = (KVStore._delete_internal (store st) k, false) ∧
  ∃ st', _recover_data now (restart now interval (AOF.crash n a) None) = (st', [], Ok 2) ∧
    (KVStore.get now (store st') k).2 = (v1, true).
Proof.
  intros Hj1 Hj2 Hex Hrun Ha.
  set (e1 := write "SET" k v1 ts1 None) in *. set (e2 := write "SET" k v2 ts2 (Some ttl)) in *.
  assert (Hc : Forall complete [e1; e2]).
  { apply Forall_cons; split; [|apply Forall_cons; split; [|by apply Forall_nil]];
      right; (split_and!; [done|done|done|by eexists|]); [done|by intros [=]]. }
  destruct (run_log_spec [(ts1, e1); (ts2, e2)] (fresh 0 interval) (AOF.init 0 interval EmptyString None) [] Hc)
    as (s' & a' & Hr & (_ & Hsync & Hpend) & Hlive); [done|by split_and!|].
  rewrite Hr in Hrun. simplify_eq/=.
  assert (Ht : (ts2 + seconds ttl =? 0) = false) by (apply Z.eqb_neq; lia). split.
  - unfold KVStore.exists_. specialize (Hlive k). unfold lookup in Hlive. rewrite Hlive.
    unfold live_step. simpl. rewrite !decide_True by done. unfold KVStore.is_expired. simpl.
    rewrite Ht. simpl. destruct (Z.ltb_spec (ts2 + seconds ttl) (now + 1)); [done|lia].
  - assert (AOF.crash n a = AOFF.log_text (aof_entry <$> [e1; e2])) as ->.
    { unfold AOF.crash. rewrite Hsync, Hpend. unfold AOFF.log_text at 2. simpl.
      by destruct n; rewrite str_app_nil_r. }
    destruct (recover_log now interval None [e1; e2] Hc) as (s0 & st' & Hrec & H0 & Hlook).
    exists st'. split; [exact Hrec|]. specialize (Hlook k). rewrite (H0 eq_refl) in Hlook.
    simpl in Hlook. unfold replay_step, expired_set, live_step in Hlook. simpl in Hlook.
    rewrite Ht in Hlook. simpl in Hlook. rewrite !decide_True in Hlook by done.
    destruct (Z.leb_spec (ts2 + seconds ttl) now); [|lia]. simpl in Hlook.
    unfold lookup in Hlook. unfold KVStore.get. by rewrite Hlook.
Qed.

(** Compaction runs on data that was collected before it took the
    file's lock: an entry that is appended and synced in between is not in the
    compacted file, so a node that restarts from it has lost the key. *)
Theorem compaction_drops_concurrent_write now interval s a a' e :
  KVFacts.wf s → (∀ k m, lookup s k = Some m → meta_ok m) → AOF.is_open a = true →
  AOF.append now a e true = Ok a' →
  let r := KVStore.get_all_data now s in
  lookup r.1 (AOF.key e) = None →
  AOF.synced a' = AOF.contents a +:+ AOF.to_line e +:+ chr newline ∧
  ∃ st' n, _recover_data now (restart now interval (AOF.contents (AOF.compact now a' r.2)) None) =
             (st', [], Ok n) ∧ lookup (store st') (AOF.key e) = None.
Proof.
  intros Hwf Hok Ho Hap r Hnone.
  unfold AOF.append in Hap. rewrite Ho in Hap. simpl in Hap. injection Hap as <-.
  assert (Ho' : AOF.is_open (AOF._do_fsync now (AOF.count_entry (AOF.write
    (AOF.to_line e +:+ chr newline) a))) = true).
  { unfold AOF._do_fsync. simpl. by rewrite Ho. }
  split.
  - unfold AOF._do_fsync. simpl. rewrite Ho. unfold AOF.contents. simpl.
    by rewrite str_app_assoc.
  - rewrite compact_contents by done.
    destruct (compacted_recovery now now interval s Hwf Hok ltac:(lia)) as (st' & n & Hr & Hk).
    exists st', n. split; [exact Hr|]. rewrite Hk. fold r. by rewrite Hnone.
Qed.

(** ** Concrete runs *)

Definition two_writes : list (time * LogEntry) :=
  [(seconds 1, write "SET" "a" (JInt 1) (seconds 1) None);
   (seconds 2, write "SET" "b" (JStr "x") (seconds 2) (Some 60))].

Lemma write_complete k v ts ttl : json_wf v → complete (write "SET" k v ts ttl).
Proof. intros Hv. right. split_and!; [done|done|done|by eexists|]. by destruct ttl. Qed.

Lemma two_writes_complete : Forall complete (entries two_writes).
Proof. repeat (apply Forall_cons; split; [by apply write_complete|]). by apply Forall_nil. Qed.

Lemma applied_writes_survive_restart_witness :
  match run_log two_writes (fresh 0 (seconds 1)) with
  | (st, _, _) =>
      ∃ a st', aof st = Some a ∧
        _recover_data (seconds 5) (restart (seconds 5) (seconds 1) (AOF.crash 7 a) None) =
          (st', [], Ok 2) ∧
        lookup (store st') "b" = lookup (store st) "b" ∧ lookup (store st) "b" ≠ None
  end.
Proof.
  destruct (run_log two_writes (fresh 0 (seconds 1))) as [[st es] r] eqn:Hrun.
  assert (Hr : es = [] ∧ r = Ok tt ∧ lookup (store st) "b" ≠ None ∧ ∃ a, aof st = Some a).
  { vm_compute in Hrun. injection Hrun as <- <- <-. split; [reflexivity|]. split; [reflexivity|].
    split; [vm_compute; discriminate|]. eexists. reflexivity. }
  destruct Hr as (-> & -> & Hb & a & Ha).
  destruct (applied_writes_survive_restart 0 (seconds 1) (seconds 5) 7 two_writes st a None "b"
              two_writes_complete Hrun Ha) as (st' & H1 & H2).
  - vm_compute. reflexivity.
  - exists a, st'. split; [exact Ha|]. split; [exact H1|]. split; [exact H2|exact Hb].
Defined.

Definition one_key : KVStore.KVStore :=
  (KVStore.set 0 (KVStore.init 0) "a" (JInt 1) KVStore.no_opts).1.
Definition empty_aof : AOF.AOFPersistence := AOF.init 0 (seconds 1) EmptyString None.

Lemma one_key_ok : ∀ k m, lookup one_key k = Some m → meta_ok m.
Proof.
  intros k m. unfold lookup. simpl. case_decide; [|done]. intros [= <-]. by split.
Qed.

Lemma one_key_wf : KVFacts.wf one_key.
Proof. apply (bool_decide_unpack _). vm_compute. exact I. Qed.

Lemma compaction_preserves_witness :
  ∃ st' n, _recover_data (seconds 3) (restart (seconds 3) 0
      (AOF.contents (AOF.compact 0 empty_aof (KVStore.get_all_data 0 one_key).2)) None) = (st', [], Ok n) ∧
    KVStore.value <$> lookup (store st') "a" = Some (JInt 1).
Proof.
  destruct (compaction_preserves 0 (seconds 3) 0 one_key empty_aof one_key_wf one_key_ok eq_refl
              ltac:(unfold seconds; lia)) as (_ & st' & n & Hr & Hk).
  exists st', n. split; [exact Hr|]. rewrite (Hk "a"%string). vm_compute. reflexivity.
Defined.

Lemma restart_resurrects_overwritten_value_witness :
  match run_log [(seconds 1, write "SET" "k" (JInt 1) (seconds 1) None);
                 (seconds 2, write "SET" "k" (JInt 2) (seconds 2) (Some 5))] (fresh 0 0) with
  | (st, _, _) =>
      ∃ a st', aof st = Some a ∧
        _recover_data (seconds 9) (restart (seconds 9) 0 (AOF.crash 0 a) None) = (st', [], Ok 2) ∧
        (KVStore.get (seconds 9) (store st') "k").2 = (JInt 1, true)
  end.
Proof.
  destruct (run_log _ (fresh 0 0)) as [[st es] r] eqn:Hrun.
  assert (Hr : es = [] ∧ r = Ok tt ∧ ∃ a, aof st = Some a).
  { vm_compute in Hrun. injection Hrun as <- <- <-. split; [reflexivity|]. split; [reflexivity|].
    eexists. reflexivity. }
  destruct Hr as (-> & -> & a & Ha).
  destruct (restart_resurrects_overwritten_value (seconds 9) "k" (JInt 1) (JInt 2) (seconds 1)
              (seconds 2) 5 0 st a 0 I I ltac:(unfold seconds; lia) Hrun Ha) as (_ & st' & H1 & H2).
  exists a, st'. split; [exact Ha|]. split; [exact H1|exact H2].
Defined.

Lemma compaction_drops_concurrent_write_witness :
  let e := AOF.make_entry 0 SET "b" (JInt 2) None 1 None (Some 0) (Some 0) "n1" in
  let data := (KVStore.get_all_data 0 one_key).2 in
  match AOF.append 0 empty_aof e true with
  | Ok a' => ∃ st' n, _recover_data 0 (restart 0 0 (AOF.contents (AOF.compact 0 a' data)) None) =
               (st', [], Ok n) ∧ lookup (store st') "b" = None
  | Raise _ => False
  end.
Proof.
  intros e data. destruct (AOF.append 0 empty_aof e true) as [a'|x] eqn:Hap; [|discriminate Hap].
  destruct (compaction_drops_concurrent_write 0 0 one_key empty_aof a' e one_key_wf one_key_ok eq_refl
              Hap eq_refl) as (_ & H).
  exact H.
Defined.

End StorageF.
