(* ===== verification/Durable.v ===== *)
(** What a node's storage holds survives a crash, through every operation that
    the node runs on it: committed entries, values that arrive from other
    nodes, migrated keys that are dropped, reads, syncs, and maintenance with its
    snapshots and compactions.  And what breaks it: a line that a crash has torn. *)

From S2P Require Import Prelude.
From S2P Require Import PyMonad.
From S2P Require Import Text.
From S2P Require Import PyDict.
From S2P Require Import Json.
From S2P Require Import Config.
From S2P Require Import Store.
From S2P Require Import StoreSpec.
From S2P Require Import Aof.
From S2P Require Import AofFacts.
From S2P Require Import Snapshot.
From S2P Require Import Election.
From S2P Require Import Storage.
From S2P Require Import StorageFacts.
#[local] Open Scope Z_scope.

Module Durable.
Import Storage StorageF.

(** ** The operations of the node on its storage *)

Inductive op :=
  | Applied (e : LogEntry)
  | Put (k : string) (v : json) (version : Z) (expires_at : option time) (created_at updated_at : time)
      (coordinator_id : string)
  | DropMigrated (node_id : string) (ks : list string)
  | Look (k : string)
  | Tick
  | Maintain (gz_size : string → Z) (failing : option nat).

Definition run_op (now : time) (o : op) : proc () :=
  match o with
  | Applied e => _apply_log_entry now e
  | Put k v ver ex c u co => _ ← put_newer now k v ver ex c u co; mret ()
  | DropMigrated id ks => _delete_migrated_keys now id ks
  | Look k => _ ← store_get_meta now k; mret ()
  | Tick => fsync_round now
  | Maintain gz failing => maintenance_round gz now failing
  end.

(** The storage after a run, whatever the operations answer or raise. *)
Definition run_ops (tr : list (time * op)) (st : storage) : storage :=
  fold_left (λ st p, state_of (run_op p.1 p.2 st)) tr st.

(** The entries that the write path builds, and values that carry a version. *)
Definition op_ok (o : op) : Prop :=
  match o with
  | Applied e => complete e
  | Put _ v ver _ _ _ _ => json_wf v ∧ ver ≠ 0
  | _ => True
  end.

(** The entries of the lines of a text. *)
Definition parsed (text : string) : list AOF.AOFEntry :=
  omap (λ l, match AOF.from_line (strip l) with Ok e => Some e | Raise _ => None end) (lines text).

(** The keys of the entries that are written and not synced. *)
Definition unsynced_keys (a : AOF.AOFPersistence) : list string := AOF.key <$> parsed (AOF.pending a).

Definition last_entry (k : string) (es : list AOF.AOFEntry) : option AOF.AOFEntry :=
  last (base.filter (λ e, AOF.key e = k) es).

(** A SET that carries all that a restart needs to restore its metadata: a
    version, its creation time, and the absolute form of its time to live. *)
Definition whole (e : AOF.AOFEntry) : bool :=
  match AOF.command e with
  | SET => negb (AOF.version e =? 0) && bool_decide (is_Some (AOF.created_at e)) &&
           (bool_decide (is_Some (AOF.expires_at e)) || bool_decide (AOF.ttl e = None))
  | _ => true
  end.

Definition whole_line (a : AOF.AOFPersistence) (k : string) : bool :=
  match last_entry k (parsed (AOF.contents a)) with Some e => whole e | None => false end.

(** ** The log covers the store *)

(** The line [e] has the metadata of [m]. *)
Record exact (e : AOF.AOFEntry) (m : KVStore.KeyMetadata) : Prop := {
  x_expiry : recovered_expiry e = KVStore.expires_at m;
  x_version : AOF.version e = KVStore.version m;
  x_created : AOF.created_at e = Some (KVStore.created_at m);
  x_updated : AOF.timestamp e = KVStore.updated_at m;
  x_coordinator : AOF.coordinator_id e = KVStore.coordinator_id m;
}.

(** The line [e] writes [m] under [k]: its value, and with a whole line all
    the metadata. *)
Record writes (e : AOF.AOFEntry) (k : string) (m : KVStore.KeyMetadata) : Prop := {
  w_command : AOF.command e = SET;
  w_key : AOF.key e = k;
  w_value : AOF.value e = KVStore.value m;
  w_exact : whole e = true → exact e m;
}.

(** What is asked of every line; [strict] asks for whole lines. *)
Definition line_ok (strict : bool) (e : AOF.AOFEntry) : Prop :=
  AOFF.entry_wf e ∧ (strict = true → whole e = true).

Definition held_by (es : list AOF.AOFEntry) (s : KVStore.KVStore) : Prop :=
  ∀ k m, lookup s k = Some m → ∃ e, last_entry k es = Some e ∧ writes e k m.

Definition covered (strict : bool) (st : storage) : Prop :=
  KVFacts.wf (store st) ∧
  ∃ a es es', aof st = Some a ∧ AOFF.logged a es es' ∧ Forall (line_ok strict) (es ++ es') ∧
    held_by (es ++ es') (store st).

Definition stays_covered (strict : bool) (st st' : storage) : Prop := covered strict st → covered strict st'.

#[global] Instance stays_covered_preorder strict : PreOrder (stays_covered strict).
Proof. split; [by intros s Hs|]. intros s1 s2 s3 H1 H2 Hs. auto. Qed.

Abbreviation keeps strict := (preserves (stays_covered strict)).

Lemma lines_wf strict es : Forall (line_ok strict) es → Forall AOFF.entry_wf es.
Proof. intros H. apply (Forall_impl _ _ _ H). by intros e []. Qed.

Lemma whole_spec e : AOF.command e = SET → whole e = true ↔
  AOF.version e ≠ 0 ∧ is_Some (AOF.created_at e) ∧ (AOF.expires_at e = None → AOF.ttl e = None).
Proof.
  intros Hc. unfold whole. rewrite Hc, !andb_true_iff, orb_true_iff, negb_true_iff, Z.eqb_neq, !bool_decide_eq_true.
  assert (Ht : is_Some (AOF.expires_at e) ∨ AOF.ttl e = None ↔ (AOF.expires_at e = None → AOF.ttl e = None)).
  { destruct (AOF.expires_at e); split; [done|by left; eauto|by intros [[]|]|by right; auto]. }
  rewrite Ht. tauto.
Qed.

Lemma last_entry_snoc k es e :
  last_entry k (es ++ [e]) = if decide (AOF.key e = k) then Some e else last_entry k es.
Proof.
  unfold last_entry. rewrite filter_app, filter_cons, filter_nil.
  case_decide; [apply last_snoc|by rewrite app_nil_r].
Qed.

(** ** Replay *)

Lemma replay_writes now s e k m : writes e k m → whole e = true →
  lookup (apply_aof_entry now s e).1 k =
    match alive_at now m with Some m => Some m | None => lookup s k end.
Proof.
  intros [Hc Hk Hv Hx] Hw. destruct (Hx Hw) as [He Hver Hct Hu Hco].
  apply whole_spec in Hw as (Hnz & _); [|done]. rewrite Hver in Hnz. unfold apply_aof_entry, alive_at.
  rewrite Hc, He, Hk, Hv, Hver, Hct, Hu, Hco. cbv zeta.
  destruct (_ && _); cbn [fst]; [done|]. rewrite lookup_set, decide_True by done.
  f_equal. unfold KVStore.new_meta, KVStore.new_version. cbn [KVStore.o_version KVStore.o_updated_at
    KVStore.o_expires_at KVStore.o_created_at KVStore.o_coordinator_id KVStore.o_ttl default].
  destruct (Z.eqb_spec (KVStore.version m) 0); [done|]. by destruct m as [? ? ? [] ? ?].
Qed.

Lemma replay_other now s e k : AOF.key e ≠ k → lookup (apply_aof_entry now s e).1 k = lookup s k.
Proof.
  intros Hk. unfold apply_aof_entry. destruct (AOF.command e); [| |done].
  - cbv zeta. destruct (_ && _); [done|]. cbn [fst]. rewrite lookup_set. by rewrite decide_False.
  - cbn [fst]. rewrite lookup_delete. by rewrite decide_False.
Qed.

(** The last line of a key decides. *)
Lemma replay_last now es s e k m : last_entry k es = Some e → writes e k m → whole e = true →
  alive_at now m = Some m → lookup (fold_left (λ s e, (apply_aof_entry now s e).1) es s) k = Some m.
Proof.
  intros Hl Hw Hwh Ha. revert s. induction es as [|e' es IH] using rev_ind; intros s; [done|].
  rewrite last_entry_snoc in Hl. rewrite fold_left_app. cbn [fold_left]. case_decide as Hk.
  - simplify_eq. by rewrite (replay_writes _ _ _ _ _ Hw Hwh), Ha.
  - rewrite replay_other by done. by apply IH.
Qed.

(** A key without a line is left alone. *)
Lemma replay_none now es s k : last_entry k es = None →
  lookup (fold_left (λ s e, (apply_aof_entry now s e).1) es s) k = lookup s k.
Proof.
  revert s. induction es as [|e es IH] using rev_ind; intros s; [done|].
  rewrite last_entry_snoc, fold_left_app. cbn [fold_left]. case_decide; [done|]. intros Hl.
  rewrite replay_other by done. by apply IH.
Qed.

(** ** The operations keep it *)

Section keeps.
Context (strict : bool).
#[local] Abbreviation covered := (covered strict).
#[local] Abbreviation stays_covered := (stays_covered strict).
#[local] Abbreviation keeps := (preserves stays_covered).
#[local] Abbreviation line_ok := (line_ok strict).

Lemma covered_shrink st s' : KVFacts.wf s' →
  (∀ k m, lookup s' k = Some m → lookup (store st) k = Some m) → stays_covered st (with_store st s').
Proof.
  intros Hwf Hsub [_ (a & es & es' & Ha & Hl & He & Hh)]. split; [done|].
  exists a, es, es'. split_and!; [done..|]. intros k m Hm. by apply Hh, Hsub.
Qed.

Lemma append_run now e sync st a es es' : aof st = Some a → AOFF.logged a es es' →
  ∃ a' fs fs', aof_append now e sync st = (with_aof st a', [], Ok tt) ∧
    AOFF.logged a' fs fs' ∧ fs ++ fs' = (es ++ es') ++ [e] ∧ (sync = true → fs' = []).
Proof.
  intros Ha Hl. destruct (AOF.append now a e sync) as [a'|x] eqn:E.
  - exists a'. pose proof (AOFF.append_logged _ _ _ _ _ _ _ Hl E) as [[H1 ->]|H1]; do 2 eexists;
      (split; [by eapply aof_append_ok|]); (split; [exact H1|]); (split; [by rewrite ?app_nil_r, <-!app_assoc|done]).
  - exfalso. destruct Hl as (Ho & _). unfold AOF.append in E. by rewrite Ho in E.
Qed.

(** A change of one key of the store that is written to the file next. *)
Lemma covered_append st s' now e sync : KVFacts.wf s' → line_ok e →
  (∀ k m, lookup s' k = Some m → AOF.key e ≠ k → lookup (store st) k = Some m) →
  (∀ m, lookup s' (AOF.key e) = Some m → writes e (AOF.key e) m) →
  stays_covered st (state_of (aof_append now e sync (with_store st s'))).
Proof.
  intros Hwf He Hsub Hw [_ (a & es & es' & Ha & Hl & Hes & Hh)].
  destruct (append_run now e sync (with_store st s') a es es' Ha Hl) as (a' & fs & fs' & -> & Hl' & Hfs & _).
  split; [done|]. exists a', fs, fs'. split; [done|]. split; [done|]. rewrite Hfs. split.
  - apply Forall_app. split; [done|]. by constructor.
  - intros k m Hm. rewrite last_entry_snoc. case_decide as Hk.
    + subst k. exists e. auto.
    + by apply Hh, Hsub.
Qed.

Lemma keeps_put now k v o now' e sync : line_ok e → AOF.key e = k →
  (∀ old, writes e k (KVStore.new_meta now old v o)) →
  keeps (store_set now k v o;; aof_append now' e sync).
Proof.
  intros He Hk Hw st Hst. unfold store_set. rewrite modify_bind.
  apply covered_append; [|done| | |done].
  - apply dict_wf_set. apply Hst.
  - intros k' m. rewrite lookup_set, Hk. intros H1 H2. by rewrite decide_False in H1.
  - intros m. rewrite lookup_set, Hk, decide_True by done. intros [= <-]. apply Hw.
Qed.

Lemma delete_wf s k : KVFacts.wf s → KVFacts.wf (KVStore.delete s k).1.
Proof. intros Hs. pose proof (KVFacts.delete_step 0 s k Hs) as H. destruct (KVStore.delete s k). apply H. Qed.

Lemma covered_delete now k e sync : line_ok e → AOF.key e = k →
  keeps (_ ← store_delete k; aof_append now e sync).
Proof.
  intros He Hk st Hst.
  assert (Hrun : store_delete k st = (with_store st (KVStore.delete (store st) k).1, [], Ok (KVStore.delete (store st) k).2))
    by done.
  erewrite bind_silent by exact Hrun. apply covered_append; [|done| | |done].
  - apply delete_wf, Hst.
  - intros k' m. rewrite lookup_delete. intros H1 H2. by rewrite decide_False in H1 by congruence.
  - intros m. rewrite lookup_delete, Hk, decide_True by done. done.
Qed.

Lemma look_run now k st :
  store_get_meta now k st = (with_store st (KVStore.get_with_metadata now (store st) k).1, [],
    Ok (KVStore.get_with_metadata now (store st) k).2).
Proof. done. Qed.

Lemma keeps_look now k : keeps (store_get_meta now k).
Proof.
  intros st Hst. rewrite look_run. apply covered_shrink; [| |done].
  - destruct Hst as [Hwf _]. pose proof (KVFacts.get_meta_step now (store st) k Hwf) as H.
    destruct (KVStore.get_with_metadata now (store st) k) as [s' m]. apply H.
  - intros k' m. unfold KVStore.get_with_metadata. destruct (dict_get _ k) as [m0|]; [|done].
    destruct (KVStore.is_expired now m0); [|done]. unfold lookup. cbn [fst].
    rewrite KVFacts.store_delete_internal, dict_get_del. by case_decide.
Qed.
#[local] Hint Resolve keeps_look : preserves.

Lemma cleanup_shrinks now st : stays_covered st (with_store st (KVStore._cleanup_expired now (store st))).
Proof.
  intros Hst. apply covered_shrink; [by apply KVFacts.cleanup_wf, Hst| |done]. destruct Hst as [Hwf _].
  intros k m. unfold lookup. rewrite KVFacts.cleanup_store by done. intros Hm.
  apply dict_in_get; [done|]. apply dict_get_Some_in in Hm.
  by apply list_elem_of_filter in Hm as [_ Hm].
Qed.

(** The line of a committed entry is whole when the entry is complete. *)
Lemma whole_complete e : LogEntry.command e = "SET"%string → json_wf (LogEntry.value e) →
  whole (aof_entry e) = true ↔ complete e.
Proof.
  intros Hs Hv. unfold aof_entry. rewrite decide_True by done. rewrite whole_spec by done. unfold complete.
  cbn. rewrite Hs. split; [by right|]. by intros [?|(_ & _ & ?)].
Qed.

Lemma keeps_applied now e : (LogEntry.command e = "SET"%string → json_wf (LogEntry.value e)) → (strict = true → complete e) →
  keeps (_apply_log_entry now e).
Proof.
  intros Hv Hc. unfold _apply_log_entry. case_decide as Hs; [|case_decide; [|solve_preserves]].
  - set (line := AOF.make_entry _ _ _ _ _ _ _ _ _ _).
    assert (Hwc : whole line = true ↔ complete e).
    { rewrite <-whole_complete by auto. unfold aof_entry. by rewrite decide_True. }
    apply keeps_put; [split; [by apply Hv|]|done|]; [intros Hst; by apply Hwc, Hc|].
    intros old. split; [done..|]. intros Hw%Hwc. rewrite new_meta_complete by done.
    destruct Hw as [?|(_ & _ & Hn & [ct Hct] & Ht)]; [congruence|].
    split; cbn; try done; [|by rewrite Hct].
    unfold recovered_expiry. cbn. destruct (LogEntry.expires_at e); [done|]. by rewrite Ht.
  - by apply covered_delete.
Qed.

Lemma covered_put_newer now k v ver ex c u co : json_wf v → (strict = true → ver ≠ 0) →
  keeps (put_newer now k v ver ex c u co).
Proof.
  intros Hv Hver. unfold put_newer.
  apply preserves_bind; [apply keeps_look|]. intros cur.
  set (newer := match cur with Some _ => _ | None => _ end). destruct newer; [apply preserves_ret|].
  set (e := AOF.make_entry _ _ _ _ _ _ _ _ _ _).
  assert (Hkeep : keeps (store_set now k v (KVStore.mkOpts None (Some ver) ex (Some c) (Some u) (Some co));;
    aof_append now e false)).
  { assert (Hwh : whole e = true ↔ ver ≠ 0).
    { rewrite whole_spec by done. cbn. split; [by intros (? & _)|]. intros Hn. by split_and!; [|eauto|]. }
    apply keeps_put; [split; [done|]|done|]; [intros Hst; by apply Hwh, Hver|].
    intros old. split; [done..|]. intros Hn%Hwh. unfold KVStore.new_meta, KVStore.new_version. cbn.
    destruct (Z.eqb_spec ver 0); [done|]. by split; try done; destruct ex. }
  intros st. rewrite bind_assoc. revert st. apply preserves_bind; [exact Hkeep|]. intros. apply preserves_ret.
Qed.

Lemma keeps_drop now id ks : keeps (_delete_migrated_keys now id ks).
Proof.
  apply preserves_for_each. intros k. apply preserves_bind; [apply keeps_look|]. intros m.
  by apply covered_delete.
Qed.

Lemma keeps_tick now : keeps (fsync_round now).
Proof.
  apply preserves_modify. intros st [Hwf (a & es & es' & Ha & Hl & He & Hh)]. rewrite Ha. split; [done|].
  exists (AOF.fsync_tick now a), (es ++ es'), []. rewrite app_nil_r.
  split; [done|]. split; [by apply AOFF.fsync_logged|done].
Qed.

(** The line that compaction writes for a key. *)
Definition compact_line (k : string) (m : KVStore.KeyMetadata) : AOF.AOFEntry :=
  AOF.mkEntry (KVStore.updated_at m) SET k (KVStore.value m) None (KVStore.expires_at m)
    (KVStore.version m) (Some (KVStore.created_at m)) (KVStore.coordinator_id m).

Lemma compact_line_writes k m : writes (compact_line k m) k m.
Proof. split; [done..|]. intros _. split; try done. unfold recovered_expiry. cbn. by destruct (KVStore.expires_at m). Qed.

Lemma compact_line_ok k m e : line_ok e → writes e k m → line_ok (compact_line k m).
Proof.
  intros [Hwf Hst] Hw. split.
  - unfold AOFF.entry_wf in *. cbn. by rewrite <-(w_value _ _ _ Hw).
  - intros Hs. specialize (Hst Hs). apply whole_spec; [done|]. cbn.
    destruct (w_exact _ _ _ Hw Hst) as [_ Hver _ _ _]. apply whole_spec in Hst as (Hn & _); [|apply Hw].
    rewrite Hver in Hn. by split_and!; [|eauto|].
Qed.

Lemma compact_live now (d : dict string KVStore.KeyMetadata) : Forall (KVFacts.live now) d →
  compact_entries now (dict_map_values KVStore.to_item d) = (λ p, compact_line p.1 p.2) <$> d.
Proof.
  induction 1 as [|[k m] d Hl _ IH]; [done|]. unfold KVFacts.live, KVStore.is_expired in Hl. cbn in Hl.
  unfold compact_entries in *. simpl. unfold AOF.compact_entry at 1. cbn -[truthy_time].
  replace (_ && _) with false; [exact (f_equal (cons (compact_line k m)) IH)|]. by destruct (KVStore.expires_at m).
Qed.

(** The compacted file has one line for each key that is left. *)
Lemma compacted_last (d : dict string KVStore.KeyMetadata) k m : dict_wf d → dict_get d k = Some m →
  last_entry k ((λ p, compact_line p.1 p.2) <$> d) = Some (compact_line k m).
Proof.
  intros Hwf Hm. unfold last_entry. rewrite pfilter_fmap.
  assert (base.filter (λ p, AOF.key (compact_line p.1 p.2) = k) d = [(k, m)]) as ->; [|done].
  change (base.filter (λ p, p.1 = k) d = [(k, m)]). clear -Hwf Hm.
  induction d as [|[k0 m0] d IH]; [done|]. unfold dict_wf in Hwf. simpl in Hwf, Hm.
  apply NoDup_cons in Hwf as [Hk0 Hwf]. rewrite filter_cons. cbn [fst].
  destruct (decide (k0 = k)) as [->|Hne]; [|rewrite decide_False in Hm by congruence; by apply IH].
  rewrite decide_True in Hm by done. simplify_eq. f_equal.
  apply pfilter_none. intros [k1 m1] Hin. cbn. intros ->. apply Hk0. apply list_elem_of_fmap. by exists (k, m1).
Qed.

Lemma last_entry_in k es e : last_entry k es = Some e → e ∈ es.
Proof. intros H. apply last_Some_elem_of, list_elem_of_filter in H. apply H. Qed.

(** A compaction of the data that the store holds. *)
Lemma covered_compact now st a : aof st = Some a → (∀ p, p ∈ KVStore._store (store st) → KVFacts.live now p) →
  stays_covered st (with_aof st (AOF.compact now a (dict_map_values KVStore.to_item (KVStore._store (store st))))).
Proof.
  intros Ha Hlive [Hwf (a0 & es & es' & Ha0 & Hl & He & Hh)]. simplify_eq. split; [done|].
  set (d := KVStore._store (store st)) in *.
  assert (Hd : Forall (KVFacts.live now) d) by by apply Forall_forall.
  exists (AOF.compact now a (dict_map_values KVStore.to_item d)), ((λ p, compact_line p.1 p.2) <$> d), [].
  rewrite app_nil_r. split; [done|]. split; [|split].
  - split; [done|]. split; [|done]. unfold AOF.compact. cbn.
    by rewrite compact_text_log, compact_live.
  - apply Forall_fmap, Forall_forall. intros [k m] Hin. apply dict_in_get in Hin; [|done].
    destruct (Hh k m Hin) as (e & Hl' & Hw). apply last_entry_in in Hl'.
    rewrite Forall_forall in He. cbn. by apply (compact_line_ok k m e); [apply He|].
  - intros k m Hm. exists (compact_line k m). split; [by apply compacted_last|].
    apply compact_line_writes.
Qed.

Lemma stays_snapshot st x : stays_covered st (mkStorage (store st) (aof st) x).
Proof. intros H. exact H. Qed.

Lemma keeps_maintain gz now failing : keeps (maintenance_round gz now failing).
Proof.
  unfold maintenance_round. apply preserves_bind.
  { apply preserves_modify. intros st. apply cleanup_shrinks. }
  intros _. apply preserves_state. intros st. destruct (snapshot st) as [sn|]; [|done].
  destruct (Snapshot.should_snapshot now sn); [|done]. cbv zeta. rewrite put_bind. intros Hst.
  set (st1 := mkStorage _ _ _). assert (H1 : covered st1).
  { apply (stays_snapshot (with_store st (KVStore._cleanup_expired now (store st)))). by apply cleanup_shrinks. }
  destruct (Snapshot.save _ _ _ _ _ _).2; [|done].
  destruct (aof st) as [a|] eqn:Ha; [|done]. destruct (AOF.should_compact a); [|done].
  unfold modify, state_of. cbn [fst]. apply (covered_compact now st1 a); [done| |done].
  intros p Hp. unfold st1 in Hp. cbn [store] in Hp. destruct Hst as [Hwf _].
  change (KVStore.get_all_data now (store st)).1 with (KVStore._cleanup_expired now (store st)) in Hp.
  rewrite KVFacts.cleanup_store in Hp by done. by apply list_elem_of_filter in Hp as [Hp _].
Qed.

End keeps.
#[global] Hint Resolve keeps_look keeps_drop keeps_tick keeps_maintain : preserves.

Lemma run_op_covered now o : op_ok o → keeps true (run_op now o).
Proof.
  intros Ho. destruct o as [e|k v ver ex c u co|id ks|k| |gz failing]; cbn [run_op] in *.
  - apply keeps_applied; [|done]. intros Hs. destruct Ho as [?|(_ & ? & _)]; [congruence|done].
  - destruct Ho. apply preserves_bind; [by apply covered_put_newer|intros; apply preserves_ret].
  - apply keeps_drop.
  - solve_preserves.
  - apply keeps_tick.
  - apply keeps_maintain.
Qed.

Lemma run_ops_covered tr st : Forall (λ p, op_ok p.2) tr → covered true st → covered true (run_ops tr st).
Proof.
  intros Hok. revert st. induction Hok as [|[now o] tr Ho _ IH]; intros st Hst; [done|].
  apply IH. by apply (run_op_covered now o Ho).
Qed.

(** ** Crash and restart *)

Lemma parsed_log es : Forall AOFF.entry_wf es → parsed (AOFF.log_text es) = es.
Proof.
  intros Hwf. unfold parsed, AOFF.log_text. rewrite <-(str_app_nil_r (unlines _)), lines_unlines
    by (apply Forall_fmap, Forall_true; intros e; apply AOFF.to_line_no_newline).
  rewrite app_nil_r. induction Hwf as [|e es He _ IH]; [done|].
  rewrite !fmap_cons. cbn [omap list_omap]. rewrite AOFF.strip_to_line, AOFF.from_line_to_line by done.
  exact (f_equal (cons e) IH).
Qed.

(** The text of a file, open or closed. *)
Definition written (a : AOF.AOFPersistence) (es es' : list AOF.AOFEntry) : Prop :=
  AOF.synced a = AOFF.log_text es ∧ AOF.pending a = AOFF.log_text es'.

Lemma logged_written a es es' : AOFF.logged a es es' → written a es es'.
Proof. by intros (_ & ? & ?). Qed.

Lemma unsynced_written a es es' : written a es es' → Forall AOFF.entry_wf es' →
  unsynced_keys a = AOF.key <$> es'.
Proof. intros [_ Hp] Hwf. unfold unsynced_keys. by rewrite Hp, parsed_log. Qed.

Lemma parsed_contents a es es' : written a es es' → Forall AOFF.entry_wf (es ++ es') →
  parsed (AOF.contents a) = es ++ es'.
Proof.
  intros [Hs Hp] Hwf. unfold AOF.contents. rewrite Hs, Hp.
  change (String.append _ _) with (String.append (AOFF.log_text es) (AOFF.log_text es')).
  by rewrite <-AOFF.log_text_app, parsed_log.
Qed.

Lemma last_entry_cut k es es' j : (length es <= j)%nat → k ∉ (AOF.key <$> es') →
  last_entry k (take j (es ++ es')) = last_entry k (es ++ es').
Proof.
  intros Hj Hk. rewrite take_app, take_ge by done. unfold last_entry. rewrite !filter_app.
  assert (Hnone : ∀ l : list AOF.AOFEntry, l ⊆ es' → base.filter (λ e, AOF.key e = k) l = []).
  { intros l Hl. apply pfilter_none. intros e He Heq. apply Hk, list_elem_of_fmap. exists e. auto. }
  rewrite (Hnone (take _ es')), (Hnone es'); [done|done|].
  apply sublist_subseteq, sublist_take.
Qed.

(** The store and its file, open or closed. *)
Definition recorded (strict : bool) (st : storage) : Prop :=
  KVFacts.wf (store st) ∧
  ∃ a es es', aof st = Some a ∧ written a es es' ∧ Forall (line_ok strict) (es ++ es') ∧
    held_by (es ++ es') (store st).

Lemma covered_recorded strict st : covered strict st → recorded strict st.
Proof. intros [Hwf (a & es & es' & ? & ?%logged_written & ?)]. split; [done|]. by exists a, es, es'. Qed.

(** A restart finds everything that the file's lines cover. *)
Lemma recorded_restart strict now interval n st a sn : recorded strict st → aof st = Some a →
  ∃ st' c, _recover_data now (restart now interval (AOF.crash n a) sn) = (st', [], Ok c) ∧
    ∀ k m, lookup (store st) k = Some m → k ∉ unsynced_keys a → whole_line a k = true →
      alive_at now m = Some m → lookup (store st') k = Some m.
Proof.
  intros [_ (a0 & es & es' & Ha0 & Hl & He%lines_wf & Hh)] Ha. rewrite Ha in Ha0. injection Ha0 as <-.
  apply Forall_app in He as Hes. destruct Hes as [_ Hes'].
  destruct (recover_text now interval sn (AOF.crash n a) (λ s0 s c, ∃ j, (length es <= j)%nat ∧
    s = fold_left (λ s e, (apply_aof_entry now s e).1) (take j (es ++ es')) s0)) as (s0 & st' & c & Hr & _ & _ & j & Hj & Hs).
  { intros s0. destruct Hl as [Hsy Hp]. unfold AOF.crash. rewrite Hsy, Hp.
    destruct (AOFF.replay_cut_above (apply_aof_entry now) (apply_aof_entry_ok now) es es' n s0 He) as (j & Hj & Hr).
    do 2 eexists. split; [exact Hr|]. exists j. split; [lia|done]. }
  exists st', c. split; [exact Hr|]. intros k m Hm Hk Hwh Halive.
  destruct (Hh k m Hm) as (e & Hlast & Hw). rewrite Hs.
  unfold whole_line in Hwh. rewrite (parsed_contents a es es'), Hlast in Hwh by done.
  apply (replay_last now _ s0 e); [|done..]. rewrite last_entry_cut; [done|done|].
  by rewrite <-(unsynced_written a es es').
Qed.

(** Every key that is held has a line, and a strict file has whole ones only. *)
Lemma covered_whole st a k m : covered true st → aof st = Some a → lookup (store st) k = Some m →
  whole_line a k = true.
Proof.
  intros [_ (a0 & es & es' & Ha0 & Hl%logged_written & He & Hh)] Ha Hm. rewrite Ha in Ha0. injection Ha0 as <-.
  destruct (Hh k m Hm) as (e & Hlast & _). unfold whole_line.
  rewrite (parsed_contents a es es'), Hlast by (done || by eapply lines_wf).
  apply last_entry_in in Hlast. rewrite Forall_forall in He. by apply He.
Qed.

(** ** An orderly stop *)

(** Nothing is left to sync. *)
Definition closed (st : storage) : Prop :=
  ∀ a, aof st = Some a → AOF.is_open a = false ∧ AOF.pending a = EmptyString.

(** A stop closes the file in order, and a second one, which finds it closed,
    changes nothing of that. *)
Lemma recorded_shutdown strict gz now failing st : recorded strict st →
  (∀ a, aof st = Some a → AOF.is_open a = true ∨ AOF.pending a = EmptyString) →
  ∃ st', shutdown gz now failing st = (st', [], Ok tt) ∧ recorded strict st' ∧ closed st' ∧
    is_Some (aof st') ∧
    ∀ k m, lookup (store st') k = Some m ↔ lookup (store st) k = Some m ∧
      (is_Some (snapshot st) → KVFacts.live now (k, m)).
Proof.
  intros [Hwf (a & es & es' & Ha & [Hs Hp] & He & Hh)] Hready. specialize (Hready a Ha).
  set (s' := match snapshot st with Some _ => KVStore._cleanup_expired now (store st) | None => store st end).
  set (st' := mkStorage s' (Some (AOF.close now a)) ((λ sn, (Snapshot.save gz now now sn
    (KVStore.get_all_data now (store st)).2 failing).1) <$> snapshot st)).
  assert (Hclose : AOF.is_open (AOF.close now a) = false ∧ AOF.pending (AOF.close now a) = EmptyString ∧
    written (AOF.close now a) (es ++ es') []).
  { unfold AOF.close, AOF._do_fsync, written. cbn [AOF.synced AOF.pending AOF.is_open].
    destruct (AOF.is_open a); cbn [AOF.synced AOF.pending AOF.is_open].
    - unfold AOF.contents. by rewrite Hs, Hp, AOFF.log_text_app.
    - destruct Hready as [?|Hn]; [done|]. rewrite Hn in Hp |- *. split; [done|]. split; [done|].
      rewrite AOFF.log_text_app, Hs, <-Hp. by rewrite str_app_nil_r. }
  assert (Hlook : ∀ k m, lookup s' k = Some m ↔ lookup (store st) k = Some m ∧
    (is_Some (snapshot st) → KVFacts.live now (k, m))).
  { intros k m. unfold s', lookup. destruct (snapshot st) as [sn|].
    2: { split; [intros Hm; split; [done|by intros [??]]|by intros [? _]]. }
    rewrite KVFacts.cleanup_store by done. split.
    - intros Hm%dict_get_Some_in. apply list_elem_of_filter in Hm as [Hl Hm]. split; [by apply dict_in_get|by intros _].
    - intros [Hm Hl]. apply dict_in_get; [by apply dict_wf_filter|]. apply list_elem_of_filter.
      split; [apply Hl; eauto|by apply dict_get_Some_in]. }
  exists st'. split; [|split; [|split; [|split; [by eexists|exact Hlook]]]].
  - unfold shutdown. rewrite get_bind. unfold st', s'. destruct (snapshot st) as [sn|] eqn:Esn.
    + rewrite put_bind. unfold modify. cbn [aof]. by rewrite Ha.
    + rewrite ret_bind. unfold modify, with_aof. by rewrite Ha, Esn.
  - split; [unfold st', s'; destruct (snapshot st); [by apply KVFacts.cleanup_wf|done]|].
    exists (AOF.close now a), (es ++ es'), []. split; [done|]. split; [apply Hclose|]. rewrite app_nil_r.
    split; [done|]. intros k m Hm. apply Hh. by apply Hlook.
  - intros a' [= <-]. by destruct Hclose as (? & ? & _).
Qed.

Definition started (now interval : time) (sn : option Snapshot.SnapshotPersistence) : storage :=
  mkStorage (KVStore.init now) (Some (AOF.init now interval EmptyString None)) sn.

Lemma started_covered strict now interval sn : covered strict (started now interval sn).
Proof.
  split; [constructor|]. exists (AOF.init now interval EmptyString None), [], [].
  split; [done|]. split; [done|]. split; [constructor|]. by intros k m.
Qed.

(** A committed entry is synced, and everything before it. *)
Lemma applied_syncs strict now e st a : complete e → covered strict st →
  aof (state_of (_apply_log_entry now e st)) = Some a →
  unsynced_keys a = [] ∧ (LogEntry.command e = "SET"%string → whole_line a (LogEntry.key e) = true).
Proof.
  intros Hc [_ (a0 & es & es' & Ha0 & Hl & Hes%lines_wf & _)].
  assert (Happ : ∀ s' x, AOFF.entry_wf x → ∃ a', aof (state_of (aof_append now x true (with_store st s'))) = Some a' ∧
    unsynced_keys a' = [] ∧ whole_line a' (AOF.key x) = whole x).
  { intros s' x Hx. destruct (append_run now x true (with_store st s') a0 es es' Ha0 Hl) as (a' & fs & fs' & -> & Hl' & Hfs & Hs).
    exists a'. split; [done|]. split; [|].
    - destruct Hl' as (_ & _ & Hp). unfold unsynced_keys. by rewrite Hp, Hs.
    - unfold whole_line. rewrite (parsed_contents a' fs fs'); [|by apply logged_written|].
      + by rewrite Hfs, last_entry_snoc, decide_True.
      + rewrite Hfs. apply Forall_app. split; [done|]. by constructor. }
  unfold _apply_log_entry. case_decide as Hs.
  - assert (Hv : json_wf (LogEntry.value e)) by (destruct Hc as [?|(_ & ? & _)]; [congruence|done]).
    unfold store_set. rewrite modify_bind. intros Ha.
    edestruct (λ s', Happ s' (AOF.make_entry now SET (LogEntry.key e) (LogEntry.value e) (LogEntry.ttl e)
      (LogEntry.version e) (LogEntry.expires_at e) (LogEntry.created_at e) (Some (LogEntry.timestamp e))
      (LogEntry.coordinator_id e)) Hv) as (a' & Ha' & Hu & Hw).
    rewrite Ha' in Ha. simplify_eq. split; [exact Hu|]. intros _. etrans; [exact Hw|].
    apply (whole_complete e Hs Hv) in Hc. unfold aof_entry in Hc. by rewrite decide_True in Hc.
  - destruct Hc as [Hd|[? _]]; [|done]. rewrite decide_True by done.
    assert (Hrun : store_delete (LogEntry.key e) st = (with_store st (KVStore.delete (store st) (LogEntry.key e)).1, [],
      Ok (KVStore.delete (store st) (LogEntry.key e)).2)) by done.
    erewrite bind_silent by exact Hrun. intros Ha.
    edestruct (λ s', Happ s' (AOF.make_entry now DELETE (LogEntry.key e) JNull None (LogEntry.version e) None None
      (Some (LogEntry.timestamp e)) (LogEntry.coordinator_id e)) I) as (a' & Ha' & Hu & _).
    rewrite Ha' in Ha. simplify_eq. split; [exact Hu|congruence].
Qed.

(** What the storage holds survives a crash.  After any operations of a
    node on its storage, maintenance with snapshots and compactions included,
    whatever unsynced text a crash loses and whatever snapshot is found, a restart
    succeeds and holds, with all its metadata, every key that the store held,
    unless its last line was not synced or it has expired by then; and a committed
    write leaves nothing unsynced. *)
Theorem storage_survives_crash t0 now interval n tr sn sn' st a
    (Hok : Forall (λ p, op_ok p.2) tr)
    (Hrun : run_ops tr (started t0 interval sn) = st) (Ha : aof st = Some a) :
  (∃ st' c, _recover_data now (restart now interval (AOF.crash n a) sn') = (st', [], Ok c) ∧
    ∀ k m, lookup (store st) k = Some m → k ∉ unsynced_keys a → alive_at now m = Some m →
      lookup (store st') k = Some m) ∧
  (∀ t e, last tr = Some (t, Applied e) → unsynced_keys a = []).
Proof.
  split.
  - assert (Hc : covered true st) by (rewrite <-Hrun; by apply run_ops_covered, started_covered).
    destruct (recorded_restart true now interval n st a sn' (covered_recorded _ _ Hc) Ha) as (st' & c & Hr & Hk).
    exists st', c. split; [exact Hr|]. intros k m Hm Hu Hal. apply Hk; try done. by eapply covered_whole.
  - intros t e [tr' ->]%last_Some. unfold run_ops in Hrun. rewrite fold_left_app in Hrun.
    cbn [fold_left fst snd run_op] in Hrun. subst st. apply Forall_app in Hok as [Hok' Hok].
    apply Forall_cons in Hok as [Hok _]. eapply (applied_syncs true); [exact Hok| |exact Ha].
    by apply run_ops_covered, started_covered.
Qed.

(** ** A torn line *)

Definition torn : string := String "{" EmptyString.

Lemma rstrip_brace r : rstrip (String "{" r) = String "{" (rstrip r).
Proof. simpl. by destruct (rstrip r). Qed.

(** Two lines run together do not decode. *)
Lemma merged_line r : let l := String "{" (String "{" r) in
  truthy_str (strip l) = true ∧ AOF.from_line (strip l) = Raise JSONDecodeError.
Proof.
  cbv zeta.
  assert (Hs : ∀ r', strip (String "{" (String "{" r')) = String "{" (String "{" (rstrip r'))).
  { intros r'. change (rstrip (String "{" (String "{" r')) = String "{" (String "{" (rstrip r'))).
    by rewrite !rstrip_brace. }
  rewrite Hs. split; [done|]. unfold AOF.from_line. by rewrite Hs.
Qed.

Lemma torn_alone : truthy_str (strip torn) = true ∧ AOF.from_line (strip torn) = Raise JSONDecodeError.
Proof. by vm_compute. Qed.

(** A log whose last line does not decode. *)
Lemma replay_bad_tail now es l s : Forall AOFF.entry_wf es → str_has newline l = false →
  truthy_str (strip l) = true → AOF.from_line (strip l) = Raise JSONDecodeError → l ≠ EmptyString →
  ∀ rest, rest = EmptyString ∨ rest = chr newline →
  AOF.replay (apply_aof_entry now) (Some (AOFF.log_text es +:+ (l +:+ rest))) s =
    Ok (fold_left (λ s e, (apply_aof_entry now s e).1) es s, Z.of_nat (length es)).
Proof.
  intros Hwf Hnl Ht Hf Hne rest Hrest. unfold AOF.replay, AOFF.log_text.
  rewrite lines_unlines by (apply Forall_fmap, Forall_true; intros e; apply AOFF.to_line_no_newline).
  rewrite (AOFF.replay_entries _ (apply_aof_entry_ok now)) by done.
  assert (Hl : lines (l +:+ rest) = [l]).
  { destruct Hrest as [->| ->]; [rewrite str_app_nil_r; by apply lines_last|].
    unfold chr. by rewrite lines_app. }
  rewrite Hl. cbn [AOF.replay_lines fst snd]. unfold AOF.replay_line. rewrite Ht, Hf. reflexivity.
Qed.

Lemma synced_append now a x : AOF.is_open a = true →
  ∃ a', AOF.append now a x true = Ok a' ∧ AOF.pending a' = EmptyString ∧
    AOF.synced a' = AOF.contents a +:+ (AOF.to_line x +:+ chr newline).
Proof.
  intros Ho. unfold AOF.append. rewrite Ho. eexists. split; [reflexivity|].
  unfold AOF._do_fsync. cbn. rewrite Ho. split; [done|]. unfold AOF.contents. cbn. by rewrite str_app_assoc.
Qed.

(** A line that a crash tears swallows the next write.  When a crash has
    kept the first character of an unsynced line, the recovered node appends to
    that line: a write that it then commits and syncs is lost at the next
    restart, because the two lines run together do not decode. *)
Theorem torn_line_swallows_next_write now1 now2 interval es e n
    (Hes : Forall AOFF.entry_wf es) (Hc : complete e) (Hset : LogEntry.command e = "SET"%string)
    (Hnew : last_entry (LogEntry.key e) es = None) :
  ∃ st1 st2 a, _recover_data now1 (restart now1 interval (AOFF.log_text es +:+ torn) None) =
      (st1, [], Ok (Z.of_nat (length es))) ∧
    _apply_log_entry now1 e st1 = (st2, [], Ok tt) ∧ aof st2 = Some a ∧ AOF.pending a = EmptyString ∧
    lookup (store st2) (LogEntry.key e) = Some (entry_meta e) ∧
    ∃ st3, _recover_data now2 (restart now2 interval (AOF.crash n a) None) =
        (st3, [], Ok (Z.of_nat (length es))) ∧
      lookup (store st3) (LogEntry.key e) = None.
Proof.
  destruct (recover_text now1 interval None (AOFF.log_text es +:+ torn) (λ s0 s c,
    s = fold_left (λ s e, (apply_aof_entry now1 s e).1) es s0 ∧ c = Z.of_nat (length es)))
    as (s0 & st1 & c1 & Hr1 & _ & Ha1 & Hs1 & ->).
  { intros s0. do 2 eexists. split; [|done]. destruct torn_alone as [Ht Hf].
    by apply (replay_bad_tail now1 es torn s0 Hes eq_refl Ht Hf ltac:(done) EmptyString (or_introl eq_refl)). }
  exists st1. set (x := aof_entry e).
  destruct (synced_append now1 (AOF.init now1 interval (AOFF.log_text es +:+ torn) None) x eq_refl)
    as (a & Hap & Hp & Hsy).
  exists (mkStorage (KVStore.set now1 (store st1) (LogEntry.key e) (LogEntry.value e)
    (KVStore.mkOpts None (Some (LogEntry.version e)) (LogEntry.expires_at e) (LogEntry.created_at e)
       (Some (LogEntry.timestamp e)) (Some (LogEntry.coordinator_id e)))).1 (Some a) (snapshot st1)), a.
  split; [exact Hr1|]. split.
  { unfold _apply_log_entry, store_set. rewrite decide_True, modify_bind by done.
    unfold x, aof_entry in Hap. rewrite decide_True in Hap by done.
    by erewrite aof_append_ok; [reflexivity|exact Ha1|exact Hap]. }
  split; [done|]. split; [done|]. cbn [store]. split.
  { rewrite lookup_set, decide_True by done. f_equal. by apply new_meta_complete. }
  assert (Hx : ∃ r, AOF.to_line x = String "{" r).
  { unfold AOF.to_line. rewrite dumps_obj. by eexists. }
  destruct Hx as [l Hl]. destruct (merged_line l) as [Ht Hf].
  assert (Hcrash : AOF.crash n a = AOFF.log_text es +:+ (String "{" (String "{" l) +:+ chr newline)).
  { unfold AOF.crash. rewrite Hp, Hsy, Hl. unfold AOF.contents. cbn [AOF.init AOF.synced AOF.pending].
    replace (str_take n EmptyString) with EmptyString by (by destruct n).
    rewrite !str_app_nil_r, <-str_app_assoc. unfold torn. by rewrite !str_app_cons, str_app_nil_l. }
  destruct (recover_text now2 interval None (AOF.crash n a) (λ s0 s c,
    s = fold_left (λ s e, (apply_aof_entry now2 s e).1) es s0 ∧ c = Z.of_nat (length es)))
    as (s2 & st3 & c3 & Hr3 & H0 & _ & Hs3 & ->).
  { intros s2. do 2 eexists. split; [|done]. rewrite Hcrash. pose proof (AOFF.to_line_no_newline x) as Hnl.
    rewrite Hl in Hnl. apply (replay_bad_tail now2 es _ s2 Hes); [|done|done|done|by right].
    by rewrite str_has_cons, Hnl. }
  exists st3. split; [exact Hr3|]. by rewrite Hs3, (H0 eq_refl), replay_none.
Qed.

(** ** Concrete runs *)

(** Writes, a value from another node, a round of maintenance, a delete and one
    more value, which is not synced when the node crashes. *)
Definition demo_trace : list (time * op) :=
  [(seconds 1, Applied (write "SET" "a" (JInt 1) (seconds 1) None));
   (seconds 2, Put "b" (JStr "x") 3 None (seconds 2) (seconds 2) "n2");
   (seconds 3, Applied (write "SET" "c" (JInt 2) (seconds 3) (Some 60)));
   (seconds 90, Maintain (λ _, 0) None);
   (seconds 91, Applied (write "DELETE" "a" JNull (seconds 91) None));
   (seconds 91, Put "d" (JInt 4) 1 None (seconds 91) (seconds 91) "n3")].

Lemma demo_trace_ok : Forall (λ p, op_ok p.2) demo_trace.
Proof.
  repeat (apply Forall_cons; split; [cbn [op_ok snd]; first [exact I|by apply write_complete|by left|by split]|]). by apply Forall_nil.
Qed.

Lemma storage_survives_crash_witness :
  let st := run_ops demo_trace (started 0 (seconds 1) None) in
  ∃ a st' c m, aof st = Some a ∧ unsynced_keys a = ["d"%string] ∧
    _recover_data (seconds 95) (restart (seconds 95) (seconds 1) (AOF.crash 9 a) None) = (st', [], Ok c) ∧
    lookup (store st) "b" = Some m ∧ lookup (store st') "b" = Some m.
Proof.
  cbv zeta. set (st := run_ops demo_trace (started 0 (seconds 1) None)).
  assert (Ha : is_Some (aof st)) by (apply (bool_decide_unpack _); by vm_compute). destruct Ha as [a Ha].
  assert (Hu : unsynced_keys a = ["d"%string]).
  { assert (unsynced_keys <$> aof st = Some ["d"%string]) as Hu by (by vm_compute). rewrite Ha in Hu. by injection Hu. }
  assert (Hb : is_Some (lookup (store st) "b")) by (apply (bool_decide_unpack _); by vm_compute). destruct Hb as [m Hb].
  assert (Hm : alive_at (seconds 95) m = Some m).
  { assert (alive_at (seconds 95) <$> lookup (store st) "b" = Some (lookup (store st) "b")) as Hm by (by vm_compute).
    rewrite Hb in Hm. by injection Hm. }
  destruct (storage_survives_crash 0 (seconds 95) (seconds 1) 9 demo_trace None None st a demo_trace_ok eq_refl Ha)
    as [(st' & c & Hr & Hk) _].
  exists a, st', c, m. split; [exact Ha|]. split; [exact Hu|]. split; [exact Hr|]. split; [exact Hb|].
  apply Hk; [exact Hb| |exact Hm]. rewrite Hu. apply (bool_decide_unpack _). by vm_compute.
Defined.

Lemma torn_line_swallows_next_write_witness :
  ∃ st1 st2 a, _recover_data (seconds 2) (restart (seconds 2) (seconds 1) torn None) = (st1, [], Ok 0) ∧
    _apply_log_entry (seconds 2) (write "SET" "a" (JInt 1) (seconds 2) None) st1 = (st2, [], Ok tt) ∧
    aof st2 = Some a ∧
    ∃ st3, _recover_data (seconds 3) (restart (seconds 3) (seconds 1) (AOF.crash 0 a) None) = (st3, [], Ok 0) ∧
      lookup (store st3) "a" = None.
Proof.
  destruct (torn_line_swallows_next_write (seconds 2) (seconds 3) (seconds 1) []
    (write "SET" "a" (JInt 1) (seconds 2) None) 0) as (st1 & st2 & a & H1 & H2 & H3 & _ & _ & st3 & H4 & H5).
  - constructor.
  - by apply write_complete.
  - reflexivity.
  - reflexivity.
  - exists st1, st2, a. split; [exact H1|]. split; [exact H2|]. split; [exact H3|]. by exists st3.
Defined.

End Durable.
