(* ===== verification/LastWriter.v ===== *)
(** Last writer wins: values that travel between replicas, in read repair,
    anti-entropy, replica writes and migration, are ordered by version, update
    time and coordinator, and replicas that receive the same values in any
    order agree. *)

From S2P Require Import Prelude.
From S2P Require Import PyMonad.
From S2P Require Import PyDict.
From S2P Require Import Json.
From S2P Require Import Store.
From S2P Require Import StoreSpec.
From S2P Require Import Aof.
From S2P Require Import Election.
From S2P Require Import Storage.
From S2P Require Import StorageFacts.
#[local] Open Scope Z_scope.

Module LastWriter.
Import Storage StorageF.

(** ** The order *)

Lemma order_ltb_irrefl a : order_ltb a a = false.
Proof.
  destruct a as [[v u] c]. unfold order_ltb. rewrite !Z.ltb_irrefl, !Z.eqb_refl.
  by rewrite str_ltb_irrefl.
Qed.

Lemma order_ltb_iff a b : order_ltb a b = true ↔
  a.1.1 < b.1.1 ∨ (a.1.1 = b.1.1 ∧ (a.1.2 < b.1.2 ∨ (a.1.2 = b.1.2 ∧ str_ltb a.2 b.2 = true))).
Proof.
  destruct a as [[v u] c], b as [[v' u'] c']. simpl.
  rewrite orb_true_iff, andb_true_iff, orb_true_iff, andb_true_iff.
  by rewrite !Z.ltb_lt, !Z.eqb_eq.
Qed.

Lemma order_ltb_false a b : order_ltb a b = false ↔
  b.1.1 < a.1.1 ∨ (a.1.1 = b.1.1 ∧ (b.1.2 < a.1.2 ∨ (a.1.2 = b.1.2 ∧ str_leb b.2 a.2 = true))).
Proof.
  rewrite <-not_true_iff_false, order_ltb_iff. unfold str_ltb. rewrite negb_true_iff.
  destruct (str_leb b.2 a.2); split; intros H; try lia;
    destruct (Z.lt_trichotomy a.1.1 b.1.1) as [?|[?|?]]; try tauto;
    destruct (Z.lt_trichotomy a.1.2 b.1.2) as [?|[?|?]]; try tauto; intuition (try lia; try congruence).
Qed.

Lemma order_ltb_asym a b : order_ltb a b = true → order_ltb b a = false.
Proof.
  rewrite order_ltb_iff, order_ltb_false. intros [?|[? [?|[? Hs]]]]; [by left|right|right].
  - split; [done|by left].
  - split; [done|right]. split; [done|]. by apply str_ltb_leb.
Qed.

Lemma order_ltb_neg_trans a b c :
  order_ltb a b = false → order_ltb b c = false → order_ltb a c = false.
Proof.
  rewrite !order_ltb_false.
  intros [?|[? [?|[? ?]]]] [?|[? [?|[? ?]]]]; try (left; lia); right; (split; [lia|]);
    try (left; lia); right; (split; [lia|]). by eapply str_leb_trans.
Qed.

Lemma order_ltb_total a b : order_ltb a b = false → order_ltb b a = false → a = b.
Proof.
  rewrite !order_ltb_false. destruct a as [[v u] c], b as [[v' u'] c']. simpl.
  intros [?|[? [?|[? ?]]]] [?|[? [?|[? ?]]]]; try lia. f_equal; [f_equal; lia|].
  by apply str_leb_antisym.
Qed.

(** ** Values that arrive at a replica *)

Record put := mkPut {
  p_value : json;
  p_version : Z;
  p_expires_at : option time;
  p_created_at : time;
  p_updated_at : time;
  p_coordinator_id : string;
}.

Definition put_meta (p : put) : KVStore.KeyMetadata :=
  KVStore.mkMeta (p_value p) (p_created_at p) (p_updated_at p) (p_expires_at p) (p_version p)
    (p_coordinator_id p).

Definition order_of (p : put) : order := (p_version p, p_updated_at p, p_coordinator_id p).

(** A value that is not expired, with a proper version. *)
Definition live_put (now : time) (p : put) : Prop :=
  KVStore.is_expired now (put_meta p) = false ∧ p_version p ≠ 0.

Definition receive (now : time) (k : string) (p : put) : proc bool :=
  put_newer now k (p_value p) (p_version p) (p_expires_at p) (p_created_at p) (p_updated_at p)
    (p_coordinator_id p).

(** Values for a key, each with the time at which it arrives. *)
Definition receive_all (k : string) (rs : list (time * put)) : proc () :=
  for_each (λ r, _ ← receive r.1 k r.2; mret ()) rs.

(** The file, if there is one, is open. *)
Definition aof_ready (st : storage) : Prop := ∀ a, aof st = Some a → AOF.is_open a = true.

Definition newer_step (o : option KVStore.KeyMetadata) (p : put) : option KVStore.KeyMetadata :=
  match o with
  | Some m => if order_ltb (order_of p) (_metadata_sort_key m) then Some m else Some (put_meta p)
  | None => Some (put_meta p)
  end.

Lemma aof_append_ready now x sync st : aof_ready st →
  ∃ st', aof_append now x sync st = (st', [], Ok tt) ∧ store st' = store st ∧ aof_ready st'.
Proof.
  intros Hr. destruct (aof st) as [a|] eqn:Ha.
  - specialize (Hr a Ha).
    assert (∃ a', AOF.append now a x sync = Ok a' ∧ AOF.is_open a' = true) as (a' & Hap & Ho).
    { unfold AOF.append, AOF._do_fsync. rewrite Hr. eexists. split; [done|].
      destruct (_ || _); simpl; by rewrite ?Hr. }
    exists (with_aof st a'). split; [by eapply aof_append_ok|]. split; [done|].
    intros b [= <-]. done.
  - exists st. split; [|done]. unfold aof_append. by rewrite get_bind, Ha.
Qed.

(** The stored value when it has not expired. *)
Definition current (now : time) (st : storage) (k : string) : option KVStore.KeyMetadata :=
  match lookup (store st) k with
  | Some m => if KVStore.is_expired now m then None else Some m
  | None => None
  end.

(** Looking a key up only drops it when it has expired. *)
Lemma get_meta_spec now k st :
  ∃ s1, store_get_meta now k st = (with_store st s1, [], Ok (current now st k)) ∧
    (∀ k', k' ≠ k → lookup s1 k' = lookup (store st) k') ∧
    lookup s1 k = current now st k ∧ (current now st k ≠ None → s1 = store st).
Proof.
  unfold store_get_meta, KVStore.get_with_metadata, current, lookup.
  destruct (dict_get (KVStore._store (store st)) k) as [m|] eqn:E;
    [destruct (KVStore.is_expired now m) eqn:Ex|].
  - exists (KVStore._delete_internal (store st) k). rewrite get_bind, E, Ex. split; [done|].
    unfold KVStore._delete_internal, dict_mem. rewrite E, bool_decide_eq_true_2 by done. simpl.
    split; [intros k' Hk'; by rewrite dict_get_del_ne|]. split; [apply dict_get_del_eq|done].
  - exists (store st). rewrite get_bind, E, Ex. done.
  - exists (store st). rewrite get_bind, E. done.
Qed.

Lemma current_after now k st s1 : lookup s1 k = current now st k → current now (with_store st s1) k = current now st k.
Proof.
  intros Hs. unfold current at 1. cbn [with_store store]. rewrite Hs. unfold current.
  destruct (lookup (store st) k) as [m|]; [|done]. by destruct (KVStore.is_expired now m) eqn:Ex; rewrite ?Ex.
Qed.

Lemma receive_spec now k p st : aof_ready st → live_put now p →
  ∃ st' b, receive now k p st = (st', [], Ok b) ∧ aof_ready st' ∧
    lookup (store st') k = newer_step (current now st k) p ∧
    (∀ k', k' ≠ k → lookup (store st') k' = lookup (store st) k') ∧
    (b = false ↔ ∃ m, current now st k = Some m ∧ order_ltb (order_of p) (_metadata_sort_key m) = true).
Proof.
  intros Hr [Hlive Hv]. unfold receive, put_newer.
  destruct (get_meta_spec now k st) as (s1 & Hm & Hother & _ & Hsame).
  set (st1 := with_store st s1) in *.
  assert (Hwrite : ∃ st', (store_set now k (p_value p)
      (KVStore.mkOpts None (Some (p_version p)) (p_expires_at p) (Some (p_created_at p))
         (Some (p_updated_at p)) (Some (p_coordinator_id p)));;
    aof_append now (AOF.make_entry now SET k (p_value p) None (p_version p) (p_expires_at p)
      (Some (p_created_at p)) (Some (p_updated_at p)) (p_coordinator_id p)) false;;
    mret true) st1 = (st', [], Ok true) ∧ aof_ready st' ∧
    lookup (store st') k = Some (put_meta p) ∧
    ∀ k', k' ≠ k → lookup (store st') k' = lookup s1 k').
  { set (o := KVStore.mkOpts None (Some (p_version p)) (p_expires_at p) (Some (p_created_at p))
         (Some (p_updated_at p)) (Some (p_coordinator_id p))).
    destruct (aof_append_ready now (AOF.make_entry now SET k (p_value p) None (p_version p)
      (p_expires_at p) (Some (p_created_at p)) (Some (p_updated_at p)) (p_coordinator_id p)) false
      (with_store st1 (KVStore.set now s1 k (p_value p) o).1)) as (st' & Ha & Hs & Hr'); [done|].
    exists st'. split; [|split; [done|]].
    - erewrite bind_ok; [|reflexivity|erewrite bind_ok; [|exact Ha|reflexivity]; reflexivity]. done.
    - rewrite Hs. cbn [with_store store]. split; [|intros k' Hk'; rewrite lookup_set; by rewrite decide_False by done].
      rewrite lookup_set, decide_True by done. f_equal.
      unfold KVStore.new_meta, KVStore.new_version, put_meta. simpl.
      destruct (Z.eqb_spec (p_version p) 0); [done|]. by destruct (p_expires_at p). }
  destruct Hwrite as (st' & Hw & Hr' & Hk & Hk').
  change (p_version p, p_updated_at p, p_coordinator_id p) with (order_of p).
  destruct (current now st k) as [m|] eqn:Ecur.
  - destruct (order_ltb (order_of p) (_metadata_sort_key m)) eqn:Eo.
    + exists st1, false. split_and!.
      * erewrite bind_ok; [|exact Hm|]; [done|]. cbn beta iota. by rewrite Eo.
      * done.
      * unfold newer_step. rewrite Eo. cbn [with_store store st1].
        rewrite (Hsame ltac:(done)). unfold current in Ecur.
        destruct (lookup (store st) k) as [m'|]; [|done]. by destruct (KVStore.is_expired now m').
      * done.
      * split; [|done]. intros _. eauto.
    + exists st', true. split_and!; [|done|unfold newer_step; by rewrite Eo| |].
      * erewrite bind_ok; [|exact Hm|]; [done|]. cbn beta iota. by rewrite Eo.
      * intros k' Hne. rewrite Hk' by done. by apply Hother.
      * split; [done|]. intros (m' & [= <-] & ?). congruence.
  - exists st', true. split_and!; [|done|done| |].
    + erewrite bind_ok; [|exact Hm|exact Hw]. done.
    + intros k' Hne. rewrite Hk' by done. by apply Hother.
    + split; [done|]. by intros (m' & ? & _).
Qed.

Lemma unexpired_before now later m : now <= later → KVStore.is_expired later m = false → KVStore.is_expired now m = false.
Proof. unfold KVStore.is_expired. destruct (KVStore.expires_at m); [|done]. rewrite !andb_false_iff, !Z.ltb_ge. intros ? [?|?]; [by left|right; lia]. Qed.

Lemma live_before now later p : now <= later → live_put later p → live_put now p.
Proof. intros Hle [Hl Hv]. split; [by eapply unexpired_before|done]. Qed.

Lemma current_live now later st k o : now <= later → lookup (store st) k = put_meta <$> o →
  (∀ p, o = Some p → live_put later p) → current now st k = put_meta <$> o.
Proof.
  intros Hle Hst Ho. unfold current. rewrite Hst. destruct o as [p|]; [|done]. simpl.
  destruct (live_before now later p Hle (Ho p eq_refl)) as [-> _]. done.
Qed.

Lemma newer_step_put o p : ∃ q, newer_step (put_meta <$> o) p = Some (put_meta q) ∧ (q = p ∨ o = Some q).
Proof. destruct o as [q|]; cbn [fmap option_fmap option_map newer_step]; [case_match; [exists q|exists p]; auto|exists p; auto]. Qed.

(** All that a replica receives before its values expire, in one go. *)
Lemma receive_all_spec later k rs st o : aof_ready st → lookup (store st) k = put_meta <$> o →
  (∀ p, o = Some p → live_put later p) → Forall (λ r, r.1 <= later ∧ live_put later r.2) rs →
  ∃ st', receive_all k rs st = (st', [], Ok tt) ∧ aof_ready st' ∧
    lookup (store st') k = fold_left newer_step rs.*2 (put_meta <$> o).
Proof.
  intros Hr Hst Ho Hrs. revert st o Hr Hst Ho. induction Hrs as [|[now p] rs [Hle Hp] _ IH]; intros st o Hr Hst Ho; [by exists st|].
  cbn [fst snd] in Hle, Hp.
  destruct (receive_spec now k p st Hr (live_before _ _ _ Hle Hp)) as (st1 & b & H1 & Hr1 & Hk & _).
  rewrite (current_live now later st k o Hle Hst Ho) in Hk.
  destruct (newer_step_put o p) as (q & Hq & Hor). rewrite Hq in Hk.
  destruct (IH st1 (Some q) Hr1 Hk) as (st2 & H2 & Hr2 & Hk2); [intros ? [= <-]; destruct Hor as [->|]; auto|].
  exists st2. split; [|split; [done|]].
  - unfold receive_all. cbn [for_each].
    assert (Hone : (_ ← receive now k p; mret () : proc ()) st = (st1, [], Ok tt)).
    { erewrite bind_ok; [|exact H1|reflexivity]. done. }
    erewrite bind_ok; [|exact Hone|exact H2]. done.
  - rewrite Hk2. cbn [fmap list_fmap fold_left snd]. by rewrite Hq.
Qed.

(** A value older than the stored one is ignored. *)
Lemma receive_older now k p m st : current now st k = Some m → order_ltb (order_of p) (_metadata_sort_key m) = true →
  receive now k p st = (st, [], Ok false).
Proof.
  intros Hm Ho. unfold receive, put_newer. destruct (get_meta_spec now k st) as (s1 & Hget & _ & _ & Hsame).
  rewrite Hm in Hget, Hsame. rewrite (Hsame ltac:(done)) in Hget.
  erewrite bind_ok; [|exact Hget|]; [|cbn beta iota; change (p_version p, p_updated_at p, p_coordinator_id p) with (order_of p); by rewrite Ho].
  by destruct st.
Qed.

(** The value that the others do not beat. *)
Definition winner (m : KVStore.KeyMetadata) (ps : list put) : Prop :=
  (∃ p, p ∈ ps ∧ m = put_meta p) ∧
  ∀ q, q ∈ ps → order_ltb (_metadata_sort_key m) (order_of q) = false.

Lemma newer_step_winner ps p0 :
  ∃ m, fold_left newer_step ps (Some (put_meta p0)) = Some m ∧ winner m (p0 :: ps).
Proof.
  revert p0. induction ps as [|p ps IH]; intros p0.
  { exists (put_meta p0). split; [done|]. split; [exists p0; split; [by left|done]|].
    intros q [->|Hq]%elem_of_cons; [apply order_ltb_irrefl|by apply not_elem_of_nil in Hq]. }
  cbn [fold_left newer_step]. change (_metadata_sort_key (put_meta p0)) with (order_of p0).
  destruct (order_ltb (order_of p) (order_of p0)) eqn:E.
  - destruct (IH p0) as (m & Hm & (q & Hq & Hmq) & Hmax). exists m.
    split; [done|].
    split; [exists q; split; [|done]; rewrite !elem_of_cons in *; tauto|].
    intros x Hx. rewrite !elem_of_cons in Hx. destruct Hx as [->|[->|Hx]].
    + apply Hmax. by left.
    + apply (order_ltb_neg_trans _ (order_of p0)); [apply Hmax; by left|]. by apply order_ltb_asym.
    + apply Hmax. by right.
  - destruct (IH p) as (m & Hm & (q & Hq & Hmq) & Hmax). exists m.
    split; [done|].
    split; [exists q; split; [|done]; by right|].
    intros x Hx. apply elem_of_cons in Hx as [->|Hx]; [|by apply Hmax].
    apply (order_ltb_neg_trans _ (order_of p)); [apply Hmax; by left|done].
Qed.

(** What a replica has seen: the value it starts with, if any, and those it receives. *)
Definition seen (o : option put) (rs : list (time * put)) : list put := from_option (λ p, [p]) [] o ++ rs.*2.

Lemma receive_all_winner later k rs st o : aof_ready st → lookup (store st) k = put_meta <$> o →
  Forall (live_put later) (seen o rs) → Forall (λ r, r.1 <= later) rs → seen o rs ≠ [] →
  ∃ st' p, receive_all k rs st = (st', [], Ok tt) ∧ lookup (store st') k = Some (put_meta p) ∧
    winner (put_meta p) (seen o rs) ∧ p ∈ seen o rs.
Proof.
  intros Hr Hst Hlive Htimes Hne. apply Forall_app in Hlive as [Ho Hlive].
  destruct (receive_all_spec later k rs st o Hr Hst) as (st' & Hrun & _ & Hk).
  { intros p ->. simpl in Ho. by apply Forall_cons in Ho as [? _]. }
  { apply Forall_and. split; [done|]. rewrite Forall_fmap in Hlive. exact Hlive. }
  assert (∃ m, fold_left newer_step rs.*2 (put_meta <$> o) = Some m ∧ winner m (seen o rs)) as (m & Hm & Hw).
  { unfold seen in *. destruct o as [p|]; [apply newer_step_winner|].
    destruct rs as [|[t p] rs]; [done|]. apply newer_step_winner. }
  destruct Hw as [(p & Hp & ->) Hmax]. exists st', p. rewrite Hk. split_and!; [done|done| |done].
  split; [by exists p|done].
Qed.

(** Claim C15. Replicas that have seen the same values for a key agree.  Two
    replicas, whose files, if any, are open, start with a value of the key or with
    none, and receive others, each replica at its own times, in its own order and
    as often as may be.  When the start values and the received ones are the same
    set for both, not empty, none of them expires before the last one arrives, all
    carry a version, and no two different ones agree in version, update time and
    coordinator, both replicas end with the same value: the greatest by version,
    update time and coordinator.  While none of them has expired, an older value then
    changes nothing in the replica and is reported as ignored. *)
Theorem replicas_converge later k o1 rs1 o2 rs2 st1 st2
    (Hr1 : aof_ready st1) (Hr2 : aof_ready st2)
    (Hst1 : lookup (store st1) k = put_meta <$> o1) (Hst2 : lookup (store st2) k = put_meta <$> o2)
    (Hlive : Forall (live_put later) (seen o1 rs1)) (Hne : seen o1 rs1 ≠ [])
    (Ht1 : Forall (λ r, r.1 <= later) rs1) (Ht2 : Forall (λ r, r.1 <= later) rs2)
    (Heq : ∀ p, p ∈ seen o1 rs1 ↔ p ∈ seen o2 rs2)
    (Hinj : ∀ p q, p ∈ seen o1 rs1 → q ∈ seen o1 rs1 → order_of p = order_of q → p = q) :
  ∃ p st1' st2', receive_all k rs1 st1 = (st1', [], Ok tt) ∧ receive_all k rs2 st2 = (st2', [], Ok tt) ∧
    p ∈ seen o1 rs1 ∧ (∀ q, q ∈ seen o1 rs1 → order_ltb (order_of p) (order_of q) = false) ∧
    lookup (store st1') k = Some (put_meta p) ∧ lookup (store st2') k = Some (put_meta p) ∧
    ∀ now q, now <= later → order_ltb (order_of q) (order_of p) = true → receive now k q st1' = (st1', [], Ok false).
Proof.
  destruct (receive_all_winner later k rs1 st1 o1 Hr1 Hst1 Hlive Ht1 Hne) as (st1' & p & H1 & Hk1 & [_ Hm1] & Hp).
  assert (Hlive2 : Forall (live_put later) (seen o2 rs2)).
  { apply Forall_forall. intros q Hq. apply Heq in Hq. rewrite Forall_forall in Hlive. auto. }
  assert (Hne2 : seen o2 rs2 ≠ []).
  { intros Hnil. apply Heq in Hp. rewrite Hnil in Hp. by apply not_elem_of_nil in Hp. }
  destruct (receive_all_winner later k rs2 st2 o2 Hr2 Hst2 Hlive2 Ht2 Hne2) as (st2' & q & H2 & Hk2 & [_ Hm2] & Hq).
  assert (p = q) as <-.
  { apply Hinj; [done|by apply Heq|]. apply order_ltb_total; [by apply Hm1, Heq|by apply Hm2, Heq]. }
  exists p, st1', st2'. split_and!; [done|done|done|exact Hm1|done|done|].
  intros now x Hle Hx. apply (receive_older now k x (put_meta p)); [|done].
  apply (current_live now later _ _ (Some p) Hle Hk1). intros ? [= <-]. rewrite Forall_forall in Hlive. auto.
Qed.

(** Three values for a key, received in two orders by two fresh replicas. *)
Definition replica : storage := fresh 0 (seconds 1).
Definition p1 : put := mkPut (JInt 1) 1 None 0 (seconds 1) "n1".
Definition p2 : put := mkPut (JInt 2) 2 None 0 (seconds 1) "n2".
Definition p3 : put := mkPut (JInt 3) 2 None 0 (seconds 1) "n3".

Lemma replica_ready : aof_ready replica.
Proof. by intros a [= <-]. Qed.

(** One replica starts with the second value, the other with none. *)
Definition replica2 : storage := state_of (receive 0 "k" p2 (fresh 0 (seconds 1))).

Lemma replica2_ready : aof_ready replica2.
Proof.
  destruct (receive_spec 0 "k" p2 replica replica_ready) as (st' & b & H & Hr & _); [by split|].
  unfold replica2. change (fresh 0 (seconds 1)) with replica. by rewrite H.
Qed.

Lemma replicas_converge_witness :
  let rs1 := [(1, p1); (2, p3)] in let rs2 := [(1, p3); (2, p1); (3, p2); (4, p1)] in
  ∃ p, lookup (store (state_of (receive_all "k" rs1 replica2))) "k" = Some (put_meta p) ∧
       lookup (store (state_of (receive_all "k" rs2 replica))) "k" = Some (put_meta p) ∧
       receive 4 "k" p2 (state_of (receive_all "k" rs1 replica2)) = (state_of (receive_all "k" rs1 replica2), [], Ok false).
Proof.
  cbv zeta. assert (Hcases : ∀ p, p ∈ [p2; p1; p3] → p = p1 ∨ p = p2 ∨ p = p3).
  { intros p. rewrite !elem_of_cons, elem_of_nil. tauto. }
  destruct (replicas_converge 5 "k" (Some p2) [(1, p1); (2, p3)] None [(1, p3); (2, p1); (3, p2); (4, p1)] replica2 replica)
    as (p & st1' & st2' & H1 & H2 & Hp & Hmax & Hk1 & Hk2 & Hold).
  - exact replica2_ready.
  - exact replica_ready.
  - by vm_compute.
  - reflexivity.
  - repeat (apply Forall_cons; split; [by split|]). by apply Forall_nil.
  - discriminate.
  - repeat (apply Forall_cons; split; [by vm_compute|]). by apply Forall_nil.
  - repeat (apply Forall_cons; split; [by vm_compute|]). by apply Forall_nil.
  - intros p. unfold seen. simpl. rewrite !elem_of_cons. tauto.
  - intros p q Hp Hq. destruct (Hcases p Hp) as [->|[->| ->]], (Hcases q Hq) as [->|[->| ->]]; first [reflexivity|discriminate].
  - rewrite H1, H2. exists p. split; [exact Hk1|]. split; [exact Hk2|]. unfold state_of. cbn [fst]. apply Hold; [done|].
    specialize (Hmax p3 ltac:(right; right; left)).
    destruct (Hcases p Hp) as [->|[->| ->]]; [by vm_compute in Hmax|by vm_compute in Hmax|by vm_compute].
Defined.

End LastWriter.
