(* ===== verification/Membership.v ===== *)
(** [minidb/cluster/membership.py]: the gossip membership table and its
    failure detector.

    [NodeInfo] objects are mutable and the table's entry for the local node is
    at first the [local_node] object itself: an entry is either that shared
    object or one of its own. *)

From S2P Require Import Prelude.
From S2P Require Import PyMonad.
From S2P Require Import PyDict.
From S2P Require Import Json.
From S2P Require Import Config.
From S2P Require Import Fields.
#[local] Open Scope Z_scope.

Module NodeInfo.

Record NodeInfo := mkNode {
  node_id : string;
  host : string;
  client_port : Z;
  cluster_port : Z;
  state : NodeState;
  role : NodeRole;
  last_heartbeat : time;
  incarnation : Z;
  joined_at : time;
}.

(** [NodeInfo(node_id=..., host=..., client_port=..., cluster_port=...)] *)
Definition new (now : time) (id h : string) (cp kp : Z) : NodeInfo :=
  mkNode id h cp kp ALIVE FOLLOWER now 0 now.

Definition address (n : NodeInfo) : string := host n +:+ ":" +:+ pretty (cluster_port n).
Definition client_address (n : NodeInfo) : string := host n +:+ ":" +:+ pretty (client_port n).

Definition to_dict (n : NodeInfo) : json :=
  JObj [("node_id", JStr (node_id n)); ("host", JStr (host n));
        ("client_port", JInt (client_port n)); ("cluster_port", JInt (cluster_port n));
        ("state", JStr (state_value (state n))); ("role", JStr (role_value (role n)));
        ("last_heartbeat", JFloat (last_heartbeat n)); ("incarnation", JInt (incarnation n))]%string.

Definition from_dict (now : time) (d : json) : res NodeInfo :=
  (id ←! subscript d "node_id"; h ←! subscript d "host";
   cp ←! subscript d "client_port"; kp ←! subscript d "cluster_port";
   st ←! (s ←! get_default d "state" (JStr "ALIVE"); as_enum s);
   ro ←! (r ←! get_default d "role" (JStr "FOLLOWER"); as_enum r);
   hb ←! get_default d "last_heartbeat" (JFloat now);
   inc ←! get_default d "incarnation" (JInt 0);
   id ←! as_str id; h ←! as_str h; cp ←! as_int cp; kp ←! as_int kp;
   hb ←! as_time hb; inc ←! as_int inc;
   Ok (mkNode id h cp kp st ro hb inc now))%py.

Definition set_state (n : NodeInfo) s :=
  mkNode (node_id n) (host n) (client_port n) (cluster_port n) s (role n) (last_heartbeat n)
    (incarnation n) (joined_at n).
Definition set_role (n : NodeInfo) r :=
  mkNode (node_id n) (host n) (client_port n) (cluster_port n) (state n) r (last_heartbeat n)
    (incarnation n) (joined_at n).
Definition set_heartbeat (n : NodeInfo) t :=
  mkNode (node_id n) (host n) (client_port n) (cluster_port n) (state n) (role n) t
    (incarnation n) (joined_at n).
Definition set_incarnation (n : NodeInfo) i :=
  mkNode (node_id n) (host n) (client_port n) (cluster_port n) (state n) (role n)
    (last_heartbeat n) i (joined_at n).

(** What gossip carries of a node: everything but the time it joined. *)
Lemma from_dict_to_dict_node now n : from_dict now (to_dict n) =
  Ok (mkNode (node_id n) (host n) (client_port n) (cluster_port n) (state n) (role n)
        (last_heartbeat n) (incarnation n) now).
Proof. by destruct n as [? ? ? ? [] [] ? ? ?]. Qed.

End NodeInfo.
Abbreviation NodeInfo := NodeInfo.NodeInfo.

(** The callbacks of the manager. *)
Inductive member_event :=
  | OnJoin (n : NodeInfo)
  | OnLeave (n : NodeInfo)
  | OnSuspect (n : NodeInfo)
  | SendGossip (target : NodeInfo) (members : list json).

Module Membership.
Import NodeInfo.

(** An entry of the table: the shared local object, or another one. *)
Inductive slot := Local | Other (n : NodeInfo).

Record MembershipManager := mkMembers {
  local_node : NodeInfo;
  failure_timeout : time;
  dead_timeout : time;
  _members : dict string slot;
}.

Abbreviation proc := (prog MembershipManager member_event).

Definition init (local : NodeInfo) (ft dt : time) : MembershipManager :=
  mkMembers local ft dt [(node_id local, Local)].

Definition deref (m : MembershipManager) (s : slot) : NodeInfo :=
  match s with Local => local_node m | Other n => n end.

Definition with_members (m : MembershipManager) d :=
  mkMembers (local_node m) (failure_timeout m) (dead_timeout m) d.
Definition with_local (m : MembershipManager) n :=
  mkMembers n (failure_timeout m) (dead_timeout m) (_members m).

(** [self._members.get(node_id)] *)
Definition get_node (m : MembershipManager) (id : string) : option NodeInfo :=
  deref m <$> dict_get (_members m) id.

(** Mutating the object that an entry refers to. *)
Definition mutate (id : string) (f : NodeInfo → NodeInfo) (m : MembershipManager) : MembershipManager :=
  match dict_get (_members m) id with
  | Some Local => with_local m (f (local_node m))
  | Some (Other n) => with_members m (dict_set id (Other (f n)) (_members m))
  | None => m
  end.

Definition get_all_nodes (m : MembershipManager) : list NodeInfo :=
  (λ p, deref m p.2) <$> _members m.

Definition get_alive_nodes (m : MembershipManager) : list NodeInfo :=
  base.filter (λ n, state n = ALIVE) (get_all_nodes m).

Definition node_count (m : MembershipManager) : nat := length (get_alive_nodes m).

Definition get_members_data (m : MembershipManager) : list json := to_dict <$> get_all_nodes m.

Definition get_leader (m : MembershipManager) : option NodeInfo :=
  head (base.filter (λ n, role n = LEADER ∧ state n = ALIVE) (get_all_nodes m)).

(** ** The failure detector *)

(** One entry of [_check_node_health]'s loop. *)
Definition check_one (now : time) (id : string) : proc () :=
  m ← get_state;
  match get_node m id with
  | None => mret ()
  | Some n =>
      if decide (id = node_id (local_node m))
      then modify (mutate id (λ n, set_heartbeat n now))
      else
        match state n with
        | ALIVE =>
            if failure_timeout m <? now - last_heartbeat n then
              modify (mutate id (λ n, set_state n SUSPECT));;
              emit (OnSuspect (set_state n SUSPECT))
            else mret ()
        | SUSPECT =>
            if dead_timeout m <? now - last_heartbeat n then
              modify (mutate id (λ n, set_state n DEAD));;
              emit (OnLeave (set_state n DEAD))
            else mret ()
        | DEAD => mret ()
        end
  end.

Definition _check_node_health (now : time) : proc () :=
  m ← get_state;
  for_each (check_one now) (dict_keys (_members m)).

(** [sample] is the random choice of at most three targets. *)
Definition _send_gossip_to_random_nodes (sample : list NodeInfo → nat → list NodeInfo) : proc () :=
  m ← get_state;
  let alive := base.filter (λ n, node_id n ≠ node_id (local_node m) ∧ state n ≠ DEAD)
                 (get_all_nodes m) in
  if decide (alive = []) then mret ()
  else
    for_each (λ t, emit (SendGossip t (get_members_data m)))
      (sample alive (Nat.min 3 (length alive))).

(** One round of [_gossip_loop]. *)
Definition gossip_round (now : time) (sample : list NodeInfo → nat → list NodeInfo) : proc () :=
  _check_node_health now;; _send_gossip_to_random_nodes sample.

(** ** Changes *)

Definition add_node (n : NodeInfo) : proc bool :=
  m ← get_state;
  match get_node m (node_id n) with
  | Some existing =>
      if incarnation existing <? incarnation n
      then modify (λ m, with_members m (dict_set (node_id n) (Other n) (_members m)));; mret true
      else mret false
  | None =>
      modify (λ m, with_members m (dict_set (node_id n) (Other n) (_members m)));;
      emit (OnJoin n);;
      mret true
  end.

Definition remove_node (id : string) : proc () :=
  m ← get_state;
  match get_node m id with
  | Some n =>
      if decide (id = node_id (local_node m)) then mret ()
      else
        modify (λ m, with_members m (dict_del id (_members m)));;
        emit (OnLeave n)
  | None => mret ()
  end.

Definition update_heartbeat (now : time) (id : string) : proc () :=
  modify (mutate id (λ n,
    let n := set_heartbeat n now in
    if decide (state n = SUSPECT) then set_state n ALIVE else n)).

(** One member of a gossip message. *)
Definition gossip_one (now : time) (data : json) : proc () :=
  id ← lift (res_bind (subscript data "node_id") as_str);
  m ← get_state;
  if decide (id = node_id (local_node m)) then mret ()
  else
    incoming ← lift (from_dict now data);
    match get_node m id with
    | None =>
        modify (λ m, with_members m (dict_set id (Other incoming) (_members m)));;
        emit (OnJoin incoming)
    | Some existing =>
        if (incarnation existing <? incarnation incoming)
           || (last_heartbeat existing <? last_heartbeat incoming) then
          modify (λ m, with_members m (dict_set id (Other incoming) (_members m)));;
          if decide (state existing = DEAD ∧ state incoming = ALIVE)
          then emit (OnJoin incoming) else mret ()
        else mret ()
    end.

Definition handle_gossip (now : time) (members_data : list json) : proc () :=
  for_each (gossip_one now) members_data.

Definition set_node_role (id : string) (r : NodeRole) : proc () :=
  modify (mutate id (λ n, set_role n r)).

Definition increment_incarnation : proc () :=
  modify (λ m, with_local m (set_incarnation (local_node m) (incarnation (local_node m) + 1))).

End Membership.
