(* ===== verification/MembershipFacts.v ===== *)
(** The membership table: its invariant under every operation, the failure
    detector's state machine, and what gossip merges. *)

From S2P Require Import Prelude.
From S2P Require Import PyMonad.
From S2P Require Import PyDict.
From S2P Require Import Json.
From S2P Require Import Config.
From S2P Require Import Fields.
From S2P Require Import Membership.
#[local] Open Scope Z_scope.

Module MembershipF.
Import NodeInfo Membership.

Definition local_id (m : MembershipManager) : string := node_id (local_node m).

(** The table has one entry per node, under its own name; the local node has
    an entry, and only that one can be the shared object. *)
Record wf (m : MembershipManager) : Prop := {
  wf_keys : dict_wf (_members m);
  wf_local : is_Some (dict_get (_members m) (local_id m));
  wf_name : ∀ k s, dict_get (_members m) k = Some s → node_id (deref m s) = k;
}.

Lemma get_node_name m k n : wf m → get_node m k = Some n → node_id n = k.
Proof.
  intros Hwf. unfold get_node. destruct (dict_get (_members m) k) as [s|] eqn:E; [|done].
  intros [= <-]. by eapply wf_name.
Qed.

(** ** Mutation through an entry *)

Lemma get_node_set m k n k' : wf m → k ≠ local_id m →
  get_node (with_members m (dict_set k (Other n) (_members m))) k' =
    if decide (k = k') then Some n else get_node m k'.
Proof.
  intros _ _. unfold get_node. simpl. case_decide as Hk.
  - subst. by rewrite dict_get_set_eq.
  - rewrite dict_get_set_ne by done. by destruct (dict_get _ _) as [[]|].
Qed.

Lemma set_wf m k n : wf m → node_id n = k →
  wf (with_members m (dict_set k (Other n) (_members m))).
Proof.
  intros [Hk Hl Hn] Hid. split; simpl.
  - by apply dict_wf_set.
  - unfold local_id in *. simpl. destruct (decide (k = node_id (local_node m))) as [->|Hne].
    + rewrite dict_get_set_eq. by eexists.
    + by rewrite dict_get_set_ne.
  - intros k' s. destruct (decide (k = k')) as [->|Hne].
    + rewrite dict_get_set_eq. by intros [= <-].
    + rewrite dict_get_set_ne by done. intros Hs. specialize (Hn _ _ Hs).
      by destruct s.
Qed.

(** What a mutation must keep: the name of the node. *)
Definition keeps_name (f : NodeInfo → NodeInfo) : Prop := ∀ n, node_id (f n) = node_id n.

Lemma mutate_local m k f : keeps_name f → local_id (mutate k f m) = local_id m.
Proof.
  intros Hf. unfold mutate, local_id. destruct (dict_get _ _) as [[|n]|]; simpl; [apply Hf|done|done].
Qed.

Lemma mutate_params m k f : failure_timeout (mutate k f m) = failure_timeout m ∧
  dead_timeout (mutate k f m) = dead_timeout m.
Proof. unfold mutate. by destruct (dict_get _ _) as [[|n]|]. Qed.

Lemma mutate_get m k f k' : wf m → keeps_name f →
  get_node (mutate k f m) k' = if decide (k = k') then f <$> get_node m k else get_node m k'.
Proof.
  intros [Hk Hl Hn] Hf. unfold mutate, get_node.
  destruct (dict_get (_members m) k) as [[|n]|] eqn:E; simpl.
  - case_decide as Hkk; [subst; by rewrite E|].
    destruct (dict_get (_members m) k') as [[|n']|] eqn:E'; [|done|done].
    pose proof (Hn _ _ E). pose proof (Hn _ _ E'). simpl in *. congruence.
  - case_decide as Hkk; [subst; by rewrite dict_get_set_eq|].
    rewrite dict_get_set_ne by done. by destruct (dict_get _ _) as [[]|].
  - case_decide as Hkk; [|done]. subst. by rewrite E.
Qed.

Lemma mutate_wf m k f : wf m → keeps_name f → wf (mutate k f m).
Proof.
  intros Hwf Hf. destruct Hwf as [Hk Hl Hn]. unfold mutate.
  destruct (dict_get (_members m) k) as [[|n]|] eqn:E; [| |done].
  - split; unfold local_id in *; simpl; [done|by rewrite Hf|].
    intros k' [|n'] Hs; simpl; [rewrite Hf|]; apply (Hn _ _ Hs).
  - apply set_wf; [done|]. rewrite Hf. apply (Hn _ _ E).
Qed.

(** ** The failure detector *)

(** The state a round gives a node. *)
Definition health (now : time) (m : MembershipManager) (n : NodeInfo) : NodeInfo :=
  if decide (node_id n = local_id m) then set_heartbeat n now
  else match state n with
       | ALIVE => if failure_timeout m <? now - last_heartbeat n then set_state n SUSPECT else n
       | SUSPECT => if dead_timeout m <? now - last_heartbeat n then set_state n DEAD else n
       | DEAD => n
       end.

(** The announcement of a round for a node. *)
Definition announces (now : time) (m : MembershipManager) (n : NodeInfo) : list member_event :=
  let n' := health now m n in
  if decide (state n' = state n) then []
  else match state n' with SUSPECT => [OnSuspect n'] | _ => [OnLeave n'] end.

Lemma health_name now m n : node_id (health now m n) = node_id n.
Proof. unfold health. by repeat case_match. Qed.

Lemma check_one_spec now m k n : wf m → get_node m k = Some n →
  ∃ m', check_one now k m = (m', announces now m n, Ok tt) ∧ wf m' ∧
    local_id m' = local_id m ∧ failure_timeout m' = failure_timeout m ∧
    dead_timeout m' = dead_timeout m ∧
    ∀ k', get_node m' k' = if decide (k = k') then Some (health now m n) else get_node m k'.
Proof.
  intros Hwf Hget. pose proof (get_node_name m k n Hwf Hget) as Hid.
  assert (Hmut : ∀ f, keeps_name f → wf (mutate k f m) ∧ local_id (mutate k f m) = local_id m ∧
    failure_timeout (mutate k f m) = failure_timeout m ∧
    dead_timeout (mutate k f m) = dead_timeout m ∧
    ∀ k', get_node (mutate k f m) k' = if decide (k = k') then Some (f n) else get_node m k').
  { intros f Hf. pose proof (mutate_params m k f) as [Hp1 Hp2].
    split_and!; [by apply mutate_wf|by apply mutate_local|done|done|].
    intros k'. rewrite mutate_get by done. case_decide; [|done]. by rewrite Hget. }
  assert (Hsame : wf m ∧ local_id m = local_id m ∧ failure_timeout m = failure_timeout m ∧
    dead_timeout m = dead_timeout m ∧
    ∀ k', get_node m k' = if decide (k = k') then Some n else get_node m k').
  { split_and!; [done..|]. intros k'. case_decide; [by subst|done]. }
  unfold check_one. rewrite get_bind, Hget. unfold announces, health. rewrite Hid.
  change (node_id (local_node m)) with (local_id m).
  destruct (decide (k = local_id m)).
  { eexists. split; [|apply (Hmut (λ n, set_heartbeat n now)); by intros ?]. by rewrite decide_True. }
  destruct (state n) eqn:Es.
  - destruct (failure_timeout m <? now - last_heartbeat n).
    + eexists. split; [|apply (Hmut (λ n, set_state n SUSPECT)); by intros ?]. done.
    + eexists. split; [|exact Hsame]. by rewrite decide_True.
  - destruct (dead_timeout m <? now - last_heartbeat n).
    + eexists. split; [|apply (Hmut (λ n, set_state n DEAD)); by intros ?]. done.
    + eexists. split; [|exact Hsame]. by rewrite decide_True.
  - eexists. split; [|exact Hsame]. by rewrite decide_True.
Qed.

Lemma health_ext now m m' n : local_id m' = local_id m → failure_timeout m' = failure_timeout m →
  dead_timeout m' = dead_timeout m → health now m' n = health now m n.
Proof. unfold health. by intros -> -> ->. Qed.

Lemma check_all_spec now m0 ks m : NoDup ks → wf m → local_id m = local_id m0 →
  failure_timeout m = failure_timeout m0 → dead_timeout m = dead_timeout m0 →
  (∀ k, k ∈ ks → is_Some (get_node m k) ∧ get_node m k = get_node m0 k) →
  ∃ m', for_each (check_one now) ks m =
      (m', ks ≫= λ k, from_option (announces now m0) [] (get_node m0 k), Ok tt) ∧ wf m' ∧
    local_id m' = local_id m0 ∧
    ∀ k, get_node m' k = if decide (k ∈ ks) then health now m0 <$> get_node m0 k else get_node m k.
Proof.
  intros Hnd. revert m. induction Hnd as [|k ks Hk Hnd IH]; intros m Hwf Hl Hf Hd Hin.
  { exists m. split_and!; [done..|]. intros k. by rewrite decide_False by apply not_elem_of_nil. }
  destruct (Hin k ltac:(by left)) as [[n Hn] Hsame].
  destruct (check_one_spec now m k n Hwf Hn) as (m1 & H1 & Hwf1 & Hl1 & Hf1 & Hd1 & Hg1).
  destruct (IH m1) as (m2 & H2 & Hwf2 & Hl2 & Hg2); [done|congruence..| |].
  { intros k' Hk'. rewrite Hg1. destruct (decide (k = k')) as [<-|]; [done|].
    apply Hin. by right. }
  exists m2. split_and!; [|done|done|].
  - cbn [for_each]. erewrite bind_ok; [|exact H1|exact H2]. simpl. rewrite <-Hsame, Hn. simpl.
    unfold announces. by rewrite (health_ext now m0 m n).
  - intros k'. rewrite Hg2, Hg1. destruct (decide (k = k')) as [<-|Hne].
    + rewrite decide_False by done. rewrite decide_True by by left.
      rewrite <-Hsame, Hn. simpl. by rewrite (health_ext now m0 m n).
    + destruct (decide (k' ∈ ks)); [by rewrite decide_True by by right|].
      rewrite decide_False; [done|]. by intros [->|?]%elem_of_cons.
Qed.

(** A round of the failure detector gives every node exactly the
    next state of its timer, ALIVE to SUSPECT after the failure timeout and
    SUSPECT to DEAD after the dead timeout, never two at once and never for
    the local node, whose heartbeat it renews; each change is announced once
    and nothing else is. *)
Theorem health_round now m :
  wf m →
  let r := _check_node_health now m in
  result_of r = Ok tt ∧ wf (state_of r) ∧ local_id (state_of r) = local_id m ∧
  (∀ k, get_node (state_of r) k = health now m <$> get_node m k) ∧
  events_of r = get_all_nodes m ≫= announces now m.
Proof.
  intros Hwf r. unfold r, _check_node_health. rewrite get_bind.
  destruct (check_all_spec now m (dict_keys (_members m)) m) as (m' & Hr & Hwf' & Hl & Hg);
    [apply Hwf|done|done|done|done| |].
  { intros k Hk. split; [|done]. unfold get_node. apply fmap_is_Some. by apply dict_get_is_Some. }
  rewrite Hr. unfold result_of, state_of, events_of. simpl. split_and!; [done|done|done| |].
  - intros k. rewrite Hg. case_decide as Hin; [done|]. unfold get_node.
    apply dict_get_None in Hin. by rewrite Hin.
  - unfold get_all_nodes, dict_keys.
    assert (Hin : ∀ p, p ∈ _members m → dict_get (_members m) p.1 = Some p.2).
    { intros [k s] Hp. apply dict_in_get; [apply Hwf|done]. }
    revert Hin. generalize (_members m) at 1 3 4. intros l.
    induction l as [|[k s] l IH]; intros Hin; [done|]. simpl.
    f_equal; [|apply IH; intros p Hp; apply Hin; by right].
    pose proof (Hin (k, s) ltac:(by left)) as Hk. simpl in Hk. unfold get_node. by rewrite Hk.
Qed.

(** ** Every operation *)

Inductive op :=
  | OHealth (now : time)
  | OAdd (n : NodeInfo)
  | ORemove (id : string)
  | OHeartbeat (now : time) (id : string)
  | OGossip (now : time) (members : list json)
  | ORole (id : string) (r : NodeRole)
  | OIncarnation.

Definition run_op (o : op) : proc () :=
  match o with
  | OHealth now => _check_node_health now
  | OAdd n => _ ← add_node n; mret ()
  | ORemove id => remove_node id
  | OHeartbeat now id => update_heartbeat now id
  | OGossip now ds => handle_gossip now ds
  | ORole id r => set_node_role id r
  | OIncarnation => increment_incarnation
  end.

(** The states after operations that may raise. *)
Definition run_ops (ops : list op) (m : MembershipManager) : MembershipManager :=
  fold_left (λ m o, state_of (run_op o m)) ops m.

(** The invariant and the local name are kept. *)
Definition stays_wf (m m' : MembershipManager) : Prop := wf m → wf m' ∧ local_id m' = local_id m.

#[global] Instance stays_wf_preorder : PreOrder stays_wf.
Proof.
  split; [by intros m|]. intros m1 m2 m3 H1 H2 Hwf. destruct (H1 Hwf) as [Hwf2 ?].
  destruct (H2 Hwf2). split; congruence.
Qed.

Abbreviation keeps := (preserves stays_wf).

Lemma keeps_state {A} (f : MembershipManager → proc A) :
  (∀ m, wf m → wf (state_of (f m m)) ∧ local_id (state_of (f m m)) = local_id m) →
  keeps (get_state ≫= f).
Proof. intros Hf m Hwf. rewrite get_bind. by apply Hf. Qed.

Lemma keeps_mutate id f : keeps_name f → keeps (modify (mutate id f) : proc ()).
Proof. intros Hf m Hwf. split; [by apply mutate_wf|by apply mutate_local]. Qed.

Lemma keeps_health now : keeps (_check_node_health now).
Proof.
  intros m Hwf. unfold _check_node_health. rewrite get_bind.
  destruct (check_all_spec now m (dict_keys (_members m)) m) as (m' & Hr & Hwf' & Hl & Hg);
    [apply Hwf|done|done|done|done| |by rewrite Hr].
  intros k Hk. split; [|done]. unfold get_node. apply fmap_is_Some. by apply dict_get_is_Some.
Qed.

Lemma keeps_add n : keeps (add_node n).
Proof.
  apply keeps_state. intros m Hwf. pose proof (set_wf m (node_id n) n Hwf eq_refl).
  destruct (get_node m (node_id n)) as [e|]; [|done]. by destruct (_ <? _).
Qed.

Lemma keeps_remove id : keeps (remove_node id).
Proof.
  apply keeps_state. intros m Hwf. destruct (get_node m id) as [n|]; [|done].
  case_decide as Hid; [done|]. unfold mbind, prog_bind, modify, emit, state_of. simpl.
  split; [|done]. destruct Hwf as [Hk Hl Hn]. split; simpl.
  - by apply dict_wf_del.
  - unfold local_id in *. simpl. rewrite dict_get_del_ne; done.
  - intros k s. destruct (decide (id = k)) as [<-|Hne]; [by rewrite dict_get_del_eq|].
    rewrite dict_get_del_ne by done. intros Hs. specialize (Hn _ _ Hs). by destruct s.
Qed.

Lemma from_dict_name now d n : from_dict now d = Ok n →
  res_bind (subscript d "node_id") as_str = Ok (node_id n).
Proof.
  unfold from_dict, res_bind. intros H.
  repeat (case_match; try discriminate). by simplify_eq.
Qed.

Lemma keeps_gossip_one now d : keeps (gossip_one now d).
Proof.
  intros m Hwf. unfold gossip_one.
  destruct (res_bind (subscript d "node_id") as_str) as [id|x] eqn:Eid; [|by split].
  rewrite lift_ok_bind, get_bind. case_decide as Hid; [by split|].
  destruct (from_dict now d) as [n|x] eqn:Ed; [|by split]. rewrite lift_ok_bind.
  assert (node_id n = id) as Hn.
  { apply from_dict_name in Ed. congruence. }
  pose proof (set_wf m id n Hwf Hn) as Hset.
  destruct (get_node m id) as [e|]; [|by rewrite modify_bind].
  destruct (_ || _); [|by split]. rewrite modify_bind. case_decide; by split.
Qed.

Lemma keeps_with_local f : keeps_name f → keeps (modify (λ m, with_local m (f (local_node m))) : proc ()).
Proof.
  intros Hf m [Hk Hl Hn]. unfold modify, state_of, local_id in *. simpl. rewrite Hf.
  split; [|done]. split; unfold local_id; simpl; rewrite ?Hf; [done|done|].
  intros k [|n] Hs; simpl; [rewrite Hf|]; apply (Hn _ _ Hs).
Qed.

Lemma keeps_incarnation : keeps increment_incarnation.
Proof. by apply (keeps_with_local (λ n, set_incarnation n (incarnation n + 1))). Qed.

Lemma keeps_run_op o : keeps (run_op o).
Proof.
  destruct o; cbn [run_op].
  - apply keeps_health.
  - apply preserves_bind; [apply keeps_add|intros _; by apply preserves_pure].
  - apply keeps_remove.
  - apply keeps_mutate. intros x. cbn beta zeta. by case_decide.
  - apply preserves_for_each. intros d. apply keeps_gossip_one.
  - by apply keeps_mutate.
  - apply keeps_incarnation.
Qed.

Lemma init_members_wf n ft dt : wf (init n ft dt).
Proof.
  split; unfold local_id; simpl.
  - apply NoDup_singleton.
  - rewrite decide_True by done. by eexists.
  - intros k s. case_decide as Hk; [|done]. subst. by intros [= <-].
Qed.

Lemma all_nodes_distinct m : wf m → NoDup (node_id <$> get_all_nodes m).
Proof.
  intros Hwf. unfold get_all_nodes. rewrite <-list_fmap_compose.
  assert ((node_id ∘ (λ p, deref m p.2)) <$> _members m = dict_keys (_members m)) as ->;
    [|apply Hwf].
  unfold dict_keys. apply list_fmap_ext. intros i [k s] Hi. simpl. apply (wf_name m Hwf).
  apply dict_in_get; [apply Hwf|]. by eapply list_elem_of_lookup_2.
Qed.

(** Claim C28. Whatever operations run, malformed gossip that raises half way
    included, the table keeps one entry per node under the node's own name and
    never loses the local node's entry or renames it. *)
Theorem membership_invariant ops n ft dt :
  let m := run_ops ops (init n ft dt) in
  wf m ∧ local_id m = node_id n ∧ is_Some (get_node m (node_id n)) ∧
  NoDup (node_id <$> get_all_nodes m).
Proof.
  intros m. assert (H : wf m ∧ local_id m = node_id n).
  { unfold m. assert (Hi : wf (init n ft dt) ∧ local_id (init n ft dt) = node_id n)
      by (split; [apply init_members_wf|done]).
    revert Hi. generalize (init n ft dt). unfold run_ops.
    induction ops as [|o ops IH]; intros m0 [Hwf Hl]; [done|]. simpl. apply IH.
    destruct (keeps_run_op o m0 Hwf). split; congruence. }
  destruct H as [Hwf Hl]. split_and!; [done|done| |].
  - unfold get_node. apply fmap_is_Some. rewrite <-Hl. apply Hwf.
  - by apply all_nodes_distinct.
Qed.

(** ** Gossip *)

Lemma gossip_one_spec now m n : wf m → node_id n ≠ local_id m →
  let n' := mkNode (node_id n) (host n) (client_port n) (cluster_port n) (state n) (role n)
              (last_heartbeat n) (incarnation n) now in
  let m' := state_of (gossip_one now (to_dict n) m) in
  result_of (gossip_one now (to_dict n) m) = Ok tt ∧ wf m' ∧ local_id m' = local_id m ∧
  ∀ k, get_node m' k =
    if decide (node_id n = k) then
      match get_node m k with
      | Some e => if (incarnation e <? incarnation n) || (last_heartbeat e <? last_heartbeat n)
                  then Some n' else Some e
      | None => Some n'
      end
    else get_node m k.
Proof.
  intros Hwf Hne n' m'.
  pose proof (keeps_gossip_one now (to_dict n) m Hwf) as [Hwf' Hl']. fold m' in Hwf', Hl'.
  assert (Hset : ∀ k, get_node (with_members m (dict_set (node_id n) (Other n') (_members m))) k =
    if decide (node_id n = k) then Some n' else get_node m k) by (intros k; by apply get_node_set).
  assert (Heq : result_of (gossip_one now (to_dict n) m) = Ok tt ∧
    m' = match get_node m (node_id n) with
         | Some e => if (incarnation e <? incarnation n) || (last_heartbeat e <? last_heartbeat n)
                     then with_members m (dict_set (node_id n) (Other n') (_members m)) else m
         | None => with_members m (dict_set (node_id n) (Other n') (_members m))
         end).
  { unfold m', gossip_one.
    change (res_bind (subscript (to_dict n) "node_id") as_str) with (Ok (node_id n)).
    rewrite from_dict_to_dict_node, !lift_ok_bind, !get_bind, !decide_False by done.
    rewrite !lift_ok_bind. fold n'.
    destruct (get_node m (node_id n)) as [e|]; [|by rewrite modify_bind].
    cbn [incarnation last_heartbeat n'].
    destruct (_ || _); [|done]. rewrite modify_bind. by case_decide. }
  destruct Heq as [Hr Hm]. split_and!; [done|done|done|]. intros k. rewrite Hm. clear Hm.
  destruct (decide (node_id n = k)) as [<-|Hk].
  - destruct (get_node m (node_id n)) as [e|] eqn:E.
    + destruct (_ || _); [|done]. rewrite Hset. by rewrite decide_True.
    + rewrite Hset. by rewrite decide_True.
  - destruct (get_node m (node_id n)) as [e|]; [destruct (_ || _); [|done]|];
      rewrite Hset; by rewrite decide_False.
Qed.

Lemma gossip_cons now n ds m : result_of (gossip_one now (to_dict n) m) = Ok tt →
  state_of (handle_gossip now (to_dict n :: ds) m) =
  state_of (handle_gossip now ds (state_of (gossip_one now (to_dict n) m))).
Proof.
  unfold handle_gossip, state_of, result_of. cbn [for_each]. unfold mbind, prog_bind.
  destruct (gossip_one now (to_dict n) m) as [[m1 es] r]. cbn [fst snd]. intros ->.
  by destruct (for_each _ _ _) as [[? ?] ?].
Qed.

(** The local node's own record is passed over. *)
Lemma gossip_local now m n : node_id n = local_id m → gossip_one now (to_dict n) m = (m, [], Ok tt).
Proof.
  intros Hn. unfold gossip_one. change (res_bind (subscript (to_dict n) "node_id") as_str) with (Ok (node_id n)).
  rewrite lift_ok_bind, get_bind. by rewrite decide_True.
Qed.

(** A record as the receiver keeps it. *)
Definition stamp (now : time) (n : NodeInfo) : NodeInfo :=
  mkNode (node_id n) (host n) (client_port n) (cluster_port n) (state n) (role n)
    (last_heartbeat n) (incarnation n) now.

(** What some records leave of one node: the newest heartbeat of what was held
    before and of the records, kept as it came. *)
Definition newest_of (k : string) (before : option NodeInfo) (ns : list NodeInfo) (r : option NodeInfo) : Prop :=
  (r = None → before = None ∧ ∀ n, n ∈ ns → node_id n ≠ k) ∧
  ∀ e, r = Some e →
    (before = Some e ∨ ∃ n t, n ∈ ns ∧ node_id n = k ∧ e = stamp t n) ∧
    (∀ e0, before = Some e0 → last_heartbeat e0 <= last_heartbeat e) ∧
    (∀ n, n ∈ ns → node_id n = k → last_heartbeat n <= last_heartbeat e).

Lemma newest_of_app k o1 ns1 o2 ns2 o3 : newest_of k o1 ns1 o2 → newest_of k o2 ns2 o3 → newest_of k o1 (ns1 ++ ns2) o3.
Proof.
  intros [N1 S1] [N2 S2]. split.
  - intros H3. destruct (N2 H3) as [H2 Hn2]. destruct (N1 H2) as [H1 Hn1]. split; [done|].
    intros n [?|?]%elem_of_app; auto.
  - intros e H3. destruct (S2 e H3) as (Hor & Hmax & Hns). split; [|split].
    + destruct Hor as [H2|(n & t & Hn & Hid & ->)]; [|right; exists n, t; split_and!; [apply elem_of_app; by right|done..]].
      destruct (S1 e H2) as ([H1|(n & t & Hn & Hid & ->)] & _); [by left|].
      right. exists n, t. split_and!; [apply elem_of_app; by left|done..].
    + intros e0 H1. destruct o2 as [e2|]; [|by destruct (N1 eq_refl); congruence].
      destruct (S1 e2 eq_refl) as (_ & Hm & _). specialize (Hm e0 H1). specialize (Hmax e2 eq_refl). lia.
    + intros n [Hn|Hn]%elem_of_app Hid; [|by apply Hns].
      destruct o2 as [e2|]; [|by destruct (N1 eq_refl) as [_ H0]; destruct (H0 n Hn)].
      destruct (S1 e2 eq_refl) as (_ & _ & Hm). specialize (Hm n Hn Hid). specialize (Hmax e2 eq_refl). lia.
Qed.

(** One message, when all the records of the node have one incarnation. *)
Lemma gossip_newest now i k ns m : wf m → k ≠ local_id m →
  (∀ n, n ∈ ns → node_id n = k → incarnation n = i) →
  (∀ e, get_node m k = Some e → incarnation e = i) →
  let m' := state_of (handle_gossip now (to_dict <$> ns) m) in
  wf m' ∧ local_id m' = local_id m ∧ newest_of k (get_node m k) ns (get_node m' k).
Proof.
  cbv zeta. revert m. induction ns as [|n ns IH]; intros m Hwf Hk Hi He.
  { split; [exact Hwf|]. split; [done|]. split; [intros Hr; split; [exact Hr|set_solver]|]. intros e Hr. change (get_node m k = Some e) in Hr.
    split; [by left|]. split; [intros e0 He0; simplify_eq; lia|set_solver]. }
  rewrite fmap_cons.
  assert (Hstep : result_of (gossip_one now (to_dict n) m) = Ok tt ∧
    let m1 := state_of (gossip_one now (to_dict n) m) in wf m1 ∧ local_id m1 = local_id m ∧
    get_node m1 k = if decide (node_id n = k) then
      match get_node m k with
      | Some e => if last_heartbeat e <? last_heartbeat n then Some (stamp now n) else Some e
      | None => Some (stamp now n)
      end else get_node m k).
  { destruct (decide (node_id n = local_id m)) as [Hl|Hl].
    - rewrite (gossip_local now m n Hl). split; [done|]. cbn. rewrite decide_False by congruence. done.
    - destruct (gossip_one_spec now m n Hwf Hl) as (Hr & Hw & Hl' & Hg). split; [done|].
      split; [done|]. split; [done|]. rewrite Hg. case_decide as Hid; [|done].
      destruct (get_node m k) as [e|] eqn:E; [|done]. 
      assert ((incarnation e <? incarnation n) = false) as ->; [|done].
      rewrite (Hi n), (He e) by (done || set_solver). apply Z.ltb_irrefl. }
  destruct Hstep as (Hr & Hw & Hl & Hg). rewrite gossip_cons by done.
  set (m1 := state_of (gossip_one now (to_dict n) m)) in *.
  destruct (IH m1) as (Hw' & Hl' & Hnone & Hsome); [done|congruence|set_solver| |].
  { intros e. rewrite Hg. case_decide as Hid; [|by apply He]. specialize (Hi n ltac:(set_solver) Hid).
    destruct (get_node m k) as [e1|] eqn:E; [destruct (_ <? _)|]; intros [= <-]; auto. }
  split; [done|]. split; [congruence|]. split.
  - intros Hn. destruct (Hnone Hn) as [H1 H2]. rewrite Hg in H1. case_decide as Hid.
    + destruct (get_node m k); [by destruct (_ <? _)|done].
    + split; [done|]. intros n' [->|Hin]%elem_of_cons; [done|auto].
  - intros e Hn. destruct (Hsome e Hn) as (Hor & Hmax & Hall). rewrite Hg in Hor, Hmax.
    case_decide as Hid; [destruct (get_node m k) as [e0|]; [destruct (Z.ltb_spec (last_heartbeat e0) (last_heartbeat n))|]|].
    1, 3: specialize (Hmax _ eq_refl); cbn in Hmax.
    3: specialize (Hmax _ eq_refl).
    all: (split; [destruct Hor as [?|(n' & t & ? & ? & ?)]; simplify_eq; first
      [by left|right; exists n, now; split_and!; [by left|done|done]|right; exists n', t; split_and!; [by right|done|done]]|]).
    all: (split; [intros e1 He1; simplify_eq; first [lia|by apply Hmax]|]).
    all: intros n' [->|Hin]%elem_of_cons Hn'; first [done|lia|by apply Hall].
Qed.

(** Gossip that arrives over time: each message with its time and its records. *)
Definition gossip_all (msgs : list (time * list NodeInfo)) (m : MembershipManager) : MembershipManager :=
  fold_left (λ m g, state_of (handle_gossip g.1 (to_dict <$> g.2) m)) msgs m.

Definition records (msgs : list (time * list NodeInfo)) : list NodeInfo := concat msgs.*2.

Lemma gossip_all_newest i k msgs m : wf m → k ≠ local_id m →
  (∀ n, n ∈ records msgs → node_id n = k → incarnation n = i) →
  (∀ e, get_node m k = Some e → incarnation e = i) →
  newest_of k (get_node m k) (records msgs) (get_node (gossip_all msgs m) k).
Proof.
  revert m. induction msgs as [|[now ns] msgs IH]; intros m Hwf Hk Hi He.
  { change (records []) with (@nil NodeInfo). split; [intros Hr; split; [exact Hr|by intros n ?%not_elem_of_nil]|].
    intros e Hr. split; [by left|].
    split; [|by intros n ?%not_elem_of_nil]. intros e0 He0. change (get_node m k = Some e) in Hr. simplify_eq. lia. }
  change (records ((now, ns) :: msgs)) with (ns ++ records msgs) in *.
  assert (Hns : ∀ n, n ∈ ns → node_id n = k → incarnation n = i) by (intros n Hn; apply Hi, elem_of_app; by left).
  destruct (gossip_newest now i k ns m Hwf Hk Hns He) as (Hwf' & Hl & Hone).
  eapply newest_of_app; [exact Hone|]. apply IH; [done|by rewrite Hl| |].
  - intros n Hn. apply Hi, elem_of_app. by right.
  - intros e Hr. destruct (proj2 Hone e Hr) as ([Hb|(n & t & Hn & Hid & ->)] & _); [by apply He|exact (Hns n Hn Hid)].
Qed.

(** Claim C29. Gossip converges within one incarnation.  Two members knew nothing
    of a third node and then received gossip, each its own sequence of messages at
    its own times.  When the same records of the node, all of one incarnation,
    were in the messages of both, in whatever order, split over whatever messages
    and however often, both know the node or neither does, and with the same
    heartbeat, the newest of all the records; and they hold the same record, apart
    from the time at which they stored it, when a heartbeat has only one. *)
Theorem gossip_converges m1 m2 msgs1 msgs2 i k
    (Hwf1 : wf m1) (Hwf2 : wf m2) (Hk1 : k ≠ local_id m1) (Hk2 : k ≠ local_id m2)
    (Hnew1 : get_node m1 k = None) (Hnew2 : get_node m2 k = None)
    (Hsame : ∀ n, node_id n = k → n ∈ records msgs1 ↔ n ∈ records msgs2)
    (Hinc : ∀ n, n ∈ records msgs1 → node_id n = k → incarnation n = i) :
  let r1 := get_node (gossip_all msgs1 m1) k in let r2 := get_node (gossip_all msgs2 m2) k in
  last_heartbeat <$> r1 = last_heartbeat <$> r2 ∧
  (is_Some r1 ↔ ∃ n, n ∈ records msgs1 ∧ node_id n = k) ∧
  (∀ e, r1 = Some e →
     (∃ n t, n ∈ records msgs1 ∧ node_id n = k ∧ e = stamp t n) ∧
     ∀ n, n ∈ records msgs1 → node_id n = k → last_heartbeat n <= last_heartbeat e) ∧
  ((∀ a b, a ∈ records msgs1 → b ∈ records msgs1 → node_id a = k → node_id b = k →
      last_heartbeat a = last_heartbeat b → a = b) →
   stamp 0 <$> r1 = stamp 0 <$> r2).
Proof.
  cbv zeta.
  destruct (gossip_all_newest i k msgs1 m1 Hwf1 Hk1 Hinc) as [N1 S1]; [by rewrite Hnew1|].
  destruct (gossip_all_newest i k msgs2 m2 Hwf2 Hk2) as [N2 S2]; [|by rewrite Hnew2|].
  { intros n Hn Hid. apply Hinc; [by apply Hsame|done]. }
  rewrite Hnew1 in S1. rewrite Hnew2 in S2.
  destruct (get_node (gossip_all msgs1 m1) k) as [e1|].
  - destruct (S1 e1 eq_refl) as ([?|(n1 & t1 & Hn1 & Hid1 & ->)] & _ & Hmax1); [done|].
    destruct (get_node (gossip_all msgs2 m2) k) as [e2|].
    + destruct (S2 e2 eq_refl) as ([?|(n2 & t2 & Hn2 & Hid2 & ->)] & _ & Hmax2); [done|].
      apply Hsame in Hn2; [|done]. pose proof (Hmax1 n2 Hn2 Hid2).
      pose proof (Hmax2 n1 ltac:(by apply Hsame)). cbn in *.
      assert (Heq : last_heartbeat n1 = last_heartbeat n2) by intuition lia. split; [by rewrite Heq|].
      split; [split; [by exists n1|by eexists]|].
      split; [intros e [= <-]; split; [by exists n1, t1|exact Hmax1]|]. intros Hone. by rewrite (Hone n1 n2).
    + destruct (N2 eq_refl) as [_ Hno]. exfalso. by apply (Hno n1); [apply Hsame|].
  - destruct (N1 eq_refl) as [_ Hno]. destruct (get_node (gossip_all msgs2 m2) k) as [e2|].
    { destruct (S2 e2 eq_refl) as ([?|(n2 & t2 & Hn2 & Hid2 & _)] & _); [done|].
      exfalso. by apply (Hno n2); [apply Hsame|]. }
    split; [done|]. split; [|done]. split; [by intros []|]. intros (n & Hn & Hid). by destruct (Hno n Hn).
Qed.

(** Gossip does not converge: of two records of a node, one with
    the newer incarnation and the other with the newer heartbeat, each replaces
    the other, so two members that receive them in different orders hold
    different records, and receiving them again swaps them again. *)
Theorem gossip_order_matters now m a b :
  wf m → node_id a = node_id b → node_id a ≠ local_id m → get_node m (node_id a) = None →
  incarnation b < incarnation a → last_heartbeat a < last_heartbeat b →
  let held ds := get_node (state_of (handle_gossip now ds m)) (node_id a) in
  incarnation <$> held [to_dict a; to_dict b] = Some (incarnation b) ∧
  incarnation <$> held [to_dict b; to_dict a] = Some (incarnation a) ∧
  incarnation <$> held [to_dict a; to_dict b; to_dict a] = Some (incarnation a).
Proof.
  intros Hwf Hid Hne Hnone Hinc Hhb held.
  assert (Hstep : ∀ m n ds, wf m → node_id n ≠ local_id m →
    state_of (handle_gossip now (to_dict n :: ds) m) =
    state_of (handle_gossip now ds (state_of (gossip_one now (to_dict n) m)))).
  { intros m0 n ds Hwf0 Hn. by apply gossip_cons, gossip_one_spec. }
  assert (Hone : ∀ m n, wf m → node_id n ≠ local_id m →
    let m' := state_of (gossip_one now (to_dict n) m) in
    wf m' ∧ local_id m' = local_id m ∧ (∀ k, node_id n = k → get_node m' k =
      match get_node m k with
      | Some e => if (incarnation e <? incarnation n) || (last_heartbeat e <? last_heartbeat n)
                  then Some (mkNode (node_id n) (host n) (client_port n) (cluster_port n) (state n)
                    (role n) (last_heartbeat n) (incarnation n) now) else Some e
      | None => Some (mkNode (node_id n) (host n) (client_port n) (cluster_port n) (state n)
                    (role n) (last_heartbeat n) (incarnation n) now)
      end)).
  { intros m0 n Hwf0 Hn m'. destruct (gossip_one_spec now m0 n Hwf0 Hn) as (_ & H1 & H2 & H3).
    split_and!; [done|done|]. intros k Hk. unfold m'. rewrite H3. by rewrite decide_True. }
  destruct (Hone m a Hwf Hne) as (Hw1 & Hl1 & H1). rewrite Hid in Hne.
  destruct (Hone m b Hwf Hne) as (Hw2 & Hl2 & H2).
  set (ma := state_of (gossip_one now (to_dict a) m)) in *.
  set (mb := state_of (gossip_one now (to_dict b) m)) in *.
  destruct (Hone ma b Hw1 ltac:(congruence)) as (Hw3 & Hl3 & H3).
  destruct (Hone mb a Hw2 ltac:(congruence)) as (Hw4 & Hl4 & H4).
  destruct (Hone _ a Hw3 ltac:(congruence)) as (Hw5 & Hl5 & H5).
  specialize (H1 _ eq_refl). rewrite Hnone in H1. specialize (H2 _ (eq_sym Hid)). rewrite Hnone in H2.
  specialize (H3 _ (eq_sym Hid)). rewrite H1 in H3. cbn [incarnation last_heartbeat] in H3.
  specialize (H4 _ eq_refl). rewrite H2 in H4. cbn [incarnation last_heartbeat] in H4.
  specialize (H5 _ eq_refl). rewrite H3 in H5.
  destruct (Z.ltb_spec (incarnation a) (incarnation b)); [lia|].
  destruct (Z.ltb_spec (last_heartbeat a) (last_heartbeat b)); [|lia].
  destruct (Z.ltb_spec (incarnation b) (incarnation a)); [|lia]. cbn [orb] in *.
  cbn [incarnation last_heartbeat] in H5.
  destruct (Z.ltb_spec (incarnation b) (incarnation a)); [|lia]. cbn [orb] in H5.
  unfold held. rewrite !Hstep by (fold ma mb; congruence). fold ma mb.
  cbn [handle_gossip for_each]. unfold state_of at 1 3 5. simpl.
  rewrite H3, H4, H5. done.
Qed.

(** ** Joining under a taken name *)

(** A JOIN can bury the node that receives it.  Unlike gossip,
    [add_node] does not look whether the name is the local one: a joining node
    that carries the local name, a higher incarnation and the state DEAD takes
    the local entry, and the node no longer counts itself among the alive. *)
Theorem join_buries_local m x e (Hwf : wf m) (Hid : node_id x = local_id m) (Hdead : state x = DEAD)
    (Hlocal : get_node m (local_id m) = Some e) (Hinc : incarnation e < incarnation x) :
  let m' := state_of (add_node x m) in
  local_id m' = local_id m ∧ (local_id m ∉ (node_id <$> get_alive_nodes m')) ∧
  ∀ now, state_of (gossip_one now (to_dict x) m) = m.
Proof.
  cbv zeta. assert (Hrun : state_of (add_node x m) = with_members m (dict_set (local_id m) (Other x) (_members m))).
  { unfold add_node. rewrite get_bind, Hid, Hlocal. by rewrite (proj2 (Z.ltb_lt _ _) Hinc), modify_bind. }
  rewrite Hrun. set (m' := with_members _ _). assert (Hwf' : wf m') by by apply set_wf.
  split; [done|]. split.
  - intros (n & Hn & Hin)%list_elem_of_fmap. apply list_elem_of_filter in Hin as [Halive Hin].
    apply list_elem_of_fmap in Hin as ([k s] & Hs & Hks). simpl in Hs.
    assert (Hget : dict_get (_members m') k = Some s) by by apply dict_in_get; [apply Hwf'|].
    pose proof (wf_name _ Hwf' _ _ Hget) as Hname. rewrite <-Hs, <-Hn in Hname. subst k.
    unfold m' in Hget. simpl in Hget. rewrite dict_get_set_eq in Hget. injection Hget as <-. simpl in Hs. congruence.
  - intros now. unfold gossip_one. simpl. rewrite lift_ok_bind, get_bind. by rewrite decide_True.
Qed.

(** ** A small table *)

Definition self : NodeInfo := NodeInfo.new 0 "a" "h" 7001 8001.
Definition peer : NodeInfo := NodeInfo.new 0 "b" "h" 7002 8002.
Definition pair_table : MembershipManager :=
  run_ops [OAdd peer] (init self (seconds 5) (seconds 15)).

Lemma pair_table_wf : wf pair_table.
Proof.
  split; unfold local_id; simpl.
  - apply (bool_decide_unpack _). vm_compute. exact I.
  - by eexists.
  - intros k s. repeat (case_decide; [subst; by intros [= <-]|]). done.
Qed.

Lemma health_round_witness :
  result_of (_check_node_health (seconds 6) pair_table) = Ok tt ∧
  state <$> get_node (state_of (_check_node_health (seconds 6) pair_table)) "b" = Some SUSPECT ∧
  length (events_of (_check_node_health (seconds 6) pair_table)) = 1%nat.
Proof.
  destruct (health_round (seconds 6) pair_table pair_table_wf) as (H1 & _ & _ & H2 & H3).
  split; [exact H1|]. split; [rewrite H2|rewrite H3]; vm_compute; reflexivity.
Defined.

Definition newer_incarnation : NodeInfo := set_incarnation (NodeInfo.new 0 "c" "h" 7003 8003) 1.
Definition newer_heartbeat : NodeInfo := set_heartbeat (NodeInfo.new 0 "c" "h" 7003 8003) (seconds 1).

Lemma gossip_order_matters_witness :
  incarnation <$> get_node (state_of (handle_gossip 0
    [to_dict newer_incarnation; to_dict newer_heartbeat] pair_table)) "c" = Some 0 ∧
  incarnation <$> get_node (state_of (handle_gossip 0
    [to_dict newer_heartbeat; to_dict newer_incarnation] pair_table)) "c" = Some 1.
Proof.
  destruct (gossip_order_matters 0 pair_table newer_incarnation newer_heartbeat pair_table_wf eq_refl
              ltac:(vm_compute; discriminate) eq_refl ltac:(vm_compute; reflexivity)
              ltac:(vm_compute; reflexivity)) as (H1 & H2 & _).
  split; [exact H1|exact H2].
Defined.

Definition older_heartbeat : NodeInfo := set_state (NodeInfo.new 0 "c" "h" 7003 8003) SUSPECT.

Lemma gossip_converges_witness :
  let msgs1 := [(1, [older_heartbeat; newer_heartbeat])] in
  let msgs2 := [(2, [newer_heartbeat]); (3, [self; older_heartbeat]); (4, [newer_heartbeat])] in
  last_heartbeat <$> get_node (gossip_all msgs1 pair_table) "c" =
    last_heartbeat <$> get_node (gossip_all msgs2 pair_table) "c" ∧
  last_heartbeat <$> get_node (gossip_all msgs1 pair_table) "c" = Some (seconds 1).
Proof.
  cbv zeta. destruct (gossip_converges pair_table pair_table [(1, [older_heartbeat; newer_heartbeat])]
    [(2, [newer_heartbeat]); (3, [self; older_heartbeat]); (4, [newer_heartbeat])] 0 "c" pair_table_wf pair_table_wf)
    as (H & _).
  - vm_compute. discriminate.
  - vm_compute. discriminate.
  - reflexivity.
  - reflexivity.
  - intros n Hn. unfold records. simpl. rewrite !elem_of_cons, !elem_of_nil.
    assert (n ≠ self) by (intros ->; discriminate Hn). tauto.
  - intros n [->|Hn%list_elem_of_singleton]%elem_of_cons _; [reflexivity|by subst n].
  - split; [exact H|]. vm_compute. reflexivity.
Defined.

Definition impostor : NodeInfo := set_incarnation (set_state (NodeInfo.new 0 "a" "h" 7009 8009) DEAD) 1.

Lemma join_buries_local_witness :
  node_id <$> get_alive_nodes pair_table = ["a"; "b"]%string ∧
  "a"%string ∉ (node_id <$> get_alive_nodes (state_of (add_node impostor pair_table))).
Proof.
  split; [reflexivity|].
  apply (join_buries_local pair_table impostor self pair_table_wf eq_refl eq_refl eq_refl eq_refl).
Defined.

End MembershipF.
