(* ===== verification/ReadCoordinator.v ===== *)
(** [minidb/cluster/read_coordinator.py]: reads at the consistency levels, the
    choice of the newest answer and read repair.

    The callbacks are arguments: what each replica answers, and the order in
    which the remote answers arrive before the timeout.  Repairs are events,
    the statistics are the state. *)

From S2P Require Import Prelude.
From S2P Require Import PyMonad.
From S2P Require Import PyDict.
From S2P Require Import Json.
From S2P Require Import Config.
From S2P Require Import Storage.
#[local] Open Scope Z_scope.

Module Read.
Import Storage.

(** The metadata of an answer. *)
Record read_meta := mkReadMeta {
  m_updated_at : time;
  m_created_at : time;
  m_expires_at : option time;
  m_coordinator_id : string;
}.

(** [(value, version, found, metadata)] *)
Definition answer : Type := json * Z * bool * read_meta.

Record ReadResult := mkResult {
  value : json;
  version : Z;
  node_id : string;
  is_stale : bool;
  updated_at : time;
  created_at : time;
  expires_at : option time;
  coordinator_id : string;
}.

Record stats := mkStats {
  total_reads : Z;
  local_reads : Z;
  remote_reads : Z;
  quorum_reads : Z;
  leader_reads : Z;
  stale_reads_detected : Z;
  read_repairs : Z;
}.

Definition stats0 : stats := mkStats 0 0 0 0 0 0 0.
Definition add_total s := mkStats (total_reads s + 1) (local_reads s) (remote_reads s) (quorum_reads s) (leader_reads s) (stale_reads_detected s) (read_repairs s).
Definition add_local s := mkStats (total_reads s) (local_reads s + 1) (remote_reads s) (quorum_reads s) (leader_reads s) (stale_reads_detected s) (read_repairs s).
Definition add_remote s := mkStats (total_reads s) (local_reads s) (remote_reads s + 1) (quorum_reads s) (leader_reads s) (stale_reads_detected s) (read_repairs s).
Definition add_quorum s := mkStats (total_reads s) (local_reads s) (remote_reads s) (quorum_reads s + 1) (leader_reads s) (stale_reads_detected s) (read_repairs s).
Definition add_leader s := mkStats (total_reads s) (local_reads s) (remote_reads s) (quorum_reads s) (leader_reads s + 1) (stale_reads_detected s) (read_repairs s).
Definition add_stale s := mkStats (total_reads s) (local_reads s) (remote_reads s) (quorum_reads s) (leader_reads s) (stale_reads_detected s + 1) (read_repairs s).
Definition add_repair s := mkStats (total_reads s) (local_reads s) (remote_reads s) (quorum_reads s) (leader_reads s) (stale_reads_detected s) (read_repairs s + 1).

(** A call of [_repair_value]: key, value, version, target, metadata. *)
Record repair := mkRepairCall {
  rp_key : string;
  rp_value : json;
  rp_version : Z;
  rp_target : string;
  rp_meta : read_meta;
}.

Abbreviation proc := (prog stats repair).

(** [_result_sort_key] *)
Definition _result_sort_key (r : ReadResult) : order :=
  (version r, updated_at r, str_or (coordinator_id r) (node_id r)).

Definition result_ltb (a b : ReadResult) : bool :=
  order_ltb (_result_sort_key a) (_result_sort_key b).

Section coordinator.
(** The node, its replication factor, and the callbacks: [remote] is [None]
    where the callback raises; [arrival] lists the remote replicas whose
    answers come before the timeout, in their order. *)
Context (local_node_id : string) (replication_factor : Z).
Context (get_local_value : string → answer).
Context (get_remote_value : string → string → option answer).
Context (get_replicas : string → list string).
Context (get_primary_owner : string → option string).
Context (arrival : list string → list string).

Definition to_result (node : string) (a : answer) (include_missing : bool) : option ReadResult :=
  match a with
  | (v, ver, found, m) =>
      if found : bool then
        Some (mkResult v ver node false (m_updated_at m) (m_created_at m) (m_expires_at m)
                (m_coordinator_id m))
      else if include_missing then
        Some (mkResult JNull ver node true (m_updated_at m) (m_created_at m) (m_expires_at m)
                (m_coordinator_id m))
      else None
  end.

Definition _read_local (key : string) (include_missing : bool) : option ReadResult :=
  to_result local_node_id (get_local_value key) include_missing.

Definition _read_remote (key node : string) (include_missing : bool) : option ReadResult :=
  match get_remote_value key node with
  | Some a => to_result node a include_missing
  | None => None
  end.

(** The loop over the completed futures. *)
Fixpoint gather (key : string) (min_responses : Z) (nodes : list string)
    (results : list ReadResult) : list ReadResult :=
  match nodes with
  | [] => results
  | n :: nodes =>
      match _read_remote key n true with
      | Some r =>
          let results := results ++ [r] in
          if min_responses <=? Z.of_nat (length results) then results
          else gather key min_responses nodes results
      | None => gather key min_responses nodes results
      end
  end.

Definition _read_from_replicas (key : string) (replicas : list string) (min_responses : Z)
    : list ReadResult :=
  let locals := omap (λ r, if decide (r = local_node_id) then _read_local key true else None) replicas in
  let remotes := base.filter (λ r, r ≠ local_node_id) replicas in
  gather key min_responses (arrival remotes) locals.

(** The answers that hold a value. *)
Definition is_present (r : ReadResult) : bool :=
  negb ((version r =? 0) && is_none (value r)).

Definition _trigger_read_repair (key : string) (best : ReadResult) (all : list ReadResult) : proc () :=
  modify add_repair;;
  for_each (λ r,
    if result_ltb r best
    then emit (mkRepairCall key (value best) (version best) (node_id r)
                 (mkReadMeta (updated_at best) (created_at best) (expires_at best)
                    (coordinator_id best)))
    else mret ()) all.

(** The common end of [_read_quorum] and [_read_all]:
    (result, quorum_failed, key_absent). *)
Definition choose (key : string) (required : Z) (results : list ReadResult)
    : proc (option ReadResult * bool * bool) :=
  if Z.of_nat (length results) <? required then mret (None, true, false)
  else
    match base.filter (λ r, is_present r = true) results with
    | [] => mret (None, false, true)
    | p :: ps =>
        let present := p :: ps in
        let best := max_from result_ltb p ps in
        (if (1 <? Z.of_nat (length (remove_dups (version <$> present))))
            || (Z.of_nat (length present) <? Z.of_nat (length results))
         then modify add_stale;; _trigger_read_repair key best results
         else mret ());;
        mret (Some best, false, false)
    end.

Definition quorum_size : Z := Z.max 1 (replication_factor / 2 + 1).

Definition _read_quorum (key : string) : proc (option ReadResult * bool * bool) :=
  modify add_quorum;;
  choose key quorum_size (_read_from_replicas key (get_replicas key) quorum_size).

Definition _read_all (key : string) : proc (option ReadResult * bool * bool) :=
  choose key replication_factor (_read_from_replicas key (get_replicas key) replication_factor).

Definition _read_strong (key : string) : proc (option ReadResult) :=
  modify add_leader;;
  match get_primary_owner key with
  | None => mret None
  | Some owner =>
      if truthy_str owner then
        if decide (owner = local_node_id) then mret (_read_local key false)
        else mret (_read_remote key owner false)
      else mret None
  end.

(** The loop of [_read_any] over the remote replicas. *)
Fixpoint first_remote (key : string) (replicas : list string) : proc (option ReadResult) :=
  match replicas with
  | [] => mret None
  | r :: replicas =>
      if decide (r = local_node_id) then first_remote key replicas
      else match _read_remote key r false with
           | Some x => modify add_remote;; mret (Some x)
           | None => first_remote key replicas
           end
  end.

Definition _read_any (key : string) : proc (option ReadResult) :=
  let replicas := get_replicas key in
  match (if decide (local_node_id ∈ replicas) then _read_local key false else None) with
  | Some r => modify add_local;; mret (Some r)
  | None => first_remote key replicas
  end.

(** What [read] returns: value, found, and the metadata the callers use. *)
Record outcome := mkOutcome {
  o_value : json;
  o_found : bool;
  o_consistency : ConsistencyLevel;
  o_quorum_failed : bool;
  o_key_absent : bool;
  o_result : option ReadResult;
}.

Definition to_outcome (c : ConsistencyLevel) (r : option ReadResult) (failed absent : bool) : outcome :=
  match r with
  | Some x => mkOutcome (value x) true c failed absent (Some x)
  | None => mkOutcome JNull false c failed absent None
  end.

Definition read (key : string) (c : ConsistencyLevel) : proc outcome :=
  modify add_total;;
  match c with
  | STRONG =>
      r ← _read_strong key;
      mret (to_outcome c r (match r with None => true | Some _ => false end) false)
  | QUORUM => x ← _read_quorum key; let '(r, failed, absent) := x in mret (to_outcome c r failed absent)
  | ALL => x ← _read_all key; let '(r, failed, absent) := x in mret (to_outcome c r failed absent)
  | ONE | ANY => r ← _read_any key; mret (to_outcome c r false false)
  end.

(** The loop of [detect_stale_read]. *)
Fixpoint stale_loop (key : string) (local_version : Z) (replicas : list string) : proc bool :=
  match replicas with
  | [] => mret false
  | r :: replicas =>
      if decide (r = local_node_id) then stale_loop key local_version replicas
      else match get_remote_value key r with
           | Some (_, ver, true, _) =>
               if local_version <? ver then modify add_stale;; mret true
               else stale_loop key local_version replicas
           | _ => stale_loop key local_version replicas
           end
  end.

Definition detect_stale_read (key : string) (local_version : Z) : proc bool :=
  stale_loop key local_version (get_replicas key).

End coordinator.
End Read.
