(* ===== verification/ReadFacts.v ===== *)
(** Reads at the consistency levels: what a quorum read returns and repairs,
    when it answers at all, and why it sees every acknowledged write. *)

From S2P Require Import Prelude.
From S2P Require Import PyMonad.
From S2P Require Import PyDict.
From S2P Require Import Json.
From S2P Require Import Config.
From S2P Require Import Storage.
From S2P Require Import LastWriter.
From S2P Require Import ReadCoordinator.
#[local] Open Scope Z_scope.

Module ReadF.
Import Storage LastWriter Read.

(** ** The order of results *)

Lemma result_ltb_irrefl a : result_ltb a a = false.
Proof. apply order_ltb_irrefl. Qed.

Lemma result_ltb_asym a b : result_ltb a b = true → result_ltb b a = false.
Proof. apply order_ltb_asym. Qed.

Lemma result_ltb_neg_trans a b c :
  result_ltb a b = false → result_ltb b c = false → result_ltb a c = false.
Proof. apply order_ltb_neg_trans. Qed.

Lemma best_upper p ps x : x ∈ p :: ps → result_ltb (max_from result_ltb p ps) x = false.
Proof.
  destruct (max_from_upper result_ltb result_ltb_irrefl result_ltb_neg_trans result_ltb_asym p ps)
    as [H1 H2].
  intros [->|Hx]%elem_of_cons; auto.
Qed.

Lemma best_in p ps : max_from result_ltb p ps ∈ p :: ps.
Proof. destruct (max_from_in result_ltb p ps) as [->|?]; [by left|by right]. Qed.

(** ** Read repair *)

Definition repair_call (key : string) (best r : ReadResult) : repair :=
  mkRepairCall key (value best) (version best) (node_id r)
    (mkReadMeta (updated_at best) (created_at best) (expires_at best) (coordinator_id best)).

Lemma repair_loop key best all s :
  for_each (S := stats) (λ r, if result_ltb r best then emit (repair_call key best r) else mret ()) all s =
  (s, repair_call key best <$> base.filter (λ r, result_ltb r best = true) all, Ok ()).
Proof.
  induction all as [|r all IH]; [done|]. cbn [for_each]. rewrite filter_cons. case_decide as Hr.
  - erewrite bind_ok; [|by rewrite Hr|exact IH]. done.
  - apply not_true_iff_false in Hr. erewrite bind_ok; [|by rewrite Hr|exact IH]. done.
Qed.

Lemma trigger_repairs key best all s :
  _trigger_read_repair key best all s =
  (add_repair s, repair_call key best <$> base.filter (λ r, result_ltb r best = true) all, Ok ()).
Proof. unfold _trigger_read_repair. rewrite modify_bind. apply repair_loop. Qed.

(** Do the answers disagree: two versions among the present ones, or one missing? *)
Definition disagree (results : list ReadResult) : Prop :=
  (∃ x y, x ∈ results ∧ y ∈ results ∧ is_present x = true ∧ is_present y = true ∧ version x ≠ version y) ∨
  (∃ x, x ∈ results ∧ is_present x = false).

Lemma remove_dups_singleton (l : list Z) v : v ∈ l → (∀ w, w ∈ l → w = v) → remove_dups l = [v].
Proof.
  intros Hv Hall. pose proof (NoDup_remove_dups l) as Hnd.
  assert (Hin : v ∈ remove_dups l) by by apply elem_of_remove_dups.
  assert (Hall' : ∀ w, w ∈ remove_dups l → w = v) by (intros w Hw; apply Hall; by apply (elem_of_remove_dups l)).
  destruct (remove_dups l) as [|a [|b t]].
  - by apply not_elem_of_nil in Hin.
  - f_equal. apply Hall'. by left.
  - exfalso. apply NoDup_cons in Hnd as [Hna _]. apply Hna.
    assert (a = v) as -> by (apply Hall'; by left).
    assert (b = v) as -> by (apply Hall'; right; by left). by left.
Qed.

Lemma remove_dups_many (l : list Z) v w : v ∈ l → w ∈ l → v ≠ w → (1 < length (remove_dups l))%nat.
Proof.
  rewrite <-(elem_of_remove_dups l v), <-(elem_of_remove_dups l w). intros Hv Hw Hne.
  destruct (remove_dups l) as [|a [|b t]]; simpl; [by apply not_elem_of_nil in Hv| |lia].
  apply list_elem_of_singleton in Hv, Hw. congruence.
Qed.

Lemma filter_shorter (results : list ReadResult) :
  (length (base.filter (λ r, is_present r = true) results) < length results)%nat ↔
  ∃ x, x ∈ results ∧ is_present x = false.
Proof.
  induction results as [|r results IH]; simpl.
  - split; [lia|]. intros (x & Hx & _). by apply not_elem_of_nil in Hx.
  - rewrite filter_cons. pose proof (length_filter (λ r, is_present r = true) results) as Hle.
    case_decide as Hr; simpl; split.
    + intros Hl. destruct (proj1 IH ltac:(lia)) as (x & ? & ?). exists x. split; [by right|done].
    + intros (x & [->|Hx]%elem_of_cons & Hp); [congruence|].
      pose proof (proj2 IH (ex_intro _ x (conj Hx Hp))). lia.
    + intros _. exists r. split; [by left|]. by apply not_true_iff_false.
    + lia.
Qed.

(** The test of the source is [disagree]. *)
Lemma disagree_test results p ps :
  base.filter (λ r, is_present r = true) results = p :: ps →
  ((1 <? Z.of_nat (length (remove_dups (version <$> p :: ps)))) ||
   (Z.of_nat (length (p :: ps)) <? Z.of_nat (length results))) = true ↔ disagree results.
Proof.
  intros Hf. rewrite orb_true_iff. unfold disagree.
  assert (Hin : ∀ x, x ∈ p :: ps ↔ x ∈ results ∧ is_present x = true).
  { intros x. rewrite <-Hf, list_elem_of_filter. tauto. }
  rewrite <-filter_shorter, Hf, !Z.ltb_lt.
  assert (Hlen : ∀ a b : nat, Z.of_nat a < Z.of_nat b ↔ (a < b)%nat) by lia.
  rewrite (Hlen (length (p :: ps))). apply Morphisms_Prop.or_iff_morphism; [|done]. split.
  - intros Hl. destruct (decide (Forall (λ x, version x = version p) ps)) as [Hall|Hex].
    + exfalso. rewrite (remove_dups_singleton _ (version p)) in Hl; [simpl in Hl; lia| |].
      * rewrite fmap_cons. by left.
      * intros w (x & -> & [->|Hx]%elem_of_cons)%list_elem_of_fmap; [done|].
        rewrite Forall_forall in Hall. by apply Hall.
    + apply not_Forall_Exists in Hex; [|apply _].
      apply Exists_exists in Hex as (x & Hx & Hne).
      destruct (proj1 (Hin p) ltac:(by left)), (proj1 (Hin x) ltac:(by right)). exists x, p. done.
  - intros (x & y & Hx & Hy & Hpx & Hpy & Hne).
    assert (Hv : ∀ z, z ∈ results → is_present z = true → version z ∈ version <$> p :: ps)
      by (intros z ??; apply list_elem_of_fmap_2, Hin; done).
    pose proof (remove_dups_many _ _ _ (Hv x Hx Hpx) (Hv y Hy Hpy) Hne). lia.
Qed.

Section choice.
Context (key : string) (required : Z) (results : list ReadResult) (s : stats).

(** What [choose] may answer: the postcondition of a quorum read. *)
Definition chosen (out : stats * list repair * res (option ReadResult * bool * bool)) : Prop :=
  match out with
  | (s', repairs, Ok (r, failed, absent)) =>
      (failed = true ↔ Z.of_nat (length results) < required) ∧
      (absent = true ↔ required <= Z.of_nat (length results) ∧ ∀ x, x ∈ results → is_present x = false) ∧
      match r with
      | None => (failed = true ∨ absent = true) ∧ repairs = [] ∧ s' = s
      | Some best =>
          failed = false ∧ absent = false ∧ best ∈ results ∧ is_present best = true ∧
          (∀ x, x ∈ results → is_present x = true → result_ltb best x = false) ∧
          (disagree results → s' = add_repair (add_stale s) ∧
             repairs = repair_call key best <$> base.filter (λ x, result_ltb x best = true) results) ∧
          (¬ disagree results → s' = s ∧ repairs = [])
      end
  | (_, _, Raise _) => False
  end.

Lemma choose_spec : chosen (choose key required results s).
Proof.
  unfold choose. destruct (Z.ltb_spec (Z.of_nat (length results)) required) as [Hlt|Hge].
  { cbn. split; [by split|]. split; [split; [done|lia]|]. split; [by left|done]. }
  destruct (base.filter _ results) as [|p ps] eqn:Hf.
  { cbn. split; [split; [done|lia]|]. split; [|split; [by right|done]].
    split; [|done]. intros _. split; [lia|]. intros x Hx.
    destruct (is_present x) eqn:Hp; [|done].
    assert (Hin : x ∈ base.filter (λ r, is_present r = true) results) by by apply list_elem_of_filter.
    rewrite Hf in Hin. by apply not_elem_of_nil in Hin. }
  pose proof (disagree_test _ _ _ Hf) as Hd. cbv zeta.
  assert (Hin : ∀ x, x ∈ p :: ps ↔ x ∈ results ∧ is_present x = true).
  { intros x. rewrite <-Hf, list_elem_of_filter. tauto. }
  pose proof (best_in p ps) as Hbest. apply Hin in Hbest as [Hb1 Hb2].
  assert (Hmax : ∀ x, x ∈ results → is_present x = true → result_ltb (max_from result_ltb p ps) x = false).
  { intros x ??. apply best_upper, Hin. done. }
  set (best := max_from result_ltb p ps) in *.
  assert (Habs : false = true ↔ required <= Z.of_nat (length results) ∧ ∀ x, x ∈ results → is_present x = false).
  { split; [done|]. intros [_ Hno]. rewrite (Hno best) in Hb2; done. }
  assert (Hfail : false = true ↔ Z.of_nat (length results) < required) by (split; [done|lia]).
  destruct (_ || _) eqn:Et.
  - assert (Hdis : disagree results) by by apply Hd.
    erewrite bind_ok; [|erewrite bind_ok; [|done|apply trigger_repairs]; done|done].
    unfold chosen. cbn [app]. rewrite app_nil_r. repeat (split; [done|]). done.
  - assert (Hdis : ¬ disagree results) by (rewrite <-Hd; congruence).
    rewrite ret_bind. repeat (split; [done|]). done.
Qed.
End choice.

(** ** Collecting the answers *)

Section coordinator.
Context (local_node_id : string) (replication_factor : Z).
Context (get_local_value : string → answer).
Context (get_remote_value : string → string → option answer).
Context (get_replicas : string → list string).
Context (arrival : list string → list string).

Abbreviation read_remote := (_read_remote get_remote_value).
Abbreviation read_local := (_read_local local_node_id get_local_value).
Abbreviation gather_ := (gather get_remote_value).
Abbreviation collect := (_read_from_replicas local_node_id get_local_value get_remote_value arrival).
Abbreviation quorum_ := (quorum_size replication_factor).
Abbreviation read_quorum := (_read_quorum local_node_id replication_factor get_local_value
  get_remote_value get_replicas arrival).
Abbreviation read_all := (_read_all local_node_id replication_factor get_local_value
  get_remote_value get_replicas arrival).

(** What replica [n] answers, [None] when it does not. *)
Definition answers (key n : string) : option answer :=
  if decide (n = local_node_id) then Some (get_local_value key) else get_remote_value key n.

Lemma to_result_missing n a : ∃ r, to_result n a true = Some r ∧ node_id r = n.
Proof. destruct a as [[[v ver] []] m]; eexists; done. Qed.

Lemma read_remote_node key n r : read_remote key n true = Some r → node_id r = n.
Proof.
  unfold _read_remote. destruct (get_remote_value key n) as [a|]; [|done].
  destruct (to_result_missing n a) as (r' & -> & <-). by intros [= ->].
Qed.

Lemma gather_nodes key m nodes acc :
  ∃ l, sublist l nodes ∧ node_id <$> gather_ key m nodes acc = (node_id <$> acc) ++ l.
Proof.
  revert acc. induction nodes as [|n nodes IH]; intros acc; simpl.
  { exists []. split; [constructor|]. by rewrite app_nil_r. }
  destruct (read_remote key n true) as [r|] eqn:Er.
  - case_match.
    + exists [n]. split; [apply sublist_skip, sublist_nil_l|].
      rewrite fmap_app. simpl. by rewrite (read_remote_node _ _ _ Er).
    + destruct (IH (acc ++ [r])) as (l & Hl & ->). exists (n :: l). split; [by apply sublist_skip|].
      rewrite fmap_app, <-app_assoc. simpl. by rewrite (read_remote_node _ _ _ Er).
  - destruct (IH acc) as (l & Hl & ->). exists l. split; [by apply sublist_cons|done].
Qed.

Lemma gather_in key m nodes acc r : r ∈ gather_ key m nodes acc →
  r ∈ acc ∨ ∃ n, n ∈ nodes ∧ read_remote key n true = Some r.
Proof.
  revert acc. induction nodes as [|n nodes IH]; intros acc; simpl; [by left|].
  destruct (read_remote key n true) as [r'|] eqn:Er; [case_match|].
  - intros [?|Hs%list_elem_of_singleton]%elem_of_app; [by left|]. subst r'.
    right. exists n. split; [by left|done].
  - intros [[?|Hs%list_elem_of_singleton]%elem_of_app|(n' & ? & ?)]%IH; [by left|..]; right.
    + subst r'. exists n. split; [by left|done].
    + exists n'. split; [by right|done].
  - intros [?|(n' & ? & ?)]%IH; [by left|right]. exists n'. split; [by right|done].
Qed.

(** Every answer that arrives is kept, or there are enough. *)
Lemma gather_length key m nodes acc :
  m <= Z.of_nat (length (gather_ key m nodes acc)) ∨
  length (gather_ key m nodes acc) = (length acc + length (omap (get_remote_value key) nodes))%nat.
Proof.
  revert acc. induction nodes as [|n nodes IH]; intros acc; simpl; [right; lia|].
  unfold _read_remote. destruct (get_remote_value key n) as [a|] eqn:Ea; [|apply IH].
  destruct (to_result_missing n a) as (r & -> & _). case_match; [left; by zbool|].
  destruct (IH (acc ++ [r])) as [?|Hl]; [by left|right]. rewrite Hl, length_app. cbn [length].
  unfold omap. lia.
Qed.

Lemma locals_spec key (replicas : list string) :
  omap (λ r, if decide (r = local_node_id) then read_local key true else None) replicas =
  (λ _, default (mkResult JNull 0 local_node_id true 0 0 None EmptyString) (read_local key true)) <$>
    base.filter (λ r, r = local_node_id) replicas.
Proof.
  induction replicas as [|r rs IH]; [done|]. simpl. rewrite filter_cons.
  unfold omap in IH. case_decide; simpl; [|by rewrite IH].
  unfold _read_local in *.
  destruct (to_result_missing local_node_id (get_local_value key)) as (x & Hx & _).
  rewrite Hx in *. simpl. by rewrite IH.
Qed.

Lemma locals_nodes key (replicas : list string) :
  node_id <$> omap (λ r, if decide (r = local_node_id) then read_local key true else None) replicas =
  base.filter (λ r, r = local_node_id) replicas.
Proof.
  rewrite locals_spec, <-list_fmap_compose.
  rewrite <-(list_fmap_id (base.filter _ replicas)) at 2.
  apply list_fmap_ext. intros i x Hx%list_elem_of_lookup_2. apply list_elem_of_filter in Hx as [-> _].
  simpl. unfold _read_local.
  by destruct (to_result_missing local_node_id (get_local_value key)) as (? & -> & ?).
Qed.

(** The replicas an answer came from, and that it is their answer. *)
Lemma collect_in key replicas m r : r ∈ collect key replicas m →
  (∀ xs, arrival xs ⊆ xs) →
  node_id r ∈ replicas ∧ ∃ a, answers key (node_id r) = Some a ∧ to_result (node_id r) a true = Some r.
Proof.
  intros Hr Harr. unfold _read_from_replicas in Hr. apply gather_in in Hr as [Hr|(n & Hn & Hr)].
  - apply list_elem_of_omap in Hr as (x & Hx & Hr). case_decide; [subst x|done].
    unfold _read_local in Hr.
    destruct (to_result_missing local_node_id (get_local_value key)) as (r' & Hr' & Hid).
    assert (r' = r) as -> by congruence. rewrite Hid. split; [done|].
    exists (get_local_value key). unfold answers. rewrite decide_True by done. done.
  - apply Harr in Hn. apply list_elem_of_filter in Hn as [Hne Hn].
    rewrite (read_remote_node _ _ _ Hr). split; [done|].
    unfold _read_remote in Hr. unfold answers. rewrite decide_False by done.
    destruct (get_remote_value key n) as [a|]; [|done]. by exists a.
Qed.

Lemma collect_nodup key replicas m :
  (∀ xs, arrival xs ⊆ xs) → (∀ xs, NoDup xs → NoDup (arrival xs)) → NoDup replicas →
  NoDup (node_id <$> collect key replicas m).
Proof.
  intros Hsub Hnd Hr. unfold _read_from_replicas.
  destruct (gather_nodes key m (arrival (base.filter (λ r, r ≠ local_node_id) replicas))
    (omap (λ r, if decide (r = local_node_id) then read_local key true else None) replicas))
    as (l & Hl & ->).
  rewrite locals_nodes. apply NoDup_app. split; [by apply NoDup_filter|]. split.
  - intros x [-> _]%list_elem_of_filter Hx.
    eapply sublist_subseteq in Hx; [|exact Hl]. apply Hsub in Hx.
    by apply list_elem_of_filter in Hx as [? _].
  - eapply sublist_NoDup; [|exact Hl]. by apply Hnd, NoDup_filter.
Qed.

(** Does replica [n] hold the key at least as new as [w]? *)
Definition holds (key : string) (w : order) (n : string) : Prop :=
  ∀ a, answers key n = Some a →
    ∃ v ver m, a = (v, ver, true, m) ∧ (ver =? 0) && is_none v = false ∧
      order_ltb (ver, m_updated_at m, str_or (m_coordinator_id m) n) w = false.

Lemma pigeonhole (xs ys zs : list string) : NoDup xs → NoDup ys → xs ⊆ zs → ys ⊆ zs →
  (length zs < length xs + length ys)%nat → ∃ n, n ∈ xs ∧ n ∈ ys.
Proof.
  intros Hx Hy Hxz Hyz Hlen.
  destruct (decide (Exists (λ n, n ∈ ys) xs)) as [Hex|Hno]; [by apply Exists_exists in Hex|].
  exfalso. assert (Hnd : NoDup (xs ++ ys)).
  { apply NoDup_app. split; [done|]. split; [|done]. intros n Hn Hn'. apply Hno, Exists_exists. by exists n. }
  assert (Hsub : xs ++ ys ⊆ zs) by (intros n [?|?]%elem_of_app; auto).
  apply (NoDup_submseteq _ _ Hnd) in Hsub. apply submseteq_length in Hsub.
  rewrite length_app in Hsub. lia.
Qed.

End coordinator.

Section theorems.
Context (local_node_id : string) (replication_factor : Z).
Context (get_local_value : string → answer).
Context (get_remote_value : string → string → option answer).
Context (get_replicas : string → list string).
Context (arrival : list string → list string).

Abbreviation collect := (_read_from_replicas local_node_id get_local_value get_remote_value arrival).
Abbreviation quorum_ := (quorum_size replication_factor).
Abbreviation read_quorum := (_read_quorum local_node_id replication_factor get_local_value
  get_remote_value get_replicas arrival).
Abbreviation read_all := (_read_all local_node_id replication_factor get_local_value
  get_remote_value get_replicas arrival).

(** The replicas whose answers arrive in time. *)
Definition responders (key : string) : list string :=
  base.filter (λ r, r = local_node_id) (get_replicas key) ++
  base.filter (λ r, get_remote_value key r ≠ None)
    (arrival (base.filter (λ r, r ≠ local_node_id) (get_replicas key))).

Lemma omap_some_length {A B} (f : A → option B) (l : list A) :
  length (omap f l) = length (base.filter (λ x, f x ≠ None) l).
Proof.
  induction l as [|x l IH]; [done|]. rewrite filter_cons. cbn [omap list_omap].
  unfold omap, list_omap in IH. destruct (f x); case_decide; try done; cbn [length]; by rewrite <-IH.
Qed.

Lemma collect_enough key m :
  Z.of_nat (length (collect key (get_replicas key) m)) < m ↔
  Z.of_nat (length (responders key)) < m ∧ Z.of_nat (length (collect key (get_replicas key) m)) < m.
Proof.
  split; [|tauto]. intros Hlt. split; [|done].
  unfold responders. rewrite length_app, <-(omap_some_length (get_remote_value key)).
  unfold _read_from_replicas in Hlt.
  pose proof (gather_length get_remote_value key m
    (arrival (base.filter (λ r, r ≠ local_node_id) (get_replicas key)))
    (omap (λ r, if decide (r = local_node_id) then _read_local local_node_id get_local_value key true
                else None) (get_replicas key))) as [Hge|Hlen]; [lia|].
  rewrite Hlen in Hlt.
  pose proof (f_equal length (locals_nodes local_node_id get_local_value key (get_replicas key))) as Hl.
  rewrite length_fmap in Hl. rewrite <-Hl. lia.
Qed.

(** A quorum read chooses among the answers it collected. *)
Lemma quorum_chosen key s :
  chosen key quorum_ (collect key (get_replicas key) quorum_) (add_quorum s) (read_quorum key s).
Proof. unfold _read_quorum. rewrite modify_bind. apply choose_spec. Qed.

(** Quorum and full reads do what they promise, for any replica
    answers and arrival order.  With the collected answers [results]: the read
    reports a failed quorum exactly when fewer than the required number
    arrived, in particular never when that many replicas respond; it reports the key
    absent exactly when all collected answers are missing markers; otherwise
    it returns a present answer that no present answer beats in (version,
    update time, coordinator), and when the answers disagree it sends that
    value to exactly the collected replicas with a smaller key, once each. *)
Theorem quorum_read_spec key s :
  let quorum_results := collect key (get_replicas key) quorum_ in
  let all_results := collect key (get_replicas key) replication_factor in
  chosen key quorum_ quorum_results (add_quorum s) (read_quorum key s) ∧
  chosen key replication_factor all_results s (read_all key s) ∧
  (quorum_ <= Z.of_nat (length (responders key)) → quorum_ <= Z.of_nat (length quorum_results)) ∧
  (replication_factor <= Z.of_nat (length (responders key)) →
     replication_factor <= Z.of_nat (length all_results)).
Proof.
  cbv zeta. split; [apply quorum_chosen|]. split; [apply choose_spec|split; intros Hr].
  - apply Z.nlt_ge. intros [Hl _]%collect_enough. lia.
  - apply Z.nlt_ge. intros [Hl _]%collect_enough. lia.
Qed.

(** Two majorities of the replicas meet. *)
Lemma quorum_intersects key w holders s s' repairs r absent
    (Harr : ∀ xs, arrival xs ⊆ xs) (Harr' : ∀ xs, NoDup xs → NoDup (arrival xs))
    (Hrep : NoDup (get_replicas key))
    (Hlen : Z.of_nat (length (get_replicas key)) = replication_factor)
    (Hnd : NoDup holders) (Hsub : holders ⊆ get_replicas key)
    (Hmaj : replication_factor / 2 + 1 <= Z.of_nat (length holders))
    (Hholds : ∀ n, n ∈ holders → holds local_node_id get_local_value get_remote_value key w n)
    (Hread : read_quorum key s = (s', repairs, Ok (r, false, absent))) :
  ∃ best, r = Some best ∧ absent = false ∧ best ∈ collect key (get_replicas key) quorum_ ∧
    is_present best = true ∧ order_ltb (_result_sort_key best) w = false.
Proof.
  pose proof (quorum_chosen key s) as Hspec. rewrite Hread in Hspec.
  destruct Hspec as ([_ Hfail] & Habs & Hr).
  set (results := collect key (get_replicas key) quorum_) in *.
  assert (Hge : quorum_ <= Z.of_nat (length results)) by (apply Z.nlt_ge; intros ?%Hfail; done).
  destruct (pigeonhole (node_id <$> results) holders (get_replicas key)) as (n & Hn & Hh); [|done| |done|..].
  { by apply collect_nodup. }
  { intros n (x & -> & Hx)%list_elem_of_fmap. by apply collect_in in Hx as [? _]. }
  { rewrite length_fmap. unfold quorum_size in Hge.
    pose proof (Z.div_mod replication_factor 2). pose proof (Z.mod_pos_bound replication_factor 2). lia. }
  apply list_elem_of_fmap in Hn as (x & -> & Hx).
  destruct (collect_in _ _ _ _ _ _ _ _ Hx Harr) as (_ & a & Ha & Hto).
  destruct (Hholds _ Hh a Ha) as (v & ver & m & -> & Hpres & Hord). simpl in Hto.
  injection Hto as Hto.
  pose proof (f_equal version Hto) as Hv. pose proof (f_equal value Hto) as Hval.
  pose proof (f_equal updated_at Hto) as Hu. pose proof (f_equal coordinator_id Hto) as Hc.
  simpl in Hv, Hval, Hu, Hc.
  assert (Hp : is_present x = true) by (unfold is_present; by rewrite <-Hv, <-Hval, Hpres).
  destruct r as [best|].
  - destruct Hr as (_ & -> & Hb & Hpb & Hmax & _). exists best. repeat (split; [done|]).
    apply (order_ltb_neg_trans _ (_result_sort_key x)); [by apply Hmax|].
    unfold _result_sort_key. by rewrite <-Hv, <-Hu, <-Hc.
  - destruct Hr as ([?|Ht] & _); [done|]. apply Habs in Ht as [_ Hno]. rewrite Hno in Hp; done.
Qed.

(** Claim C14. Quorum intersection: if the replica set of the key has
    [replication_factor] members and at least a write quorum of them holds
    the key no older than [w], then a quorum read that does not report a
    failed quorum returns a value no older than [w], whatever the other
    replicas answer and in whatever order the answers arrive. *)
Theorem quorum_read_sees_acked_write key w holders s s' repairs r absent
    (Harr : ∀ xs, arrival xs ⊆ xs) (Harr' : ∀ xs, NoDup xs → NoDup (arrival xs))
    (Hrep : NoDup (get_replicas key))
    (Hlen : Z.of_nat (length (get_replicas key)) = replication_factor)
    (Hnd : NoDup holders) (Hsub : holders ⊆ get_replicas key)
    (Hmaj : replication_factor / 2 + 1 <= Z.of_nat (length holders))
    (Hholds : ∀ n, n ∈ holders → holds local_node_id get_local_value get_remote_value key w n)
    (Hread : read_quorum key s = (s', repairs, Ok (r, false, absent))) :
  ∃ best, r = Some best ∧ absent = false ∧ node_id best ∈ get_replicas key ∧
    order_ltb (_result_sort_key best) w = false.
Proof.
  destruct (quorum_intersects key w holders s s' repairs r absent) as (best & -> & -> & Hb & _ & Hord); [done..|].
  destruct (collect_in _ _ _ _ _ _ _ _ Hb Harr) as (? & _). by exists best.
Qed.

End theorems.

(** Three replicas; [a] reads, [b] and [c] hold version 2, [a] missed it. *)
Definition demo_meta : read_meta := mkReadMeta 5 5 None "b".
Definition demo_local (_ : string) : answer := (JNull, 0, false, mkReadMeta 0 0 None EmptyString).
Definition demo_remote (_ n : string) : option answer :=
  if decide (n = "b" ∨ n = "c") then Some (JStr "x", 2, true, demo_meta) else None.

Lemma quorum_read_sees_acked_write_witness :
  ∃ best, Some (mkResult (JStr "x") 2 "b" false 5 5 None "b") = Some best ∧ false = false ∧
    node_id best ∈ ["a"; "b"; "c"] ∧ order_ltb (_result_sort_key best) (2, 5, "b") = false.
Proof.
  apply (quorum_read_sees_acked_write "a" 3 demo_local demo_remote (λ _, ["a"; "b"; "c"]) id "k" (2, 5, "b")
    ["b"; "c"] stats0 (add_repair (add_stale (add_quorum stats0)))
    [repair_call "k" (mkResult (JStr "x") 2 "b" false 5 5 None "b") (mkResult JNull 0 "a" true 0 0 None EmptyString)]).
  - by intros xs x.
  - done.
  - by apply (bool_decide_unpack _).
  - reflexivity.
  - by apply (bool_decide_unpack _).
  - intros x [->|[->|[]%not_elem_of_nil]%elem_of_cons]%elem_of_cons; apply (bool_decide_unpack _); reflexivity.
  - vm_compute. discriminate.
  - intros n [->|[->|[]%not_elem_of_nil]%elem_of_cons]%elem_of_cons a Ha; vm_compute in Ha;
      injection Ha as <-; eexists _, _, _; done.
  - vm_compute. reflexivity.
Defined.

End ReadF.
