(* ===== verification/Protocol.v ===== *)
(** [minidb/network/protocol.py] and the stream handling of
    [minidb/network/server.py] and [minidb/network/client.py].

    A socket is the list of chunks that [recv] returns, in order; an empty
    chunk or the end of the list closes the connection.  Frames are text: a
    decoded byte is a code point (what [encode] writes is ASCII). *)

From S2P Require Import Prelude.
From S2P Require Import Text.
From S2P Require Import PyDict.
From S2P Require Import Json.
From S2P Require Import Config.
From S2P Require Import Fields.
#[local] Open Scope Z_scope.

Inductive MessageType :=
  | COMMAND | RESPONSE | ERROR
  | HEARTBEAT | VOTE_REQUEST | VOTE_RESPONSE | APPEND_ENTRIES | APPEND_RESPONSE
  | JOIN | LEAVE | GOSSIP
  | REPLICATE | REPLICATE_ACK | SYNC_REQUEST | SYNC_RESPONSE
  | MERKLE_REQUEST | MERKLE_RESPONSE | REPAIR_DATA.

Definition message_type_value (t : MessageType) : string :=
  match t with
  | COMMAND => "CMD" | RESPONSE => "RSP" | ERROR => "ERR"
  | HEARTBEAT => "HB" | VOTE_REQUEST => "VRQ" | VOTE_RESPONSE => "VRS"
  | APPEND_ENTRIES => "AE" | APPEND_RESPONSE => "AR"
  | JOIN => "JOIN" | LEAVE => "LEAVE" | GOSSIP => "GSP"
  | REPLICATE => "REP" | REPLICATE_ACK => "RACK"
  | SYNC_REQUEST => "SRQ" | SYNC_RESPONSE => "SRS"
  | MERKLE_REQUEST => "MRQ" | MERKLE_RESPONSE => "MRS" | REPAIR_DATA => "RPD"
  end.

#[export] Instance message_type_eq_dec : EqDecision MessageType.
Proof. solve_decision. Defined.

#[export] Program Instance message_type_enum : PyEnum MessageType := {|
  enum_members := [COMMAND; RESPONSE; ERROR; HEARTBEAT; VOTE_REQUEST; VOTE_RESPONSE;
    APPEND_ENTRIES; APPEND_RESPONSE; JOIN; LEAVE; GOSSIP; REPLICATE; REPLICATE_ACK;
    SYNC_REQUEST; SYNC_RESPONSE; MERKLE_REQUEST; MERKLE_RESPONSE; REPAIR_DATA];
  enum_value := message_type_value |}.
Solve Obligations with solve_enum.

Module Message.

Record Message := mkMsg {
  msg_type : MessageType;
  payload : json;
  sender_id : string;
  term : Z;
  sequence : Z;
}.

(** The text before and after the first [c], as [s.split(c, 1)] when [c in s]. *)
Fixpoint split_at (c : ascii) (s : string) : option (string * string) :=
  match s with
  | EmptyString => None
  | String d s' =>
      if decide (d = c) then Some (EmptyString, s')
      else match split_at c s' with
           | Some (a, b) => Some (String d a, b)
           | None => None
           end
  end.

Definition to_data (m : Message) : json :=
  JObj [("type", JStr (message_type_value (msg_type m))); ("sender", JStr (sender_id m));
        ("term", JInt (term m)); ("seq", JInt (sequence m)); ("payload", payload m)]%string.

(** The frame without its newline, and the frame. *)
Definition frame (m : Message) : string :=
  let json_str := dumps (to_data m) in
  pretty (N.of_nat (String.length json_str)) +:+ ":" +:+ json_str.

Definition encode (m : Message) : string := frame m +:+ String newline EmptyString.

Definition of_data (parsed : json) : res Message :=
  (ty ←! (t ←! subscript parsed "type"; as_enum t);
   pl ←! get_default parsed "payload" (JObj []);
   sd ←! get_default parsed "sender" (JStr "");
   tm ←! get_default parsed "term" (JInt 0);
   sq ←! get_default parsed "seq" (JInt 0);
   sd ←! as_str sd; tm ←! as_int tm; sq ←! as_int sq;
   Ok (mkMsg ty pl sd tm sq))%py.

Definition decode (data : string) : res Message :=
  let text := strip data in
  let text := match split_at ":" text with Some (_, t) => t | None => text end in
  (parsed ←! loads text; of_data parsed)%py.

End Message.
Abbreviation Message := Message.Message.

Module Protocol.
Import Message.

Definition create_command (command : string) (args : list json) (sender : string) : Message :=
  mkMsg COMMAND (JObj [("cmd", JStr (upper command)); ("args", JArr args)]%string) sender 0 0.

Definition create_response (success : bool) (data : json) (error : option string) : Message :=
  mkMsg (if success then RESPONSE else ERROR)
    (JObj [("success", JBool success); ("data", data); ("error", jopt JStr error)]%string) "" 0 0.

(** [create_response(True, data=...)] and [create_response(False, error=...)] *)
Definition ok_response (data : json) : Message := create_response true data None.
Definition error_response (error : string) : Message := create_response false JNull (Some error).

Definition create_heartbeat (sender : string) (term : Z) (leader : string) (members : list json)
    : Message :=
  mkMsg HEARTBEAT (JObj [("leader_id", JStr leader); ("members", JArr members)]%string) sender term 0.

Definition create_vote_request (sender : string) (term last_log_index last_log_term : Z) : Message :=
  mkMsg VOTE_REQUEST
    (JObj [("last_log_index", JInt last_log_index); ("last_log_term", JInt last_log_term)]%string)
    sender term 0.

Definition create_vote_response (sender : string) (term : Z) (granted : bool) : Message :=
  mkMsg VOTE_RESPONSE (JObj [("vote_granted", JBool granted)]%string) sender term 0.

Definition create_append_entries (sender : string) (term prev_log_index prev_log_term : Z)
    (entries : list json) (leader_commit : Z) : Message :=
  mkMsg APPEND_ENTRIES
    (JObj [("prev_log_index", JInt prev_log_index); ("prev_log_term", JInt prev_log_term);
           ("entries", JArr entries); ("leader_commit", JInt leader_commit)]%string) sender term 0.

Definition create_replicate (sender : string) (term : Z) (entry : json) (phase : string) : Message :=
  mkMsg REPLICATE (JObj [("entry", entry); ("phase", JStr phase)]%string) sender term 0.

Definition create_gossip (sender : string) (members : list json) : Message :=
  mkMsg GOSSIP (JObj [("members", JArr members)]%string) sender 0 0.

(** [payload.get("cmd", ""), payload.get("args", [])] *)
Definition parse_command (payload : json) : res (json * json) :=
  (c ←! get_default payload "cmd" (JStr "");
   a ←! get_default payload "args" (JArr []);
   Ok (c, a))%py.

(** ** Reading one message from a socket *)

(** The loop shared by [read_message] and the client's two senders.  Any
    exception gives [None]. *)
Fixpoint read_loop (buffer : string) (chunks : list string) : option Message :=
  match chunks with
  | [] => None
  | EmptyString :: _ => None
  | chunk :: chunks =>
      let buffer := buffer +:+ chunk in
      match split_at newline buffer with
      | Some (line, _) => match decode line with Ok m => Some m | Raise _ => None end
      | None => read_loop buffer chunks
      end
  end.

Definition read_message (chunks : list string) : option Message := read_loop EmptyString chunks.

End Protocol.

(** ** The server's connection loop *)
Module Server.
Import Message Protocol.

Section server.
(** The handler with the state it runs on, and [str(e)]. *)
Context {S : Type} (handler : S → Message → S * res (option Message)) (exn_str : exn → string).

(** One complete line: the new state and what is sent back. *)
Definition serve_line (s : S) (line : string) : S * list Message :=
  if truthy_str line then
    match decode line with
    | Raise x => (s, [error_response (exn_str x)])
    | Ok m =>
        match handler s m with
        | (s, Ok (Some r)) => (s, [r])
        | (s, Ok None) => (s, [])
        | (s, Raise x) => (s, [error_response (exn_str x)])
        end
    end
  else (s, []).

(** [while newline in buffer]: the state, the rest of the buffer and the
    responses.  Every round consumes a newline, so the length is enough fuel. *)
Fixpoint drain (fuel : nat) (s : S) (buffer : string) : S * string * list Message :=
  match fuel with
  | O => (s, buffer, [])
  | Datatypes.S fuel =>
      match split_at newline buffer with
      | None => (s, buffer, [])
      | Some (line, buffer) =>
          let r := serve_line s line in
          match drain fuel r.1 buffer with
          | (s, buffer, out) => (s, buffer, r.2 ++ out)
          end
      end
  end.

(** [_handle_client]: the loop over the chunks, until the peer closes. *)
Fixpoint handle_loop (s : S) (buffer : string) (chunks : list string) : S * list Message :=
  match chunks with
  | [] => (s, [])
  | EmptyString :: _ => (s, [])
  | chunk :: chunks =>
      let buffer := buffer +:+ chunk in
      match drain (String.length buffer) s buffer with
      | (s, buffer, out) =>
          match handle_loop s buffer chunks with (s, out') => (s, out ++ out') end
      end
  end.

Definition _handle_client (s : S) (chunks : list string) : S * list Message :=
  handle_loop s EmptyString chunks.

End server.
End Server.

(** ** The client *)
Module Client.
Import Message Protocol.

(** What the environment does during one exchange: the fault proxy lets the
    connection through, [connect] succeeds, the request is sent, and what
    [recv] returns, call by call ([None] where it raises). *)
Record environment := mkEnv {
  e_proxy : bool;
  e_connects : bool;
  e_sends : bool;
  e_chunks : list (option string);
}.

(** [TCPClient]: its name and [_connected]. *)
Record TCPClient := mkClient { node_id : string; _connected : bool }.

Definition set_connected (c : TCPClient) b := mkClient (node_id c) b.

Definition connect (e : environment) (c : TCPClient) : TCPClient * bool :=
  if e_proxy e then (set_connected c (e_connects e), e_connects e)
  else (set_connected c false, false).

Definition disconnect (c : TCPClient) : TCPClient := set_connected c false.

(** The common part: the proxy, a connection, then the request [data] is sent
    and [k] goes on. *)
Definition with_connection {A} (e : environment) (c : TCPClient) (fallback : A)
    (k : TCPClient → TCPClient * A) : TCPClient * A :=
  if e_proxy e then
    if _connected c then k c
    else match connect e c with
         | (c, true) => k c
         | (c, false) => (c, fallback)
         end
  else (disconnect c, fallback).

(** The loop over [recv]; a decode error or a socket error disconnects. *)
Fixpoint exchange (buffer : string) (c : TCPClient) (chunks : list (option string))
    : TCPClient * option Message :=
  match chunks with
  | [] => (c, None)
  | None :: _ => (set_connected c false, None)
  | Some EmptyString :: _ => (c, None)
  | Some chunk :: chunks =>
      let buffer := buffer +:+ chunk in
      match split_at newline buffer with
      | Some (line, _) =>
          match decode line with Ok m => (c, Some m) | Raise _ => (set_connected c false, None) end
      | None => exchange buffer c chunks
      end
  end.

(** [send_message]: the frame that goes out and what comes back. *)
Definition send_message (e : environment) (c : TCPClient) (m : Message)
    : TCPClient * option Message :=
  with_connection e c None (λ c,
    if e_sends e then exchange EmptyString c (e_chunks e) else (c, None)).

Definition send_command (e : environment) (c : TCPClient) (command : string) (args : list string)
    : TCPClient * option Message :=
  send_message e c (create_command command (JStr <$> args) (node_id c)).

Definition send_message_no_response (e : environment) (c : TCPClient) (m : Message)
    : TCPClient * bool :=
  with_connection e c false (λ c, (c, e_sends e)).

End Client.
