(* ===== verification/ProtocolFacts.v ===== *)
(** The wire protocol: frames round-trip, and neither side depends on how TCP
    cuts the stream into chunks. *)

From S2P Require Import Prelude.
From S2P Require Import Text.
From S2P Require Import PyDict.
From S2P Require Import Json.
From S2P Require Import JsonFacts.
From S2P Require Import Config.
From S2P Require Import Fields.
From S2P Require Import Protocol.
#[local] Open Scope Z_scope.

Module ProtocolF.
Import Message Protocol Server.

(** ** Splitting *)

Lemma split_at_none c s : split_at c s = None ↔ str_has c s = false.
Proof.
  induction s as [|d s IH]; [done|]. simpl. rewrite str_has_cons.
  destruct (decide (d = c)) as [->|Hne].
  - by rewrite bool_decide_eq_true_2.
  - rewrite bool_decide_eq_false_2 by done. simpl. rewrite <-IH.
    by destruct (split_at c s) as [[??]|].
Qed.

Lemma split_at_app c a b : str_has c a = false →
  split_at c (String.append a (String c b)) = Some (a, b).
Proof.
  induction a as [|d a IH]; intros Ha; [simpl; by rewrite decide_True|].
  rewrite str_has_cons in Ha. apply orb_false_iff in Ha as [Hd%bool_decide_eq_false_1 Ha].
  rewrite str_app_cons. simpl. by rewrite decide_False, IH.
Qed.

Lemma split_at_some c s a b : split_at c s = Some (a, b) →
  s = String.append a (String c b) ∧ str_has c a = false.
Proof.
  revert a b. induction s as [|d s IH]; intros a b; [done|]. simpl.
  destruct (decide (d = c)) as [->|Hne]; [by intros [= <- <-]|].
  destruct (split_at c s) as [[a' b']|]; [|done]. intros [= <- <-].
  destruct (IH _ _ eq_refl) as [-> Ha]. split; [done|].
  rewrite str_has_cons, Ha. by rewrite bool_decide_eq_false_2.
Qed.

Lemma split_at_length c s a b : split_at c s = Some (a, b) →
  (String.length b < String.length s)%nat.
Proof. intros [-> _]%split_at_some. rewrite str_length_app, str_length_cons. lia. Qed.

(** ** Frames *)

(** The digits of a length hold no colon and no newline. *)
Lemma pretty_N_has c n : digit_val c = None → str_has c (pretty (n : N)) = false.
Proof.
  intros Hc. unfold str_has. apply negb_false_iff. unfold pretty, pretty_N.
  case_decide; [simpl; apply andb_true_iff; split; [|done]; apply bool_decide_eq_true_2; by intros <-|].
  assert (Hgo : ∀ s x, str_all (λ d, bool_decide (d ≠ c)) s = true →
    str_all (λ d, bool_decide (d ≠ c)) (pretty_N_go x s) = true); [|by apply Hgo].
  intros s x. revert s. induction (N.lt_wf_0 x) as [x _ IH]; intros s Hs.
  destruct (decide (x = 0)%N) as [->|Hx]; [done|].
  rewrite pretty_N_go_step by lia. apply IH; [apply N.div_lt; lia|].
  simpl. rewrite Hs, andb_true_r. apply bool_decide_eq_true_2. intros <-.
  rewrite digit_val_char in Hc; [done|]. apply N.mod_lt. lia.
Qed.

Definition msg_wf (m : Message) : Prop := json_wf (payload m).

Lemma msg_data_wf m : msg_wf m → json_wf (to_data m).
Proof.
  intros Hm. unfold to_data. apply json_wf_obj. split; [by apply (bool_decide_unpack _)|].
  repeat (apply Forall_cons; split; [done|]). apply Forall_nil_2.
Qed.

Lemma of_to_data m : of_data (to_data m) = Ok m.
Proof. by destruct m as [[] ????]. Qed.

Lemma frame_no_newline m : str_has newline (frame m) = false.
Proof.
  unfold frame. rewrite !str_has_app, pretty_N_has by done.
  by rewrite (dumps_no_newline (to_data m)).
Qed.

(** The frame starts with a digit and ends with a brace. *)
Lemma frame_shape m : ∃ c t, frame m = String c (String.append t (String "}" EmptyString)) ∧
  is_Some (digit_val c).
Proof.
  unfold frame, to_data. rewrite dumps_obj. generalize (dump_members
    [("type", JStr (message_type_value (msg_type m))); ("sender", JStr (sender_id m));
     ("term", JInt (term m)); ("seq", JInt (sequence m)); ("payload", payload m)]%string).
  intros d. generalize (N.of_nat (String.length (String "{" (String.append d "}")))). intros n.
  destruct (pretty_N_head n) as (c & t & -> & Hc).
  exists c, (String.append t (String ":" (String "{" d))). split; [|done].
  by rewrite str_app_cons, <-str_app_assoc.
Qed.

Lemma digit_not_space c : is_Some (digit_val c) → py_space c = false.
Proof. intros [d Hd]. destruct c as [[] [] [] [] [] [] [] []]; done || discriminate Hd. Qed.

Lemma strip_frame m : strip (frame m) = frame m.
Proof.
  destruct (frame_shape m) as (c & t & -> & Hc).
  apply strip_enclosed; [by apply digit_not_space|done].
Qed.

(** The wire format is lossless: decoding the line of an encoded
    message gives the message back, for every message type, sender, term,
    sequence number and well-formed payload. *)
Theorem frame_roundtrip m (Hm : msg_wf m) : decode (frame m) = Ok m.
Proof.
  unfold decode. rewrite strip_frame. unfold frame at 1.
  rewrite str_app_cons, str_app_nil_l, split_at_app by (by apply pretty_N_has).
  rewrite loads_dumps by (by apply msg_data_wf). apply of_to_data.
Qed.

Definition demo_msg : Message := create_vote_request "n1" 4 7 (-1).

Lemma frame_roundtrip_witness : msg_wf demo_msg ∧ decode (frame demo_msg) = Ok demo_msg.
Proof.
  assert (H : msg_wf demo_msg) by (split; [by apply (bool_decide_unpack _)|done]).
  split; [exact H|]. apply frame_roundtrip. exact H.
Defined.

(** ** The server *)

(** The text of a list of chunks. *)
Definition concat_str (xs : list string) : string := foldr String.append EmptyString xs.

Section server.
Context {S : Type} (handler : S → Message → S * res (option Message)) (exn_str : exn → string).

Abbreviation drain_ := (drain handler exn_str).
Abbreviation drain_all s b := (drain handler exn_str (String.length b) s b).

Lemma drain_fuel n s b : (String.length b <= n)%nat → drain_ n s b = drain_all s b.
Proof.
  revert s b. induction n as [n IH] using lt_wf_ind. intros s b Hle.
  destruct n as [|n].
  { destruct b; [done|]. rewrite str_length_cons in Hle. lia. }
  destruct b as [|c b]; [done|]. rewrite str_length_cons. cbn [drain].
  destruct (split_at newline (String c b)) as [[line rest]|] eqn:Es; [|done].
  pose proof (split_at_length _ _ _ _ Es) as Hl. rewrite str_length_cons in *.
  rewrite (IH n) by lia. rewrite (IH (String.length b)) by lia. done.
Qed.

(** One unfolding of the loop, free of fuel. *)
Lemma drain_eq s b : drain_all s b =
  match split_at newline b with
  | None => (s, b, [])
  | Some (line, rest) =>
      let r := serve_line handler exn_str s line in
      match drain_all r.1 rest with (s, rest, out) => (s, rest, r.2 ++ out) end
  end.
Proof.
  destruct b as [|c b]; [done|]. rewrite str_length_cons. cbn [drain].
  destruct (split_at newline (String c b)) as [[line rest]|] eqn:Es; [|done].
  pose proof (split_at_length _ _ _ _ Es) as Hl. rewrite str_length_cons in Hl.
  by rewrite drain_fuel by lia.
Qed.

Lemma drain_rest n s b : (String.length b <= n)%nat →
  match drain_all s b with (_, rest, _) => str_has newline rest = false end.
Proof.
  revert s b. induction n as [|n IH]; intros s b Hle; rewrite drain_eq;
    destruct (split_at newline b) as [[line rest]|] eqn:Es; try by apply split_at_none.
  - apply split_at_length in Es. lia.
  - apply split_at_length in Es. cbv zeta.
    pose proof (IH (serve_line handler exn_str s line).1 rest ltac:(lia)) as H.
    by destruct (drain_all _ rest) as [[??]?].
Qed.

(** Draining in two goes is draining at once. *)
Lemma drain_app n s x y : (String.length x <= n)%nat →
  drain_all s (String.append x y) =
  match drain_all s x with (s1, r1, o1) =>
    match drain_all s1 (String.append r1 y) with (s2, r2, o2) => (s2, r2, o1 ++ o2) end end.
Proof.
  revert s x. induction n as [|n IH]; intros s x Hle; rewrite (drain_eq s x);
    destruct (split_at newline x) as [[line rest]|] eqn:Es;
    try (destruct (drain_all s (String.append x y)) as [[??]?]; done).
  - apply split_at_length in Es. lia.
  - pose proof (split_at_length _ _ _ _ Es). apply split_at_some in Es as [-> Hline].
    rewrite <-str_app_assoc, str_app_cons. rewrite drain_eq, split_at_app by done. cbv zeta.
    rewrite IH by lia. destruct (drain_all _ rest) as [[s1 r1] o1].
    destruct (drain_all s1 _) as [[s2 r2] o2]. by rewrite app_assoc.
Qed.

(** The connection loop sees only the whole text. *)
Lemma handle_loop_text s buf chunks :
  str_has newline buf = false → Forall (λ c, c ≠ EmptyString) chunks →
  handle_loop handler exn_str s buf chunks =
  match drain_all s (String.append buf (concat_str chunks)) with (s, _, out) => (s, out) end.
Proof.
  intros Hbuf Hne. revert s buf Hbuf. induction Hne as [|c chunks Hc _ IH]; intros s buf Hbuf; simpl.
  - rewrite str_app_nil_r, drain_eq. by rewrite (proj2 (split_at_none newline buf) Hbuf).
  - destruct c as [|a c]; [done|]. rewrite str_app_assoc.
    rewrite (drain_app _ s (String.append buf (String a c)) _ (le_n _)).
    pose proof (drain_rest _ s (String.append buf (String a c)) (le_n _)) as Hr.
    destruct (drain_all s (String.append buf (String a c))) as [[s1 r1] o1].
    rewrite IH by done. by destruct (drain_all s1 _) as [[??]?].
Qed.

(** The lines of the stream, one after the other. *)
Fixpoint serve_lines (s : S) (ls : list string) : S * list Message :=
  match ls with
  | [] => (s, [])
  | l :: ls =>
      let r := serve_line handler exn_str s l in
      let (s, out) := serve_lines r.1 ls in (s, r.2 ++ out)
  end.

Definition line_text (l : string) : string := String.append l (String newline EmptyString).

Lemma lines_cons l ls torn :
  String.append (concat_str (line_text <$> l :: ls)) torn =
  String.append l (String newline (String.append (concat_str (line_text <$> ls)) torn)).
Proof.
  rewrite fmap_cons. cbn [concat_str foldr]. unfold line_text at 1.
  by rewrite <-!str_app_assoc, str_app_cons, str_app_nil_l.
Qed.

Lemma drain_lines s ls torn : Forall (λ l, str_has newline l = false) ls → str_has newline torn = false →
  drain_all s (String.append (concat_str (line_text <$> ls)) torn) =
  let (s', out) := serve_lines s ls in (s', torn, out).
Proof.
  intros Hls Ht. revert s. induction Hls as [|l ls Hl _ IH]; intros s.
  - change (String.append (concat_str (line_text <$> [])) torn) with torn.
    rewrite drain_eq. by rewrite (proj2 (split_at_none newline torn) Ht).
  - rewrite lines_cons. cbn [serve_lines]. rewrite drain_eq, split_at_app by done. cbv zeta.
    rewrite IH. by destruct (serve_lines _ ls).
Qed.

(** What the server should do: run the handler on each message, in order, and
    send the response or the error of each. *)
Fixpoint deliver (s : S) (ms : list Message) : S * list Message :=
  match ms with
  | [] => (s, [])
  | m :: ms =>
      let (s, r) := handler s m in
      let out := match r with
                 | Ok (Some r) => [r]
                 | Ok None => []
                 | Raise x => [error_response (exn_str x)]
                 end in
      let (s, out') := deliver s ms in (s, out ++ out')
  end.

Lemma serve_frame s m : msg_wf m → serve_line handler exn_str s (frame m) =
  let (s', r) := handler s m in
  (s', match r with Ok (Some r) => [r] | Ok None => [] | Raise x => [error_response (exn_str x)] end).
Proof.
  intros Hm. unfold serve_line. rewrite frame_roundtrip by done.
  destruct (frame_shape m) as (c & t & -> & _). simpl.
  by destruct (handler s m) as [? [[?|]|?]].
Qed.

Lemma encode_cons m ms torn :
  String.append (concat_str (encode <$> m :: ms)) torn =
  String.append (frame m) (String newline (String.append (concat_str (encode <$> ms)) torn)).
Proof.
  rewrite fmap_cons. cbn [concat_str foldr]. unfold encode at 1.
  by rewrite <-!str_app_assoc, str_app_cons, str_app_nil_l.
Qed.

Lemma drain_frames s ms torn : Forall msg_wf ms → str_has newline torn = false →
  drain_all s (String.append (concat_str (encode <$> ms)) torn) =
  let (s', out) := deliver s ms in (s', torn, out).
Proof.
  intros Hms Ht. revert s. induction Hms as [|m ms Hm _ IH]; intros s.
  - change (String.append (concat_str (encode <$> [])) torn) with torn.
    rewrite drain_eq. by rewrite (proj2 (split_at_none newline torn) Ht).
  - rewrite encode_cons. cbn [deliver]. rewrite drain_eq, split_at_app by apply frame_no_newline. cbv zeta.
    rewrite serve_frame by done. destruct (handler s m) as [s1 r]. cbn [fst snd].
    rewrite IH. by destruct (deliver s1 ms).
Qed.

End server.

(** Claim C30. The server is insensitive to TCP segmentation: whatever the
    handler, and however the peer's bytes are cut into non-empty chunks, a
    stream that holds the encodings of [ms] and then an incomplete frame runs
    the handler on exactly [ms], in order, once each, and sends exactly their
    responses (an error response where the handler raises). *)
Theorem server_delivers_messages {S : Type} (handler : S → Message → S * res (option Message))
    (exn_str : exn → string) (s : S) ms chunks torn
    (Hms : Forall msg_wf ms) (Hne : Forall (λ c, c ≠ EmptyString) chunks)
    (Htext : concat_str chunks = String.append (concat_str (encode <$> ms)) torn)
    (Htorn : str_has newline torn = false) :
  _handle_client handler exn_str s chunks = deliver handler exn_str s ms.
Proof.
  unfold _handle_client. rewrite handle_loop_text by done.
  rewrite str_app_nil_l, Htext, drain_frames by done. by destruct (deliver _ _ s ms).
Qed.

Lemma server_delivers_messages_witness :
  let handler (n : Z) (m : Message) := (n + 1, Ok (Some (ok_response (JInt n)))) in
  let text := encode demo_msg +:+ encode demo_msg +:+ "12:{" in
  _handle_client handler (λ _, "error"%string) 0 [str_take 5 text; str_drop 5 text] =
  (2, [ok_response (JInt 0); ok_response (JInt 1)]).
Proof.
  cbv zeta. etrans; [apply (server_delivers_messages _ _ 0 [demo_msg; demo_msg] _ "12:{")|reflexivity].
  - repeat (apply Forall_cons; split; [split; [by apply (bool_decide_unpack _)|done]|]). apply Forall_nil_2.
  - repeat (apply Forall_cons; split; [vm_compute; discriminate|]). apply Forall_nil_2.
  - vm_compute. reflexivity.
  - reflexivity.
Defined.

(** ** The client *)

Lemma read_loop_frame m rest buf chunks : msg_wf m → str_has newline buf = false →
  Forall (λ c, c ≠ EmptyString) chunks →
  String.append buf (concat_str chunks) = String.append (encode m) rest →
  read_loop buf chunks = Some m.
Proof.
  intros Hm Hbuf Hne. revert buf Hbuf. induction Hne as [|c chunks Hc _ IH]; intros buf Hbuf Heq.
  - simpl in Heq. rewrite str_app_nil_r in Heq. subst buf. unfold encode in Hbuf.
    rewrite !str_has_app, frame_no_newline in Hbuf. discriminate Hbuf.
  - cbn [read_loop]. destruct c as [|a c]; [done|]. cbn [concat_str foldr] in Heq.
    rewrite str_app_assoc in Heq. destruct (split_at newline (String.append buf (String a c))) as [[line r]|] eqn:Es.
    + apply split_at_some in Es as [Hl Hline]. rewrite Hl in Heq.
      rewrite <-str_app_assoc, str_app_cons in Heq. unfold encode in Heq.
      rewrite <-str_app_assoc, str_app_cons, str_app_nil_l in Heq.
      pose proof (f_equal (split_at newline) Heq) as Hs.
      rewrite !split_at_app in Hs by (done || apply frame_no_newline).
      injection Hs as -> _. by rewrite frame_roundtrip.
    + apply IH; [by apply split_at_none|done].
Qed.

(** The client reads back exactly the response the server sent,
    however it is segmented and whatever follows it on the stream. *)
Theorem client_reads_response m rest chunks
    (Hm : msg_wf m) (Hne : Forall (λ c, c ≠ EmptyString) chunks)
    (Htext : concat_str chunks = String.append (encode m) rest) :
  read_message chunks = Some m.
Proof. by apply (read_loop_frame m rest). Qed.

Lemma client_reads_response_witness :
  read_message [str_take 9 (encode demo_msg); str_drop 9 (encode demo_msg) +:+ "7"] = Some demo_msg.
Proof.
  apply (client_reads_response demo_msg "7").
  - split; [by apply (bool_decide_unpack _)|done].
  - repeat (apply Forall_cons; split; [vm_compute; discriminate|]). apply Forall_nil_2.
  - vm_compute. reflexivity.
Defined.

End ProtocolF.
