(* ===== verification/Routing.v ===== *)
(** [minidb/sharding/partition.py] and [minidb/sharding/router.py]: ownership
    of keys and the choice of the node a request goes to, with what routing
    promises about its targets. *)

From S2P Require Import Prelude.
From S2P Require Import PyDict.
From S2P Require Import Json.
From S2P Require Import Config.
From S2P Require Import Ring.
#[local] Open Scope Z_scope.

(** ** [PartitionManager] *)
Module Partition.
Section partition.
Context `{RingHash}.

Record PartitionManager := mkPartition {
  local_node_id : string;
  ring : Ring.ConsistentHashRing;
  replication_factor : Z;
}.

Definition get_owner (p : PartitionManager) (key : string) : option string :=
  Ring.get_node (ring p) key.
Definition get_replicas (p : PartitionManager) (key : string) : list string :=
  Ring.get_nodes (ring p) key (replication_factor p).
Definition is_local_key (p : PartitionManager) (key : string) : bool :=
  bool_decide (local_node_id p ∈ get_replicas p key).
Definition is_primary_owner (p : PartitionManager) (key : string) : bool :=
  bool_decide (get_owner p key = Some (local_node_id p)).
Definition add_node (p : PartitionManager) (n : string) : PartitionManager :=
  mkPartition (local_node_id p) (Ring.add_node (ring p) n) (replication_factor p).
Definition remove_node (p : PartitionManager) (n : string) : PartitionManager :=
  mkPartition (local_node_id p) (Ring.remove_node (ring p) n) (replication_factor p).

(** A stub in the source: no ranges are tracked. *)
Definition get_local_key_range (p : PartitionManager) : list string := [].

Record partition_info := mkInfo {
  i_local_node : string;
  i_replication_factor : Z;
  i_nodes : list string;
  i_ring_sample : list (N * string);
}.

Definition get_partition_info (p : PartitionManager) : partition_info :=
  mkInfo (local_node_id p) (replication_factor p) (Ring.get_all_nodes (ring p)) (Ring.get_ring_state (ring p)).

End partition.
End Partition.

(** ** [ShardRouter] *)
Module Router.
Section router.
Context `{RingHash}.

(** The addresses and the health the node pushes into the router.  The two
    optional callbacks of [set_callbacks] are never set by the program. *)
Record ShardRouter := mkRouter {
  local_node_id : string;
  replication_factor : Z;
  _node_addresses : dict string string;
  _node_health : dict string bool;
}.

Definition init (id : string) (rf : Z) : ShardRouter := mkRouter id rf [] [].

Definition update_node_address (r : ShardRouter) (n a : string) : ShardRouter :=
  mkRouter (local_node_id r) (replication_factor r) (dict_set n a (_node_addresses r)) (_node_health r).
Definition remove_node (r : ShardRouter) (n : string) : ShardRouter :=
  mkRouter (local_node_id r) (replication_factor r) (dict_del n (_node_addresses r))
    (dict_del n (_node_health r)).
Definition set_node_health (r : ShardRouter) (n : string) (h : bool) : ShardRouter :=
  mkRouter (local_node_id r) (replication_factor r) (_node_addresses r) (dict_set n h (_node_health r)).

Definition _is_healthy (r : ShardRouter) (n : string) : bool := dict_get_or (_node_health r) n true.
Definition _get_address (r : ShardRouter) (n : string) : option string := dict_get (_node_addresses r) n.

(** The address to use for a node: healthy, with a non-empty address. *)
Definition reachable (r : ShardRouter) (n : string) : option string :=
  if _is_healthy r n then
    match _get_address r n with
    | Some a => if truthy_str a then Some a else None
    | None => None
    end
  else None.

(** The loop over the replicas. *)
Fixpoint first_reachable (r : ShardRouter) (replicas : list string) : option (string * string) :=
  match replicas with
  | [] => None
  | n :: replicas =>
      match reachable r n with
      | Some a => Some (n, a)
      | None => first_reachable r replicas
      end
  end.

Definition route_write (ring : Ring.ConsistentHashRing) (r : ShardRouter) (key : string)
    : option (string * string) :=
  match Ring.get_node ring key with
  | None => None
  | Some owner =>
      if truthy_str owner then
        match reachable r owner with
        | Some a => Some (owner, a)
        | None => first_reachable r (Ring.get_nodes ring key (replication_factor r))
        end
      else None
  end.

(** The healthy replicas of a QUORUM or ALL read; the local one has the
    address "local". *)
Definition healthy_replicas (r : ShardRouter) (replicas : list string) : list (string * string) :=
  omap (λ n,
    if _is_healthy r n then
      if decide (n = local_node_id r) then Some (n, "local"%string)
      else match _get_address r n with
           | Some a => if truthy_str a then Some (n, a) else None
           | None => None
           end
    else None) replicas.

(** The stable [sort] with key 0 for the local node and 1 for the others. *)
Definition local_first (r : ShardRouter) (routes : list (string * string)) : list (string * string) :=
  base.filter (λ p, p.1 = local_node_id r) routes ++ base.filter (λ p, p.1 ≠ local_node_id r) routes.

Definition route_read (ring : Ring.ConsistentHashRing) (r : ShardRouter) (key : string)
    (c : ConsistencyLevel) (prefer_local : bool) : list (string * string) :=
  let replicas := Ring.get_nodes ring key (replication_factor r) in
  match c with
  | STRONG =>
      match Ring.get_node ring key with
      | Some owner =>
          if truthy_str owner then
            match reachable r owner with Some a => [(owner, a)] | None => [] end
          else []
      | None => []
      end
  | ANY | ONE =>
      if prefer_local && bool_decide (local_node_id r ∈ replicas)
      then [(local_node_id r, "local"%string)]
      else match first_reachable r replicas with Some p => [p] | None => [] end
  | QUORUM | ALL =>
      let hs := healthy_replicas r replicas in
      let hs := if prefer_local then local_first r hs else hs in
      match c with
      | QUORUM => take (length replicas / 2 + 1) hs
      | _ => hs
      end
  end.

Definition should_handle_locally (ring : Ring.ConsistentHashRing) (r : ShardRouter) (key : string) : bool :=
  bool_decide (local_node_id r ∈ Ring.get_nodes ring key (replication_factor r)).

Definition is_primary_owner (ring : Ring.ConsistentHashRing) (r : ShardRouter) (key : string) : bool :=
  bool_decide (Ring.get_node ring key = Some (local_node_id r)).

Definition get_routing_info (ring : Ring.ConsistentHashRing) (r : ShardRouter) (key : string) : json :=
  let owner := Ring.get_node ring key in
  let replicas := Ring.get_nodes ring key (replication_factor r) in
  JObj [("key", JStr key);
        ("primary_owner", match owner with Some o => JStr o | None => JNull end);
        ("replicas", JArr (JStr <$> replicas));
        ("is_local", JBool (bool_decide (local_node_id r ∈ replicas)));
        ("is_primary", JBool (bool_decide (owner = Some (local_node_id r))));
        ("healthy_replicas", JArr (JStr <$> base.filter (λ n, _is_healthy r n = true) replicas))]%string.

Definition get_all_routes (r : ShardRouter) : dict string string := _node_addresses r.

(** ** What routing promises *)

(** A usable target: healthy, and with its address. *)
Definition target_ok (r : ShardRouter) (p : string * string) : Prop :=
  _is_healthy r p.1 = true ∧ p.2 ≠ EmptyString ∧
  (_get_address r p.1 = Some p.2 ∨ (p.1 = local_node_id r ∧ p.2 = "local"%string)).

Lemma reachable_ok r n a : reachable r n = Some a → target_ok r (n, a).
Proof.
  unfold reachable, target_ok. simpl. destruct (_is_healthy r n); [|done].
  destruct (_get_address r n) as [a'|]; [|done]. destruct (truthy_str a') eqn:Ht; [|done].
  intros [= ->]. split; [done|]. split; [by intros ->|by left].
Qed.

Lemma reachable_None r n : reachable r n = None ↔
  _is_healthy r n = false ∨ _get_address r n = None ∨ _get_address r n = Some EmptyString.
Proof.
  unfold reachable. destruct (_is_healthy r n); [|tauto].
  destruct (_get_address r n) as [[|??]|]; simpl; split; try tauto; try done.
  intros [?|[?|?]]; done.
Qed.

Lemma first_reachable_Some r ns n a : first_reachable r ns = Some (n, a) →
  ∃ i, ns !! i = Some n ∧ target_ok r (n, a) ∧ ∀ j m, (j < i)%nat → ns !! j = Some m → reachable r m = None.
Proof.
  induction ns as [|x ns IH]; [done|]. simpl. destruct (reachable r x) as [a'|] eqn:Ex.
  - intros [= -> ->]. exists 0%nat. split; [done|]. split; [by apply reachable_ok|]. lia.
  - intros (i & Hi & Hok & Hno)%IH. exists (S i). split; [done|]. split; [done|].
    intros [|j] m Hj Hm; [by injection Hm as <-|]. apply (Hno j m); [lia|done].
Qed.

Lemma first_reachable_None r ns : first_reachable r ns = None → ∀ n, n ∈ ns → reachable r n = None.
Proof.
  induction ns as [|x ns IH]; [intros _ n Hn; by apply not_elem_of_nil in Hn|]. simpl.
  destruct (reachable r x) eqn:Ex; [done|]. intros H0 n [->|Hn]%elem_of_cons; auto.
Qed.

(** A write goes to the key's owner when the owner is healthy and
    has an address; otherwise to the first usable node of the key's replica
    set in ring order; and it has no route only when the ring is empty or
    neither the owner nor any replica is usable. *)
Theorem route_write_spec ring r key :
  match route_write ring r key with
  | Some (n, a) =>
      target_ok r (n, a) ∧
      (Ring.get_node ring key = Some n ∨
       ∃ owner i, Ring.get_node ring key = Some owner ∧ reachable r owner = None ∧
         let rs := Ring.get_nodes ring key (replication_factor r) in
         rs !! i = Some n ∧ ∀ j m, (j < i)%nat → rs !! j = Some m → reachable r m = None)
  | None =>
      ∀ owner, Ring.get_node ring key = Some owner → owner ≠ EmptyString →
        reachable r owner = None ∧
        ∀ n, n ∈ Ring.get_nodes ring key (replication_factor r) → reachable r n = None
  end.
Proof.
  unfold route_write. destruct (Ring.get_node ring key) as [owner|]; [|done].
  destruct (truthy_str owner) eqn:Ht.
  - destruct (reachable r owner) as [a|] eqn:Eo.
    + split; [by apply reachable_ok|by left].
    + destruct (first_reachable r _) as [[n a]|] eqn:Ef.
      * apply first_reachable_Some in Ef as (i & Hi & Hok & Hno).
        split; [done|]. right. by exists owner, i.
      * intros ? [= <-] _. split; [done|]. by apply first_reachable_None.
  - intros ? [= <-] Hne. by destruct owner.
Qed.

Lemma healthy_replicas_in r ns p : p ∈ healthy_replicas r ns → p.1 ∈ ns ∧ target_ok r p.
Proof.
  intros (n & Hn & Hp)%list_elem_of_omap. unfold target_ok.
  destruct (_is_healthy r n) eqn:Eh; [|done]. case_decide as Hl.
  - injection Hp as <-. simpl. split; [done|]. split; [done|]. split; [done|]. by right.
  - destruct (_get_address r n) as [a|] eqn:Ea; [|done]. destruct (truthy_str a) eqn:Ht; [|done].
    injection Hp as <-. simpl. split; [done|]. split; [done|]. split; [by intros ->|by left].
Qed.

Lemma local_first_in r l p : p ∈ local_first r l ↔ p ∈ l.
Proof.
  unfold local_first. rewrite elem_of_app, !list_elem_of_filter.
  destruct (decide (p.1 = local_node_id r)); tauto.
Qed.

Lemma local_first_perm r l : local_first r l ≡ₚ l.
Proof. apply filter_app_complement. Qed.

Lemma local_first_length r l : length (local_first r l) = length l.
Proof. apply Permutation_length, local_first_perm. Qed.

Lemma no_route (P : string * string → Prop) p : p ∈ @nil (string * string) → P p.
Proof. intros Hp. by apply not_elem_of_nil in Hp. Qed.

(** Read routes stay inside the key's replica set (or the owner, for
    a strong read) and are usable; an ANY or ONE read gets at most one route
    and prefers the local replica; an ALL read gets every usable replica and a
    QUORUM read a majority of the replica set whenever that many are usable. *)
Theorem route_read_spec ring r key c prefer_local :
  let rs := Ring.get_nodes ring key (replication_factor r) in
  let routes := route_read ring r key c prefer_local in
  (∀ p, p ∈ routes → p = (local_node_id r, "local"%string) ∧ local_node_id r ∈ rs ∨
     target_ok r p ∧ (p.1 ∈ rs ∨ Ring.get_node ring key = Some p.1)) ∧
  match c with
  | STRONG => (length routes <= 1)%nat ∧ ∀ p, p ∈ routes → Ring.get_node ring key = Some p.1
  | ANY | ONE => (length routes <= 1)%nat ∧
      (prefer_local = true → local_node_id r ∈ rs → routes = [(local_node_id r, "local"%string)])
  | QUORUM => length routes = Nat.min (length rs / 2 + 1) (length (healthy_replicas r rs))
  | ALL => routes ≡ₚ healthy_replicas r rs
  end.
Proof.
  assert (Hany : ∀ rs, let routes := if prefer_local && bool_decide (local_node_id r ∈ rs)
      then [(local_node_id r, "local"%string)]
      else match first_reachable r rs with Some p => [p] | None => [] end in
    (∀ p, p ∈ routes → p = (local_node_id r, "local"%string) ∧ local_node_id r ∈ rs ∨
       target_ok r p ∧ (p.1 ∈ rs ∨ Ring.get_node ring key = Some p.1)) ∧
    (length routes <= 1)%nat ∧
    (prefer_local = true → local_node_id r ∈ rs → routes = [(local_node_id r, "local"%string)])).
  { intros rs routes. subst routes. destruct (prefer_local && _) eqn:Ep.
    - apply andb_true_iff in Ep as [_ Hin%bool_decide_eq_true_1].
      split; [|done]. intros p ->%list_elem_of_singleton. by left.
    - split; [|split].
      + destruct (first_reachable r rs) as [[n a]|] eqn:Ef; [|intros p Hp; by apply not_elem_of_nil in Hp].
        apply first_reachable_Some in Ef as (i & Hi & Hok & _). intros p ->%list_elem_of_singleton.
        right. split; [done|]. left. by apply list_elem_of_lookup_2 in Hi.
      + destruct (first_reachable r rs); simpl; lia.
      + intros -> Hin. by rewrite bool_decide_eq_true_2 in Ep. }
  assert (Hin : ∀ rs p, p ∈ (if prefer_local then local_first r (healthy_replicas r rs)
      else healthy_replicas r rs) → p.1 ∈ rs ∧ target_ok r p).
  { intros rs p Hp. apply healthy_replicas_in. destruct prefer_local; [by apply local_first_in in Hp|done]. }
  cbv zeta. unfold route_read. destruct c.
  - apply Hany.
  - split; [|].
    + intros p Hp%elem_of_take. destruct Hp as (i & Hp%list_elem_of_lookup_2 & _).
      apply Hin in Hp as [??]. right. by auto.
    + rewrite length_take. destruct prefer_local; by rewrite ?local_first_length.
  - split; [intros p [??]%Hin; right; by auto|].
    destruct prefer_local; [apply local_first_perm|done].
  - apply Hany.
  - destruct (Ring.get_node ring key) as [owner|]; [|split; [apply no_route|split; [simpl; lia|apply no_route]]].
    destruct (truthy_str owner); [|split; [apply no_route|split; [simpl; lia|apply no_route]]].
    destruct (reachable r owner) as [a|] eqn:Eo; [|split; [apply no_route|split; [simpl; lia|apply no_route]]].
    split; [|split; [simpl; lia|]]; intros p ->%list_elem_of_singleton; [|done].
    right. split; [by apply reachable_ok|by right].
Qed.

End router.
End Router.
