(* ===== verification/Placement.v ===== *)
(** What sharding promises to its clients: the interface of a placement of keys
    on nodes, the ring as its implementation, and what the clients get from the
    interface alone ([minidb/sharding/partition.py] and quorums). *)

From S2P Require Import Prelude.
From S2P Require Import PyDict.
From S2P Require Import Ring.
From S2P Require Import RingFacts.
From S2P Require Import Routing.
#[local] Open Scope Z_scope.

(** A placement over a set of nodes: for each key the nodes that keep it, in
    their order, and the owner. *)
Class Placement (P : Type) := {
  pl_nodes : P → gset string;
  pl_replicas : P → string → Z → list string;
  pl_owner : P → string → option string;
  pl_replicas_nodup p key c : NoDup (pl_replicas p key c);
  pl_replicas_nodes p key c x : x ∈ pl_replicas p key c → x ∈ pl_nodes p;
  pl_replicas_length p key c : 1 <= c →
    length (pl_replicas p key c) = Nat.min (Z.to_nat c) (size (pl_nodes p));
  pl_owner_first p key c : 1 <= c → pl_owner p key = head (pl_replicas p key c);
}.

(** ** What follows from the interface *)
Section clients.
Context `{Placement P}.

(** The nodes that keep a key, as each of them sees itself. *)
Definition keepers (p : P) (key : string) (c : Z) : list string :=
  base.filter (λ n, n ∈ pl_replicas p key c) (elements (pl_nodes p)).

Lemma keepers_perm p key c : keepers p key c ≡ₚ pl_replicas p key c.
Proof.
  apply NoDup_Permutation; [apply NoDup_filter, NoDup_elements|apply pl_replicas_nodup|].
  intros x. unfold keepers. rewrite list_elem_of_filter, elem_of_elements.
  split; [by intros [? _]|]. intros Hx. split; [done|]. by eapply pl_replicas_nodes.
Qed.

Lemma owner_keeps p key c x : 1 <= c → pl_owner p key = Some x → x ∈ pl_replicas p key c.
Proof.
  intros Hc. rewrite (pl_owner_first p key c Hc). destruct (pl_replicas p key c); [done|].
  intros [= ->]. by left.
Qed.

Lemma owner_exists p key : pl_nodes p ≠ ∅ → is_Some (pl_owner p key).
Proof.
  intros Hne. rewrite (pl_owner_first p key 1) by lia.
  pose proof (pl_replicas_length p key 1 ltac:(lia)) as Hlen.
  assert (size (pl_nodes p) ≠ 0%nat) by (intros Hz%size_empty_inv; by apply Hne, leibniz_equiv).
  destruct (pl_replicas p key 1); [cbn [length] in Hlen; lia|done].
Qed.

(** Two majorities of the replicas of a key share a node. *)
Lemma quorums_share_node p key c (A B : list string) : 1 <= c → c <= Z.of_nat (size (pl_nodes p)) →
  NoDup A → NoDup B → A ⊆ pl_replicas p key c → B ⊆ pl_replicas p key c →
  c / 2 + 1 <= Z.of_nat (length A) → c / 2 + 1 <= Z.of_nat (length B) → ∃ x, x ∈ A ∧ x ∈ B.
Proof.
  intros Hc Hall HA HB HAs HBs HlA HlB.
  destruct (decide (Exists (.∈ B) A)) as [[x [Hx Hx']]%Exists_exists|Hno]; [by exists x|exfalso].
  apply not_Exists_Forall in Hno; [|intros ?; apply _]. rewrite Forall_forall in Hno.
  assert (Hnd : NoDup (A ++ B)) by by apply NoDup_app.
  assert (Hsub : A ++ B ⊆+ pl_replicas p key c).
  { apply NoDup_submseteq; [done|]. intros x [?|?]%elem_of_app; auto. }
  apply submseteq_length in Hsub. rewrite length_app, pl_replicas_length in Hsub by done.
  pose proof (Z.div_mod c 2 ltac:(lia)). pose proof (Z.mod_pos_bound c 2 ltac:(lia)). lia.
Qed.

End clients.

(** ** The ring *)
Section ring.
Context `{RingHash}.

(** A ring as it is built by its operations, with virtual nodes. *)
Record built_ring := mkBuilt {
  the_ring : Ring.ConsistentHashRing;
  built_wf : RingF.wf the_ring;
  built_virtual : (0 < Ring.virtual_nodes the_ring)%nat;
}.

#[export, refine] Instance ring_placement : Placement built_ring := {|
  pl_nodes r := Ring._nodes (the_ring r);
  pl_replicas r key c := Ring.get_nodes (the_ring r) key c;
  pl_owner r key := Ring.get_node (the_ring r) key;
|}.
Proof.
  - intros [r Hr Hv] key c. simpl. rewrite RingF.get_nodes_preference by done.
    eapply sublist_NoDup; [apply RingF.preference_nodup|apply sublist_take].
  - intros [r Hr Hv] key c x. simpl. rewrite RingF.get_nodes_preference by done. intros Hx.
    apply (RingF.elem_of_preference r key x Hr Hv).
    apply elem_of_take in Hx as (i & Hi & _). by eapply list_elem_of_lookup_2.
  - intros [r Hr Hv] key c Hc. simpl. rewrite RingF.get_nodes_preference by done.
    rewrite length_take, RingF.preference_length by done. by replace (Z.max 1 c) with c by lia.
  - intros [r Hr Hv] key c Hc. simpl. rewrite RingF.get_node_preference, RingF.get_nodes_preference by done.
    destruct (Z.to_nat (Z.max 1 c)) as [|k] eqn:E; [lia|]. by destruct (RingF.preference r key).
Defined.

End ring.

(** ** The partition managers of a cluster

    Each node has a manager over the same ring. *)
Module PartitionF.
Import Partition.
Section partition.
Context `{RingHash}.

Lemma filter_one (x : string) (l : list string) : NoDup l → x ∈ l → base.filter (λ y, x = y) l = [x].
Proof.
  intros Hnd Hx. apply (elem_of_Permutation) in Hx as [k Hk].
  assert (Hnd' : NoDup (x :: k)) by by rewrite <-Hk. apply NoDup_cons in Hnd' as [Hnx _].
  apply Permutation_singleton_r. rewrite Hk, filter_cons, decide_True by done.
  rewrite pfilter_none; [done|]. intros y Hy ->. done.
Qed.

(** Claim C23. Every key has exactly one primary owner among the nodes of the ring;
    it keeps the key, and exactly [min rf nodes] nodes do, as each of them decides
    for itself. *)
Theorem keys_are_partitioned ring rf key (Hwf : RingF.wf ring) (Hvn : (0 < Ring.virtual_nodes ring)%nat)
    (Hrf : 1 <= rf) (Hne : Ring._nodes ring ≠ ∅) :
  let at_node n := mkPartition n ring rf in
  let ns := elements (Ring._nodes ring) in
  (∃ owner, base.filter (λ n, is_primary_owner (at_node n) key = true) ns = [owner] ∧
     is_local_key (at_node owner) key = true ∧ ∀ n, get_owner (at_node n) key = Some owner) ∧
  length (base.filter (λ n, is_local_key (at_node n) key = true) ns) = Nat.min (Z.to_nat rf) (length ns).
Proof.
  cbv zeta. set (p := mkBuilt ring Hwf Hvn). split.
  - destruct (owner_exists p key) as [owner Howner]; [exact Hne|]. exists owner.
    pose proof (owner_keeps p key rf owner Hrf Howner) as Hin. cbn in Howner, Hin.
    split; [|split; [by apply bool_decide_eq_true|done]].
    rewrite (list_filter_iff _ (λ n, owner = n)).
    + apply filter_one; [apply NoDup_elements|]. apply elem_of_elements. exact (pl_replicas_nodes p key rf owner Hin).
    + intros n. unfold is_primary_owner, get_owner. simpl. rewrite bool_decide_eq_true, Howner. naive_solver.
  - rewrite (list_filter_iff _ (λ n, n ∈ pl_replicas p key rf)) by (intros n; apply bool_decide_eq_true).
    change (length (keepers p key rf) = Nat.min (Z.to_nat rf) (length (elements (Ring._nodes ring)))).
    rewrite keepers_perm, pl_replicas_length by done. done.
Qed.

End partition.

#[local] Instance demo_hash : RingHash := λ s, N.of_nat (String.length s).

Definition demo_ring : Ring.ConsistentHashRing :=
  foldr (λ x r, Ring.add_node r x) (Ring.init 2) ["n1"; "n22"; "n333"]%string.

Lemma keys_are_partitioned_witness :
  length (base.filter (λ n, is_local_key (mkPartition n demo_ring 2) "key" = true)
    (elements (Ring._nodes demo_ring))) = 2%nat ∧
  ∃ owner, base.filter (λ n, is_primary_owner (mkPartition n demo_ring 2) "key" = true)
    (elements (Ring._nodes demo_ring)) = [owner].
Proof.
  destruct (keys_are_partitioned demo_ring 2 "key") as [(owner & Ho & _) Hl].
  - do 3 apply RingF.add_node_wf. apply RingF.init_wf.
  - apply Nat.ltb_lt. vm_compute. reflexivity.
  - lia.
  - intros Hne. apply (f_equal size) in Hne. vm_compute in Hne. discriminate.
  - split; [rewrite Hl; vm_compute; reflexivity|by exists owner].
Defined.

End PartitionF.
