(* ===== verification/Migration.v ===== *)
(** [minidb/sharding/migration.py]: moving keys to their new owners.

    A task is an object that the table of active migrations, the history and
    the running loop share: tasks live in a heap and the others hold their
    addresses.  The four callbacks are set by the node before anything runs;
    what [get_local_keys] returns and how [send_keys] and [delete_keys] answer
    are arguments, and the calls are events. *)

From S2P Require Import Prelude.
From S2P Require Import PyMonad.
From S2P Require Import PyDict.
From S2P Require Import Json.
From S2P Require Import Config.
From S2P Require Import Ring.
From Stdlib Require Import QArith.
#[local] Open Scope Z_scope.

Inductive MigrationState := PENDING | IN_PROGRESS | COMPLETED | FAILED | CANCELLED.

Definition migration_state_value (s : MigrationState) : string :=
  match s with
  | PENDING => "PENDING" | IN_PROGRESS => "IN_PROGRESS" | COMPLETED => "COMPLETED"
  | FAILED => "FAILED" | CANCELLED => "CANCELLED"
  end.

#[export] Instance migration_state_eq_dec : EqDecision MigrationState.
Proof. solve_decision. Defined.

Module Migration.

Record MigrationTask := mkTask {
  task_id : string;
  source_node : string;
  target_node : string;
  keys : list string;
  state : MigrationState;
  progress : Z;
  started_at : option time;
  completed_at : option time;
  error : option string;
}.

Record MigrationStats := mkStats {
  total_migrations : Z;
  successful_migrations : Z;
  failed_migrations : Z;
  keys_migrated : Z;
  last_migration_time : option time;
}.

Definition set_state (t : MigrationTask) s :=
  mkTask (task_id t) (source_node t) (target_node t) (keys t) s (progress t) (started_at t)
    (completed_at t) (error t).
Definition set_started (t : MigrationTask) now :=
  mkTask (task_id t) (source_node t) (target_node t) (keys t) IN_PROGRESS (progress t) (Some now)
    (completed_at t) (error t).
Definition add_progress (n : Z) (t : MigrationTask) :=
  mkTask (task_id t) (source_node t) (target_node t) (keys t) (state t) (progress t + n)
    (started_at t) (completed_at t) (error t).
Definition set_completed (t : MigrationTask) now :=
  mkTask (task_id t) (source_node t) (target_node t) (keys t) COMPLETED (progress t) (started_at t)
    (Some now) (error t).
Definition set_failed (t : MigrationTask) now e :=
  mkTask (task_id t) (source_node t) (target_node t) (keys t) FAILED (progress t) (started_at t)
    (Some now) (Some e).

Record ShardMigrationManager := mkManager {
  local_node_id : string;
  replication_factor : Z;
  heap : list MigrationTask;
  _active_migrations : dict string nat;
  _migration_history : list nat;
  _stats : MigrationStats;
}.

Definition init (id : string) (rf : Z) : ShardMigrationManager :=
  mkManager id rf [] [] [] (mkStats 0 0 0 0 None).

Definition set_heap (m : ShardMigrationManager) h :=
  mkManager (local_node_id m) (replication_factor m) h (_active_migrations m) (_migration_history m) (_stats m).
Definition set_active (m : ShardMigrationManager) a :=
  mkManager (local_node_id m) (replication_factor m) (heap m) a (_migration_history m) (_stats m).
Definition set_history (m : ShardMigrationManager) h :=
  mkManager (local_node_id m) (replication_factor m) (heap m) (_active_migrations m) h (_stats m).
Definition set_stats (m : ShardMigrationManager) s :=
  mkManager (local_node_id m) (replication_factor m) (heap m) (_active_migrations m) (_migration_history m) s.

(** Mutating the task object at an address. *)
Definition mutate (a : nat) (f : MigrationTask → MigrationTask) (m : ShardMigrationManager) :=
  set_heap m (alter f a (heap m)).

(** A new task object, registered under its id. *)
Definition register (t : MigrationTask) (m : ShardMigrationManager) : ShardMigrationManager :=
  set_active (set_heap m (heap m ++ [t])) (dict_set (task_id t) (length (heap m)) (_active_migrations m)).

Section manager.
Context `{RingHash} {V : Type}.

(** The calls of [send_keys], with their outcome, and of [delete_keys]. *)
Inductive event :=
  | Sent (target : string) (data : dict string V) (ok : bool)
  | Deleted (ks : list string).

Abbreviation proc := (prog ShardMigrationManager event).

Context (ring : Ring.ConsistentHashRing).
Context (local_keys : dict string V).
Context (send_keys : string → dict string V → res bool).
Context (delete_keys : list string → res unit).
Context (exn_str : exn → string).

(** [f"{kind}-{local}-to-{target}-{int(time.time())}"] *)
Definition make_id (kind local target : string) (now : time) : string :=
  kind +:+ "-" +:+ local +:+ "-to-" +:+ target +:+ "-" +:+ pretty (now / 1000000).

Definition on_node_join (now : time) (new_node : string) : proc (option nat) :=
  m ← get_state;
  let moving := base.filter (λ k, Ring.get_node ring k = Some new_node) (dict_keys local_keys) in
  if decide (moving = []) then mret None
  else
    modify (register (mkTask (make_id "migrate" (local_node_id m) new_node now)
                        (local_node_id m) new_node moving PENDING 0 None None None));;
    mret (Some (length (heap m))).

(** It only returns an empty list. *)
Definition on_node_leave (leaving : string) : proc (list nat) := mret [].

(** The target of a key that the local node should no longer hold. *)
Definition rebalance_target (m : ShardMigrationManager) (key : string) : option string :=
  if decide (local_node_id m ∈ Ring.get_nodes ring key (replication_factor m)) then None
  else match Ring.get_node ring key with
       | Some owner => if truthy_str owner && negb (bool_decide (owner = local_node_id m))
                       then Some owner else None
       | None => None
       end.

Definition plan (m : ShardMigrationManager) : dict string (list string) :=
  fold_left (λ d key,
    match rebalance_target m key with
    | Some owner => dict_set owner (dict_get_or d owner [] ++ [key]) d
    | None => d
    end) (dict_keys local_keys) [].

Definition calculate_rebalance_migrations (now : time) : proc nat :=
  m ← get_state;
  for_each (λ p : string * list string,
    modify (register (mkTask (make_id "rebalance" (local_node_id m) p.1 now)
                        (local_node_id m) p.1 p.2 PENDING 0 None None None))) (plan m);;
  mret (length (plan m)).

Definition batch_size : Z := 100.

(** One call of [send_keys] and the counters after it. *)
Definition send_batch (a : nat) (target : string) (data : dict string V) (failed : string) : proc () :=
  match send_keys target data with
  | Ok true =>
      emit (Sent target data true);;
      modify (mutate a (add_progress (Z.of_nat (length data))));;
      modify (λ m, let s := _stats m in
        set_stats m (mkStats (total_migrations s) (successful_migrations s) (failed_migrations s)
                       (keys_migrated s + Z.of_nat (length data)) (last_migration_time s)))
  | Ok false => emit (Sent target data false);; raise (PlainException failed)
  | Raise x => emit (Sent target data false);; raise x
  end.

(** The loop over the task's keys: what is left of the last batch. *)
Fixpoint send_loop (a : nat) (target : string) (ks : list string) (data : dict string V)
    : proc (dict string V) :=
  match ks with
  | [] => mret data
  | k :: ks =>
      match dict_get local_keys k with
      | None => send_loop a target ks data
      | Some v =>
          let data := dict_set k v data in
          if batch_size <=? Z.of_nat (length data) then
            send_batch a target data ("Failed to send batch to " +:+ target);;
            send_loop a target ks []
          else send_loop a target ks data
      end
  end.

(** The body of the [try]. *)
Definition transfer (fin : time) (a : nat) (t : MigrationTask) : proc () :=
  rest ← send_loop a (target_node t) (keys t) [];
  (if decide (rest = []) then mret ()
   else send_batch a (target_node t) rest ("Failed to send final batch to " +:+ target_node t));;
  m ← get_state;
  let gone := base.filter (λ k, local_node_id m ∉ Ring.get_nodes ring k (replication_factor m)) (keys t) in
  (if decide (gone = []) then mret () else emit (Deleted gone);; lift (delete_keys gone));;
  modify (mutate a (λ t, set_completed t fin));;
  modify (λ m, let s := _stats m in
    set_stats m (mkStats (total_migrations s) (successful_migrations s + 1) (failed_migrations s)
                   (keys_migrated s) (last_migration_time s))).

Definition _execute_migration (now fin : time) (a : nat) : proc () :=
  modify (mutate a (λ t, set_started t now));;
  m ← get_state;
  match heap m !! a with
  | None => mret ()
  | Some t =>
      catch (transfer fin a t) (λ x,
        modify (mutate a (λ t, set_failed t fin (exn_str x)));;
        modify (λ m, let s := _stats m in
          set_stats m (mkStats (total_migrations s) (successful_migrations s)
                         (failed_migrations s + 1) (keys_migrated s) (last_migration_time s))));;
      modify (λ m, let s := _stats m in
        set_stats m (mkStats (total_migrations s + 1) (successful_migrations s)
                       (failed_migrations s) (keys_migrated s) (Some fin)));;
      modify (λ m, set_active m (dict_del (task_id t) (_active_migrations m)));;
      modify (λ m, set_history m (last_n 100 (_migration_history m ++ [a])))
  end.

(** The addresses of the pending tasks, as one round of [_migration_loop]
    collects them, and the round. *)
Definition pending (m : ShardMigrationManager) : list nat :=
  base.filter (λ a, (state <$> heap m !! a) = Some PENDING) (dict_values (_active_migrations m)).

Definition migration_round (now fin : time) : proc () :=
  m ← get_state;
  for_each (_execute_migration now fin) (pending m).

Definition cancel_migration (id : string) : proc bool :=
  m ← get_state;
  match dict_get (_active_migrations m) id with
  | None => mret false
  | Some a =>
      match heap m !! a with
      | Some t =>
          if decide (state t = PENDING ∨ state t = IN_PROGRESS)
          then modify (mutate a (λ t, set_state t CANCELLED));; mret true
          else mret false
      | None => mret false
      end
  end.

Definition receive_migration_data (receive : dict string V → bool) (data : dict string V) : bool :=
  receive data.

Definition get_migration_status (m : ShardMigrationManager) : json :=
  JObj [("active_migrations", JArr (omap (λ a,
           match heap m !! a with
           | Some t => Some (JObj [("task_id", JStr (task_id t)); ("source", JStr (source_node t));
               ("target", JStr (target_node t)); ("state", JStr (migration_state_value (state t)));
               ("progress", JInt (progress t)); ("total_keys", JInt (Z.of_nat (length (keys t))))]%string)
           | None => None
           end) (dict_values (_active_migrations m))));
        ("stats", JObj [("total_migrations", JInt (total_migrations (_stats m)));
           ("successful", JInt (successful_migrations (_stats m)));
           ("failed", JInt (failed_migrations (_stats m)));
           ("keys_migrated", JInt (keys_migrated (_stats m)))]%string)]%string.

(** ** [RebalanceCoordinator]

    Its manager and its [_rebalancing] flag; the manager is the state of the
    program and the flag an argument and a result. *)

Definition start_rebalance (now : time) (rebalancing : bool) : proc (bool * bool) :=
  if rebalancing then mret (true, false)
  else catch (calculate_rebalance_migrations now;; mret (true, true)) (λ _, mret (false, false)).

(** The tasks that are listed as active. *)
Definition active_tasks (m : ShardMigrationManager) : list MigrationTask :=
  omap (λ a, heap m !! a) (dict_values (_active_migrations m)).

Record rebalance_progress := mkProgress {
  p_rebalancing : bool;
  p_active : Z;
  p_total : Z;
  p_migrated : Z;
  p_percent : Q;
}.

Definition get_rebalance_progress (rebalancing : bool) (m : ShardMigrationManager) : rebalance_progress :=
  let active := active_tasks m in
  let total := foldl Z.add 0 ((λ t, Z.of_nat (length (keys t))) <$> active) in
  let migrated := foldl Z.add 0 (progress <$> active) in
  mkProgress rebalancing (Z.of_nat (length active)) total migrated
    (if 0 <? total then inject_Z migrated / inject_Z total * 100 else 100)%Q.

End manager.
Arguments event V : clear implicits.
End Migration.
