(* ===== verification/MigrationFacts.v ===== *)
(** Key migration: what a task sends, when it deletes, and how it ends. *)

From S2P Require Import Prelude.
From S2P Require Import PyMonad.
From S2P Require Import PyDict.
From S2P Require Import Json.
From S2P Require Import Config.
From S2P Require Import Ring.
From S2P Require Import Migration.
#[local] Open Scope Z_scope.

Module MigrationF.
Import Migration.

Section migration.
Context `{RingHash} {V : Type}.
Context (ring : Ring.ConsistentHashRing).
Context (local_keys : dict string V).
Context (send_keys : string → dict string V → res bool).
Context (delete_keys : list string → res unit).
Context (exn_str : exn → string).

Abbreviation send_batch_ := (send_batch send_keys).
Abbreviation send_loop_ := (send_loop local_keys send_keys).
Abbreviation transfer_ := (transfer ring local_keys send_keys delete_keys).
Abbreviation execute := (_execute_migration ring local_keys send_keys delete_keys exn_str).

(** What [n] more migrated keys change. *)
Definition progressed (a : nat) (n : Z) (m : ShardMigrationManager) : ShardMigrationManager :=
  let s := _stats m in
  set_stats (mutate a (add_progress n) m)
    (mkStats (total_migrations s) (successful_migrations s) (failed_migrations s)
       (keys_migrated s + n) (last_migration_time s)).

Lemma progressed_0 a m : progressed a 0 m = m.
Proof.
  destruct m as [id rf h act hist [s1 s2 s3 s4 s5]]. unfold progressed, mutate, set_stats, set_heap. simpl.
  rewrite Z.add_0_r. f_equal. apply list_alter_id.
  intros [?????????]. unfold add_progress. simpl. by rewrite Z.add_0_r.
Qed.

Lemma progressed_add a n n' m : progressed a n' (progressed a n m) = progressed a (n + n') m.
Proof.
  destruct m as [id rf h act hist [s1 s2 s3 s4 s5]]. unfold progressed, mutate, set_stats, set_heap. simpl.
  rewrite list_alter_alter_eq, <-Z.add_assoc. f_equal. apply list_alter_ext; [|done].
  intros [?????????] _. unfold add_progress. simpl. by rewrite Z.add_assoc.
Qed.

Definition sent (target : string) (bs : list (dict string V)) : list (event V) :=
  (λ b, Sent target b true) <$> bs.

Lemma send_batch_spec a tgt data failed m :
  send_batch_ a tgt data failed m =
  match send_keys tgt data with
  | Ok true => (progressed a (Z.of_nat (length data)) m, [Sent tgt data true], Ok ())
  | Ok false => (m, [Sent tgt data false], Raise (PlainException failed))
  | Raise x => (m, [Sent tgt data false], Raise x)
  end.
Proof. unfold send_batch. by destruct (send_keys tgt data) as [[]|x]. Qed.

(** The task's keys that the local store still has, with their data. *)
Definition present (ks : list string) : dict string V :=
  omap (λ k, pair k <$> dict_get local_keys k) ks.

Lemma present_cons k ks : present (k :: ks) =
  match dict_get local_keys k with Some v => (k, v) :: present ks | None => present ks end.
Proof. unfold present. simpl. by destruct (dict_get local_keys k). Qed.

Definition total (bs : list (dict string V)) : Z := Z.of_nat (length (concat bs)).

Definition batch_ok (b : dict string V) : Prop := (0 < length b <= 100)%nat.

Lemma dict_set_fresh k (v : V) (data : dict string V) ks :
  NoDup (dict_keys data ++ k :: ks) → dict_set k v data = data ++ [(k, v)].
Proof.
  intros Hnd. apply dict_set_app_fresh, dict_get_None.
  apply NoDup_app in Hnd as (_ & Hd & _). intros Hk. apply (Hd k Hk). by left.
Qed.

(** What [send_keys] answered to a batch: it took it, or the task fails with
    the exception that the refusal turns into. *)
Definition accepted (tgt : string) (b : dict string V) : Prop := send_keys tgt b = Ok true.
Definition refused (tgt : string) (b : dict string V) (failed : string) (x : exn) : Prop :=
  (send_keys tgt b = Ok false ∧ x = PlainException failed) ∨ send_keys tgt b = Raise x.

(** The loop sends the keys in order, in batches of at most 100, and stops at
    the first batch that is refused. *)
Lemma send_loop_spec a tgt ks data m :
  NoDup (dict_keys data ++ ks) → (length data < 100)%nat →
  ∃ bs es r, send_loop_ a tgt ks data m = (progressed a (total bs) m, es, r) ∧
    Forall batch_ok bs ∧ Forall (accepted tgt) bs ∧
    match r with
    | Ok rest => es = sent tgt bs ∧ concat bs ++ rest = data ++ present ks ∧ (length rest < 100)%nat
    | Raise x => ∃ b, es = sent tgt bs ++ [Sent tgt b false] ∧ refused tgt b ("Failed to send batch to " +:+ tgt) x ∧
                   ∃ more, concat bs ++ b ++ more = data ++ present ks
    end.
Proof.
  revert data m. induction ks as [|k ks IH]; intros data m Hnd Hlen.
  { exists [], [], (Ok data). unfold total. simpl. rewrite progressed_0. split; [done|].
    split; [by apply Forall_nil_2|]. split; [by apply Forall_nil_2|]. by rewrite app_nil_r. }
  cbn [send_loop]. rewrite present_cons. destruct (dict_get local_keys k) as [v|] eqn:Ek.
  2: { apply IH; [|done]. apply NoDup_app in Hnd as (H1 & H2 & [_ H3]%NoDup_cons).
       apply NoDup_app. split; [done|]. split; [|done]. intros x Hx Hx'. apply (H2 x Hx). by right. }
  cbv zeta. rewrite (dict_set_fresh _ _ _ _ Hnd).
  assert (Hnd' : NoDup (dict_keys (data ++ [(k, v)]) ++ ks)).
  { unfold dict_keys in *. rewrite fmap_app, <-app_assoc. done. }
  assert (Hl : length (data ++ [(k, v)]) = S (length data)) by (rewrite length_app; simpl; lia).
  unfold batch_size. destruct (Z.leb_spec 100 (Z.of_nat (length (data ++ [(k, v)])))) as [Hfull|Hroom].
  - set (b := data ++ [(k, v)]) in *.
    assert (Hb : batch_ok b) by (unfold batch_ok; lia).
    assert (Hc : ∀ l, data ++ (k, v) :: l = b ++ l) by (intros l; unfold b; by rewrite <-app_assoc).
    unfold mbind, prog_bind. rewrite send_batch_spec.
    destruct (send_keys tgt b) as [[]|x] eqn:Esend.
    + destruct (IH [] (progressed a (Z.of_nat (length b)) m)) as (bs & es & r & Heq & Hbs & Hacc & Hr);
        [by apply NoDup_app in Hnd' as (_ & _ & ?)|simpl; lia|].
      rewrite Heq, progressed_add. exists (b :: bs), (Sent tgt b true :: es), r.
      split; [f_equal; f_equal; unfold total; simpl; rewrite length_app; f_equal; lia|].
      split; [by apply Forall_cons|]. split; [by apply Forall_cons|]. rewrite Hc. destruct r as [rest|x].
      * destruct Hr as (-> & Hcat & Hrest). split; [done|]. split; [|done].
        simpl. rewrite <-app_assoc. by f_equal.
      * destruct Hr as (bad & -> & Hrefused & more & Hcat). exists bad. split; [done|]. split; [done|]. exists more.
        simpl. rewrite <-app_assoc. by f_equal.
    + exists [], [Sent tgt b false], (Raise (PlainException ("Failed to send batch to " +:+ tgt))).
      rewrite progressed_0. split; [done|]. split; [by apply Forall_nil_2|]. split; [by apply Forall_nil_2|].
      exists b. split; [done|]. split; [by left|]. exists (present ks). by rewrite Hc.
    + exists [], [Sent tgt b false], (Raise x). rewrite progressed_0. split; [done|].
      split; [by apply Forall_nil_2|]. split; [by apply Forall_nil_2|].
      exists b. split; [done|]. split; [by right|]. exists (present ks). by rewrite Hc.
  - destruct (IH (data ++ [(k, v)]) m Hnd' ltac:(lia)) as (bs & es & r & Heq & Hbs & Hacc & Hr).
    exists bs, es, r. split; [done|]. split; [done|]. split; [done|]. by rewrite <-app_assoc in Hr.
Qed.

(** The error of a refused batch names its kind: one of the loop, or the last. *)
Definition failed_texts (tgt : string) : list string :=
  ["Failed to send batch to " +:+ tgt; "Failed to send final batch to " +:+ tgt]%string.

(** The same with the final batch. *)
Lemma send_all_spec a tgt ks m : NoDup ks →
  ∃ bs es r, (send_loop_ a tgt ks [] ≫= λ rest,
      if decide (rest = []) then mret () else send_batch_ a tgt rest ("Failed to send final batch to " +:+ tgt)) m =
    (progressed a (total bs) m, es, r) ∧ Forall batch_ok bs ∧ Forall (accepted tgt) bs ∧
    match r with
    | Ok _ => es = sent tgt bs ∧ concat bs = present ks
    | Raise x => ∃ b failed more, es = sent tgt bs ++ [Sent tgt b false] ∧ failed ∈ failed_texts tgt ∧
                   refused tgt b failed x ∧ concat bs ++ b ++ more = present ks
    end.
Proof.
  intros Hnd. destruct (send_loop_spec a tgt ks [] m Hnd ltac:(simpl; lia)) as (bs & es & r & Heq & Hbs & Hacc & Hr).
  unfold mbind, prog_bind. rewrite Heq. destruct r as [rest|x].
  2: { destruct Hr as (b & -> & Hb & more & Hcat). exists bs. eexists _, (Raise x). split; [done|].
       split; [done|]. split; [done|]. eexists b, _, more. split; [done|]. split; [by left|done]. }
  destruct Hr as (-> & Hcat & Hrest). simpl in Hcat. case_decide as Hnil.
  { subst rest. exists bs, (sent tgt bs), (Ok ()). simpl. rewrite !app_nil_r in *. done. }
  rewrite send_batch_spec. set (failed := "Failed to send final batch to " +:+ tgt).
  assert (Hb : batch_ok rest) by (unfold batch_ok; destruct rest; [done|simpl in *; lia]).
  assert (Hbad : ∀ x, refused tgt rest failed x → ∃ b failed more,
    sent tgt bs ++ [Sent tgt rest false] = sent tgt bs ++ [Sent tgt b false] ∧ failed ∈ failed_texts tgt ∧
    refused tgt b failed x ∧ concat bs ++ b ++ more = present ks).
  { intros x Hx. exists rest, failed, []. split; [done|]. split; [by right; left|]. split; [done|]. by rewrite app_nil_r. }
  destruct (send_keys tgt rest) as [[]|x] eqn:Esend.
  - rewrite progressed_add. exists (bs ++ [rest]), (sent tgt (bs ++ [rest])), (Ok ()).
    assert (Hcc : concat (bs ++ [rest]) = concat bs ++ rest)
      by (rewrite concat_app; simpl; by rewrite app_nil_r).
    split; [|split; [by apply Forall_app_2, Forall_singleton|split; [by apply Forall_app_2, Forall_singleton|]]].
    + unfold total. rewrite Hcc, length_app. unfold sent. rewrite fmap_app. repeat f_equal. lia.
    + split; [done|]. by rewrite Hcc.
  - eexists bs, _, _. split; [done|]. split; [done|]. split; [done|]. apply Hbad. by left.
  - eexists bs, _, _. split; [done|]. split; [done|]. split; [done|]. apply Hbad. by right.
Qed.

(** The keys the local node no longer replicates. *)
Definition not_replica (m : ShardMigrationManager) (ks : list string) : list string :=
  base.filter (λ k, local_node_id m ∉ Ring.get_nodes ring k (replication_factor m)) ks.

(** How a task ends, the calls it made and the exception that failed it, by what
    [send_keys] and [delete_keys] answered: every batch was accepted and nothing
    was to delete or the deletion went through; every batch was accepted and the
    deletion raised; or a batch was refused. *)
Definition outcome (m : ShardMigrationManager) (t : MigrationTask) (bs : list (dict string V))
    (st : MigrationState) (failure : option exn) (es : list (event V)) : Prop :=
  let gone := not_replica m (keys t) in
  let tgt := target_node t in
  Forall (accepted tgt) bs ∧
  ((st = COMPLETED ∧ failure = None ∧ concat bs = present (keys t) ∧ (gone = [] ∨ delete_keys gone = Ok ()) ∧
      es = sent tgt bs ++ (if decide (gone = []) then [] else [Deleted gone])) ∨
   (st = FAILED ∧ concat bs = present (keys t) ∧ gone ≠ [] ∧
      (∃ x, failure = Some x ∧ delete_keys gone = Raise x) ∧ es = sent tgt bs ++ [Deleted gone]) ∨
   (st = FAILED ∧ ∃ b failed more x, failure = Some x ∧ failed ∈ failed_texts tgt ∧ refused tgt b failed x ∧
      concat bs ++ b ++ more = present (keys t) ∧ es = sent tgt bs ++ [Sent tgt b false])).

Definition failure_of (r : res ()) : option exn := match r with Ok _ => None | Raise x => Some x end.

Lemma transfer_spec fin a t m : NoDup (keys t) →
  ∃ bs es r, transfer_ fin a t m =
      ((match r with
        | Ok _ => λ m, let s := _stats m in
            set_stats (mutate a (λ t, set_completed t fin) m)
              (mkStats (total_migrations s) (successful_migrations s + 1) (failed_migrations s)
                 (keys_migrated s) (last_migration_time s))
        | Raise _ => id
        end) (progressed a (total bs) m), es, r) ∧
    Forall batch_ok bs ∧
    outcome m t bs (match r with Ok _ => COMPLETED | Raise _ => FAILED end) (failure_of r) es.
Proof.
  intros Hnd. destruct (send_all_spec a (target_node t) (keys t) m Hnd) as (bs & es & r & Heq & Hbs & Hacc & Hr).
  exists bs. unfold transfer.
  rewrite (bind_assoc _ (λ rest, if decide (rest = []) then mret ()
    else send_batch_ a (target_node t) rest ("Failed to send final batch to " +:+ target_node t))).
  unfold mbind at 1, prog_bind at 1. rewrite Heq.
  destruct r as [[]|x].
  2: { exists es, (Raise x). split; [done|]. split; [done|]. split; [done|]. right; right. split; [done|].
       destruct Hr as (b & failed & more & -> & Hfailed & Hb & Hcat). by exists b, failed, more, x. }
  destruct Hr as [-> Hcat]. rewrite get_bind. cbn [local_node_id replication_factor progressed mutate set_stats set_heap].
  fold (not_replica m (keys t)). unfold outcome. cbv zeta.
  case_decide as Hgone.
  - eexists _, (Ok ()). split; [done|]. split; [done|]. split; [done|]. left. split_and!; auto.
  - destruct (delete_keys (not_replica m (keys t))) as [[]|x] eqn:Ed.
    + eexists _, (Ok ()). split; [unfold mbind, prog_bind; rewrite ?Ed; done|]. split; [done|]. split; [done|].
      left. split_and!; auto.
    + eexists _, (Raise x). split; [unfold mbind, prog_bind; rewrite ?Ed; done|]. split; [done|]. split; [done|].
      right; left. split_and!; try done. by exists x.
Qed.

(** Claim C24. Running a migration task, whose keys are distinct, never raises.
    It sends the task's keys that still exist, with their data, in order, once
    each, in batches of 1 to 100 keys, and stops at the first batch that is
    refused, by the answer or by an exception; after the last batch it deletes
    exactly the task's keys that the local node does not replicate.  The task ends
    COMPLETED when every batch was accepted and the deletion, if there was one,
    went through; it ends FAILED, with the text of the exception, when a batch was
    refused or the deletion raised.  The counter of its kind grows, its progress
    and the migrated keys grow by the number of keys accepted, and it leaves the
    table of active migrations. *)
Theorem execute_migration_spec now fin a m t
    (Ht : heap m !! a = Some t) (Hnd : NoDup (keys t)) :
  ∃ m' es bs t' failure, execute now fin a m = (m', es, Ok ()) ∧ Forall batch_ok bs ∧
    heap m' !! a = Some t' ∧ progress t' = progress t + total bs ∧
    (∀ x, failure = Some x → error t' = Some (exn_str x)) ∧
    _active_migrations m' = dict_del (task_id t) (_active_migrations m) ∧
    keys_migrated (_stats m') = keys_migrated (_stats m) + total bs ∧
    total_migrations (_stats m') = total_migrations (_stats m) + 1 ∧
    successful_migrations (_stats m') = successful_migrations (_stats m) + (if decide (state t' = COMPLETED) then 1 else 0) ∧
    failed_migrations (_stats m') = failed_migrations (_stats m) + (if decide (state t' = FAILED) then 1 else 0) ∧
    outcome m t bs (state t') failure es.
Proof.
  unfold _execute_migration. rewrite modify_bind, get_bind. set (m1 := mutate a _ m).
  assert (Hm1 : heap m1 !! a = Some (set_started t now)) by (unfold m1; simpl; by rewrite list_lookup_alter_eq, Ht).
  rewrite Hm1. destruct (transfer_spec fin a (set_started t now) m1 Hnd) as (bs & es & r & Heq & Hbs & Ho).
  unfold catch, mbind, prog_bind. rewrite Heq. destruct r as [[]|x].
  - eexists _, _, bs, _, _. split; [done|]. split; [done|]. cbn -[total].
    rewrite !list_lookup_alter_eq, Ht. split; [done|]. rewrite app_nil_r. split; [done|]. split; [|].
    2: { rewrite Z.add_0_r. repeat (split; [done|]). exact Ho. }
    by intros x.
  - eexists _, _, bs, _, _. split; [done|]. split; [done|]. cbn -[total].
    rewrite !list_lookup_alter_eq, Ht. split; [done|]. rewrite !app_nil_r. split; [done|]. split; [|].
    2: { rewrite Z.add_0_r. repeat (split; [done|]). exact Ho. }
    by intros y [= <-].
Qed.

End migration.

(** Node [n1] hands two keys, of which one still exists, to the only ring member. *)
Definition demo_ring : Ring.ConsistentHashRing := Ring.add_node (Ring.init 1) "n2".
Definition demo_task : MigrationTask :=
  mkTask "migrate-n1-to-n2-0" "n1" "n2" ["a"; "b"] PENDING 0 None None None.
Definition demo_manager : ShardMigrationManager := register demo_task (init "n1" 1).

Lemma execute_migration_spec_witness :
  ∃ m' es bs t' failure,
    _execute_migration demo_ring [("a", 7)]%string (λ _ _, Ok true) (λ _, Ok ()) (λ _, "error"%string) 1 2 0
      demo_manager = (m', es, Ok ()) ∧
    Forall batch_ok bs ∧ heap m' !! 0%nat = Some t' ∧ progress t' = 0 + total bs ∧
    state t' = COMPLETED ∧
    outcome demo_ring [("a", 7)]%string (λ _ _, Ok true) (λ _, Ok ()) demo_manager demo_task bs (state t') failure es.
Proof.
  destruct (execute_migration_spec demo_ring [("a", 7)]%string (λ _ _, Ok true) (λ _, Ok ())
    (λ _, "error"%string) 1 2 0 demo_manager demo_task) as
    (m' & es & bs & t' & failure & Hrun & Hbs & Ht & Hp & _ & _ & _ & _ & _ & _ & Ho);
    [reflexivity|by apply (bool_decide_unpack _)|].
  exists m', es, bs, t', failure. split_and!; [done|done|done|done| |done].
  assert (Hst : (state <$> heap (state_of (_execute_migration demo_ring [("a", 7)]%string (λ _ _, Ok true) (λ _, Ok ())
    (λ _, "error"%string) 1 2 0 demo_manager)) !! 0%nat) = Some COMPLETED) by by vm_compute.
  rewrite Hrun in Hst. unfold state_of in Hst. cbn [fst] in Hst. rewrite Ht in Hst. by injection Hst.
Defined.

End MigrationF.
