(* ===== verification/RateLimiter.v ===== *)
(** [minidb/chaos/rate_limiter.py]: the three rate limiters and the
    backpressure manager.

    Times are microseconds; tokens, rates, latencies and levels, floats in the
    source, are exact rationals.  Each call reads the clock once, so [now] is
    an argument. *)

From S2P Require Import Prelude.
From S2P Require Import PyDict.
From Stdlib Require Import QArith Qminmax.
#[local] Open Scope Z_scope.

Module RateLimit.

Record RateLimitStats := mkStats {
  total_requests : Z;
  allowed_requests : Z;
  rejected_requests : Z;
}.

Definition stats0 : RateLimitStats := mkStats 0 0 0.
Definition count (s : RateLimitStats) (allowed : bool) : RateLimitStats :=
  if allowed then mkStats (total_requests s + 1) (allowed_requests s + 1) (rejected_requests s)
  else mkStats (total_requests s + 1) (allowed_requests s) (rejected_requests s + 1).

(** A duration in seconds. *)
Definition to_seconds (t : time) : Q := (inject_Z t / 1000000)%Q.
Arguments to_seconds t%_Z_scope.

(** [rejected / total if total > 0 else 0] *)
Definition rejection_rate (s : RateLimitStats) : Q :=
  if 0 <? total_requests s
  then (inject_Z (rejected_requests s) / inject_Z (total_requests s))%Q else 0%Q.

(** ** [TokenBucketLimiter] *)

Record bucket := mkBucket { tokens : Q; last_update : time }.

Record TokenBucketLimiter := mkToken {
  rate : Q;
  burst : Z;
  _buckets : dict string bucket;
  t_stats : RateLimitStats;
}.

Definition token_init (r : Q) (b : Z) : TokenBucketLimiter := mkToken r b [] stats0.

(** The bucket of a key, full when it is new. *)
Definition _get_bucket (now : time) (l : TokenBucketLimiter) (key : string) : bucket :=
  default (mkBucket (inject_Z (burst l)) now) (dict_get (_buckets l) key).

Definition _refill (now : time) (l : TokenBucketLimiter) (b : bucket) : bucket :=
  mkBucket (Qmin (inject_Z (burst l)) (tokens b + to_seconds (now - last_update b) * rate l)) now.

Definition set_bucket (l : TokenBucketLimiter) (key : string) (b : bucket) s : TokenBucketLimiter :=
  mkToken (rate l) (burst l) (dict_set key b (_buckets l)) s.

Definition token_try_acquire (now : time) (l : TokenBucketLimiter) (key : string)
    : TokenBucketLimiter * bool :=
  let b := _refill now l (_get_bucket now l key) in
  if Qle_bool 1 (tokens b)
  then (set_bucket l key (mkBucket (tokens b - 1) (last_update b)) (count (t_stats l) true), true)
  else (set_bucket l key b (count (t_stats l) false), false).

Definition get_available_tokens (now : time) (l : TokenBucketLimiter) (key : string)
    : TokenBucketLimiter * Q :=
  let b := _refill now l (_get_bucket now l key) in
  (set_bucket l key b (t_stats l), tokens b).

(** ** [SlidingWindowLimiter] *)

Record SlidingWindowLimiter := mkSliding {
  max_requests : Z;
  window_seconds : time;
  _windows : dict string (list time);
  s_stats : RateLimitStats;
}.

Definition sliding_init (m : Z) (w : time) : SlidingWindowLimiter := mkSliding m w [] stats0.

(** [while window and window[0] < cutoff: window.popleft()] *)
Fixpoint cleanup (cutoff : time) (w : list time) : list time :=
  match w with
  | [] => []
  | t :: w' => if t <? cutoff then cleanup cutoff w' else w
  end.

Definition _cleanup_window (now : time) (l : SlidingWindowLimiter) (w : list time) : list time :=
  cleanup (now - window_seconds l) w.

(** The window of a key, empty when it is new. *)
Definition _get_window (l : SlidingWindowLimiter) (key : string) : list time := dict_get_or (_windows l) key [].

Definition set_window (l : SlidingWindowLimiter) (key : string) (w : list time) s : SlidingWindowLimiter :=
  mkSliding (max_requests l) (window_seconds l) (dict_set key w (_windows l)) s.

Definition sliding_try_acquire (now : time) (l : SlidingWindowLimiter) (key : string)
    : SlidingWindowLimiter * bool :=
  let w := _cleanup_window now l (_get_window l key) in
  if Z.of_nat (length w) <? max_requests l
  then (set_window l key (w ++ [now]) (count (s_stats l) true), true)
  else (set_window l key w (count (s_stats l) false), false).

Definition get_current_count (now : time) (l : SlidingWindowLimiter) (key : string)
    : SlidingWindowLimiter * Z :=
  let w := _cleanup_window now l (_get_window l key) in
  (set_window l key w (s_stats l), Z.of_nat (length w)).

(** ** [AdaptiveRateLimiter] *)

Record AdaptiveRateLimiter := mkAdaptive {
  min_rate : Q;
  max_rate : Q;
  adjustment_interval : time;
  _current_rate : Q;
  _limiter : TokenBucketLimiter;
  _last_adjustment : time;
  _recent_latencies : list Q;
  a_stats : RateLimitStats;
}.

(** [int(x)] *)
Definition to_int (x : Q) : Z := Z.quot (Qnum x) (Zpos (Qden x)).

Definition adaptive_init (now : time) (initial lo hi : Q) (interval : time) : AdaptiveRateLimiter :=
  mkAdaptive lo hi interval initial (token_init initial (to_int initial)) now [] stats0.

Definition _latency_threshold_high : Q := 1 # 10.
Definition _latency_threshold_low : Q := 1 # 100.

(** [_update_rate]: a new token bucket replaces the old one. *)
Definition _update_rate (l : AdaptiveRateLimiter) (new_rate : Q) : AdaptiveRateLimiter :=
  mkAdaptive (min_rate l) (max_rate l) (adjustment_interval l) new_rate
    (token_init new_rate (to_int new_rate)) (_last_adjustment l) (_recent_latencies l) (a_stats l).

Definition avg_latency (l : AdaptiveRateLimiter) : Q :=
  (foldr Qplus 0 (_recent_latencies l) / inject_Z (Z.of_nat (length (_recent_latencies l))))%Q.

Definition set_adjusted (l : AdaptiveRateLimiter) (now : time) : AdaptiveRateLimiter :=
  mkAdaptive (min_rate l) (max_rate l) (adjustment_interval l) (_current_rate l) (_limiter l) now
    (_recent_latencies l) (a_stats l).

(** [a < b] on floats. *)
Definition Qlt_bool (a b : Q) : bool := negb (Qle_bool b a).

Definition _maybe_adjust_rate (now : time) (l : AdaptiveRateLimiter) : AdaptiveRateLimiter :=
  if now - _last_adjustment l <? adjustment_interval l then l
  else
    let l := set_adjusted l now in
    match _recent_latencies l with
    | [] => l
    | _ =>
        if Qlt_bool _latency_threshold_high (avg_latency l)
        then _update_rate l (Qmax (min_rate l) (_current_rate l * (8 # 10)))
        else if Qlt_bool (avg_latency l) _latency_threshold_low
        then _update_rate l (Qmin (max_rate l) (_current_rate l * (11 # 10)))
        else l
    end.

Definition with_limiter (l : AdaptiveRateLimiter) t s : AdaptiveRateLimiter :=
  mkAdaptive (min_rate l) (max_rate l) (adjustment_interval l) (_current_rate l) t
    (_last_adjustment l) (_recent_latencies l) s.

Definition adaptive_try_acquire (now : time) (l : AdaptiveRateLimiter) (key : string)
    : AdaptiveRateLimiter * bool :=
  let l := _maybe_adjust_rate now l in
  let r := token_try_acquire now (_limiter l) key in
  (with_limiter l r.1 (count (a_stats l) r.2), r.2).

(** The deque keeps the last hundred. *)
Definition record_latency (l : AdaptiveRateLimiter) (x : Q) : AdaptiveRateLimiter :=
  mkAdaptive (min_rate l) (max_rate l) (adjustment_interval l) (_current_rate l) (_limiter l)
    (_last_adjustment l) (last_n 100 (_recent_latencies l ++ [x])) (a_stats l).

Definition apply_backpressure (l : AdaptiveRateLimiter) (factor : Q) : AdaptiveRateLimiter :=
  _update_rate l (Qmax (min_rate l) (_current_rate l * factor)).

(** ** [BackpressureManager] *)

Inductive RateLimiter :=
  | Token (l : TokenBucketLimiter)
  | Sliding (l : SlidingWindowLimiter)
  | Adaptive (l : AdaptiveRateLimiter).

Definition try_acquire (now : time) (l : RateLimiter) (key : string) : RateLimiter * bool :=
  match l with
  | Token l => let r := token_try_acquire now l key in (Token r.1, r.2)
  | Sliding l => let r := sliding_try_acquire now l key in (Sliding r.1, r.2)
  | Adaptive l => let r := adaptive_try_acquire now l key in (Adaptive r.1, r.2)
  end.

Record BackpressureManager := mkBackpressure {
  rate_limiter : RateLimiter;
  _queue_depths : dict string Z;
  _backpressure_level : Q;
}.

Definition bp_init (l : RateLimiter) : BackpressureManager := mkBackpressure l [] 0.

Definition _low_threshold : Z := 100.
Definition _high_threshold : Z := 1000.

(** [max(depths.values())] of a non-empty dict. *)
Definition max_depth (d : Z) (ds : list Z) : Z := foldl Z.max d ds.

Definition level_of (depth : Z) : Q :=
  if depth <=? _low_threshold then 0%Q
  else if _high_threshold <=? depth then 1%Q
  else (inject_Z (depth - _low_threshold) / inject_Z (_high_threshold - _low_threshold))%Q.

Definition _calculate_backpressure (m : BackpressureManager) : BackpressureManager :=
  match dict_values (_queue_depths m) with
  | [] => mkBackpressure (rate_limiter m) (_queue_depths m) 0
  | d :: ds =>
      let level := level_of (max_depth d ds) in
      let limiter := match rate_limiter m with
        | Adaptive l => if Qlt_bool (1 # 2) level
                        then Adaptive (apply_backpressure l (1 - level * (1 # 2))) else Adaptive l
        | l => l
        end in
      mkBackpressure limiter (_queue_depths m) level
  end.

Definition update_queue_depth (m : BackpressureManager) (name : string) (depth : Z) : BackpressureManager :=
  _calculate_backpressure
    (mkBackpressure (rate_limiter m) (dict_set name depth (_queue_depths m)) (_backpressure_level m)).

(** [draw] is [random.random()]. *)
Definition should_accept_request (now : time) (draw : Q) (m : BackpressureManager) (key : string)
    : BackpressureManager * bool :=
  if Qlt_bool (8 # 10) (_backpressure_level m) && Qlt_bool draw (_backpressure_level m - (1 # 2))
  then (m, false)
  else let r := try_acquire now (rate_limiter m) key in
       (mkBackpressure r.1 (_queue_depths m) (_backpressure_level m), r.2).

End RateLimit.
