(* ===== verification/RateLimiterFacts.v ===== *)
(** What the limiters guarantee: the admission bounds of the token bucket and
    of the sliding window, the range of the adaptive rate and of the
    backpressure level. *)

From S2P Require Import Prelude.
From S2P Require Import PyDict.
From S2P Require Import RateLimiter.
From Stdlib Require Import Sorted QArith Qminmax Lqa.
From stdpp Require Import sorting.
#[local] Open Scope Z_scope.

Module RateLimitF.
Import RateLimit.

(** Requests of several clients, in the order they arrive. *)
Definition request : Type := string * time.

Fixpoint run {L} (step : time → L → string → L * bool) (l : L) (rs : list request) : list bool :=
  match rs with
  | [] => []
  | (k, t) :: rs => let r := step t l k in r.2 :: run step r.1 rs
  end.

(** The requests of [key] that were admitted. *)
Definition admitted {L} (step : time → L → string → L * bool) (l : L) (rs : list request) (key : string)
    : list time :=
  omap (λ p : request * bool, if decide (p.1.1 = key) then if p.2 then Some p.1.2 else None else None)
    (zip rs (run step l rs)).

Lemma admitted_cons {L} step (l : L) k t rs key :
  admitted step l ((k, t) :: rs) key =
  (if decide (k = key) then if (step t l k).2 then [t] else [] else []) ++
    admitted step (step t l k).1 rs key.
Proof. unfold admitted. simpl. case_decide; [|done]. by destruct ((step t l k).2). Qed.

(** The limiter after some requests, and what it then answers to one of [key]. *)
Definition after {L} (step : time → L → string → L * bool) (l : L) (rs : list request) : L :=
  fold_left (λ l p, (step p.2 l p.1).1) rs l.

Definition admits {L} (step : time → L → string → L * bool) (l : L) (rs : list request) (key : string) (t : time) : bool :=
  (step t (after step l rs) key).2.

Lemma admitted_app {L} step (l : L) rs rs' key :
  admitted step l (rs ++ rs') key = admitted step l rs key ++ admitted step (after step l rs) rs' key.
Proof.
  revert l. induction rs as [|[k t] rs IH]; intros l; [done|]. cbn [Datatypes.app].
  by rewrite !admitted_cons, IH, app_assoc.
Qed.

(** A limiter that admits while fewer than [m] are admitted admits [m]. *)
Lemma admits_first {L} step (l : L) rs key (m : nat) : Forall (λ p, p.1 = key) rs →
  (∀ rs1 t rs2, rs = rs1 ++ (key, t) :: rs2 → (length (admitted step l rs1 key) < m)%nat →
    admits step l rs1 key t = true) →
  (Nat.min (length rs) m <= length (admitted step l rs key))%nat.
Proof.
  induction rs as [|[k t] rs IH] using rev_ind; intros Hk Hm; [done|].
  apply Forall_app in Hk as [Hk Ht]. apply Forall_cons in Ht as [Ht _]. change (k = key) in Ht. subst k.
  assert (IHm : (Nat.min (length rs) m <= length (admitted step l rs key))%nat).
  { apply IH; [done|]. intros rs1 t' rs2 ->. apply (Hm rs1 t' (rs2 ++ [(key, t)])). by rewrite <-app_assoc. }
  rewrite admitted_app, admitted_cons, !length_app. cbn [length].
  destruct (decide (length (admitted step l rs key) < m)%nat) as [Hlt|Hge]; [|lia].
  specialize (Hm rs t [] eq_refl Hlt). unfold admits in Hm. rewrite decide_True, Hm by done. simpl. lia.
Qed.

(** Arrival times that never go back, all in [lo..hi]. *)
Fixpoint ordered (lo hi : time) (rs : list request) : Prop :=
  match rs with
  | [] => lo <= hi
  | (_, t) :: rs => lo <= t ∧ ordered t hi rs
  end.

Lemma ordered_le lo hi rs : ordered lo hi rs → lo <= hi.
Proof. revert lo. induction rs as [|[k t] rs IH]; intros lo; [done|]. intros [? ?%IH]. lia. Qed.

Lemma admitted_between {L} step (l : L) lo hi rs key t : ordered lo hi rs → t ∈ admitted step l rs key → lo <= t <= hi.
Proof.
  revert l lo. induction rs as [|[k t'] rs IH]; intros l lo; [by intros _ ?%not_elem_of_nil|].
  intros [Hlo Hord]. pose proof (ordered_le _ _ _ Hord). rewrite admitted_cons.
  intros [Ht|Ht%(IH _ t')]%elem_of_app; [|lia|done].
  repeat case_match; try by apply not_elem_of_nil in Ht. apply list_elem_of_singleton in Ht. lia.
Qed.

(** ** Token bucket *)

(** The most a key can still be granted until [hi]. *)
Definition allowance (l : TokenBucketLimiter) (lo hi : time) (key : string) : Q :=
  match dict_get (_buckets l) key with
  | Some b => (tokens b + to_seconds (hi - last_update b) * rate l)%Q
  | None => (inject_Z (burst l) + to_seconds (hi - lo) * rate l)%Q
  end.

Definition buckets_ok (l : TokenBucketLimiter) (lo : time) : Prop :=
  ∀ k b, dict_get (_buckets l) k = Some b → (0 <= tokens b)%Q ∧ last_update b <= lo.

Lemma to_seconds_add a b : (to_seconds (a + b) == to_seconds a + to_seconds b)%Q.
Proof. unfold to_seconds. rewrite inject_Z_plus. field. Qed.

Lemma to_seconds_nonneg a : 0 <= a → (0 <= to_seconds a)%Q.
Proof.
  intros Ha. unfold to_seconds. apply Qle_shift_div_l; [done|]. rewrite Qmult_0_l.
  by apply (inject_Z_le 0) || by (unfold Qle, inject_Z; simpl; lia).
Qed.

Lemma to_seconds_split hi t lo : (to_seconds (hi - lo) == to_seconds (hi - t) + to_seconds (t - lo))%Q.
Proof. rewrite <-to_seconds_add. by replace (hi - t + (t - lo)) with (hi - lo) by lia. Qed.

Lemma token_step t l k : let r := token_try_acquire t l k in
  let b := _refill t l (_get_bucket t l k) in
  _buckets r.1 = dict_set k (if r.2 then mkBucket (tokens b - 1) t else b) (_buckets l) ∧
  rate r.1 = rate l ∧ burst r.1 = burst l ∧ (r.2 = true ↔ (1 <= tokens b)%Q).
Proof.
  cbv zeta. unfold token_try_acquire. rewrite <-Qle_bool_iff.
  by destruct (Qle_bool 1 _); simpl; repeat split.
Qed.

(** Refilling creates no tokens beyond the elapsed time. *)
Lemma refill_bound t l k lo hi : 0 <= burst l → (0 <= rate l)%Q → buckets_ok l lo → lo <= t →
  let b := _refill t l (_get_bucket t l k) in
  (0 <= tokens b)%Q ∧ (tokens b + to_seconds (hi - t) * rate l <= allowance l lo hi k)%Q.
Proof.
  intros Hb Hr Hok Hlo. cbv zeta. unfold _refill, _get_bucket, allowance. simpl.
  pose proof (to_seconds_nonneg (t - lo) ltac:(lia)) as Hs.
  assert (Hbq : (0 <= inject_Z (burst l))%Q) by (unfold Qle, inject_Z; simpl; lia).
  destruct (dict_get (_buckets l) k) as [b|] eqn:Eb; simpl.
  - destruct (Hok k b Eb) as [Ht Hl].
    pose proof (to_seconds_nonneg (t - last_update b) ltac:(lia)) as Hs'.
    pose proof (to_seconds_split hi t (last_update b)) as Hsp.
    pose proof (Qmult_le_0_compat _ _ Hs' Hr) as Hgain. split.
    + apply Q.min_glb; [done|]. lra.
    + pose proof (Q.le_min_r (inject_Z (burst l)) (tokens b + to_seconds (t - last_update b) * rate l)) as Hm.
      rewrite Hsp. lra.
  - rewrite Z.sub_diag. pose proof (to_seconds_split hi t lo) as Hsp.
    pose proof (Qmult_le_0_compat _ _ Hs Hr) as Hgain. split.
    + apply Q.min_glb; [done|]. assert ((to_seconds 0 == 0)%Q) as -> by reflexivity. lra.
    + pose proof (Q.le_min_l (inject_Z (burst l)) (inject_Z (burst l) + to_seconds 0 * rate l)) as Hm.
      rewrite Hsp. lra.
Qed.

Lemma allowance_step t l k lo hi key : 0 <= burst l → (0 <= rate l)%Q → buckets_ok l lo → lo <= t → t <= hi →
  let r := token_try_acquire t l k in
  buckets_ok r.1 t ∧
  (allowance r.1 t hi key + (if decide (k = key) then if r.2 then 1 else 0 else 0) <= allowance l lo hi key)%Q.
Proof.
  intros Hb Hr Hok Hlo Hhi. cbv zeta.
  destruct (token_step t l k) as (Hbk & Hrate & Hburst & Hadm).
  destruct (refill_bound t l k lo hi Hb Hr Hok Hlo) as [Hnn Hle]. cbv zeta in Hle, Hnn, Hbk, Hadm.
  set (b := _refill t l (_get_bucket t l k)) in *. set (r := token_try_acquire t l k) in *.
  assert (Hlast : last_update b = t) by done. clearbody b r. split.
  - intros k' b'. rewrite Hbk, dict_get_set. case_decide as Hk.
    + intros [= <-]. destruct (r.2) eqn:E; cbn [tokens last_update]; [|split; [done|lia]].
      apply proj1 in Hadm. specialize (Hadm eq_refl). split; [lra|lia].
    + intros ?%Hok. intuition lia.
  - unfold allowance at 1. rewrite Hbk, Hrate, Hburst, dict_get_set. case_decide as Hk.
    + subst key.
      destruct (r.2); cbn [tokens last_update]; rewrite ?Hlast; lra.
    + unfold allowance.
      destruct (dict_get (_buckets l) key) as [b'|] eqn:Eb; [lra|].
      pose proof (to_seconds_nonneg (t - lo) ltac:(lia)) as Hs.
      pose proof (Qmult_le_0_compat _ _ Hs Hr). rewrite (to_seconds_split hi t lo). lra.
Qed.

Lemma token_bound_gen l lo hi rs key : 0 <= burst l → (0 <= rate l)%Q → buckets_ok l lo → ordered lo hi rs →
  (inject_Z (Z.of_nat (length (admitted token_try_acquire l rs key))) <= allowance l lo hi key)%Q.
Proof.
  revert l lo. induction rs as [|[k t] rs IH]; intros l lo Hb Hr Hok Hord.
  - simpl in Hord. change (inject_Z (Z.of_nat _)) with 0%Q. unfold allowance.
    destruct (dict_get (_buckets l) key) as [b|] eqn:Eb.
    + destruct (Hok _ _ Eb). pose proof (to_seconds_nonneg (hi - last_update b) ltac:(lia)) as Hs.
      pose proof (Qmult_le_0_compat _ _ Hs Hr). lra.
    + pose proof (to_seconds_nonneg (hi - lo) ltac:(lia)) as Hs.
      pose proof (Qmult_le_0_compat _ _ Hs Hr).
      assert ((0 <= inject_Z (burst l))%Q) by (unfold Qle, inject_Z; simpl; lia). lra.
  - destruct Hord as [Hlo Hord]. pose proof (ordered_le _ _ _ Hord) as Hhi.
    destruct (allowance_step t l k lo hi key Hb Hr Hok Hlo Hhi) as [Hok' Hstep].
    destruct (token_step t l k) as (_ & Hrate & Hburst & _).
    pose proof (IH (token_try_acquire t l k).1 t ltac:(lia) ltac:(by rewrite Hrate) Hok' Hord) as IHr.
    rewrite admitted_cons, length_app, Nat2Z.inj_add, inject_Z_plus.
    cbv zeta in Hstep. set (rest := inject_Z (Z.of_nat (length (admitted _ _ rs key)))) in *.
    clearbody rest. destruct (decide (k = key)); [destruct (token_try_acquire t l k).2|];
      cbn [length]; change (inject_Z (Z.of_nat 1)) with 1%Q; change (inject_Z (Z.of_nat 0)) with 0%Q; lra.
Qed.

(** A client has at least the tokens of its burst that it has not used. *)
Definition unused (l : TokenBucketLimiter) (lo : time) (key : string) (used : Q) : Prop :=
  ∀ b, dict_get (_buckets l) key = Some b → last_update b <= lo ∧ (inject_Z (burst l) - used <= tokens b)%Q.

Lemma unused_refill t l lo key used : (0 <= rate l)%Q → (0 <= used)%Q → lo <= t → unused l lo key used →
  (inject_Z (burst l) - used <= tokens (_refill t l (_get_bucket t l key)))%Q.
Proof.
  intros Hr Hu Hlo Hun. unfold _refill, _get_bucket. cbn [tokens].
  destruct (dict_get (_buckets l) key) as [b|] eqn:E; simpl.
  - destruct (Hun b E) as [Hl Ht]. pose proof (to_seconds_nonneg (t - last_update b) ltac:(lia)) as Hs.
    pose proof (Qmult_le_0_compat _ _ Hs Hr). apply Q.min_glb; lra.
  - rewrite Z.sub_diag. assert ((to_seconds 0 == 0)%Q) as Hz by reflexivity.
    apply Q.min_glb; [lra|]. rewrite Hz. lra.
Qed.

Lemma unused_step t l k lo key used : (0 <= rate l)%Q → (0 <= used)%Q → lo <= t → unused l lo key used →
  let r := token_try_acquire t l k in
  unused r.1 t key (used + (if decide (k = key) then if r.2 then 1 else 0 else 0)).
Proof.
  intros Hr Hu Hlo Hun. cbv zeta. destruct (token_step t l k) as (Hbk & _ & Hburst & _).
  intros b. rewrite Hbk, Hburst, dict_get_set. case_decide as Hk.
  - subst k. pose proof (unused_refill t l lo key used Hr Hu Hlo Hun) as Hge. set (b' := _refill t l _) in *. assert (Hlast : last_update b' = t) by done. clearbody b'.
    intros [= <-]. destruct (token_try_acquire t l key).2; cbn [tokens last_update]; (split; [lia|]); lra.
  - intros Hb. destruct (Hun b Hb) as [Hl Ht]. split; [lia|]. lra.
Qed.

Lemma unused_after l lo hi key used rs rs' : (0 <= rate l)%Q → (0 <= used)%Q → ordered lo hi (rs ++ rs') →
  unused l lo key used →
  let l' := after token_try_acquire l rs in
  ∃ now, ordered now hi rs' ∧ rate l' = rate l ∧ burst l' = burst l ∧
    unused l' now key (used + inject_Z (Z.of_nat (length (admitted token_try_acquire l rs key)))).
Proof.
  cbv zeta. revert l lo used. induction rs as [|[k t] rs IH]; intros l lo used Hr Hu Hord Hun.
  { exists lo. split; [done|]. split; [done|]. split; [done|]. intros b Hb.
    change (inject_Z (Z.of_nat _)) with 0%Q. change (after _ l []) with l in *. destruct (Hun b Hb). split; [done|]. lra. }
  destruct Hord as [Hlo Hord]. destruct (token_step t l k) as (_ & Hrate & Hburst & _).
  pose proof (unused_step t l k lo key used Hr Hu Hlo Hun) as Hun1. cbv zeta in Hun1.
  assert (Hu1 : (0 <= used + (if decide (k = key) then if (token_try_acquire t l k).2 then 1 else 0 else 0))%Q)
    by (repeat case_match; lra).
  destruct (IH (token_try_acquire t l k).1 t _ ltac:(by rewrite Hrate) Hu1 Hord Hun1)
    as (now & Hnow & Hr' & Hb' & Hun').
  exists now. split; [done|]. cbn [after fold_left fst snd]. fold (after token_try_acquire (token_try_acquire t l k).1 rs).
  rewrite Hr', Hb', Hrate, Hburst. split; [done|]. split; [done|]. intros b Hb.
  destruct (Hun' b Hb) as [Hl Ht]. split; [done|]. rewrite admitted_cons, length_app, Nat2Z.inj_add, inject_Z_plus.
  set (rest := inject_Z (Z.of_nat (length (admitted _ _ rs key)))) in *. clearbody rest. revert Ht.
  destruct (decide (k = key)); [destruct (token_try_acquire t l k).2|]; cbn [length];
    change (inject_Z (Z.of_nat 1)) with 1%Q; change (inject_Z (Z.of_nat 0)) with 0%Q; rewrite Hb', Hburst; lra.
Qed.

(** A client whose burst is not used up is admitted. *)
Lemma token_first r b rs1 key t rs2 lo hi : (0 <= r)%Q → ordered lo hi (rs1 ++ (key, t) :: rs2) →
  Z.of_nat (length (admitted token_try_acquire (token_init r b) rs1 key)) < b →
  admits token_try_acquire (token_init r b) rs1 key t = true.
Proof.
  intros Hr Hord Hlt. destruct (unused_after (token_init r b) lo hi key 0 rs1 ((key, t) :: rs2) Hr ltac:(lra) Hord)
    as (now & [Hnow _] & Hr' & Hb' & Hun); [done|].
  unfold admits. destruct (token_step t (after token_try_acquire (token_init r b) rs1) key) as (_ & _ & _ & Hadm).
  apply Hadm. set (used := inject_Z _) in Hun.
  assert (Hu : (0 <= 0 + used)%Q) by (rewrite Qplus_0_l; unfold used; rewrite <-(Zle_Qle 0); lia).
  pose proof (unused_refill t _ now key _ ltac:(by rewrite Hr') Hu Hnow Hun) as Hge.
  rewrite Hb' in Hge. apply Qle_trans with (inject_Z b - (0 + used))%Q; [|exact Hge].
  assert (H1 : (inject_Z (Z.of_nat (length (admitted token_try_acquire (token_init r b) rs1 key)) + 1) <= inject_Z b)%Q)
    by (rewrite <-Zle_Qle; lia).
  rewrite inject_Z_plus in H1. fold used in H1. change (inject_Z 1) with 1%Q in H1. lra.
Qed.

(** Claim C37. The token bucket enforces its rate: however the requests of all
    clients interleave, over any stretch of time from [lo] to [hi] on a clock
    that does not go back, a client is admitted at most [burst + rate * (hi -
    lo)] times (rates per second), starting from a fresh limiter; and a client
    that was admitted fewer than [burst] times is admitted. *)
Theorem token_bucket_rate_bound (r : Q) (b : Z) rs key lo hi
    (Hb : 0 <= b) (Hr : (0 <= r)%Q) (Hord : ordered lo hi rs) :
  (inject_Z (Z.of_nat (length (admitted token_try_acquire (token_init r b) rs key)))
     <= inject_Z b + to_seconds (hi - lo) * r)%Q ∧
  ∀ rs1 t rs2, rs = rs1 ++ (key, t) :: rs2 →
    Z.of_nat (length (admitted token_try_acquire (token_init r b) rs1 key)) < b →
    admits token_try_acquire (token_init r b) rs1 key t = true.
Proof.
  split; [by apply (token_bound_gen (token_init r b) lo hi rs key)|].
  intros rs1 t rs2 ->. by apply (token_first _ _ _ _ _ rs2 lo hi).
Qed.

Definition demo_requests : list request := [("a", 0); ("a", 1); ("b", 2); ("a", 1000000)]%string.

Lemma token_bucket_rate_bound_witness :
  (inject_Z (Z.of_nat (length (admitted token_try_acquire (token_init 2 1) demo_requests "a"%string)))
     <= inject_Z 1 + to_seconds (1000000 - 0) * 2)%Q ∧
  admits token_try_acquire (token_init 2 1) [("a", 0); ("a", 1)]%string "b" 2 = true.
Proof.
  split.
  - apply (token_bucket_rate_bound 2 1 demo_requests "a" 0 1000000); [lia|discriminate|simpl; lia].
  - apply (proj2 (token_bucket_rate_bound 2 1 demo_requests "b" 0 1000000 ltac:(lia) ltac:(discriminate)
      ltac:(simpl; lia)) _ _ [("a", 1000000)]%string); [done|]. vm_compute. done.
Defined.

(** ** Sliding window *)

(** The admitted times within [a..a + w]. *)
Definition in_window (a w : time) (ts : list time) : list time :=
  base.filter (λ t, a <= t <= a + w) ts.

Definition window_ok (m : Z) (w : time) (ts : list time) : Prop :=
  ∀ a, Z.of_nat (length (in_window a w ts)) <= m.

(** The window kept for a key, against everything admitted so far: old times
    left it, and every one it lost is older than some cutoff. *)
Record tracks (w : time) (now : time) (past win : list time) : Prop := {
  tr_old : ∃ old, past = old ++ win ∧ ∀ t, t ∈ old → t < now - w;
  tr_past : ∀ t, t ∈ past → t <= now;
  tr_sorted : StronglySorted Z.le past;
}.

Lemma cleanup_spec cutoff win : ∃ old, win = old ++ cleanup cutoff win ∧ ∀ t, t ∈ old → t < cutoff.
Proof.
  induction win as [|t win IH]; simpl.
  { exists []. split; [done|]. intros t Ht. by apply not_elem_of_nil in Ht. }
  destruct (Z.ltb_spec t cutoff).
  - destruct IH as (old & Heq & Hold). exists (t :: old). split; [by rewrite Heq at 1|].
    intros x [->|Hx]%elem_of_cons; auto.
  - exists []. split; [done|]. intros x Hx. by apply not_elem_of_nil in Hx.
Qed.

Lemma cleanup_recent cutoff win : StronglySorted Z.le win → ∀ t, t ∈ cleanup cutoff win → cutoff <= t.
Proof.
  induction 1 as [|t win Hs IH Hf]; cbn [cleanup]; [by intros t ?%not_elem_of_nil|].
  destruct (Z.ltb_spec t cutoff) as [Hlt|Hge]; [exact IH|]. rewrite Forall_forall in Hf.
  intros x [->|Hx%Hf]%elem_of_cons; lia.
Qed.

Lemma tracks_later w now t past win : now <= t → tracks w now past win →
  tracks w t past (cleanup (t - w) win).
Proof.
  intros Hle [(old & -> & Hold) Hp Hs]. destruct (cleanup_spec (t - w) win) as (old' & Heq & Hold').
  split; [|intros x ?%Hp; lia|done]. exists (old ++ old'). split.
  - rewrite <-app_assoc. by rewrite <-Heq.
  - intros x [?%Hold|?%Hold']%elem_of_app; lia.
Qed.

Lemma window_admit m w t past win : 0 <= w → tracks w t past win →
  Z.of_nat (length win) < m → window_ok m w past → window_ok m w (past ++ [t]).
Proof.
  intros Hw [(old & -> & Hold) Hp _] Hlen Hok a. unfold in_window in *.
  rewrite filter_app, length_app. rewrite (filter_cons _ t), filter_nil.
  destruct (decide (a <= t <= a + w)) as [Hin|Hout].
  - rewrite filter_app, (pfilter_none _ old); [|intros x ?%Hold; lia]. simpl.
    match goal with |- context [length ?f] =>
      assert ((length f <= length win)%nat) by apply length_filter end. lia.
  - rewrite Nat.add_0_r. apply Hok.
Qed.

Definition sliding_inv (l : SlidingWindowLimiter) (now : time) (key : string) (past : list time) : Prop :=
  tracks (window_seconds l) now past (dict_get_or (_windows l) key []) ∧
  window_ok (max_requests l) (window_seconds l) past.

Lemma sliding_step t l k lo key past : 0 <= window_seconds l → lo <= t →
  sliding_inv l lo key past →
  let r := sliding_try_acquire t l k in
  max_requests r.1 = max_requests l ∧ window_seconds r.1 = window_seconds l ∧
  sliding_inv r.1 t key (past ++ (if decide (k = key) then if r.2 then [t] else [] else [])).
Proof.
  intros Hw Hle [Htr Hok]. cbv zeta. unfold sliding_try_acquire, _cleanup_window, _get_window.
  pose proof (tracks_later _ _ t _ _ Hle Htr) as Htr'.
  destruct (decide (k = key)) as [->|Hne].
  - destruct (Z.ltb_spec (Z.of_nat (length (cleanup (t - window_seconds l) (dict_get_or (_windows l) key [])))) (max_requests l)) as [Hlt|Hge]; simpl;
      (split; [done|]); (split; [done|]); unfold sliding_inv, dict_get_or; simpl;
      rewrite dict_get_set_eq; simpl.
    + split; [|by eapply window_admit].
      destruct Htr' as [(old & Heq & Hold) Hp Hs]. split.
      * exists old. split; [|done]. rewrite app_assoc. by f_equal.
      * intros x [Hx|Hx%list_elem_of_singleton]%elem_of_app; [by apply Hp|by subst].
      * apply StronglySorted_app. split; [|split; [done|by repeat constructor]].
        intros x y Hx%Hp Hy%list_elem_of_singleton. by subst.
    + rewrite app_nil_r. done.
  - rewrite app_nil_r.
    assert (Hgen : ∀ w s, sliding_inv (set_window l k w s) t key past).
    { intros w s. unfold sliding_inv, dict_get_or. simpl. rewrite dict_get_set_ne by done.
      split; [|done]. destruct Htr as [(old & Heq & Hold) Hp Hs].
      split; [exists old; split; [done|]; intros x ?%Hold; lia| |done]. intros x ?%Hp. lia. }
    destruct (_ <? _); simpl; (split; [done|]); (split; [done|]); apply Hgen.
Qed.

Lemma sliding_after l lo hi key past rs rs' : 0 <= window_seconds l → ordered lo hi (rs ++ rs') →
  sliding_inv l lo key past →
  let l' := after sliding_try_acquire l rs in
  ∃ now, ordered now hi rs' ∧ max_requests l' = max_requests l ∧ window_seconds l' = window_seconds l ∧
    sliding_inv l' now key (past ++ admitted sliding_try_acquire l rs key).
Proof.
  cbv zeta. revert l lo past. induction rs as [|[k t] rs IH]; intros l lo past Hw Hord Hinv.
  - exists lo. rewrite app_nil_r. by split_and!.
  - destruct Hord as [Hlo Hord].
    destruct (sliding_step t l k lo key past Hw Hlo Hinv) as (Hm & Hws & Hinv').
    destruct (IH _ t _ ltac:(by rewrite Hws) Hord Hinv') as (now & Hnow & Hm' & Hws' & Hi).
    exists now. rewrite admitted_cons, app_assoc. split; [done|].
    split; [by etrans|]. split; [by etrans|]. exact Hi.
Qed.

(** A request is admitted exactly when the window before it has room. *)
Lemma sliding_admits t l key lo past : lo <= t → sliding_inv l lo key past →
  (sliding_try_acquire t l key).2 = true ↔
    Z.of_nat (length (in_window (t - window_seconds l) (window_seconds l) past)) < max_requests l.
Proof.
  intros Hlo [Htr _]. pose proof (tracks_later _ _ t _ _ Hlo Htr) as [(old & Heq & Hold) Hp _].
  unfold sliding_try_acquire, _cleanup_window, _get_window. set (win := dict_get_or _ _ _) in *.
  assert (Hs : StronglySorted Z.le win).
  { destruct Htr as [(old' & -> & _) _ Hs]. by apply StronglySorted_app in Hs as (_ & _ & Hs). }
  assert (Hin : in_window (t - window_seconds l) (window_seconds l) past = cleanup (t - window_seconds l) win).
  { rewrite Heq. unfold in_window. rewrite filter_app, (pfilter_none _ old) by (intros x ?%Hold; lia).
    rewrite app_nil_l. apply pfilter_all. intros x Hx.
    pose proof (cleanup_recent _ _ Hs x Hx). specialize (Hp x). rewrite Heq, elem_of_app in Hp. specialize (Hp (or_intror Hx)). lia. }
  rewrite Hin. destruct (Z.ltb_spec (Z.of_nat (length (cleanup (t - window_seconds l) win))) (max_requests l)); cbn [snd]; split; try done; lia.
Qed.

Lemma sliding_init_inv m w lo key : 0 <= m → sliding_inv (sliding_init m w) lo key [].
Proof.
  intros Hm. split; [|intros x; unfold in_window; simpl; lia].
  split; [exists []; split; [done|]|..]; [by intros t ?%not_elem_of_nil..|constructor].
Qed.

Lemma sliding_exact m w rs1 key t rs2 lo hi : 0 <= m → 0 <= w → ordered lo hi (rs1 ++ (key, t) :: rs2) →
  admits sliding_try_acquire (sliding_init m w) rs1 key t = true ↔
    Z.of_nat (length (in_window (t - w) w (admitted sliding_try_acquire (sliding_init m w) rs1 key))) < m.
Proof.
  intros Hm Hw Hord.
  destruct (sliding_after (sliding_init m w) lo hi key [] rs1 ((key, t) :: rs2) Hw Hord (sliding_init_inv m w lo key Hm))
    as (now & [Hnow _] & Hm' & Hw' & Hinv).
  pose proof (sliding_admits t _ key now _ Hnow Hinv) as Ha. by rewrite Hm', Hw' in Ha.
Qed.

(** Claim C38. The sliding window enforces its limit exactly: no interval of
    the window's length, wherever it starts, contains more than
    [max_requests] admitted requests of one client, however the requests of
    all clients interleave on a clock that does not go back; and a request is
    admitted exactly when the window that ends with it has fewer. *)
Theorem sliding_window_bound m w rs key lo hi
    (Hm : 0 <= m) (Hw : 0 <= w) (Hord : ordered lo hi rs) :
  (∀ a, Z.of_nat (length (in_window a w (admitted sliding_try_acquire (sliding_init m w) rs key))) <= m) ∧
  ∀ rs1 t rs2, rs = rs1 ++ (key, t) :: rs2 →
    admits sliding_try_acquire (sliding_init m w) rs1 key t = true ↔
      Z.of_nat (length (in_window (t - w) w (admitted sliding_try_acquire (sliding_init m w) rs1 key))) < m.
Proof.
  split; [|intros rs1 t rs2 ->; by apply (sliding_exact _ _ _ _ _ rs2 lo hi)].
  rewrite <-(app_nil_r rs) in Hord.
  destruct (sliding_after (sliding_init m w) lo hi key [] rs [] Hw Hord (sliding_init_inv m w lo key Hm))
    as (now & _ & Hm' & Hw' & [_ Hok]).
  rewrite Hm', Hw' in Hok. exact Hok.
Qed.

Lemma sliding_window_bound_witness :
  Z.of_nat (length (in_window 0 10 (admitted sliding_try_acquire (sliding_init 1 10)
    demo_requests "a"%string))) <= 1 ∧
  admits sliding_try_acquire (sliding_init 1 10) (take 3 demo_requests) "a" 1000000 = true.
Proof.
  pose proof (sliding_window_bound 1 10 demo_requests "a" 0 1000000 ltac:(lia) ltac:(lia) ltac:(simpl; lia)) as [Hb Ha].
  split; [apply Hb|]. apply (Ha (take 3 demo_requests) 1000000 []); [done|]. by vm_compute.
Defined.

(** ** Adaptive limiter *)

Inductive adaptive_op :=
  | TryAcquire (now : time) (key : string)
  | RecordLatency (x : Q)
  | ApplyBackpressure (factor : Q).

Definition adaptive_step (l : AdaptiveRateLimiter) (o : adaptive_op) : AdaptiveRateLimiter :=
  match o with
  | TryAcquire now key => (adaptive_try_acquire now l key).1
  | RecordLatency x => record_latency l x
  | ApplyBackpressure f => apply_backpressure l f
  end.

(** Backpressure only reduces. *)
Definition op_ok (o : adaptive_op) : Prop :=
  match o with ApplyBackpressure f => (f <= 1)%Q | _ => True end.

Definition rate_ok (l : AdaptiveRateLimiter) : Prop :=
  (0 <= min_rate l)%Q ∧ (min_rate l <= _current_rate l)%Q ∧ (_current_rate l <= max_rate l)%Q ∧
  rate (_limiter l) = _current_rate l ∧ (length (_recent_latencies l) <= 100)%nat.

Lemma update_rate_ok l r : (0 <= min_rate l)%Q → (min_rate l <= r)%Q → (r <= max_rate l)%Q →
  (length (_recent_latencies l) <= 100)%nat → rate_ok (_update_rate l r).
Proof. by intros. Qed.

Lemma max_rate_ok (lo hi c f : Q) : (0 <= lo)%Q → (lo <= c)%Q → (c <= hi)%Q → (f <= 1)%Q →
  (lo <= Qmax lo (c * f))%Q ∧ (Qmax lo (c * f) <= hi)%Q.
Proof.
  intros H0 Hlo Hhi Hf. split; [apply Q.le_max_l|]. apply Q.max_lub; [lra|].
  assert ((c * f <= c * 1)%Q) by (rewrite !(Qmult_comm c); apply Qmult_le_compat_r; lra). lra.
Qed.

Lemma adjust_ok now l : rate_ok l → rate_ok (_maybe_adjust_rate now l).
Proof.
  intros Hok. unfold _maybe_adjust_rate. case_match; [done|].
  destruct (_recent_latencies (set_adjusted l now)) eqn:El; [done|].
  destruct Hok as (H0 & Hlo & Hhi & Hrate & Hlen).
  case_match; [|case_match; [|done]]; apply update_rate_ok; try done.
  - refine (proj1 (max_rate_ok _ _ _ _ H0 Hlo Hhi _)). discriminate.
  - refine (proj2 (max_rate_ok _ _ _ _ H0 Hlo Hhi _)). discriminate.
  - simpl. apply Q.min_glb; lra.
  - simpl. apply Q.le_min_l.
Qed.

Lemma adaptive_step_ok l o : rate_ok l → op_ok o → rate_ok (adaptive_step l o).
Proof.
  intros Hok Ho. destruct o as [now key|x|f]; simpl.
  - pose proof (adjust_ok now l Hok) as (H0 & Hlo & Hhi & Hrate & Hlen).
    destruct (token_step now (_limiter (_maybe_adjust_rate now l)) key) as (_ & Hr & _).
    split; [done|]. split; [done|]. split; [done|]. split; [|done]. simpl. by rewrite Hr.
  - destruct Hok as (H0 & Hlo & Hhi & Hrate & Hlen). split; [done|]. split; [done|]. split; [done|].
    split; [done|]. simpl. rewrite last_n_length. lia.
  - destruct Hok as (H0 & Hlo & Hhi & Hrate & Hlen). destruct (max_rate_ok _ _ _ _ H0 Hlo Hhi Ho). by apply update_rate_ok.
Qed.

(** The adaptive limiter never leaves its bounds: from an initial
    rate within them, every sequence of requests, recorded latencies and
    backpressure factors of at most one keeps the rate between [min_rate] and
    [max_rate], the inner token bucket at that rate, and at most a hundred
    latencies. *)
Theorem adaptive_rate_bounds now initial lo hi interval ops
    (H0 : (0 <= lo)%Q) (Hlo : (lo <= initial)%Q) (Hhi : (initial <= hi)%Q) (Hops : Forall op_ok ops) :
  let l := foldl adaptive_step (adaptive_init now initial lo hi interval) ops in
  (lo <= _current_rate l)%Q ∧ (_current_rate l <= hi)%Q ∧ rate (_limiter l) = _current_rate l ∧
  (length (_recent_latencies l) <= 100)%nat.
Proof.
  assert (Hgen : ∀ l, min_rate l = lo → max_rate l = hi → rate_ok l →
    rate_ok (foldl adaptive_step l ops) ∧ min_rate (foldl adaptive_step l ops) = lo ∧
    max_rate (foldl adaptive_step l ops) = hi).
  { induction Hops as [|o ops Ho Hops IH]; intros l Hl Hh Hok; [done|]. simpl.
    assert (Hb : min_rate (adaptive_step l o) = min_rate l ∧ max_rate (adaptive_step l o) = max_rate l).
    { destruct o; simpl; [|done|done]. unfold _maybe_adjust_rate.
      case_match; [done|]. case_match; [done|]. case_match; [done|]. by case_match. }
    destruct Hb as [Hb1 Hb2]. apply IH; [by rewrite Hb1|by rewrite Hb2|by apply adaptive_step_ok]. }
  destruct (Hgen (adaptive_init now initial lo hi interval)) as ((_ & H1 & H2 & H3 & H4) & Hmin & Hmax);
    [done|done|split; [done|]; split; [done|]; split; [done|]; split; [done|simpl; lia]|].
  cbv zeta. rewrite Hmin in H1. rewrite Hmax in H2. done.
Qed.

Lemma adaptive_rate_bounds_witness :
  let l := foldl adaptive_step (adaptive_init 0 100 10 1000 1000000)
             [RecordLatency (1 # 2); TryAcquire 2000000 "a"; ApplyBackpressure (1 # 2)] in
  (10 <= _current_rate l)%Q ∧ (_current_rate l <= 1000)%Q ∧ rate (_limiter l) = _current_rate l ∧
  (length (_recent_latencies l) <= 100)%nat.
Proof.
  apply (adaptive_rate_bounds 0 100 10 1000 1000000); [discriminate..|].
  repeat (apply Forall_cons; split; [done|]). apply Forall_nil_2.
Defined.

End RateLimitF.
