(* ===== verification/FaultInjection.v ===== *)
(** [minidb/chaos/fault_injection.py]: the fault injector, and which network
    operations it fails.

    A query draws at most one random number per fault: [draw] and [jitter]
    give them by fault id.  The parameters the code reads are options. *)

From S2P Require Import Prelude.
From S2P Require Import PyMonad.
From S2P Require Import PyDict.
From S2P Require Import Json.
From S2P Require Import RateLimiter.
From Stdlib Require Import QArith.
#[local] Open Scope Z_scope.

Inductive FaultType :=
  | NETWORK_DELAY | NETWORK_DROP | NETWORK_PARTITION | DISK_SLOW | DISK_FAIL
  | PROCESS_PAUSE | MEMORY_PRESSURE | CLOCK_SKEW | LEADER_KILL | RANDOM_CRASH.

Definition fault_type_value (t : FaultType) : string :=
  match t with
  | NETWORK_DELAY => "NETWORK_DELAY" | NETWORK_DROP => "NETWORK_DROP"
  | NETWORK_PARTITION => "NETWORK_PARTITION" | DISK_SLOW => "DISK_SLOW" | DISK_FAIL => "DISK_FAIL"
  | PROCESS_PAUSE => "PROCESS_PAUSE" | MEMORY_PRESSURE => "MEMORY_PRESSURE"
  | CLOCK_SKEW => "CLOCK_SKEW" | LEADER_KILL => "LEADER_KILL" | RANDOM_CRASH => "RANDOM_CRASH"
  end.

#[export] Instance fault_type_eq_dec : EqDecision FaultType.
Proof. solve_decision. Defined.

Module Faults.

Record parameters := mkParams {
  partition_from : option (list string);
  delay_ms : option Z;
  jitter_ms : option Z;
  skew_seconds : option time;
  pause_duration : option time;
}.

Definition no_params : parameters := mkParams None None None None None.

Record Fault := mkFault {
  fault_id : string;
  fault_type : FaultType;
  target_nodes : list string;
  probability : Q;
  duration_seconds : time;
  params : parameters;
  start_time : option time;
  active : bool;
}.

Definition set_start (f : Fault) (t : time) : Fault :=
  mkFault (fault_id f) (fault_type f) (target_nodes f) (probability f) (duration_seconds f)
    (params f) (Some t) (active f).

Record FaultStats := mkStats {
  total_faults_injected : Z;
  network_delays_injected : Z;
  packets_dropped : Z;
  disk_failures_injected : Z;
  partitions_created : Z;
  leader_kills : Z;
}.

Record FaultInjector := mkInjector {
  node_id : string;
  enabled : bool;
  _faults : dict string Fault;
  _partitioned_from : gset string;
  _stats : FaultStats;
}.

Inductive fault_event := OnLeaderKill | OnPause (d : time) | OnCrash.

Abbreviation proc := (prog FaultInjector fault_event).

Definition init (id : string) (e : bool) : FaultInjector :=
  mkInjector id e [] ∅ (mkStats 0 0 0 0 0 0).

Definition set_enabled (i : FaultInjector) b :=
  mkInjector (node_id i) b (_faults i) (_partitioned_from i) (_stats i).
Definition enable (i : FaultInjector) : FaultInjector := set_enabled i true.
Definition disable (i : FaultInjector) : FaultInjector := set_enabled i false.
Definition set_faults (i : FaultInjector) fs :=
  mkInjector (node_id i) (enabled i) fs (_partitioned_from i) (_stats i).
Definition set_partitioned (i : FaultInjector) p :=
  mkInjector (node_id i) (enabled i) (_faults i) p (_stats i).
Definition set_stats (i : FaultInjector) s :=
  mkInjector (node_id i) (enabled i) (_faults i) (_partitioned_from i) s.

Definition count_injected (s : FaultStats) := mkStats (total_faults_injected s + 1) (network_delays_injected s)
  (packets_dropped s) (disk_failures_injected s) (partitions_created s) (leader_kills s).
Definition count_delay (s : FaultStats) := mkStats (total_faults_injected s) (network_delays_injected s + 1)
  (packets_dropped s) (disk_failures_injected s) (partitions_created s) (leader_kills s).
Definition count_drop (s : FaultStats) := mkStats (total_faults_injected s) (network_delays_injected s)
  (packets_dropped s + 1) (disk_failures_injected s) (partitions_created s) (leader_kills s).
Definition count_disk (s : FaultStats) := mkStats (total_faults_injected s) (network_delays_injected s)
  (packets_dropped s) (disk_failures_injected s + 1) (partitions_created s) (leader_kills s).
Definition count_partition (s : FaultStats) := mkStats (total_faults_injected s) (network_delays_injected s)
  (packets_dropped s) (disk_failures_injected s) (partitions_created s + 1) (leader_kills s).
Definition count_kill (s : FaultStats) := mkStats (total_faults_injected s) (network_delays_injected s)
  (packets_dropped s) (disk_failures_injected s) (partitions_created s) (leader_kills s + 1).

Definition targets_of (f : Fault) : gset string := list_to_set (default [] (partition_from (params f))).

(** [draw] is the random number of a crash fault. *)
Definition inject_fault (now : time) (draw : Q) (f : Fault) : proc bool :=
  i ← get_state;
  if enabled i then
    let f := set_start f now in
    modify (λ i, set_stats (set_faults i (dict_set (fault_id f) f (_faults i))) (count_injected (_stats i)));;
    (match fault_type f with
     | NETWORK_PARTITION =>
         modify (λ i, set_stats (set_partitioned i (_partitioned_from i ∪ targets_of f))
                        (count_partition (_stats i)))
     | LEADER_KILL => emit OnLeaderKill;; modify (λ i, set_stats i (count_kill (_stats i)))
     | PROCESS_PAUSE => emit (OnPause (default (seconds 5) (pause_duration (params f))))
     | RANDOM_CRASH => if RateLimit.Qlt_bool draw (probability f) then emit OnCrash else mret ()
     | _ => mret ()
     end);;
    mret true
  else mret false.

Definition clear_fault (id : string) : proc bool :=
  i ← get_state;
  match dict_get (_faults i) id with
  | None => mret false
  | Some f =>
      (if decide (fault_type f = NETWORK_PARTITION)
       then modify (λ i, set_partitioned i (_partitioned_from i ∖ targets_of f)) else mret ());;
      modify (λ i, set_faults i (dict_del id (_faults i)));;
      mret true
  end.

Definition clear_all_faults (i : FaultInjector) : FaultInjector := set_partitioned (set_faults i []) ∅.

Definition _is_expired (now : time) (f : Fault) : bool :=
  if duration_seconds f <=? 0 then false
  else match start_time f with None => false | Some s => duration_seconds f <? now - s end.

Definition _targets_node (f : Fault) (n : string) : bool :=
  match target_nodes f with [] => true | ts => bool_decide (n ∈ ts) end.

(** A fault of kind [k] takes part in a query now. *)
Definition live (now : time) (k : FaultType) (f : Fault) : bool :=
  active f && negb (_is_expired now f) && bool_decide (fault_type f = k).

Section queries.
Context (draw : string → Q) (jitter : string → time).

Definition drawn (f : Fault) : bool := RateLimit.Qlt_bool (draw (fault_id f)) (probability f).

(** The loop over the faults: the first drop fault that hits. *)
Fixpoint drop_loop (now : time) (target : string) (fs : list Fault) : proc bool :=
  match fs with
  | [] => mret false
  | f :: fs =>
      if live now NETWORK_DROP f && _targets_node f target && drawn f
      then modify (λ i, set_stats i (count_drop (_stats i)));; mret true
      else drop_loop now target fs
  end.

Definition should_fail_network (now : time) (target : string) : proc bool :=
  i ← get_state;
  if enabled i then
    if decide (target ∈ _partitioned_from i) then mret true
    else drop_loop now target (dict_values (_faults i))
  else mret false.

Definition ms (n : Z) : time := n * 1000.

Fixpoint delay_loop (now : time) (target : string) (fs : list Fault) (total : time) : proc time :=
  match fs with
  | [] => mret total
  | f :: fs =>
      if live now NETWORK_DELAY f && _targets_node f target && drawn f then
        modify (λ i, set_stats i (count_delay (_stats i)));;
        delay_loop now target fs (total + (ms (default 100 (delay_ms (params f))) + jitter (fault_id f)))
      else delay_loop now target fs total
  end.

Definition get_network_delay (now : time) (target : string) : proc time :=
  i ← get_state;
  if enabled i then
    t ← delay_loop now target (dict_values (_faults i)) 0;
    mret (Z.max 0 t)
  else mret 0.

Fixpoint disk_loop (now : time) (fs : list Fault) : proc bool :=
  match fs with
  | [] => mret false
  | f :: fs =>
      if live now DISK_FAIL f && drawn f
      then modify (λ i, set_stats i (count_disk (_stats i)));; mret true
      else disk_loop now fs
  end.

Definition should_fail_disk (now : time) : proc bool :=
  i ← get_state;
  if enabled i then disk_loop now (dict_values (_faults i)) else mret false.

Definition get_disk_delay (now : time) (i : FaultInjector) : time :=
  if enabled i then
    match base.filter (λ f, live now DISK_SLOW f && drawn f = true) (dict_values (_faults i)) with
    | f :: _ => ms (default 50 (delay_ms (params f)))
    | [] => 0
    end
  else 0.

Definition get_clock_skew (now : time) (i : FaultInjector) : time :=
  if enabled i then
    match base.filter (λ f, live now CLOCK_SKEW f = true) (dict_values (_faults i)) with
    | f :: _ => default 0 (skew_seconds (params f))
    | [] => 0
    end
  else 0.

End queries.

(** [f"{kind}-{int(time.time()*1000)}"] *)
Definition make_id (kind : string) (now : time) : string := kind +:+ "-" +:+ pretty (now / 1000).

Definition create_network_delay (now : time) (d j : Z) : Fault :=
  mkFault (make_id "net-delay" now) NETWORK_DELAY [] 1 0
    (mkParams None (Some d) (Some j) None None) None true.
Definition create_network_partition (now : time) (from : list string) (duration : time) : Fault :=
  mkFault (make_id "partition" now) NETWORK_PARTITION [] 1 duration
    (mkParams (Some from) None None None None) None true.
Definition create_packet_drop (now : time) (p : Q) : Fault :=
  mkFault (make_id "drop" now) NETWORK_DROP [] p 0 no_params None true.
Definition create_disk_failure (now : time) (p : Q) : Fault :=
  mkFault (make_id "disk-fail" now) DISK_FAIL [] p 0 no_params None true.
Definition create_leader_kill (now : time) : Fault :=
  mkFault (make_id "leader-kill" now) LEADER_KILL [] 1 0 no_params None true.

Definition get_stats (i : FaultInjector) : json :=
  let s := _stats i in
  JObj [("enabled", JBool (enabled i)); ("total_faults", JInt (total_faults_injected s));
        ("network_delays", JInt (network_delays_injected s)); ("packets_dropped", JInt (packets_dropped s));
        ("disk_failures", JInt (disk_failures_injected s)); ("partitions", JInt (partitions_created s));
        ("leader_kills", JInt (leader_kills s));
        ("active_faults", JInt (Z.of_nat (length (_faults i))))]%string.

(** ** What the injector fails *)

(** A live drop fault that targets the node and is drawn. *)
Definition dropped (draw : string → Q) (now : time) (target : string) (i : FaultInjector) : Prop :=
  ∃ f, f ∈ dict_values (_faults i) ∧ live now NETWORK_DROP f = true ∧
    _targets_node f target = true ∧ drawn draw f = true.

Lemma drop_loop_spec draw now target fs i :
  (∃ f, f ∈ fs ∧ live now NETWORK_DROP f && _targets_node f target && drawn draw f = true) ∧
    drop_loop draw now target fs i = (set_stats i (count_drop (_stats i)), [], Ok true) ∨
  (∀ f, f ∈ fs → live now NETWORK_DROP f && _targets_node f target && drawn draw f = false) ∧
    drop_loop draw now target fs i = (i, [], Ok false).
Proof.
  induction fs as [|f fs IH]; cbn [drop_loop].
  { right. split; [|done]. intros f Hf. by apply not_elem_of_nil in Hf. }
  destruct (live now NETWORK_DROP f && _targets_node f target && drawn draw f) eqn:E.
  - left. split; [|done]. exists f. split; [by left|done].
  - destruct IH as [[(g & Hg & Hl) IH]|[Hno IH]]; [left|right].
    + split; [|done]. exists g. split; [by right|done].
    + split; [|done]. intros g [->|Hg]%elem_of_cons; auto.
Qed.

(** The injector fails a network operation exactly when it is
    enabled and the target is partitioned away or hit by a live drop fault;
    a drop is counted, nothing else of the injector changes, and a disabled
    injector is transparent: no failure, no delay, no clock skew. *)
Theorem network_fault_spec draw jitter now target i :
  (∃ b, should_fail_network draw now target i =
     (if b && negb (bool_decide (target ∈ _partitioned_from i))
      then set_stats i (count_drop (_stats i)) else i, [], Ok b) ∧
     (b = true ↔ enabled i = true ∧
        (target ∈ _partitioned_from i ∨ dropped draw now target i))) ∧
  (enabled i = false →
     should_fail_network draw now target i = (i, [], Ok false) ∧
     get_network_delay draw jitter now target i = (i, [], Ok 0) ∧
     should_fail_disk draw now i = (i, [], Ok false) ∧ get_clock_skew now i = 0).
Proof.
  assert (Hd : ∀ f, live now NETWORK_DROP f && _targets_node f target && drawn draw f = true ↔
    live now NETWORK_DROP f = true ∧ _targets_node f target = true ∧ drawn draw f = true).
  { intros f. rewrite !andb_true_iff. tauto. }
  split.
  - unfold should_fail_network. rewrite get_bind. destruct (enabled i) eqn:Ee.
    2: { exists false. split; [done|]. split; [done|]. by intros [? _]. }
    destruct (decide (target ∈ _partitioned_from i)) as [Hin|Hout].
    { exists true. rewrite bool_decide_eq_true_2 by done. split; [done|]. split; [|done]. intros _. by split; [|left]. }
    rewrite bool_decide_eq_false_2 by done. unfold dropped.
    destruct (drop_loop_spec draw now target (dict_values (_faults i)) i) as [[(f & Hf & Hl) ->]|[Hno ->]].
    + exists true. split; [done|]. split; [|done]. intros _. split; [done|]. right. exists f. by rewrite <-Hd.
    + exists false. split; [done|]. split; [done|]. intros [_ [?|(f & Hf & Hl)]]; [done|].
      apply Hd in Hl. by rewrite Hno in Hl.
  - intros He. unfold should_fail_network, get_network_delay, should_fail_disk, get_clock_skew.
    rewrite !get_bind, He. done.
Qed.

(** A partition with a duration never ends: the injector checks the
    expiry of every other kind of fault, but a partition fault that expired
    long ago still fails the network to its targets until it is cleared. *)
Theorem expired_partition_still_blocks (from : list string) target id now later (d : time)
    (Hin : target ∈ from) (Hd : 0 < d) (Hlate : now + d < later) :
  let f := set_start (create_network_partition now from d) now in
  let i := state_of (inject_fault now 0 f (init id true)) in
  _is_expired later f = true ∧ should_fail_network (λ _, 0%Q) later target i = (i, [], Ok true).
Proof.
  cbv zeta. split.
  - unfold _is_expired, set_start, create_network_partition. cbn [duration_seconds start_time].
    destruct (Z.leb_spec d 0); [lia|]. apply Z.ltb_lt. lia.
  - unfold should_fail_network. rewrite get_bind. unfold inject_fault. rewrite get_bind.
    cbn -[targets_of]. rewrite decide_True; [done|]. unfold targets_of. cbn. set_solver.
Qed.

Lemma expired_partition_still_blocks_witness :
  let f := set_start (create_network_partition 0 ["b"] 5) 0 in
  let i := state_of (inject_fault 0 0 f (init "a" true)) in
  _is_expired 1000 f = true ∧ should_fail_network (λ _, 0%Q) 1000 "b" i = (i, [], Ok true).
Proof. apply (expired_partition_still_blocks ["b"%string] "b" "a" 0 1000 5); [by left|lia|lia]. Defined.

End Faults.
