(* ===== verification/VersionVector.v ===== *)
(** [minidb/repair/version_vector.py]: version vectors, their causal order and
    their merge. *)

From S2P Require Import Prelude.
From S2P Require Import PyDict.
From S2P Require Import Json.
From S2P Require Import Fields.
#[local] Open Scope Z_scope.

Module VersionVector.

(** [versions]: node to counter. *)
Definition VersionVector : Type := dict string Z.

Definition get (v : VersionVector) (node : string) : Z := dict_get_or v node 0.

Definition increment (v : VersionVector) (node : string) : VersionVector :=
  dict_set node (get v node + 1) v.

(** The loop of [merge] over the other vector's items. *)
Definition merge (v other : VersionVector) : VersionVector :=
  fold_left (λ r p, dict_set p.1 (Z.max (dict_get_or r p.1 0) p.2) r) other v.

(** The union of the two key sets; its order does not matter. *)
Definition all_nodes (v other : VersionVector) : list string :=
  remove_dups (dict_keys v ++ dict_keys other).

(** The loop of [compare]: (self_newer, other_newer). *)
Fixpoint compare_loop (v other : VersionVector) (nodes : list string) (newer : bool * bool) : bool * bool :=
  match nodes with
  | [] => newer
  | n :: nodes =>
      let newer :=
        if get other n <? get v n then (true, newer.2)
        else if get v n <? get other n then (newer.1, true)
        else newer in
      compare_loop v other nodes newer
  end.

Definition compare (v other : VersionVector) : string :=
  match compare_loop v other (all_nodes v other) (false, false) with
  | (true, true) => "concurrent"
  | (true, false) => "after"
  | (false, true) => "before"
  | (false, false) => "equal"
  end.

Definition to_dict (v : VersionVector) : dict string Z := v.
Definition from_dict (d : dict string Z) : VersionVector := d.

Record VersionedValue := mkVersioned { value : json; version : VersionVector; timestamp : time }.

Definition versioned_to_dict (v : VersionedValue) : json :=
  JObj [("value", value v); ("version", JObj (dict_map_values JInt (to_dict (version v))));
        ("timestamp", JFloat (timestamp v))]%string.

Definition versioned_from_dict (d : json) : res VersionedValue :=
  (v ←! subscript d "value";
   ver ←! (x ←! subscript d "version"; as_dict x);
   ts ←! get_default d "timestamp" (JFloat 0);
   ver ←! res_mapM (λ p, n ←! as_int p.2; Ok (p.1, n)) ver;
   ts ←! as_time ts;
   Ok (mkVersioned v (from_dict ver) ts))%py.

(** ** The order *)

(** Counters are counts. *)
Definition wf (v : VersionVector) : Prop := dict_wf v ∧ ∀ n, 0 <= get v n.

(** [a] happened before or is [b]. *)
Definition leq (a b : VersionVector) : Prop := ∀ n, get a n <= get b n.

Lemma get_absent v n : n ∉ dict_keys v → get v n = 0.
Proof. intros Hn. unfold get, dict_get_or. by apply dict_get_None in Hn as ->. Qed.

Lemma get_set v k x n : get (dict_set k x v) n = if decide (k = n) then x else get v n.
Proof. unfold get, dict_get_or. rewrite dict_get_set. by case_decide. Qed.

Lemma compare_loop_spec a b nodes x y :
  let r := compare_loop a b nodes (x, y) in
  (r.1 = true ↔ x = true ∨ ∃ n, n ∈ nodes ∧ get b n < get a n) ∧
  (r.2 = true ↔ y = true ∨ ∃ n, n ∈ nodes ∧ get a n < get b n).
Proof.
  revert x y. induction nodes as [|m nodes IH]; intros x y; cbn [compare_loop]; cbv zeta.
  - split; (split; [by left|]); intros [?|(n & Hn & _)]; try done; by apply not_elem_of_nil in Hn.
  - assert (Hcons : ∀ P : string → Prop, (∃ n, n ∈ m :: nodes ∧ P n) ↔ P m ∨ ∃ n, n ∈ nodes ∧ P n).
    { intros P. split.
      - intros (n & [->|Hn]%elem_of_cons & HP); [by left|right; by exists n].
      - intros [HP|(n & Hn & HP)]; [exists m; split; [by left|done]|exists n; split; [by right|done]]. }
    rewrite !Hcons. simpl. destruct (Z.ltb_spec (get b m) (get a m)); [|destruct (Z.ltb_spec (get a m) (get b m))].
    + destruct (IH true y) as [-> ->]. split; split; intros; try tauto; try lia.
      * intuition lia.
    + destruct (IH x true) as [-> ->]. split; split; intros; try tauto; intuition lia.
    + destruct (IH x y) as [-> ->]. split; split; intros; intuition lia.
Qed.

Lemma compare_flags a b :
  let r := compare_loop a b (all_nodes a b) (false, false) in
  (r.1 = true ↔ ¬ leq a b) ∧ (r.2 = true ↔ ¬ leq b a).
Proof.
  destruct (compare_loop_spec a b (all_nodes a b) false false) as [H1 H2]. cbv zeta.
  assert (Hall : ∀ n, n ∉ all_nodes a b → get a n = 0 ∧ get b n = 0).
  { intros n Hn. unfold all_nodes in Hn. rewrite elem_of_remove_dups, elem_of_app in Hn.
    split; apply get_absent; tauto. }
  assert (Hleq : ∀ x y : VersionVector, (∀ n, n ∉ all_nodes a b → get x n = 0 ∧ get y n = 0) →
    ¬ leq x y ↔ ∃ n, n ∈ all_nodes a b ∧ get y n < get x n).
  { intros x y Hxy. split.
    - intros Hno. destruct (decide (Exists (λ n, get y n < get x n) (all_nodes a b))) as [Hex|Hex].
      { by apply Exists_exists in Hex. }
      exfalso. apply Hno. intros n. destruct (decide (n ∈ all_nodes a b)) as [Hin|Hout].
      + apply Z.nlt_ge. intros Hlt. apply Hex, Exists_exists. by exists n.
      + destruct (Hxy n Hout). lia.
    - intros (n & _ & Hlt) Hl. specialize (Hl n). lia. }
  rewrite H1, H2. rewrite (Hleq a b) by done. rewrite (Hleq b a) by (intros n ?%Hall; tauto).
  split; (split; [by intros [?|?]|by right]).
Qed.

Lemma get_merge_gen a b n : NoDup (dict_keys b) → 0 <= get a n →
  get (fold_left (λ r p, dict_set p.1 (Z.max (dict_get_or r p.1 0) p.2) r) b a) n =
  if decide (n ∈ dict_keys b) then Z.max (get a n) (get b n) else get a n.
Proof.
  revert a. induction b as [|[k x] b IH]; intros a Hnd H0; [done|].
  apply NoDup_cons in Hnd as [Hk Hnd]. simpl.
  rewrite IH; [|done|].
  - rewrite get_set. change (dict_get_or a k 0) with (get a k).
    assert (Hgb : get ((k, x) :: b) n = if decide (k = n) then x else get b n).
    { unfold get, dict_get_or. cbn [dict_get]. repeat case_decide; done || congruence. }
    rewrite Hgb. change (dict_keys ((k, x) :: b)) with (k :: dict_keys b).
    destruct (decide (k = n)) as [->|Hne].
    + rewrite decide_False by done. rewrite decide_True by (by left). done.
    + destruct (decide (n ∈ dict_keys b)) as [Hin|Hout].
      * by rewrite decide_True by (by right).
      * rewrite decide_False; [done|]. intros [?|?]%elem_of_cons; congruence.
  - rewrite get_set. destruct (decide (k = n)) as [->|]; [|done]. change (dict_get_or a n 0) with (get a n). lia.
Qed.

Lemma get_merge a b n : wf a → wf b → get (merge a b) n = Z.max (get a n) (get b n).
Proof.
  intros [_ Ha] [Hb Hb']. unfold merge. rewrite get_merge_gen by done.
  case_decide as Hin; [done|]. rewrite (get_absent b n Hin). specialize (Ha n). lia.
Qed.

(** [compare] decides the causal order: the answer is "equal",
    "before", "after" or "concurrent" exactly when the vectors are equal at
    every node, ordered one way only, or not ordered, where a node that a
    vector does not mention counts as zero. *)
Theorem compare_spec a b :
  (compare a b = "equal"%string ↔ ∀ n, get a n = get b n) ∧
  (compare a b = "before"%string ↔ leq a b ∧ ¬ leq b a) ∧
  (compare a b = "after"%string ↔ leq b a ∧ ¬ leq a b) ∧
  (compare a b = "concurrent"%string ↔ ¬ leq a b ∧ ¬ leq b a).
Proof.
  assert (Heq : (∀ n, get a n = get b n) ↔ leq a b ∧ leq b a).
  { unfold leq. split; [intros H; split; intros n; rewrite H; lia|].
    intros [H1 H2] n. specialize (H1 n). specialize (H2 n). lia. }
  rewrite Heq. unfold compare. destruct (compare_flags a b) as [H1 H2]. cbv zeta in H1, H2.
  destruct (compare_loop a b (all_nodes a b) (false, false)) as [x y]. simpl in H1, H2.
  assert (H1' : x = false ↔ leq a b).
  { rewrite <-not_true_iff_false, H1. unfold leq. split; [|tauto]. intros Hnn n.
    apply Z.nlt_ge. intros Hlt. apply Hnn. intros Hl. specialize (Hl n). lia. }
  assert (H2' : y = false ↔ leq b a).
  { rewrite <-not_true_iff_false, H2. unfold leq. split; [|tauto]. intros Hnn n.
    apply Z.nlt_ge. intros Hlt. apply Hnn. intros Hl. specialize (Hl n). lia. }
  destruct x, y; intuition congruence.
Qed.

Lemma merge_wf a b : wf a → wf b → wf (merge a b).
Proof.
  intros Ha Hb. split; [|intros n; rewrite get_merge by done; destruct Ha as [_ Ha]; specialize (Ha n); lia].
  destruct Ha as [Ha _]. unfold merge. clear Hb. revert a Ha.
  induction b as [|[k x] b IH]; intros a Ha; [exact Ha|]. apply IH. by apply dict_wf_set.
Qed.

Lemma get_increment v node n : get (increment v node) n = if decide (node = n) then get v n + 1 else get v n.
Proof. unfold increment. rewrite get_set. by case_decide; subst. Qed.

(** Claim C40. Merging version vectors gives their least upper bound in the
    order that [compare] decides: vectors whose counters are not negative stay so
    under it, it is above both, and below every vector that is.  It is commutative,
    associative and idempotent up to the counters.  A node that then counts an
    event of its own is after both. *)
Theorem merge_lub a b c (Ha : wf a) (Hb : wf b) (Hc : wf c) :
  wf (merge a b) ∧
  leq a (merge a b) ∧ leq b (merge a b) ∧ (∀ d, leq a d → leq b d → leq (merge a b) d) ∧
  (∀ n, get (merge a b) n = get (merge b a) n) ∧
  (∀ n, get (merge (merge a b) c) n = get (merge a (merge b c)) n) ∧
  (∀ n, get (merge a a) n = get a n) ∧
  (∀ node, compare (increment (merge a b) node) a = "after"%string ∧
           compare (increment (merge a b) node) b = "after"%string).
Proof.
  assert (Hm := λ n, get_merge a b n Ha Hb).
  split; [by apply merge_wf|].
  split; [intros n; rewrite Hm; lia|]. split; [intros n; rewrite Hm; lia|].
  split; [intros d Had Hbd n; rewrite Hm; specialize (Had n); specialize (Hbd n); lia|].
  split; [intros n; rewrite Hm, get_merge by done; lia|].
  split; [intros n; rewrite !get_merge by (done || by apply merge_wf); lia|].
  split; [intros n; rewrite get_merge by done; lia|].
  assert (Hafter : ∀ x node, leq x (merge a b) → compare (increment (merge a b) node) x = "after"%string).
  { intros x node Hx. apply compare_spec. split.
    - intros n. rewrite get_increment. specialize (Hx n). case_decide; lia.
    - intros Hl. specialize (Hl node). rewrite get_increment, decide_True in Hl by done. specialize (Hx node). lia. }
  intros node. split; apply Hafter; intros n; rewrite Hm; lia.
Qed.

Lemma merge_lub_witness :
  let a : VersionVector := [("x", 2)]%string in let b : VersionVector := [("x", 1); ("y", 3)]%string in
  let c : VersionVector := [("z", 1); ("y", 4)]%string in
  wf (merge a b) ∧
  leq a (merge a b) ∧ leq b (merge a b) ∧ (∀ d, leq a d → leq b d → leq (merge a b) d) ∧
  (∀ n, get (merge a b) n = get (merge b a) n) ∧
  (∀ n, get (merge (merge a b) c) n = get (merge a (merge b c)) n) ∧
  (∀ n, get (merge a a) n = get a n) ∧
  (∀ node, compare (increment (merge a b) node) a = "after"%string ∧
           compare (increment (merge a b) node) b = "after"%string).
Proof.
  apply merge_lub; (split; [by apply (bool_decide_unpack _)|]); intros n;
    unfold get, dict_get_or; simpl; repeat case_decide; simpl; lia.
Defined.

End VersionVector.
