(* ===== verification/Merkle.v ===== *)
(** [minidb/repair/merkle.py] and [minidb/repair/anti_entropy.py]: hash trees
    over the keys of a store, their comparison, and the repair cycle that uses
    them.

    The hash is a class with the source's truncated SHA-256 as its instance. *)

From S2P Require Import Prelude.
From S2P Require Import PyMonad.
From S2P Require Import Text.
From S2P Require Import PyDict.
From S2P Require Import Json.
From S2P Require Import Sha256.
From stdpp Require Import sorting.
#[local] Open Scope Z_scope.

(** ** [str(value)] *)

(** A character that [repr] leaves alone (code points below 256). *)
Definition py_printable (c : ascii) : bool :=
  let n := N_of_ascii c in
  (((32 <=? n) && (n <=? 126)) || ((161 <=? n) && negb (n =? 173)))%N.

Definition repr_char (quote c : ascii) : string :=
  if decide (c = bslash ∨ c = quote) then String bslash (chr c)
  else if decide (c = "010"%char) then String bslash "n"
  else if decide (c = "013"%char) then String bslash "r"
  else if decide (c = "009"%char) then String bslash "t"
  else if py_printable c then chr c
  else let n := N_of_ascii c in
       String bslash (String "x" (String (hex_digit (n / 16)) (chr (hex_digit (n mod 16))))).

Fixpoint repr_chars (quote : ascii) (s : string) : string :=
  match s with
  | EmptyString => EmptyString
  | String c s => repr_char quote c +:+ repr_chars quote s
  end.

(** Single quotes, unless the text has some and no double quote. *)
Definition repr_str (s : string) : string :=
  let quote := if str_has "'" s && negb (str_has dquote s) then dquote else "'"%char in
  String quote (repr_chars quote s +:+ chr quote).

Definition comma_join (xs : list string) : string :=
  match xs with
  | [] => EmptyString
  | x :: xs => foldl (λ acc y, acc +:+ ", " +:+ y) x xs
  end.

Fixpoint py_repr (j : json) : string :=
  match j with
  | JNull => "None"
  | JBool b => if b then "True" else "False"
  | JInt z => dump_int z
  | JFloat t => dump_float t
  | JStr s => repr_str s
  | JArr xs => "[" +:+ comma_join (py_repr <$> xs) +:+ "]"
  | JObj d => "{" +:+ comma_join ((λ p, repr_str p.1 +:+ ": " +:+ py_repr p.2) <$> d) +:+ "}"
  end.

Definition py_str (j : json) : string := match j with JStr s => s | _ => py_repr j end.

(** ** The trees *)

Class MerkleHash := {
  merkle_hash : string → string;
  merkle_hash_length : ∀ s, String.length (merkle_hash s) = 16%nat;
}.

(** [hashlib.sha256(data.encode()).hexdigest()[:16]] *)
Definition _hash (data : string) : string := str_take 16 (sha256_hex data).

Module Merkle.
Section merkle.
Context `{MerkleHash}.

(** A node is a leaf with its bucket of keys, or has two children. *)
Inductive MerkleNode :=
  | Leaf (hash : string) (range : string * string) (keys : list string)
  | Node (hash : string) (left right : MerkleNode) (range : string * string).

Definition hash_value (n : MerkleNode) : string := match n with Leaf h _ _ | Node h _ _ _ => h end.
Definition key_range (n : MerkleNode) : string * string :=
  match n with Leaf _ r _ | Node _ _ _ r => r end.
Definition is_leaf (n : MerkleNode) : bool := match n with Leaf _ _ _ => true | _ => false end.

Record MerkleTree := mkTree {
  bucket_size : nat;
  root : option MerkleNode;
  _key_hashes : dict string string;
}.

Definition init (size : nat) : MerkleTree := mkTree size None [].

Definition _combine_hashes (left right : string) : string := merkle_hash (left +:+ right).

(** [f"{key}:{value}:{version}"] *)
Definition entry (key : string) (v : json * Z) : string :=
  key +:+ ":" +:+ py_str v.1 +:+ ":" +:+ dump_int v.2.

(** The slices of [range(0, len(keys), bucket_size)]. *)
Fixpoint buckets (fuel size : nat) (ks : list string) : list (list string) :=
  match fuel, ks with
  | S fuel, _ :: _ => take size ks :: buckets fuel size (drop size ks)
  | _, _ => []
  end.

Definition concat_str (xs : list string) : string := foldr String.append EmptyString xs.

Definition make_leaf (hashes : dict string string) (bucket : list string) : MerkleNode :=
  Leaf (merkle_hash (concat_str ((λ k, dict_get_or hashes k EmptyString) <$> bucket)))
    (default EmptyString (head bucket), default EmptyString (last bucket)) bucket.

Definition make_parent (left right : MerkleNode) : MerkleNode :=
  Node (_combine_hashes (hash_value left) (hash_value right)) left right
    ((key_range left).1, (key_range right).2).

(** One level: neighbours are paired, an odd last node moves up. *)
Fixpoint parents (nodes : list MerkleNode) : list MerkleNode :=
  match nodes with
  | a :: b :: nodes => make_parent a b :: parents nodes
  | _ => nodes
  end.

(** [_build_tree]; every call halves the list, so its length is enough fuel. *)
Fixpoint _build_tree (fuel : nat) (nodes : list MerkleNode) : option MerkleNode :=
  match nodes with
  | [] => None
  | [n] => Some n
  | _ => match fuel with
         | O => None
         | S fuel => _build_tree fuel (parents nodes)
         end
  end.

Definition build (t : MerkleTree) (key_values : dict string (json * Z)) : MerkleTree :=
  let hashes := fold_left (λ d p, dict_set p.1 (merkle_hash (entry p.1 p.2)) d) key_values [] in
  match hashes with
  | [] => mkTree (bucket_size t) None []
  | _ =>
      let sorted := merge_sort String.le (dict_keys hashes) in
      let leaves := make_leaf hashes <$> buckets (length sorted) (bucket_size t) sorted in
      mkTree (bucket_size t) (_build_tree (length leaves) leaves) hashes
  end.

Definition get_root_hash (t : MerkleTree) : option string := hash_value <$> root t.

Fixpoint _compare_nodes (n1 n2 : MerkleNode) : list (string * string) :=
  if decide (hash_value n1 = hash_value n2) then []
  else match n1, n2 with
       | Node _ l1 r1 _, Node _ l2 r2 _ => _compare_nodes l1 l2 ++ _compare_nodes r1 r2
       | _, _ => [key_range n1]
       end.

Definition compare (t other : MerkleTree) : list (string * string) :=
  match root t, root other with
  | Some n1, Some n2 => _compare_nodes n1 n2
  | _, _ => []
  end.

Definition get_keys_in_range (t : MerkleTree) (start stop : string) : list string :=
  base.filter (λ k, str_leb start k && str_leb k stop = true) (dict_keys (_key_hashes t)).

Fixpoint _node_to_dict (n : MerkleNode) : json :=
  match n with
  | Leaf h r _ => JObj [("hash", JStr h); ("range", JArr [JStr r.1; JStr r.2]); ("is_leaf", JBool true);
                        ("left", JNull); ("right", JNull)]%string
  | Node h a b r => JObj [("hash", JStr h); ("range", JArr [JStr r.1; JStr r.2]); ("is_leaf", JBool false);
                          ("left", _node_to_dict a); ("right", _node_to_dict b)]%string
  end.

Definition to_dict (t : MerkleTree) : json :=
  JObj [("root", match root t with Some n => _node_to_dict n | None => JNull end)]%string.

End merkle.
End Merkle.

(** ** [AntiEntropyManager] *)
Module AntiEntropy.
Import Merkle.
Section repair.
Context `{MerkleHash}.

(** A repair that is applied: key, value, version. *)
Definition repair : Type := string * json * Z.

(** The callbacks; [None] when the node does not set one. *)
Record callbacks := mkCallbacks {
  _get_local_data : option (dict string (json * Z));
  _get_remote_merkle : option (string → json);
  _get_remote_keys : option (string → list string → dict string (json * Z));
  _apply_repair_data : bool;
  _get_peers : option (list string);
}.

Abbreviation proc := (prog MerkleTree repair).
Context (node_id : string) (cb : callbacks).

(** [remote.get("root", {}).get("hash")] *)
Definition remote_hash (remote : json) : res json :=
  match remote with
  | JObj d => match dict_get_or d "root" (JObj []) with
              | JObj r => Ok (dict_get_or r "hash" JNull)
              | _ => Raise AttributeError
              end
  | _ => Raise AttributeError
  end.

Definition apply_newer (local : dict string (json * Z)) (remote : dict string (json * Z)) : proc () :=
  for_each (λ p : string * (json * Z),
    let local_version := (default (JNull, 0) (dict_get local p.1)).2 in
    if local_version <? p.2.2 then emit (p.1, p.2.1, p.2.2) else mret ()) remote.

(** Any exception is printed and dropped. *)
Definition _repair_with_peer (peer : string) : proc () :=
  match _get_remote_merkle cb, _get_remote_keys cb with
  | Some remote_merkle, Some remote_keys =>
      catch (
        let remote := remote_merkle peer in
        if truthy remote then
          t ← get_state;
          h ← lift (remote_hash remote);
          if decide (h = match get_root_hash t with Some s => JStr s | None => JNull end) then mret ()
          else
            match _get_local_data cb with
            | Some local =>
                let data := remote_keys peer (dict_keys local) in
                if decide (data = []) then mret ()
                else if _apply_repair_data cb then apply_newer local data else mret ()
            | None => mret ()
            end
        else mret ()) (λ _, mret ())
  | _, _ => mret ()
  end.

Definition _run_repair_cycle : proc () :=
  match _get_local_data cb, _get_peers cb with
  | Some local, Some peers =>
      modify (λ t, build t local);;
      for_each (λ peer, if decide (peer = node_id) then mret () else _repair_with_peer peer) peers
  | _, _ => mret ()
  end.

(** One round of [_repair_loop]. *)
Definition _repair_loop : proc () := catch _run_repair_cycle (λ _, mret ()).

Definition rebuild_tree (data : dict string (json * Z)) : proc () := modify (λ t, build t data).

Definition get_merkle_root (t : MerkleTree) : option string := get_root_hash t.

Definition get_keys_for_repair (t : MerkleTree) (ranges : list (string * string)) : list string :=
  ranges ≫= λ r, get_keys_in_range t r.1 r.2.

End repair.
End AntiEntropy.
