(* ===== verification/MerkleFacts.v ===== *)
(** Merkle trees: building them does not depend on the order of the data, and
    comparing two of them over the same keys finds exactly the buckets that
    differ, as long as no two of the hashed texts collide. *)

From S2P Require Import Prelude.
From S2P Require Import PyMonad.
From S2P Require Import Text.
From S2P Require Import PyDict.
From S2P Require Import Json.
From S2P Require Import JsonFacts.
From S2P Require Import Sha256.
From S2P Require Import Merkle.
From stdpp Require Import sorting.
#[local] Open Scope Z_scope.

(** ** The hash of the source is an instance *)

Lemma round_length st k : length st.1 = 8%nat → length (round st k).1 = 8%nat.
Proof.
  destruct st as [h ws]. simpl. intros Hl.
  do 9 (destruct h as [|? h]; try discriminate Hl). by destruct ws as [|? [|? ?]].
Qed.

Lemma compress_length h block : length h = 8%nat → length (compress h block) = 8%nat.
Proof.
  intros Hl. unfold compress. rewrite length_zip_with.
  assert (Hf : ∀ ks st, length st.1 = 8%nat → length (fold_left round ks st).1 = 8%nat).
  { induction ks as [|k ks IH]; intros st Hst; [done|]. simpl. by apply IH, round_length. }
  rewrite Hf by done. lia.
Qed.

Lemma blocks_length fuel ws h : length h = 8%nat → length (blocks fuel ws h) = 8%nat.
Proof.
  revert ws h. induction fuel as [|fuel IH]; intros [|w ws] h Hl; simpl; try done.
  by apply IH, compress_length.
Qed.

Lemma sha256_hex_length s : String.length (sha256_hex s) = 64%nat.
Proof.
  unfold sha256_hex. assert (Hl : length (sha256_words (utf8 s)) = 8%nat) by by apply blocks_length.
  assert (Hlen : ∀ ws, String.length (fold_right String.append EmptyString (hex_be 8 <$> ws)) = (8 * length ws)%nat).
  { induction ws as [|w ws IH]; [done|].
    transitivity (String.length (hex_be 8 w) +
                  String.length (fold_right String.append EmptyString (hex_be 8 <$> ws)))%nat.
    - apply str_length_app.
    - rewrite IH. cbn [length]. change (String.length (hex_be 8 w)) with 8%nat. lia. }
  by rewrite Hlen, Hl.
Qed.

Lemma str_take_length n s : String.length (str_take n s) = Nat.min n (String.length s).
Proof. revert s. induction n as [|n IH]; intros [|c s]; simpl; by rewrite ?IH. Qed.

Lemma _hash_length s : String.length (_hash s) = 16%nat.
Proof. unfold _hash. by rewrite str_take_length, sha256_hex_length. Qed.

#[export] Instance sha256_merkle_hash : MerkleHash :=
  {| merkle_hash := _hash; merkle_hash_length := _hash_length |}.

Module MerkleF.
Import Merkle.
Section merkle.
Context `{MerkleHash}.

(** ** Strings of fixed length *)

Lemma append_inj a b a' b' : String.length a = String.length a' →
  String.append a b = String.append a' b' → a = a' ∧ b = b'.
Proof.
  revert a'. induction a as [|c a IH]; intros [|c' a'] Hl; try discriminate Hl.
  - by rewrite !str_app_nil_l.
  - rewrite !str_app_cons. intros [= -> Heq]. injection Hl as Hl.
    by destruct (IH a' Hl Heq) as [-> ->].
Qed.

Lemma concat_inj xs ys : length xs = length ys →
  Forall (λ x, String.length x = 16%nat) xs → Forall (λ x, String.length x = 16%nat) ys →
  concat_str xs = concat_str ys → xs = ys.
Proof.
  intros Hl Hx. revert ys Hl. induction Hx as [|x xs Hx _ IH]; intros [|y ys] Hl Hy; try done.
  apply Forall_cons in Hy as [Hy Hys]. simpl. intros Heq.
  destruct (append_inj x _ y _ ltac:(congruence) Heq) as [-> Heq'].
  f_equal. apply IH; [by injection Hl|done|done].
Qed.

(** ** Leaves *)

Fixpoint leaves (n : MerkleNode) : list MerkleNode :=
  match n with Leaf _ _ _ => [n] | Node _ l r _ => leaves l ++ leaves r end.

(** The texts that the inner nodes hash. *)
Fixpoint texts (n : MerkleNode) : list string :=
  match n with
  | Leaf _ _ _ => []
  | Node _ l r _ => String.append (hash_value l) (hash_value r) :: texts l ++ texts r
  end.

(** Inner hashes are computed from the children; hashes have their length. *)
Fixpoint hashed (n : MerkleNode) : Prop :=
  match n with
  | Leaf h _ _ => String.length h = 16%nat
  | Node h l r _ => h = _combine_hashes (hash_value l) (hash_value r) ∧ hashed l ∧ hashed r
  end.

Lemma hashed_length n : hashed n → String.length (hash_value n) = 16%nat.
Proof. destruct n; simpl; [done|]. intros [-> _]. apply merkle_hash_length. Qed.

(** Two trees of the same shape. *)
Fixpoint similar (a b : MerkleNode) : Prop :=
  match a, b with
  | Leaf _ r ks, Leaf _ r' ks' => r = r' ∧ ks = ks'
  | Node _ l r _, Node _ l' r' _ => similar l l' ∧ similar r r'
  | _, _ => False
  end.

Definition pair_ok (a b : MerkleNode) : Prop := similar a b ∧ hashed a ∧ hashed b.

Lemma list_pair_ind {A} (P : list A → Prop) :
  P [] → (∀ a, P [a]) → (∀ a b l, P l → P (a :: b :: l)) → ∀ l, P l.
Proof.
  intros H0 H1 H2. assert (Hall : ∀ l, P l ∧ ∀ a, P (a :: l)); [|by intros l; apply Hall].
  induction l as [|b l [IH1 IH2]]; [done|]. split; [apply IH2|]. intros a. by apply H2.
Qed.

Lemma parents_length_le ns : (length (parents ns) <= length ns)%nat.
Proof. induction ns as [|a|a b ns IH] using list_pair_ind; simpl; lia. Qed.

Lemma parents_length ns : (2 <= length ns)%nat → (length (parents ns) < length ns)%nat.
Proof.
  destruct ns as [|a [|b ns]]; simpl; try lia. pose proof (parents_length_le ns). lia.
Qed.

Lemma parents_nil ns : parents ns = [] → ns = [].
Proof. by destruct ns as [|a [|b ns]]. Qed.

Lemma parents_leaves ns : concat (leaves <$> parents ns) = concat (leaves <$> ns).
Proof.
  induction ns as [|a|a b ns IH] using list_pair_ind; [done..|]. simpl. rewrite <-app_assoc.
  do 2 f_equal. apply IH.
Qed.

Lemma parents_pair ns ns' : Forall2 pair_ok ns ns' → Forall2 pair_ok (parents ns) (parents ns').
Proof.
  revert ns'. induction ns as [|a|a b ns IH] using list_pair_ind; intros ns' Hp.
  - by apply Forall2_nil_inv_l in Hp as ->.
  - apply Forall2_cons_inv_l in Hp as (a' & xs & Ha & Hp & ->).
    apply Forall2_nil_inv_l in Hp as ->. simpl. constructor; [done|constructor].
  - apply Forall2_cons_inv_l in Hp as (a' & xs & (Hs & Hh & Hh') & Hp & ->).
    apply Forall2_cons_inv_l in Hp as (b' & ys & (Hs2 & Hh2 & Hh2') & Hp & ->).
    simpl. constructor; [|by apply IH]. split; [by split|]. by split; split_and!.
Qed.

(** Building succeeds, keeps the leaves in order, and keeps two lists of
    leaves over the same buckets in step. *)
Lemma build_tree_spec fuel ns ns' : (length ns <= fuel)%nat → ns ≠ [] → Forall2 pair_ok ns ns' →
  ∃ t t', _build_tree fuel ns = Some t ∧ _build_tree fuel ns' = Some t' ∧ pair_ok t t' ∧
    leaves t = concat (leaves <$> ns) ∧ leaves t' = concat (leaves <$> ns').
Proof.
  revert ns ns'. induction fuel as [|fuel IH]; intros ns ns' Hl Hne Hp.
  { destruct ns; [done|]. simpl in Hl. lia. }
  destruct Hp as [|a a' xs xs' Ha [|b b' ys ys' Hb Hys]]; [done|..].
  - exists a, a'. simpl. by rewrite !app_nil_r.
  - set (l := a :: b :: ys) in *. set (l' := a' :: b' :: ys').
    assert (Hl2 : Forall2 pair_ok l l') by (constructor; [done|by constructor]).
    destruct (IH (parents l) (parents l')) as (t & t' & H1 & H2 & H3 & H4 & H5).
    + pose proof (parents_length l ltac:(unfold l; simpl; lia)). lia.
    + intros Hnil%parents_nil. done.
    + by apply parents_pair.
    + exists t, t'. rewrite <-(parents_leaves l), <-(parents_leaves l'). by split_and!.
Qed.

(** ** Comparison *)

(** No two of the given texts collide. *)
Definition collision_free (ss : list string) : Prop :=
  ∀ a b, a ∈ ss → b ∈ ss → merkle_hash a = merkle_hash b → a = b.

Lemma collision_free_sub ss ss' : ss' ⊆ ss → collision_free ss → collision_free ss'.
Proof. intros Hsub Hc a b Ha Hb. apply Hc; auto. Qed.

Definition differ (p : MerkleNode * MerkleNode) : Prop := hash_value p.1 ≠ hash_value p.2.

Lemma node_subtexts h l r rg h' l' r' rg' :
  texts l ++ texts l' ⊆ texts (Node h l r rg) ++ texts (Node h' l' r' rg') ∧
  texts r ++ texts r' ⊆ texts (Node h l r rg) ++ texts (Node h' l' r' rg').
Proof. simpl. split; set_solver. Qed.

(** Equal children hashes from equal hashes. *)
Lemma node_hash_eq h l r rg h' l' r' rg' :
  hashed (Node h l r rg) → hashed (Node h' l' r' rg') → h = h' →
  collision_free (texts (Node h l r rg) ++ texts (Node h' l' r' rg')) →
  hash_value l = hash_value l' ∧ hash_value r = hash_value r'.
Proof.
  intros (-> & Hl & _) (-> & Hl' & _) Heq Hc.
  apply Hc in Heq; [|apply elem_of_app; left; cbn [texts]; by left|apply elem_of_app; right; cbn [texts]; by left].
  apply append_inj in Heq; [done|]. by rewrite !hashed_length.
Qed.

Lemma leaves_similar a b : similar a b → length (leaves a) = length (leaves b).
Proof.
  revert b. induction a as [|h l IHl r IHr rg]; intros [|h' l' r' rg']; simpl; try done.
  intros [??]. rewrite !length_app. by rewrite (IHl l'), (IHr r').
Qed.

(** Equal hashes: no leaf differs. *)
Lemma equal_leaves a b : pair_ok a b → collision_free (texts a ++ texts b) →
  hash_value a = hash_value b → base.filter differ (zip (leaves a) (leaves b)) = [].
Proof.
  revert b. induction a as [h rg ks|h l IHl r IHr rg]; intros [h' rg' ks'|h' l' r' rg'] (Hs & Ha & Hb) Hc Heq; try done.
  - simpl. rewrite filter_cons_False; [done|]. unfold differ. simpl. by intros [].
  - destruct (node_hash_eq _ _ _ _ _ _ _ _ Ha Hb Heq Hc) as [Hl Hr].
    destruct (node_subtexts h l r rg h' l' r' rg') as [S1 S2].
    destruct Hs as [Hs1 Hs2], Ha as (_ & Ha1 & Ha2), Hb as (_ & Hb1 & Hb2). cbn [leaves].
    rewrite zip_with_app by by apply leaves_similar. rewrite filter_app.
    rewrite IHl; [|done|by eapply collision_free_sub|done].
    rewrite IHr; [done|done|by eapply collision_free_sub|done].
Qed.

Lemma compare_nodes_spec a b : pair_ok a b → collision_free (texts a ++ texts b) →
  _compare_nodes a b = (λ p, key_range p.1) <$> base.filter differ (zip (leaves a) (leaves b)).
Proof.
  revert b. induction a as [h rg ks|h l IHl r IHr rg]; intros b Hp Hc;
    cbn [_compare_nodes]; case_decide as Heq; try by rewrite (equal_leaves _ _ Hp Hc Heq).
  - destruct Hp as (Hs & _ & _), b as [h' rg' ks'|]; [|done]. simpl.
    by rewrite filter_cons_True.
  - destruct Hp as (Hs & Ha & Hb), b as [|h' l' r' rg']; [done|].
    destruct (node_subtexts h l r rg h' l' r' rg') as [S1 S2].
    destruct Hs as [Hs1 Hs2], Ha as (_ & Ha1 & Ha2), Hb as (_ & Hb1 & Hb2). cbn [leaves].
    rewrite zip_with_app by by apply leaves_similar. rewrite filter_app, fmap_app.
    rewrite IHl, IHr; [done|done|by eapply collision_free_sub|done|by eapply collision_free_sub].
Qed.

(** Whatever the hash, only leaves that differ are reported. *)
Lemma compare_nodes_sound a b : similar a b →
  _compare_nodes a b `sublist_of` (λ p, key_range p.1) <$> base.filter differ (zip (leaves a) (leaves b)).
Proof.
  revert b. induction a as [h rg ks|h l IHl r IHr rg]; intros [h' rg' ks'|h' l' r' rg'] Hs; try done;
    cbn [_compare_nodes]; case_decide as Heq; [apply sublist_nil_l| |apply sublist_nil_l|].
  - simpl. by rewrite filter_cons_True.
  - destruct Hs as [Hs1 Hs2]. cbn [leaves]. rewrite zip_with_app by by apply leaves_similar.
    rewrite filter_app, fmap_app. apply sublist_app; [by apply IHl|by apply IHr].
Qed.

(** ** Building *)

Lemma hashes_get (kvs : dict string (json * Z)) d k : dict_wf kvs →
  dict_get (fold_left (λ d p, dict_set p.1 (merkle_hash (entry p.1 p.2)) d) kvs d) k =
  match dict_get kvs k with Some v => Some (merkle_hash (entry k v)) | None => dict_get d k end.
Proof.
  revert d. induction kvs as [|[k' v] kvs IH]; intros d Hwf; [done|].
  apply NoDup_cons in Hwf as [Hk Hwf]. simpl. rewrite IH by done.
  destruct (decide (k = k')) as [->|Hne].
  - change (k' ∉ dict_keys kvs) in Hk. apply dict_get_None in Hk. rewrite Hk.
    by rewrite dict_get_set_eq.
  - destruct (dict_get kvs k); [done|]. by rewrite dict_get_set_ne.
Qed.

Lemma hashes_keys (kvs : dict string (json * Z)) d : dict_wf kvs →
  (∀ k, k ∈ dict_keys kvs → k ∉ dict_keys d) →
  dict_keys (fold_left (λ d p, dict_set p.1 (merkle_hash (entry p.1 p.2)) d) kvs d) = dict_keys d ++ dict_keys kvs.
Proof.
  revert d. induction kvs as [|[k v] kvs IH]; intros d Hwf Hd; simpl; [by rewrite app_nil_r|].
  apply NoDup_cons in Hwf as [Hk Hwf]. simpl in Hk.
  assert (Hf : dict_get d k = None) by (apply dict_get_None, Hd; by left).
  rewrite (dict_set_app_fresh _ _ _ Hf). rewrite IH; [|done|].
  - unfold dict_keys at 1. rewrite fmap_app, <-app_assoc. done.
  - intros x Hx. unfold dict_keys. rewrite fmap_app. simpl.
    intros [Hx'|Hx'%list_elem_of_singleton]%elem_of_app; [|by subst].
    apply (Hd x); [by right|done].
Qed.

Definition hashes_of (kvs : dict string (json * Z)) : dict string string :=
  fold_left (λ d p, dict_set p.1 (merkle_hash (entry p.1 p.2)) d) kvs [].

Definition sorted_keys (kvs : dict string (json * Z)) : list string := merge_sort String.le (dict_keys kvs).

Definition key_buckets (size : nat) (kvs : dict string (json * Z)) : list (list string) :=
  buckets (length (dict_keys kvs)) size (sorted_keys kvs).

Lemma build_eq t kvs : dict_wf kvs → build t kvs =
  match kvs with
  | [] => mkTree (bucket_size t) None []
  | _ => let ls := make_leaf (hashes_of kvs) <$> key_buckets (bucket_size t) kvs in
         mkTree (bucket_size t) (_build_tree (length ls) ls) (hashes_of kvs)
  end.
Proof.
  intros Hwf. unfold build, key_buckets, sorted_keys. fold (hashes_of kvs).
  pose proof (hashes_keys kvs [] Hwf ltac:(intros ??; apply not_elem_of_nil)) as Hk.
  fold (hashes_of kvs) in Hk. simpl in Hk. destruct kvs as [|p kvs]; [done|].
  destruct (hashes_of (p :: kvs)) as [|q hs] eqn:Eh; [done|]. rewrite <-Eh in *. rewrite Hk.
  assert (Hlen : length (merge_sort String.le (dict_keys (p :: kvs))) = length (dict_keys (p :: kvs)))
    by (apply Permutation_length, merge_sort_Permutation).
  by rewrite Hlen.
Qed.

(** ** Buckets *)

Lemma sorted_keys_same kvs kvs' : dict_keys kvs ≡ₚ dict_keys kvs' → sorted_keys kvs = sorted_keys kvs'.
Proof.
  intros Hk. apply (Sorted_unique String.le); [apply Sorted_merge_sort, _..|].
  unfold sorted_keys. by rewrite !merge_sort_Permutation.
Qed.

Lemma key_buckets_same size kvs kvs' : dict_keys kvs ≡ₚ dict_keys kvs' →
  key_buckets size kvs = key_buckets size kvs'.
Proof. intros Hk. unfold key_buckets. by rewrite (sorted_keys_same _ _ Hk), (Permutation_length Hk). Qed.

Lemma buckets_concat fuel size ks : (0 < size)%nat → (length ks <= fuel)%nat →
  concat (buckets fuel size ks) = ks.
Proof.
  intros Hs. revert ks. induction fuel as [|fuel IH]; intros [|k ks] Hl; simpl in *; try done; [lia|].
  rewrite IH; [apply (take_drop size (k :: ks))|]. rewrite length_drop. simpl. lia.
Qed.

Lemma key_buckets_concat size kvs : (0 < size)%nat → concat (key_buckets size kvs) = sorted_keys kvs.
Proof.
  intros Hs. apply buckets_concat; [done|]. unfold sorted_keys.
  by rewrite (Permutation_length (merge_sort_Permutation String.le (dict_keys kvs))).
Qed.

Lemma elem_of_concat {A} (x : A) ls : x ∈ concat ls ↔ ∃ b, b ∈ ls ∧ x ∈ b.
Proof.
  induction ls as [|l ls IH]; simpl.
  - split; [intros Hx; by apply not_elem_of_nil in Hx|]. intros (b & Hb & _). by apply not_elem_of_nil in Hb.
  - rewrite elem_of_app, IH. split.
    + intros [Hx|(b & Hb & Hx)]; [exists l; split; [by left|done]|exists b; split; [by right|done]].
    + intros (b & [->|Hb]%elem_of_cons & Hx); [by left|right; by exists b].
Qed.

Lemma key_buckets_in size kvs b k : (0 < size)%nat → b ∈ key_buckets size kvs → k ∈ b → k ∈ dict_keys kvs.
Proof.
  intros Hs Hb Hk. rewrite <-(merge_sort_Permutation String.le). fold (sorted_keys kvs).
  rewrite <-(key_buckets_concat size) by done. apply elem_of_concat. by exists b.
Qed.

Lemma key_buckets_cover size kvs k : (0 < size)%nat → k ∈ dict_keys kvs →
  ∃ b, b ∈ key_buckets size kvs ∧ k ∈ b.
Proof.
  intros Hs Hk. rewrite <-(merge_sort_Permutation String.le) in Hk. fold (sorted_keys kvs) in Hk.
  rewrite <-(key_buckets_concat size) in Hk by done. by apply elem_of_concat in Hk.
Qed.

Definition bucket_range (b : list string) : string * string :=
  (default EmptyString (head b), default EmptyString (last b)).

Lemma bucket_bounds size kvs b k : (0 < size)%nat → b ∈ key_buckets size kvs → k ∈ b →
  String.le (bucket_range b).1 k ∧ String.le k (bucket_range b).2.
Proof.
  intros Hs Hb Hk.
  assert (Hsort : StronglySorted String.le b).
  { pose proof (StronglySorted_merge_sort String.le (dict_keys kvs)) as Hss. fold (sorted_keys kvs) in Hss.
    rewrite <-(key_buckets_concat size) in Hss by done.
    apply list_elem_of_split in Hb as (l1 & l2 & Hb). rewrite Hb, concat_app in Hss.
    apply StronglySorted_app_1_r in Hss. cbn [concat] in Hss. by apply StronglySorted_app_1_l in Hss. }
  unfold bucket_range. split; simpl.
  - destruct b as [|x b]; [by apply not_elem_of_nil in Hk|]. simpl.
    apply StronglySorted_inv in Hsort as [_ Hf]. rewrite Forall_forall in Hf.
    apply elem_of_cons in Hk as [->|Hk]; [reflexivity|by apply Hf].
  - destruct (last b) as [y|] eqn:El; [|apply last_None in El as ->; by apply not_elem_of_nil in Hk].
    apply last_Some in El as [b' ->]. simpl.
    apply elem_of_app in Hk as [Hk|Hk%list_elem_of_singleton]; [|subst; reflexivity].
    apply list_elem_of_split in Hk as (l1 & l2 & ->). rewrite <-app_assoc in Hsort.
    apply StronglySorted_app_1_r in Hsort. apply StronglySorted_inv in Hsort as [_ Hf].
    rewrite Forall_forall in Hf. apply Hf. apply elem_of_app. right. by left.
Qed.

Lemma leaf_pair h h' b : pair_ok (make_leaf h b) (make_leaf h' b).
Proof. split; [done|]. split; apply merkle_hash_length. Qed.

Lemma leaves_of_leaves (h : dict string string) bs : concat (leaves <$> (make_leaf h <$> bs)) = make_leaf h <$> bs.
Proof. induction bs as [|b bs IH]; [done|]. simpl. by f_equal. Qed.

(** The tree depends only on what each key maps to: two replicas
    that hold the same keys, values and versions build the same tree, so the
    same root hash, in whatever order they received the keys. *)
Theorem build_order_irrelevant t kvs kvs' (Hwf : dict_wf kvs) (Hwf' : dict_wf kvs')
    (Hsame : ∀ k, dict_get kvs k = dict_get kvs' k) :
  root (build t kvs) = root (build t kvs') ∧
  ∀ k, dict_get (_key_hashes (build t kvs)) k = dict_get (_key_hashes (build t kvs')) k.
Proof.
  assert (Hkeys : dict_keys kvs ≡ₚ dict_keys kvs').
  { apply NoDup_Permutation; [done|done|]. intros k. by rewrite <-!dict_get_is_Some, Hsame. }
  assert (Hh : ∀ k, dict_get (hashes_of kvs) k = dict_get (hashes_of kvs') k).
  { intros k. unfold hashes_of. by rewrite !hashes_get, Hsame. }
  assert (Hl : make_leaf (hashes_of kvs) <$> key_buckets (bucket_size t) kvs =
               make_leaf (hashes_of kvs') <$> key_buckets (bucket_size t) kvs').
  { rewrite (key_buckets_same _ _ _ Hkeys). apply list_fmap_ext. intros _ ks _. unfold make_leaf. do 2 f_equal.
    apply f_equal. apply list_fmap_ext. intros _ k _. unfold dict_get_or. by rewrite Hh. }
  rewrite !build_eq by done. cbv zeta. rewrite Hl.
  destruct kvs as [|p kvs], kvs' as [|p' kvs']; try (apply Permutation_length in Hkeys; done); done.
Qed.

(** ** Exact comparison *)

(** The text hashed for a key; [None] when it is absent. *)
Definition entry_of (kvs : dict string (json * Z)) (k : string) : option string := entry k <$> dict_get kvs k.

Definition leaf_text (h : dict string string) (b : list string) : string :=
  concat_str ((λ k, dict_get_or h k EmptyString) <$> b).

(** Every text hashed while building the tree. *)
Definition hashed_texts (t : MerkleTree) (kvs : dict string (json * Z)) : list string :=
  ((λ p, entry p.1 p.2) <$> kvs) ++ (leaf_text (hashes_of kvs) <$> key_buckets (bucket_size t) kvs) ++
    from_option texts [] (root (build t kvs)).

Lemma hashes_or kvs k v : dict_wf kvs → dict_get kvs k = Some v →
  dict_get_or (hashes_of kvs) k EmptyString = merkle_hash (entry k v).
Proof. intros Hwf Hk. unfold dict_get_or, hashes_of. by rewrite hashes_get, Hk. Qed.

(** Leaves with the same entries hash the same text. *)
Lemma leaf_same kvs kvs' b : dict_wf kvs → dict_wf kvs' →
  (∀ k, k ∈ b → is_Some (dict_get kvs k) ∧ is_Some (dict_get kvs' k)) →
  (∀ k, k ∈ b → entry_of kvs k = entry_of kvs' k) → leaf_text (hashes_of kvs) b = leaf_text (hashes_of kvs') b.
Proof.
  intros Hwf Hwf' Hin Hall. unfold leaf_text. f_equal. apply list_fmap_ext.
  intros i k Hk%list_elem_of_lookup_2. destruct (Hin k Hk) as [[v Hv] [v' Hv']].
  rewrite (hashes_or _ _ _ Hwf Hv), (hashes_or _ _ _ Hwf' Hv').
  specialize (Hall k Hk). unfold entry_of in Hall. rewrite Hv, Hv' in Hall. simpl in Hall. congruence.
Qed.

Lemma leaf_differ_entry kvs kvs' b : dict_wf kvs → dict_wf kvs' →
  (∀ k, k ∈ b → is_Some (dict_get kvs k) ∧ is_Some (dict_get kvs' k)) →
  differ (make_leaf (hashes_of kvs) b, make_leaf (hashes_of kvs') b) →
  Exists (λ k, entry_of kvs k ≠ entry_of kvs' k) b.
Proof.
  intros Hwf Hwf' Hin Hd.
  destruct (decide (Exists (λ k, entry_of kvs k ≠ entry_of kvs' k) b)) as [Hex|Hex]; [done|].
  exfalso. apply Hd. change (merkle_hash (leaf_text (hashes_of kvs) b) = merkle_hash (leaf_text (hashes_of kvs') b)).
  f_equal. apply leaf_same; [done..|]. intros k Hk. apply dec_stable. intros Hne. apply Hex, Exists_exists. by exists k.
Qed.

(** Two leaves over the same bucket differ exactly when an entry does. *)
Lemma leaf_differ kvs kvs' b : dict_wf kvs → dict_wf kvs' →
  (∀ k, k ∈ b → is_Some (dict_get kvs k) ∧ is_Some (dict_get kvs' k)) →
  collision_free (((λ p, entry p.1 p.2) <$> kvs) ++ ((λ p, entry p.1 p.2) <$> kvs') ++
                  [leaf_text (hashes_of kvs) b; leaf_text (hashes_of kvs') b]) →
  differ (make_leaf (hashes_of kvs) b, make_leaf (hashes_of kvs') b) ↔
  Exists (λ k, entry_of kvs k ≠ entry_of kvs' k) b.
Proof.
  intros Hwf Hwf' Hin Hc.
  split; [by apply leaf_differ_entry|]. intros (k & Hk & Hne)%Exists_exists Heq. apply Hne.
  change (merkle_hash (leaf_text (hashes_of kvs) b) = merkle_hash (leaf_text (hashes_of kvs') b)) in Heq.
  unfold collision_free in Hc. apply Hc in Heq; [|set_solver..]. unfold leaf_text in Heq.
  apply concat_inj in Heq; [|by rewrite !length_fmap|..];
    [|apply Forall_fmap, Forall_forall; intros k' [[v Hv] [v' Hv']]%Hin; simpl;
      (erewrite hashes_or by done); apply merkle_hash_length..].
  destruct (Hin k Hk) as [[v Hv] [v' Hv']]. unfold entry_of. rewrite Hv, Hv'. simpl. f_equal. apply Hc.
  - apply elem_of_app. left. apply list_elem_of_fmap. exists (k, v). split; [done|]. by apply dict_get_Some_in.
  - apply elem_of_app. right. apply elem_of_app. left.
    apply list_elem_of_fmap. exists (k, v'). split; [done|]. by apply dict_get_Some_in.
  - rewrite <-(hashes_or _ _ _ Hwf Hv), <-(hashes_or _ _ _ Hwf' Hv').
    apply list_elem_of_lookup in Hk as [i Hi].
    pose proof (f_equal (λ l, l !! i) Heq) as Hl. simpl in Hl.
    rewrite !list_lookup_fmap, Hi in Hl. by injection Hl.
Qed.

Lemma zip_fmap_same {A B C} (f : A → B) (g : A → C) l : zip (f <$> l) (g <$> l) = (λ x, (f x, g x)) <$> l.
Proof. induction l as [|x l IH]; [done|]. simpl. by f_equal. Qed.

Lemma build_root t kvs : dict_wf kvs → kvs ≠ [] →
  let ls := make_leaf (hashes_of kvs) <$> key_buckets (bucket_size t) kvs in
  root (build t kvs) = _build_tree (length ls) ls.
Proof. intros Hwf Hne. rewrite build_eq by done. by destruct kvs. Qed.

Lemma key_buckets_nonempty size kvs : (0 < size)%nat → kvs ≠ [] → key_buckets size kvs ≠ [].
Proof.
  intros Hs Hne Hnil. pose proof (key_buckets_concat size kvs Hs) as Hc. rewrite Hnil in Hc. simpl in Hc.
  assert (Hl : length (sorted_keys kvs) = length (dict_keys kvs))
    by apply Permutation_length, merge_sort_Permutation.
  rewrite <-Hc in Hl. by destruct kvs.
Qed.

(** The two trees over the same keys. *)
Lemma built_trees t kvs kvs' : (0 < bucket_size t)%nat → dict_wf kvs → dict_wf kvs' →
  dict_keys kvs ≡ₚ dict_keys kvs' → kvs ≠ [] →
  ∃ n n', root (build t kvs) = Some n ∧ root (build t kvs') = Some n' ∧ pair_ok n n' ∧
    zip (leaves n) (leaves n') = (λ b, (make_leaf (hashes_of kvs) b, make_leaf (hashes_of kvs') b)) <$>
      key_buckets (bucket_size t) kvs.
Proof.
  intros Hsize Hwf Hwf' Hkeys Hne.
  assert (Hne' : kvs' ≠ []) by (intros ->; by apply Permutation_nil_r in Hkeys; destruct kvs).
  pose proof (build_root t kvs Hwf Hne) as Hr. pose proof (build_root t kvs' Hwf' Hne') as Hr'.
  cbv zeta in Hr, Hr'. rewrite <-(key_buckets_same _ _ _ Hkeys) in Hr'.
  set (bs := key_buckets (bucket_size t) kvs) in *.
  destruct (build_tree_spec (length bs) (make_leaf (hashes_of kvs) <$> bs) (make_leaf (hashes_of kvs') <$> bs))
    as (n & n' & Hn & Hn' & Hp & Hl & Hl').
  { by rewrite length_fmap. }
  { intros Hnil%fmap_nil_inv. exact (key_buckets_nonempty _ _ Hsize Hne Hnil). }
  { apply Forall2_fmap_2, Forall_Forall2_diag, Forall_forall. intros b _. apply leaf_pair. }
  rewrite length_fmap in Hr, Hr'. exists n, n'. rewrite Hr, Hr'. rewrite leaves_of_leaves in Hl, Hl'.
  split; [done|]. split; [done|]. split; [done|]. by rewrite Hl, Hl', zip_fmap_same.
Qed.

(** The buckets that hold a key with a different entry. *)
Definition differing (size : nat) (kvs kvs' : dict string (json * Z)) : list (list string) :=
  base.filter (λ b, Exists (λ k, entry_of kvs k ≠ entry_of kvs' k) b) (key_buckets size kvs).

Lemma bucket_in_both size (kvs kvs' : dict string (json * Z)) b : (0 < size)%nat → dict_keys kvs ≡ₚ dict_keys kvs' → b ∈ key_buckets size kvs →
  ∀ k, k ∈ b → is_Some (dict_get kvs k) ∧ is_Some (dict_get kvs' k).
Proof. intros Hs Hkeys Hb k Hk. rewrite !dict_get_is_Some, <-Hkeys. split; by eapply key_buckets_in. Qed.

Lemma compare_sound t kvs kvs' : (0 < bucket_size t)%nat → dict_wf kvs → dict_wf kvs' →
  dict_keys kvs ≡ₚ dict_keys kvs' →
  compare (build t kvs) (build t kvs') `sublist_of` bucket_range <$> differing (bucket_size t) kvs kvs'.
Proof.
  intros Hsize Hwf Hwf' Hkeys. destruct (decide (kvs = [])) as [->|Hne].
  { apply Permutation_nil_l in Hkeys. by destruct kvs'. }
  destruct (built_trees t kvs kvs' Hsize Hwf Hwf' Hkeys Hne) as (n & n' & Hr & Hr' & [Hs _] & Hl).
  unfold compare. rewrite Hr, Hr'. etrans; [by apply compare_nodes_sound|].
  rewrite Hl, pfilter_fmap, <-list_fmap_compose.
  change ((λ p : MerkleNode * MerkleNode, key_range p.1) ∘ _) with bucket_range. apply fmap_sublist.
  clear Hl. unfold differing. assert (Hin := λ b, bucket_in_both (bucket_size t) kvs kvs' b Hsize Hkeys).
  induction (key_buckets (bucket_size t) kvs) as [|b bs IH]; [done|]. rewrite !filter_cons.
  specialize (IH (λ c Hc, Hin c (list_elem_of_further _ _ _ Hc))).
  destruct (decide (differ _)) as [Hd|Hd], (decide (Exists _ b)) as [He|He]; [by constructor| |by constructor|done].
  destruct He. apply (leaf_differ_entry kvs kvs' b); [done..| |done]. apply Hin. by left.
Qed.

Lemma compare_complete t kvs kvs' : (0 < bucket_size t)%nat → dict_wf kvs → dict_wf kvs' →
  dict_keys kvs ≡ₚ dict_keys kvs' → collision_free (hashed_texts t kvs ++ hashed_texts t kvs') →
  compare (build t kvs) (build t kvs') = bucket_range <$> differing (bucket_size t) kvs kvs'.
Proof.
  intros Hsize Hwf Hwf' Hkeys Hfree. destruct (decide (kvs = [])) as [->|Hne].
  { apply Permutation_nil_l in Hkeys. by destruct kvs'. }
  destruct (built_trees t kvs kvs' Hsize Hwf Hwf' Hkeys Hne) as (n & n' & Hr & Hr' & Hp & Hl).
  unfold compare. rewrite Hr, Hr'. rewrite compare_nodes_spec; [|done|].
  2: { eapply collision_free_sub; [|exact Hfree]. unfold hashed_texts. rewrite Hr, Hr'. simpl. set_solver. }
  rewrite Hl, pfilter_fmap, <-list_fmap_compose.
  change ((λ p : MerkleNode * MerkleNode, key_range p.1) ∘ _) with bucket_range. f_equal.
  apply pfilter_ext. intros b Hb. apply leaf_differ; [done|done|by eapply bucket_in_both|].
  eapply collision_free_sub; [|exact Hfree]. unfold hashed_texts. rewrite <-(key_buckets_same _ _ _ Hkeys).
  intros x. rewrite !elem_of_app, !elem_of_cons, elem_of_nil.
  intros [?|[?|[->|[->|[]]]]]; [tauto|tauto|left; right; left|right; right; left];
    by apply list_elem_of_fmap_2.
Qed.

(** Claim C39. Comparing the trees of two replicas over the same set of keys
    reports, in order, only ranges of buckets that hold a key with a different
    value text or version, whatever the hash; and provided no two of the texts
    hashed by the two trees collide, it reports every such bucket, so that
    every key whose entry differs lies in a returned range. *)
Theorem compare_exact t kvs kvs'
    (Hsize : (0 < bucket_size t)%nat) (Hwf : dict_wf kvs) (Hwf' : dict_wf kvs')
    (Hkeys : dict_keys kvs ≡ₚ dict_keys kvs') :
  let ranges := compare (build t kvs) (build t kvs') in
  let expected := bucket_range <$> base.filter (λ b, Exists (λ k, entry_of kvs k ≠ entry_of kvs' k) b)
                                     (key_buckets (bucket_size t) kvs) in
  ranges `sublist_of` expected ∧
  (collision_free (hashed_texts t kvs ++ hashed_texts t kvs') →
   ranges = expected ∧
   ∀ k, k ∈ dict_keys kvs → entry_of kvs k ≠ entry_of kvs' k →
     ∃ r, r ∈ ranges ∧ String.le r.1 k ∧ String.le k r.2).
Proof.
  cbv zeta. split; [by apply compare_sound|]. intros Hfree.
  pose proof (compare_complete t kvs kvs' Hsize Hwf Hwf' Hkeys Hfree) as Heq.
  split; [exact Heq|]. intros k Hk Hdiff.
  destruct (key_buckets_cover (bucket_size t) kvs k Hsize Hk) as (b & Hb & Hkb).
  exists (bucket_range b). rewrite Heq. split.
  - apply list_elem_of_fmap_2, list_elem_of_filter. split; [|done]. apply Exists_exists. by exists k.
  - by eapply bucket_bounds.
Qed.

(** The trees can agree while the replicas differ, without any hash
    collision: the text hashed for an entry does not delimit the key, so the
    key "a" with value "b:c" and the key "a:b" with value "c" have the same
    root hash, for every hash function. *)
Theorem ambiguous_entries (size : nat) (v : Z) :
  get_root_hash (build (init (S size)) [("a", (JStr "b:c", v))]%string) =
  get_root_hash (build (init (S size)) [("a:b", (JStr "c", v))]%string).
Proof.
  assert (He : entry "a" (JStr "b:c", v) = entry "a:b" (JStr "c", v)) by reflexivity.
  rewrite !build_eq by by apply (bool_decide_unpack _). cbn. rewrite He, !take_nil. reflexivity.
Qed.

End merkle.

Definition demo_old : dict string (json * Z) := [("k1", (JStr "x", 1)); ("k2", (JStr "y", 1))]%string.
Definition demo_new : dict string (json * Z) := [("k2", (JStr "z", 2)); ("k1", (JStr "x", 1))]%string.

Lemma build_order_irrelevant_witness :
  root (build (init 100) demo_old) = root (build (init 100) (reverse demo_old)) ∧
  ∀ k, dict_get (_key_hashes (build (init 100) demo_old)) k =
       dict_get (_key_hashes (build (init 100) (reverse demo_old))) k.
Proof.
  apply build_order_irrelevant; [by apply (bool_decide_unpack _)..|].
  intros k. unfold demo_old. rewrite reverse_cons, reverse_cons. simpl.
  destruct (decide (k = "k1")) as [->|]; [done|]. by destruct (decide (k = "k2")).
Defined.

(** The texts of the two demo trees and their hashes are pairwise different. *)
Definition no_collisions (ss : list string) : bool :=
  let ps := (λ s, (merkle_hash s, s)) <$> ss in
  forallb (λ p, forallb (λ q, bool_decide (p.1 = q.1 → p.2 = q.2)) ps) ps.

Lemma no_collisions_ok ss : no_collisions ss = true → collision_free ss.
Proof.
  unfold no_collisions. cbv zeta. rewrite forallb_forall. intros Hall a b Ha Hb.
  assert (Hin : ∀ s, s ∈ ss → List.In (merkle_hash s, s) ((λ s, (merkle_hash s, s)) <$> ss))
    by (intros s Hs; apply list_elem_of_In, list_elem_of_fmap; by exists s).
  specialize (Hall _ (Hin a Ha)). rewrite forallb_forall in Hall.
  specialize (Hall _ (Hin b Hb)). by apply bool_decide_eq_true in Hall.
Qed.

Lemma compare_exact_witness :
  let ranges := compare (build (init 1) demo_old) (build (init 1) demo_new) in
  ranges = bucket_range <$> base.filter (λ b, Exists (λ k, entry_of demo_old k ≠ entry_of demo_new k) b)
             (key_buckets 1 demo_old) ∧
  ∀ k, k ∈ dict_keys demo_old → entry_of demo_old k ≠ entry_of demo_new k →
    ∃ r, r ∈ ranges ∧ String.le r.1 k ∧ String.le k r.2.
Proof.
  apply (compare_exact (init 1) demo_old demo_new).
  - simpl. lia.
  - by apply (bool_decide_unpack _).
  - by apply (bool_decide_unpack _).
  - apply Permutation_swap.
  - apply no_collisions_ok. vm_compute. reflexivity.
Defined.

End MerkleF.

(** ** The repair cycle *)
Module AntiEntropyF.
Import Merkle AntiEntropy.
Section repair.
Context `{MerkleHash} (node_id : string).

(** What a peer's data repairs: the entries with a greater version. *)
Definition newer (local remote : dict string (json * Z)) : list (string * json * Z) :=
  (λ p, (p.1, p.2.1, p.2.2)) <$>
    base.filter (λ p, (default (JNull, 0) (dict_get local p.1)).2 < p.2.2) remote.

Lemma apply_newer_spec local remote t :
  apply_newer local remote t = (t, newer local remote, Ok ()).
Proof.
  unfold apply_newer, newer. induction remote as [|[k [v ver]] remote IH]; [done|].
  cbn [for_each]. rewrite filter_cons. simpl.
  destruct (Z.ltb_spec (default (JNull, 0) (dict_get local k)).2 ver) as [Hlt|Hge].
  - rewrite decide_True by done. erewrite bind_ok; [|done|exact IH]. done.
  - rewrite decide_False by lia. erewrite bind_ok; [|done|exact IH]. done.
Qed.

(** Without the remote callbacks a cycle only rebuilds the tree. *)
Lemma idle_cycle (cb : callbacks) t : _get_remote_merkle cb = None ∨ _get_remote_keys cb = None →
  _run_repair_cycle node_id cb t =
    (match _get_local_data cb, _get_peers cb with Some local, Some _ => build t local | _, _ => t end, [], Ok ()).
Proof.
  intros Hno. unfold _run_repair_cycle.
  destruct (_get_local_data cb) as [local|]; [|done]. destruct (_get_peers cb) as [peers|]; [|done].
  rewrite modify_bind. generalize (build t local). clear t.
  induction peers as [|p peers IH]; intros t; [done|]. cbn [for_each].
  assert (Hp : (if decide (p = node_id) then mret () else _repair_with_peer cb p) t = (t, [], Ok ())).
  { case_decide; [done|]. unfold _repair_with_peer.
    destruct Hno as [-> | ->]; [done|]. by destruct (_get_remote_merkle cb). }
  specialize (IH t). unfold mbind, prog_bind. rewrite Hp, IH. done.
Qed.

(** A repair with a peer is safe whatever the peer sends: it never
    raises and never changes the local tree, and it applies nothing unless
    the peer's root hash differs from the local one; then it applies exactly
    the peer's entries whose version is greater than the local one, once each.
    With the callbacks the node sets (no remote tree and no remote keys) a
    whole repair cycle applies nothing. *)
Theorem repair_with_peer_spec (cb : callbacks) peer t :
  (∃ es, _repair_with_peer cb peer t = (t, es, Ok ()) ∧
    (es = [] ∨ ∃ local remote_keys,
       _get_local_data cb = Some local ∧ _get_remote_keys cb = Some remote_keys ∧
       (∀ remote_merkle, _get_remote_merkle cb = Some remote_merkle →
          remote_hash (remote_merkle peer) ≠
            Ok (match get_root_hash t with Some s => JStr s | None => JNull end)) ∧
       es = newer local (remote_keys peer (dict_keys local)))) ∧
  (_get_remote_merkle cb = None ∨ _get_remote_keys cb = None →
     events_of (_run_repair_cycle node_id cb t) = []).
Proof.
  split.
  - unfold _repair_with_peer.
    destruct (_get_remote_merkle cb) as [rm|]; [|by exists []; split; [|left]].
    destruct (_get_remote_keys cb) as [rk|]; [|by exists []; split; [|left]].
    unfold catch. destruct (truthy (rm peer)); [|by exists []; split; [|left]].
    rewrite get_bind. destruct (remote_hash (rm peer)) as [h|x] eqn:Eh;
      [|rewrite lift_raise_bind; by exists []; split; [|left]].
    rewrite lift_ok_bind. case_decide as Hh; [by exists []; split; [|left]|].
    destruct (_get_local_data cb) as [local|]; [|by exists []; split; [|left]].
    case_decide; [by exists []; split; [|left]|].
    destruct (_apply_repair_data cb); [|by exists []; split; [|left]].
    rewrite apply_newer_spec. eexists. split; [done|]. right. exists local, rk.
    split; [done|]. split; [done|]. split; [|done]. intros rm' [= <-]. rewrite Eh. congruence.
  - intros Hno. by rewrite idle_cycle.
Qed.

End repair.
End AntiEntropyF.
