(* ===== verification/Replication.v ===== *)
(** [minidb/cluster/replication.py]: sending a log entry to the followers and
    counting acknowledgements.

    [send] answers a [send_replicate] call (an exception counts as no
    acknowledgement, as the source only prints it).  The asynchronous thread
    takes one queued item per step. *)

From S2P Require Import Prelude.
From S2P Require Import PyMonad.
From S2P Require Import PyDict.
From S2P Require Import Config.
From S2P Require Import Election.
#[local] Open Scope Z_scope.

Module Replication.

(** The [event] of the source is set exactly when [success] is. *)
Record ReplicationRequest := mkRequest {
  required_acks : Z;
  received_acks : Z;
  success : bool;
}.

Record ReplicationManager := mkReplication {
  replication_factor : Z;
  default_consistency : ConsistencyLevel;
  _pending : dict Z ReplicationRequest;
  _async_queue : list (LogEntry * list string);
}.

Definition init (rf : Z) (c : ConsistencyLevel) : ReplicationManager := mkReplication rf c [] [].

(** A [send_replicate] call and its answer. *)
Inductive replication_event := SendReplicate (follower : string) (e : LogEntry) (acked : bool).

Abbreviation proc := (prog ReplicationManager replication_event).

Definition set_pending (m : ReplicationManager) p :=
  mkReplication (replication_factor m) (default_consistency m) p (_async_queue m).
Definition set_queue (m : ReplicationManager) q :=
  mkReplication (replication_factor m) (default_consistency m) (_pending m) q.

Definition acknowledge (log_index : Z) : proc () :=
  m ← get_state;
  match dict_get (_pending m) log_index with
  | None => mret ()
  | Some r =>
      let acks := received_acks r + 1 in
      modify (λ m, set_pending m (dict_set log_index
        (mkRequest (required_acks r) acks (success r || (required_acks r <=? acks))) (_pending m)))
  end.

Section sending.
Context (send : string → LogEntry → bool).

Definition _replicate_to_followers (e : LogEntry) (followers : list string) (async_mode : bool) : proc () :=
  for_each (λ f,
    emit (SendReplicate f e (send f e));;
    if send f e && negb async_mode then acknowledge (LogEntry.index e) else mret ()) followers.

(** The number of replicas a level needs, the local one included. *)
Definition required_total (rf : Z) (c : ConsistencyLevel) : Z :=
  match c with
  | QUORUM => rf / 2 + 1
  | ALL | STRONG => rf
  | ONE | ANY => 1
  end.

Definition is_sync (c : ConsistencyLevel) : bool :=
  match c with QUORUM | ALL | STRONG => true | ONE | ANY => false end.

(** [get_followers] is [None] when the callback is not set. *)
Definition replicate (e : LogEntry) (consistency : option ConsistencyLevel)
    (targets : option (list string)) (get_followers : option (list string)) : proc bool :=
  m ← get_state;
  let c := default (default_consistency m) consistency in
  match (match targets with Some t => Some t | None => get_followers end) with
  | None => mret (negb (is_sync c && (1 <? replication_factor m)))
  | Some followers =>
      if is_sync c then
        let required := Z.max 0 (required_total (replication_factor m) c - 1) in
        if required =? 0 then mret true
        else if bool_decide (followers = []) || (Z.of_nat (length followers) <? required) then mret false
        else
          modify (λ m, set_pending m (dict_set (LogEntry.index e) (mkRequest required 0 false) (_pending m)));;
          _replicate_to_followers e followers false;;
          m ← get_state;
          let r := dict_get (_pending m) (LogEntry.index e) in
          modify (λ m, set_pending m (dict_del (LogEntry.index e) (_pending m)));;
          mret (match r with
                | Some r => success r || (required <=? received_acks r)
                | None => false
                end)
      else
        (if bool_decide (followers = []) then mret ()
         else modify (λ m, set_queue m (_async_queue m ++ [(e, followers)])));;
        mret true
  end.

(** One round of [_async_replication_loop]. *)
Definition async_round : proc () :=
  m ← get_state;
  match _async_queue m with
  | [] => mret ()
  | (e, targets) :: q =>
      modify (λ m, set_queue m q);;
      _replicate_to_followers e targets true
  end.
End sending.

Definition get_pending_count (m : ReplicationManager) : Z := Z.of_nat (length (_pending m)).
Definition get_async_queue_size (m : ReplicationManager) : Z := Z.of_nat (length (_async_queue m)).

(** ** Acknowledgements *)

Section facts.
Context (send : string → LogEntry → bool).

(** The followers that acknowledge [e]. *)
Definition acks (e : LogEntry) (followers : list string) : Z :=
  Z.of_nat (length (base.filter (λ f, send f e = true) followers)).

Definition sends (e : LogEntry) (followers : list string) : list replication_event :=
  (λ f, SendReplicate f e (send f e)) <$> followers.

Lemma set_pending_same m : set_pending m (_pending m) = m.
Proof. by destruct m. Qed.

Lemma dict_set_twice {V} k (v w : V) (d : dict Z V) : dict_set k w (dict_set k v d) = dict_set k w d.
Proof.
  induction d as [|[k' x] d IH]; simpl; [by rewrite decide_True|].
  destruct (decide (k = k')); simpl; [by rewrite decide_True|]. by rewrite decide_False, IH.
Qed.

Lemma dict_set_same {V} k (v : V) (d : dict Z V) : dict_get d k = Some v → dict_set k v d = d.
Proof.
  induction d as [|[k' x] d IH]; [done|]. simpl. destruct (decide (k = k')) as [->|].
  - by intros [= ->].
  - intros ?. by rewrite IH.
Qed.

(** Sending to all followers raises the count by their acknowledgements. *)
Lemma replicate_to_followers_spec e followers r m :
  dict_get (_pending m) (LogEntry.index e) = Some r →
  success r = (0 <? received_acks r) && (required_acks r <=? received_acks r) → 0 <= received_acks r →
  ∃ r', _replicate_to_followers send e followers false m =
      (set_pending m (dict_set (LogEntry.index e) r' (_pending m)), sends e followers, Ok ()) ∧
    required_acks r' = required_acks r ∧ received_acks r' = received_acks r + acks e followers ∧
    success r' = (0 <? received_acks r') && (required_acks r' <=? received_acks r').
Proof.
  revert r m. induction followers as [|f fs IH]; intros r m Hr Hs H0.
  { exists r. unfold acks. rewrite dict_set_same by done. rewrite set_pending_same. simpl.
    rewrite Z.add_0_r. done. }
  unfold _replicate_to_followers. cbn [for_each]. fold (_replicate_to_followers send e fs false).
  unfold acks. rewrite filter_cons. destruct (send f e) eqn:Ef.
  - rewrite decide_True by done. cbn [andb negb].
    set (r1 := mkRequest (required_acks r) (received_acks r + 1)
      (success r || (required_acks r <=? received_acks r + 1))).
    set (m1 := set_pending m (dict_set (LogEntry.index e) r1 (_pending m))).
    assert (Hack : acknowledge (LogEntry.index e) m = (m1, [], Ok ())).
    { unfold acknowledge. rewrite get_bind, Hr. done. }
    destruct (IH r1 m1) as (r' & Heq & Hreq & Hrec & Hsuc).
    + unfold m1. simpl. by rewrite dict_get_set_eq.
    + unfold r1. simpl. rewrite Hs. destruct (Z.ltb_spec 0 (received_acks r)), (Z.ltb_spec 0 (received_acks r + 1)),
        (Z.leb_spec (required_acks r) (received_acks r)), (Z.leb_spec (required_acks r) (received_acks r + 1)); simpl; try done; lia.
    + unfold r1. simpl. lia.
    + exists r'. erewrite bind_ok; [|erewrite bind_ok; [|done|exact Hack]; done|exact Heq].
      unfold m1. simpl. rewrite dict_set_twice. split; [unfold sends; by rewrite ?fmap_cons, ?Ef|].
      split; [done|]. split; [|done]. rewrite Hrec. unfold r1, acks. simpl. lia.
  - rewrite decide_False by done. destruct (IH r m Hr Hs H0) as (r' & Heq & Hreq & Hrec & Hsuc).
    exists r'. erewrite bind_ok; [|done|exact Heq]. split; [unfold sends; by rewrite ?fmap_cons, ?Ef|]. done.
Qed.

(** One call of [replicate], level by level. *)
Lemma replicate_outcome e c followers m
    (Hidle : dict_get (_pending m) (LogEntry.index e) = None) :
  let level := default (default_consistency m) c in
  let required := required_total (replication_factor m) level - 1 in
  let possible := required <= Z.of_nat (length followers) in
  ∃ m' es ok, replicate send e c (Some followers) None m = (m', es, Ok ok) ∧
    _pending m' = _pending m ∧ replication_factor m' = replication_factor m ∧
    if is_sync level then
      (ok = true ↔ required <= 0 ∨ possible ∧ required <= acks e followers) ∧
      (0 < required → possible → es = sends e followers) ∧
      (¬ (0 < required ∧ possible) → es = []) ∧ _async_queue m' = _async_queue m
    else ok = true ∧ es = [] ∧
      _async_queue m' = _async_queue m ++ (if decide (followers = []) then [] else [(e, followers)]).
Proof.
  cbv zeta. unfold replicate. rewrite get_bind. set (level := default (default_consistency m) c).
  destruct (is_sync level) eqn:Esync.
  2: { rewrite (bool_decide_decide (followers = [])). destruct (decide (followers = [])).
       - exists m, [], true. rewrite app_nil_r. done.
       - exists (set_queue m (_async_queue m ++ [(e, followers)])), [], true. by repeat (split; [done|]). }
  set (n := required_total (replication_factor m) level) in *.
  assert (Hacks : 0 <= acks e followers <= Z.of_nat (length followers)).
  { unfold acks. pose proof (length_filter (λ f, send f e = true) followers). lia. }
  destruct (Z.eqb_spec (Z.max 0 (n - 1)) 0) as [Hz|Hz].
  { exists m, [], true. split; [done|]. split; [done|]. split; [done|].
    split; [split; [|done]; intros _; left; lia|]. split; [lia|]. done. }
  destruct (_ || _) eqn:Eimp.
  { exists m, [], false. split; [done|]. split; [done|]. split; [done|].
    assert (Hno : ¬ (n - 1 <= Z.of_nat (length followers))).
    { apply orb_true_iff in Eimp as [He%bool_decide_eq_true_1|Hl%Z.ltb_lt]; [subst; simpl; lia|lia]. }
    split; [split; [done|]; intros [?|[??]]; lia|]. split; [lia|]. done. }
  apply orb_false_iff in Eimp as [He%bool_decide_eq_false_1 Hl%Z.ltb_ge].
  set (req := mkRequest (Z.max 0 (n - 1)) 0 false).
  set (m1 := set_pending m (dict_set (LogEntry.index e) req (_pending m))).
  destruct (replicate_to_followers_spec e followers req m1) as (r' & Heq & Hreq & Hrec & Hsuc).
  { unfold m1. simpl. by rewrite dict_get_set_eq. }
  { done. }
  { simpl. lia. }
  set (m2 := set_pending m1 (dict_set (LogEntry.index e) r' (_pending m1))) in Heq.
  exists (set_pending m2 (dict_del (LogEntry.index e) (_pending m2))), (sends e followers),
    (success r' || (Z.max 0 (n - 1) <=? received_acks r')).
  assert (Hdel : dict_del (LogEntry.index e) (_pending m2) = _pending m).
  { unfold m2, m1. simpl. rewrite dict_set_twice, dict_set_app_fresh by done.
    unfold dict_del. rewrite filter_app, filter_cons, decide_False, filter_nil by (simpl; tauto).
    rewrite app_nil_r. apply pfilter_all. intros p Hp Heqk. apply dict_get_None in Hidle. apply Hidle.
    rewrite <-Heqk. by apply list_elem_of_fmap_2. }
  split.
  { rewrite modify_bind. fold m1. rewrite <-(app_nil_r (sends e followers)).
    eapply bind_ok; [exact Heq|]. rewrite get_bind.
    assert (Hget : dict_get (_pending m2) (LogEntry.index e) = Some r')
      by (unfold m2; simpl; by rewrite dict_get_set_eq).
    by rewrite Hget, modify_bind. }
  split; [exact Hdel|]. split; [done|]. simpl in Hreq, Hrec. split; [|split; [done|]; split; [lia|done]].
  rewrite Hsuc, Hreq, Hrec. simpl. rewrite orb_true_iff, andb_true_iff, !Z.leb_le, Z.ltb_lt. lia.
Qed.

(** Claim C17. [replicate] with a follower list keeps its promise at every
    level.  A synchronous level succeeds exactly when it needs no remote
    replica, or there are enough followers and enough of them acknowledged;
    it sends the entry once to each follower in order, or to none when it
    refuses up front because the quorum is impossible; ONE and ANY always
    succeed, send nothing now and queue the entry; and no request stays
    pending. *)
Theorem replicate_spec e c followers m
    (Hidle : dict_get (_pending m) (LogEntry.index e) = None) :
  let level := default (default_consistency m) c in
  let required := required_total (replication_factor m) level - 1 in
  let possible := required <= Z.of_nat (length followers) in
  ∃ m' es ok, replicate send e c (Some followers) None m = (m', es, Ok ok) ∧
    _pending m' = _pending m ∧
    if is_sync level then
      (ok = true ↔ required <= 0 ∨ possible ∧ required <= acks e followers) ∧
      (0 < required → possible → es = sends e followers) ∧
      (¬ (0 < required ∧ possible) → es = []) ∧ _async_queue m' = _async_queue m
    else ok = true ∧ es = [] ∧
      _async_queue m' = _async_queue m ++ (if decide (followers = []) then [] else [(e, followers)]).
Proof.
  cbv zeta. destruct (replicate_outcome e c followers m Hidle) as (m' & es & ok & Hrun & Hp & _ & Hr).
  by exists m', es, ok.
Qed.

End facts.

Definition demo_entry : LogEntry := LogEntry.mkLog 1 1 "SET" "k" Json.JNull None 0 1 None None "n1".

Lemma replicate_spec_witness :
  ∃ m' es ok, replicate (λ f _, bool_decide (f = "b"%string)) demo_entry None (Some ["b"; "c"]%string) None
      (init 3 QUORUM) = (m', es, Ok ok) ∧
    _pending m' = [] ∧
    (ok = true ↔ 1 <= 0 ∨ 1 <= 2 ∧ 1 <= acks (λ f _, bool_decide (f = "b"%string)) demo_entry ["b"; "c"]%string) ∧
    (0 < 1 → 1 <= 2 → es = sends (λ f _, bool_decide (f = "b"%string)) demo_entry ["b"; "c"]%string) ∧
    (¬ (0 < 1 ∧ 1 <= 2) → es = []) ∧ _async_queue m' = [].
Proof.
  apply (replicate_spec (λ f _, bool_decide (f = "b"%string)) demo_entry None ["b"; "c"]%string (init 3 QUORUM)).
  reflexivity.
Defined.

End Replication.
