(* ===== verification/Parse.v ===== *)
(** [int(s)] and [float(s)] of the standard library on ASCII text, and
    splitting text at a separator. *)

From S2P Require Import Prelude.
From S2P Require Import Text.
From S2P Require Import PyDict.
From S2P Require Import Json.
From S2P Require Import JsonFacts.
#[local] Open Scope Z_scope.

(** ** [int(s)] *)

(** A run of digits where a single underscore may stand between two of them;
    [acc] is the value so far, [ok] whether the text may end here. *)
Fixpoint int_digits (acc : N) (ok : bool) (s : string) : option N :=
  match s with
  | EmptyString => if ok then Some acc else None
  | String c s =>
      match digit_val c with
      | Some d => int_digits (10 * acc + d) true s
      | None => if ok && bool_decide (c = "_"%char) then int_digits acc false s else None
      end
  end.

Definition py_int (s : string) : res Z :=
  let n := match strip s with
           | String "-" t => (λ n, - Z.of_N n) <$> int_digits 0 false t
           | String "+" t => Z.of_N <$> int_digits 0 false t
           | t => Z.of_N <$> int_digits 0 false t
           end in
  res_of_option ValueError n.

(** ** [float(s)] of a decimal with at most six decimals, in microseconds

    Exponents, [inf] and [nan] are outside the model and refused. *)
Definition float_unsigned (s : string) : option Z :=
  let '(n, rest) := scan_digits 0 s in
  match rest with
  | EmptyString => if starts_digit s then Some (Z.of_N n * 1000000) else None
  | String "." frac =>
      match scan_frac 6 100000 0 frac with
      | Some (f, EmptyString) =>
          if starts_digit s || starts_digit frac then Some (Z.of_N n * 1000000 + Z.of_N f) else None
      | _ => None
      end
  | _ => None
  end.

Definition py_float (s : string) : res time :=
  let t := match strip s with
           | String "-" t => Z.opp <$> float_unsigned t
           | String "+" t => float_unsigned t
           | t => float_unsigned t
           end in
  res_of_option ValueError t.

(** ** [s.split(sep)] for a one character separator *)
Fixpoint split_all (c : ascii) (s : string) : list string :=
  match s with
  | EmptyString => [EmptyString]
  | String d s =>
      if decide (d = c) then EmptyString :: split_all c s
      else match split_all c s with
           | x :: xs => String d x :: xs
           | [] => [String d EmptyString]
           end
  end.

(** ** Printed numbers are read back *)

Lemma int_digits_scan s acc n : scan_digits acc s = (n, EmptyString) → s ≠ EmptyString →
  int_digits acc false s = Some n.
Proof.
  intros Hs Hne.
  assert (Hgen : ∀ s acc ok, scan_digits acc s = (n, EmptyString) → ok = true ∨ s ≠ EmptyString →
    int_digits acc ok s = Some n).
  { clear. induction s as [|c s IH]; intros acc ok Hs Hok; simpl in *.
    - destruct Hok as [->|?]; [|done]. by injection Hs as ->.
    - destruct (digit_val c); [|done]. apply IH; [done|by left]. }
  apply Hgen; [done|by right].
Qed.

Lemma pretty_N_scan (n : N) : scan_digits 0 (pretty n) = (n, EmptyString) ∧ pretty n ≠ EmptyString.
Proof.
  split.
  - unfold pretty, pretty_N. case_decide as E; [by subst|].
    destruct (scan_digits_go n EmptyString 0%N ltac:(lia)) as [k Hk].
    rewrite Hk. done.
  - destruct (pretty_N_head n) as (c & t & -> & _). done.
Qed.

(** Text without spaces is not stripped. *)
Lemma strip_visible s : str_all (λ c, negb (py_space c)) s = true → strip s = s.
Proof.
  intros Hs. unfold strip. destruct s as [|c s]; [done|]. simpl in Hs.
  apply andb_true_iff in Hs as [Hc Hs]. apply negb_true_iff in Hc. cbn [lstrip]. rewrite Hc.
  assert (Hr : ∀ t, str_all (λ c, negb (py_space c)) t = true → rstrip t = t).
  { clear. induction t as [|c t IH]; [done|]. simpl. intros [Hc%negb_true_iff Ht]%andb_true_iff.
    rewrite IH by done. destruct t; [by rewrite Hc|done]. }
  apply Hr. simpl. by rewrite Hc, Hs.
Qed.

(** A number is printed in digits. *)
Lemma pretty_N_all (P : ascii → bool) (n : N) :
  (∀ d, (d < 10)%N → P (pretty_N_char d) = true) → str_all P (pretty n) = true.
Proof.
  intros HP. unfold pretty, pretty_N. case_decide; [apply andb_true_iff; split; [exact (HP 0%N ltac:(lia))|done]|].
  assert (Hgo : ∀ s x, str_all P s = true → str_all P (pretty_N_go x s) = true); [|by apply Hgo].
  intros s x. revert s. induction (N.lt_wf_0 x) as [x _ IH]; intros s Hs.
  destruct (decide (x = 0)%N) as [->|Hx]; [done|].
  rewrite pretty_N_go_step by lia. apply IH; [apply N.div_lt; lia|].
  simpl. rewrite Hs, andb_true_r. apply HP. apply N.mod_lt. lia.
Qed.

Lemma digit_visible d : (d < 10)%N → negb (py_space (pretty_N_char d)) = true.
Proof.
  intros Hd. assert (Hs : ∀ c, is_Some (digit_val c) → py_space c = false).
  { intros c [x Hx]. destruct c as [[] [] [] [] [] [] [] []]; done || discriminate Hx. }
  rewrite Hs; [done|]. rewrite digit_val_char by done. by eexists.
Qed.

Lemma py_int_pretty z : py_int (dump_int z) = Ok z.
Proof.
  unfold py_int, dump_int.
  assert (Hv : ∀ n : N, str_all (λ c, negb (py_space c)) (pretty n) = true)
    by (intros n; apply pretty_N_all, digit_visible).
  assert (Hd : ∀ n : N, int_digits 0 false (pretty n) = Some n).
  { intros n. destruct (pretty_N_scan n). by apply int_digits_scan. }
  destruct (Z.ltb_spec z 0) as [Hz|Hz].
  - rewrite pretty_Z_neg by done. rewrite strip_visible by (simpl; apply Hv).
    rewrite Hd. simpl. f_equal. lia.
  - rewrite <-(Z2N.id z) at 1 by done. rewrite pretty_Z_nonneg, strip_visible by done.
    pose proof (Hd (Z.to_N z)) as Hi. destruct (pretty_N_head (Z.to_N z)) as (c & t & Hp & Hc).
    rewrite Hp in *. destruct Hc as [d Hc].
    assert (Hm : Z.of_N <$> int_digits 0 false (String c t) = Some z).
    { rewrite Hi. simpl. f_equal. lia. }
    destruct c as [[] [] [] [] [] [] [] []]; try discriminate Hc; by rewrite Hm.
Qed.

Lemma float_unsigned_dump n f : (f < 1000000)%N →
  float_unsigned (String.append (pretty n) (String "." (frac_digits f))) = Some (Z.of_N n * 1000000 + Z.of_N f).
Proof.
  intros Hf. unfold float_unsigned.
  assert (Hscan : scan_digits 0 (String.append (pretty n) (String "." (frac_digits f))) =
    (n, String "." (frac_digits f))).
  { unfold pretty, pretty_N. case_decide as E; [by subst|]. rewrite pretty_N_go_app.
    destruct (scan_digits_go n (String "." (frac_digits f)) 0%N ltac:(lia)) as [k Hk].
    change (String.append "" (String "." (frac_digits f))) with (String "." (frac_digits f)).
    rewrite Hk. done. }
  rewrite Hscan. destruct (scan_frac_digits f EmptyString Hf eq_refl) as [Hs Hd].
  rewrite str_app_nil_r in Hs, Hd. by rewrite Hs, Hd, orb_true_r.
Qed.

Lemma frac_visible f : str_all (λ c, negb (py_space c)) (frac_digits f) = true.
Proof.
  assert (Hd : ∀ k, negb (py_space (digit ((f / k) mod 10))) = true)
    by (intros k; apply digit_visible, N.mod_lt; done).
  unfold frac_digits, chr. repeat case_match; cbn [str_all]; by rewrite ?Hd.
Qed.

(** The text of a time parses to that time. *)
Lemma py_float_dump t : py_float (dump_float t) = Ok t.
Proof.
  unfold py_float, dump_float. set (n := Z.to_N (Z.abs t)).
  assert (Hm : (n mod 1000000 < 1000000)%N) by (apply N.mod_lt; done).
  assert (Hn : Z.of_N (n / 1000000) * 1000000 + Z.of_N (n mod 1000000) = Z.abs t).
  { pose proof (N.div_mod n 1000000 ltac:(done)). lia. }
  set (body := String.append (pretty (n / 1000000)%N) (String "." (frac_digits (n mod 1000000)))).
  assert (Hv : str_all (λ c, negb (py_space c)) body = true).
  { unfold body. rewrite str_all_app. cbn [str_all]. rewrite frac_visible.
    rewrite pretty_N_all by apply digit_visible. done. }
  assert (Hf : float_unsigned body = Some (Z.abs t)).
  { unfold body. rewrite float_unsigned_dump by done. by rewrite Hn. }
  destruct (Z.ltb_spec t 0) as [Hz|Hz].
  - rewrite strip_visible by (simpl; done). rewrite Hf. simpl. f_equal. lia.
  - rewrite strip_visible by done. rewrite Z.abs_eq in Hf by done.
    assert (Hb : ∃ c s, body = String c s ∧ is_Some (digit_val c)).
    { unfold body. destruct (pretty_N_head (n / 1000000)) as (c & s & -> & Hc). by eexists c, _. }
    destruct Hb as (c & s & Hb & [d Hc]). rewrite Hb in *.
    destruct c as [[] [] [] [] [] [] [] []]; try discriminate Hc; by rewrite Hf.
Qed.
