(* ===== verification/Connections.v ===== *)
(** Connections: the fault proxy's check and the connection pool of
    [minidb/network/client.py], and the connection table of
    [minidb/network/server.py].

    A thread and an object are numbered; the environment variables, the proxy's
    answers and the outcome of [connect] are arguments. *)

From S2P Require Import Prelude.
From S2P Require Import PyDict.
From S2P Require Import Json.
From S2P Require Import Fields.
From S2P Require Import Parse.
From S2P Require Import Protocol.
#[local] Open Scope Z_scope.

(** ** The fault proxy *)
Module Proxy.

(** The environment variables that the client reads. *)
Record environ := mkEnviron {
  PROXY_PORT : option string;
  START_PORT : option string;
  NODE_ID : option string;
}.

(** [x > 0] of a decoded number. *)
Definition positive (j : json) : res bool :=
  match j with
  | JInt n => Ok (0 <? n)
  | JFloat t => Ok (0 <? t)
  | JBool b => Ok b
  | _ => Raise TypeError
  end.

(** What the proxy's verdict means: whether the call goes on, and for how long
    it is held back.  Any exception lets it go on at once. *)
Definition verdict (answer : json) : res (bool * option json) :=
  (b ←! get_default answer "blocked" JNull;
   if truthy b then Ok (false, None)
   else
     d ←! get_default answer "delay_ms" (JInt 0);
     p ←! positive d;
     Ok (true, if p : bool then Some d else None))%py.

Section proxy.
(** The proxy's answer about a connection between two nodes, [None] where the
    request or the decoding raises. *)
Context (env : environ) (ask : string → string → option json).

(** [TCPClient.__init__]'s node id. *)
Definition client_name (node_id : string) : string := str_or node_id (default EmptyString (NODE_ID env)).

Definition _check_proxy (node_id : string) (port : Z) : bool * option json :=
  match PROXY_PORT env with
  | None => (true, None)
  | Some p =>
      if truthy_str p then
        match py_int (default "7001"%string (START_PORT env)) with
        | Raise _ => (true, None)
        | Ok start =>
            let target := "node-" +:+ dump_int (port - start + 1) in
            let from := client_name node_id in
            if truthy_str from then
              match ask from target with
              | None => (true, None)
              | Some answer => match verdict answer with Ok v => v | Raise _ => (true, None) end
              end
            else (true, None)
        end
      else (true, None)
  end.

(** Only an answer that says "blocked" stops a call: without a proxy, without a
    name, on any error of the check, it goes on. *)
Lemma blocked_by_answer_only node_id port d :
  _check_proxy node_id port = (false, d) →
  ∃ from target answer b, ask from target = Some answer ∧
    get_default answer "blocked" JNull = Ok b ∧ truthy b = true ∧ d = None.
Proof.
  unfold _check_proxy. destruct (PROXY_PORT env) as [p|]; [|done].
  destruct (truthy_str p); [|done]. destruct (py_int _) as [start|]; [|done].
  destruct (truthy_str (client_name node_id)); [|done].
  destruct (ask _ _) as [answer|] eqn:Ha; [|done].
  unfold verdict. destruct (get_default answer "blocked" JNull) as [b|] eqn:Hb; [|done]. cbn [res_bind].
  destruct (truthy b) eqn:Ht.
  - intros [= <-]. do 2 eexists. exists answer, b. split_and!; [exact Ha|done..].
  - destruct (get_default answer "delay_ms" (JInt 0)) as [dl|]; [|done]. cbn [res_bind].
    by destruct (positive dl).
Qed.

End proxy.
End Proxy.

(** ** The pool *)
Module Pool.

Record client := mkClient {
  c_host : string;
  c_port : Z;
  c_state : Client.TCPClient;
}.

(** [threading.local()] is a table by thread; clients are shared objects, so
    the tables hold their numbers. *)
Record ConnectionPool := mkPool {
  node_id : string;
  heap : list client;
  _local : dict nat (dict string nat);
  _all_clients : list nat;
}.

Definition init (id : string) : ConnectionPool := mkPool id [] [] [].

Definition set_client (a : nat) (c : Client.TCPClient) (p : ConnectionPool) : ConnectionPool :=
  mkPool (node_id p) (alter (λ x, mkClient (c_host x) (c_port x) c) a (heap p)) (_local p) (_all_clients p).

Definition is_connected (p : ConnectionPool) (a : nat) : bool :=
  match heap p !! a with Some c => Client._connected (c_state c) | None => false end.

Definition connections (p : ConnectionPool) (thread : nat) : dict string nat :=
  dict_get_or (_local p) thread [].

Definition pool_key (host : string) (port : Z) : string := host +:+ ":" +:+ dump_int port.

(** The client of this thread for the address, made if there is none. *)
Definition find_or_make (thread : nat) (host : string) (port : Z) (p : ConnectionPool) : ConnectionPool * nat :=
  let key := pool_key host port in
  match dict_get (connections p thread) key with
  | Some a => (p, a)
  | None =>
      let a := length (heap p) in
      (mkPool (node_id p) (heap p ++ [mkClient host port (Client.mkClient (node_id p) false)])
         (dict_set thread (dict_set key a (connections p thread)) (_local p)) (_all_clients p ++ [a]), a)
  end.

Definition get_connection (e : Client.environment) (thread : nat) (host : string) (port : Z)
    (p : ConnectionPool) : ConnectionPool * nat :=
  let '(p, a) := find_or_make thread host port p in
  match heap p !! a with
  | Some c =>
      if Client._connected (c_state c) then (p, a)
      else (set_client a (Client.connect e (c_state c)).1 p, a)
  | None => (p, a)
  end.

Definition close_all (p : ConnectionPool) : ConnectionPool :=
  let closed := foldl (λ p a, match heap p !! a with
                             | Some c => set_client a (Client.disconnect (c_state c)) p
                             | None => p
                             end) p (_all_clients p) in
  mkPool (node_id closed) (heap closed) (_local closed) [].

(** What happens to a pool: calls of its methods, and uses of its clients,
    which change their connection only. *)
Inductive op :=
  | Get (e : Client.environment) (thread : nat) (host : string) (port : Z)
  | Use (a : nat) (c : Client.TCPClient)
  | CloseAll.

Definition run_op (p : ConnectionPool) (o : op) : ConnectionPool :=
  match o with
  | Get e t h port => (get_connection e t h port p).1
  | Use a c => set_client a c p
  | CloseAll => close_all p
  end.

(** The slots of the tables: thread, address, client. *)
Definition slot (p : ConnectionPool) (t : nat) (k : string) (a : nat) : Prop :=
  dict_get (connections p t) k = Some a.

Record wf (p : ConnectionPool) : Prop := {
  wf_bound : ∀ t k a, slot p t k a → (a < length (heap p))%nat;
  wf_once : ∀ t k t' k' a, slot p t k a → slot p t' k' a → t = t' ∧ k = k';
}.

(** Changing clients moves no slot. *)
Definition same_slots (p p' : ConnectionPool) : Prop :=
  _local p' = _local p ∧ length (heap p') = length (heap p).

Lemma same_slots_wf p p' : same_slots p p' → wf p → wf p'.
Proof.
  intros [Hl Hh] [Hb Ho]. unfold slot, connections in Hb, Ho.
  split; unfold slot, connections; rewrite Hl, ?Hh; auto.
Qed.

Lemma set_client_slots a c p : same_slots p (set_client a c p).
Proof. split; [done|]. apply length_alter. Qed.

Lemma same_slots_trans p1 p2 p3 : same_slots p1 p2 → same_slots p2 p3 → same_slots p1 p3.
Proof. intros [??] [??]. split; congruence. Qed.

Lemma close_all_slots p : same_slots p (close_all p).
Proof.
  unfold close_all. set (f := λ q a, _).
  assert (H : ∀ l q, same_slots q (foldl f q l)).
  { induction l as [|a l IH]; intros q; [done|]. cbn [foldl]. eapply same_slots_trans; [|apply IH].
    unfold f. destruct (heap q !! a); [apply set_client_slots|done]. }
  apply (H (_all_clients p) p).
Qed.

Lemma find_spec thread host port p : wf p →
  let r := find_or_make thread host port p in
  wf r.1 ∧ slot r.1 thread (pool_key host port) r.2 ∧ (∀ t k a, slot p t k a → slot r.1 t k a).
Proof.
  intros Hwf. unfold find_or_make.
  destruct (dict_get (connections p thread) (pool_key host port)) as [a|] eqn:E; [done|]. cbv zeta. cbn [fst snd].
  set (p' := mkPool _ _ _ _).
  assert (Hslot : ∀ t k a, slot p' t k a ↔
    (t = thread ∧ k = pool_key host port ∧ a = length (heap p)) ∨ slot p t k a).
  { intros t k a. unfold slot, connections, dict_get_or. subst p'. cbn [_local]. rewrite dict_get_set.
    destruct (decide (thread = t)) as [->|Ht]; [|naive_solver]. cbn [from_option]. unfold id at 1.
    rewrite dict_get_set. destruct (decide (pool_key host port = k)) as [<-|Hk]; [|naive_solver].
    unfold connections, dict_get_or in E. rewrite E. naive_solver. }
  destruct Hwf as [Hb Ho]. split_and!.
  - split.
    + intros t k a [(_ & _ & ->)|Hs]%Hslot; subst p'; cbn [heap]; rewrite length_app; cbn; [lia|].
      apply Hb in Hs. lia.
    + intros t k t' k' a [(-> & -> & ->)|Hs]%Hslot [(-> & -> & Heq)|Hs']%Hslot; [done| | |by eapply Ho].
      * apply Hb in Hs'. lia.
      * subst a. apply Hb in Hs. lia.
  - apply Hslot. by left.
  - intros t k a Hs. apply Hslot. by right.
Qed.

Lemma get_spec e thread host port p : wf p →
  let r := get_connection e thread host port p in
  wf r.1 ∧ slot r.1 thread (pool_key host port) r.2 ∧ (∀ t k a, slot p t k a → slot r.1 t k a).
Proof.
  intros Hwf. pose proof (find_spec thread host port p Hwf) as H. unfold get_connection.
  destruct (find_or_make thread host port p) as [q a]. cbn [fst snd] in H.
  destruct (heap q !! a) as [c|]; [|done]. destruct (Client._connected _); [done|]. cbv zeta. cbn [fst snd].
  destruct H as (Hq & Hs & Hk). split; [by eapply same_slots_wf; [apply set_client_slots|]|]. done.
Qed.

Lemma run_op_spec o p : wf p → wf (run_op p o) ∧ ∀ t k a, slot p t k a → slot (run_op p o) t k a.
Proof.
  intros Hwf. destruct o as [e t h port|a c|]; cbn [run_op].
  - destruct (get_spec e t h port p Hwf) as (? & _ & ?). done.
  - split; [by eapply same_slots_wf; [apply set_client_slots|]|done].
  - pose proof (close_all_slots p) as Hs. split; [by eapply same_slots_wf|].
    intros t k b. unfold slot, connections. by rewrite (proj1 Hs).
Qed.

Lemma run_ops_spec ops p : wf p →
  let p' := foldl run_op p ops in wf p' ∧ ∀ t k a, slot p t k a → slot p' t k a.
Proof.
  revert p. induction ops as [|o ops IH]; intros p Hwf; [done|]. cbn [foldl].
  destruct (run_op_spec o p Hwf) as [Hwf' Hs]. destruct (IH _ Hwf') as [? Hs']. split; [done|]. auto.
Qed.

Lemma pool_init_wf id : wf (init id).
Proof. by split. Qed.

(** Claim C31. No two threads share a connection, and a thread has one per address.
    Whatever happens to a pool between them, two calls of [get_connection]
    return the same client exactly when the same thread asks for the same
    address. *)
Theorem connections_are_thread_local id before between e1 t1 h1 p1 e2 t2 h2 p2 :
  let r1 := get_connection e1 t1 h1 p1 (foldl run_op (init id) before) in
  let r2 := get_connection e2 t2 h2 p2 (foldl run_op r1.1 between) in
  r2.2 = r1.2 ↔ t1 = t2 ∧ pool_key h1 p1 = pool_key h2 p2.
Proof.
  cbv zeta. destruct (run_ops_spec before (init id) (pool_init_wf id)) as [Hwf0 _].
  set (q0 := foldl run_op (init id) before) in *.
  destruct (get_spec e1 t1 h1 p1 q0 Hwf0) as (Hwf1 & Hs1 & _).
  set (r1 := get_connection e1 t1 h1 p1 q0) in *.
  destruct (run_ops_spec between r1.1 Hwf1) as [Hwf2 Hk2]. set (q2 := foldl run_op r1.1 between) in *.
  destruct (get_spec e2 t2 h2 p2 q2 Hwf2) as (Hwf3 & Hs3 & Hk3).
  specialize (Hk3 _ _ _ (Hk2 _ _ _ Hs1)). split.
  - intros Heq. rewrite Heq in Hs3. by destruct (wf_once _ Hwf3 _ _ _ _ _ Hk3 Hs3).
  - intros [<- Hk]. unfold slot in *. rewrite <-Hk in Hs3. congruence.
Qed.

(** Closing the pool forgets its clients while the threads keep them: a thread
    that reconnects after a [close_all] holds a connection that the next
    [close_all] leaves open. *)
Theorem reopened_connection_outlives_close e thread host port p :
  wf p → Client.e_proxy e = true → Client.e_connects e = true →
  let p1 := close_all (get_connection e thread host port p).1 in
  let r := get_connection e thread host port p1 in
  is_connected (close_all r.1) r.2 = true.
Proof.
  intros Hwf Hproxy Hconn. cbv zeta.
  destruct (get_spec e thread host port p Hwf) as (Hwf1 & Hs1 & _).
  set (q := (get_connection e thread host port p).1) in *. pose proof (close_all_slots q) as Hsl.
  set (p1 := close_all q) in *.
  assert (Hs : slot p1 thread (pool_key host port) (get_connection e thread host port p).2).
  { unfold slot, connections. by rewrite (proj1 Hsl). }
  set (a := (get_connection e thread host port p).2) in *.
  assert (Hwf2 : wf p1) by by eapply same_slots_wf.
  assert (Ha : (a < length (heap p1))%nat) by by eapply wf_bound.
  destruct (lookup_lt_is_Some_2 _ _ Ha) as [c Hc].
  assert (Hall : ∀ q', _all_clients q' = [] → heap (close_all q') = heap q').
  { intros q' Hq'. unfold close_all. by rewrite Hq'. }
  unfold get_connection, find_or_make. unfold slot in Hs. rewrite Hs, Hc. unfold is_connected.
  destruct (Client._connected (c_state c)) eqn:Ec; cbn [fst snd]; rewrite Hall by done; [by rewrite Hc|].
  cbn [heap set_client]. rewrite list_lookup_alter, decide_True, Hc by done. cbn.
  unfold Client.connect. by rewrite Hproxy.
Qed.

End Pool.

(** ** The server's connections *)
Module Listener.

(** A handler thread, between its start and its end: it has not entered its
    connection yet, or it serves it. *)
Inductive phase := Accepted | Serving.

#[export] Instance phase_eq_dec : EqDecision phase.
Proof. solve_decision. Defined.

(** The server, and the handler threads it has started: client id, socket. *)
Record TCPServer := mkServer {
  _running : bool;
  _clients : dict string nat;
  threads : list (string * nat * phase);
}.

Definition init : TCPServer := mkServer false [] [].

Definition start (s : TCPServer) : TCPServer := mkServer true (_clients s) (threads s).

(** One round of [_accept_loop] that gets a connection. *)
Definition accept (id : string) (socket : nat) (s : TCPServer) : TCPServer :=
  mkServer (_running s) (_clients s) (threads s ++ [(id, socket, Accepted)]).

(** [_handle_client] up to its loop. *)
Definition enter (id : string) (socket : nat) (s : TCPServer) : TCPServer :=
  mkServer (_running s) (dict_set id socket (_clients s))
    ((λ x, if decide (x = (id, socket, Accepted)) then (id, socket, Serving) else x) <$> threads s).

(** Its [finally]: the peer closed, an error, or the server stopped. *)
Definition leave (id : string) (socket : nat) (s : TCPServer) : TCPServer :=
  mkServer (_running s) (dict_del id (_clients s)) (base.filter (λ x, x ≠ (id, socket, Serving)) (threads s)).

Definition stop (s : TCPServer) : TCPServer := mkServer false [] (threads s).

Definition get_client_count (s : TCPServer) : Z := Z.of_nat (length (_clients s)).

Definition id_of (x : string * nat * phase) : string := x.1.1.

(** The ids of the clients that are served. *)
Definition served_ids (s : TCPServer) : list string :=
  id_of <$> base.filter (λ x, x.2 = Serving) (threads s).

(** The server and its threads.  An address and port are those of at most one
    open connection. *)
Inductive step : TCPServer → TCPServer → Prop :=
  | step_accept id socket s :
      _running s = true → id ∉ (id_of <$> threads s) → step s (accept id socket s)
  | step_enter id socket s : (id, socket, Accepted) ∈ threads s → step s (enter id socket s)
  | step_leave id socket s : (id, socket, Serving) ∈ threads s → step s (leave id socket s)
  | step_stop s : step s (stop s).

(** While the server runs, its table names the served clients; after [stop] it
    names some of them. *)
Record inv (s : TCPServer) : Prop := {
  inv_ids : NoDup (id_of <$> threads s);
  inv_wf : dict_wf (_clients s);
  inv_served : ∀ id, id ∈ dict_keys (_clients s) → id ∈ served_ids s;
  inv_table : _running s = true → ∀ id, id ∈ served_ids s → id ∈ dict_keys (_clients s);
}.

Lemma elem_of_served s id : id ∈ served_ids s ↔ ∃ socket, (id, socket, Serving) ∈ threads s.
Proof.
  unfold served_ids. rewrite list_elem_of_fmap. split.
  - intros ([[i k] ph] & -> & Hin). apply list_elem_of_filter in Hin as [Hp Hin]. simpl in Hp. subst. by exists k.
  - intros [k Hk]. exists (id, k, Serving). split; [done|]. by apply list_elem_of_filter.
Qed.

Lemma one_thread s id k ph k' ph' : NoDup (id_of <$> threads s) →
  (id, k, ph) ∈ threads s → (id, k', ph') ∈ threads s → k = k' ∧ ph = ph'.
Proof.
  intros Hnd [i Hi]%list_elem_of_lookup [j Hj]%list_elem_of_lookup.
  assert (i = j) as ->.
  { eapply NoDup_lookup; [exact Hnd|..]; rewrite list_lookup_fmap; [by rewrite Hi|by rewrite Hj]. }
  by simplify_eq.
Qed.

Lemma served_accept id k s : served_ids (accept id k s) = served_ids s.
Proof. unfold served_ids, accept. cbn. by rewrite filter_app, fmap_app, app_nil_r. Qed.

Lemma served_enter id k s i : (id, k, Accepted) ∈ threads s →
  i ∈ served_ids (enter id k s) ↔ i = id ∨ i ∈ served_ids s.
Proof.
  intros Hin. rewrite !elem_of_served. unfold enter. cbn [threads]. split.
  - intros (k' & (x & Hx & Hx')%list_elem_of_fmap). case_decide; [left; congruence|right]. subst x. by exists k'.
  - intros [->|[k' Hk']].
    + exists k. apply list_elem_of_fmap. exists (id, k, Accepted). by rewrite decide_True.
    + exists k'. apply list_elem_of_fmap. exists (i, k', Serving). by rewrite decide_False.
Qed.

Lemma served_leave id k s i : NoDup (id_of <$> threads s) → (id, k, Serving) ∈ threads s →
  i ∈ served_ids (leave id k s) ↔ i ≠ id ∧ i ∈ served_ids s.
Proof.
  intros Hnd Hin. rewrite !elem_of_served. unfold leave. cbn [threads]. split.
  - intros (k' & [Hne Hk']%list_elem_of_filter). split; [|by exists k'].
    intros ->. destruct (one_thread _ _ _ _ _ _ Hnd Hin Hk') as [-> _]. done.
  - intros [Hne [k' Hk']]. exists k'. apply list_elem_of_filter. split; [|done]. congruence.
Qed.

Lemma enter_ids id k s : id_of <$> threads (enter id k s) = id_of <$> threads s.
Proof.
  unfold enter. cbn [threads]. rewrite <-list_fmap_compose. apply list_fmap_ext. intros i x _. simpl.
  by case_decide; subst.
Qed.

Lemma leave_ids id k s : NoDup (id_of <$> threads s) → NoDup (id_of <$> threads (leave id k s)).
Proof.
  intros Hnd. eapply sublist_NoDup; [exact Hnd|]. apply fmap_sublist. unfold leave. cbn [threads]. apply sublist_filter.
Qed.

Lemma listener_step_inv s s' : step s s' → inv s → inv s'.
Proof.
  intros Hstep [Hnd Hwf Hs Ht]. destruct Hstep as [id k s Hrun Hfresh|id k s Hin|id k s Hin|s].
  - split; rewrite ?served_accept; try done. cbn [threads accept]. rewrite fmap_app.
    apply NoDup_app. split; [done|]. split; [|by apply NoDup_singleton].
    intros x Hx ->%list_elem_of_singleton. done.
  - split; [by rewrite enter_ids|by apply dict_wf_set|..].
    + intros i Hi. apply (served_enter id k s i Hin). apply dict_get_is_Some in Hi.
      cbn [_clients enter] in Hi. rewrite dict_get_set in Hi. case_decide; [by left|right].
      by apply Hs, dict_get_is_Some.
    + intros Hrun i Hi. apply (served_enter id k s i Hin) in Hi. apply dict_get_is_Some.
      cbn [_clients enter]. rewrite dict_get_set. case_decide as Hd; [by eexists|].
      destruct Hi as [->|Hi]; [done|]. by apply dict_get_is_Some, Ht.
  - split; [by apply leave_ids|by apply dict_wf_del|..]; cbn [_clients leave].
    + intros i Hi. rewrite dict_keys_del in Hi. apply list_elem_of_filter in Hi as [? Hi].
      apply served_leave; auto.
    + intros Hrun i Hi. apply served_leave in Hi as [? Hi]; [|done..].
      rewrite dict_keys_del. apply list_elem_of_filter. auto.
  - split; [done|apply dict_wf_nil|by intros ? ?%not_elem_of_nil|done].
Qed.

Lemma listener_init_inv : inv (start init).
Proof. split; [apply NoDup_nil_2|apply dict_wf_nil|by intros ? ?%not_elem_of_nil|by intros _ ? ?%not_elem_of_nil]. Qed.

(** The table of connections is right.  In every state that a
    started server reaches, the count of clients is the number of connections
    being served as long as the server runs, and never more; when the last
    handler has ended nothing is left in the table. *)
Theorem client_count_correct s : rtc step (start init) s →
  (_running s = true → get_client_count s = Z.of_nat (length (served_ids s))) ∧
  get_client_count s <= Z.of_nat (length (served_ids s)) ∧
  (threads s = [] → _clients s = []).
Proof.
  intros Hreach. assert (Hinv : inv s).
  { revert Hreach. generalize listener_init_inv. generalize (start init). intros s0 H0 Hr.
    induction Hr as [|s0 s1 s2 Hst _ IH]; [done|]. by eapply IH, listener_step_inv. }
  destruct Hinv as [Hnd Hwf Hs Ht].
  assert (Hserved : NoDup (served_ids s)).
  { eapply sublist_NoDup; [exact Hnd|]. apply fmap_sublist, sublist_filter. }
  assert (Hlen : length (_clients s) = length (dict_keys (_clients s))) by (unfold dict_keys; by rewrite length_fmap).
  unfold get_client_count. rewrite Hlen. split; [|split].
  - intros Hrun. f_equal. apply Permutation_length. apply NoDup_Permutation; [done..|]. split; [apply Hs|by apply Ht].
  - pose proof (submseteq_length _ _ (NoDup_submseteq _ _ Hwf Hs)). lia.
  - intros Hno. destruct (_clients s) as [|[i k] d] eqn:E; [done|]. exfalso.
    assert (Hi : i ∈ served_ids s) by (apply Hs; by left).
    unfold served_ids in Hi. rewrite Hno in Hi. by apply not_elem_of_nil in Hi.
Qed.

(** Two clients: one is served, the other is waiting for its thread. *)
Lemma client_count_correct_witness :
  let s := accept "b" 2 (enter "a" 1 (accept "a" 1 (start init))) in
  (_running s = true → get_client_count s = Z.of_nat (length (served_ids s))) ∧
  get_client_count s <= Z.of_nat (length (served_ids s)) ∧ (threads s = [] → _clients s = []).
Proof.
  apply (client_count_correct (accept "b" 2 (enter "a" 1 (accept "a" 1 (start init))))).
  eapply rtc_l; [apply (step_accept "a" 1); [reflexivity|apply not_elem_of_nil]|].
  eapply rtc_l; [apply (step_enter "a" 1); by left|].
  apply rtc_once. apply (step_accept "b" 2); [reflexivity|]. by apply (bool_decide_unpack _).
Defined.

End Listener.

Lemma reopened_connection_outlives_close_witness :
  let e := Client.mkEnv true true true [] in
  let p1 := Pool.close_all (Pool.get_connection e 0 "n2" 8002 (Pool.init "n1")).1 in
  let r := Pool.get_connection e 0 "n2" 8002 p1 in
  Pool.is_connected (Pool.close_all r.1) r.2 = true.
Proof. apply (Pool.reopened_connection_outlives_close (Client.mkEnv true true true [])); [apply Pool.pool_init_wf|done|done]. Defined.
