(* ===== verification/Coordinator.v ===== *)
(** [minidb/cluster/coordinator.py]: the glue between membership, election and
    replication, and the handler of cluster messages.

    The components keep their own programs; the coordinator runs them on its
    fields and handles their callbacks.  What a remote node answers to a
    message is an argument ([exchange], [None] for no connection, an
    exception or no response), and so is the fault injector's verdict for each
    target ([blocked]).  A callback to the node is an event. *)

From S2P Require Import Prelude.
From S2P Require Import PyMonad.
From S2P Require Import PyDict.
From S2P Require Import Json.
From S2P Require Import Config.
From S2P Require Import Fields.
From S2P Require Import Parse.
From S2P Require Import Protocol.
From S2P Require Import Election.
From S2P Require Import Membership.
From S2P Require Import Replication.
#[local] Open Scope Z_scope.

Module Coordinator.
Import Message Protocol.

Record ClusterCoordinator := mkCoord {
  config : Config.NodeConfig;
  membership : Membership.MembershipManager;
  election : Election.ElectionManager;
  replication : Replication.ReplicationManager;
  _staged_replicates : dict Z LogEntry;
}.

Definition node_id (c : ClusterCoordinator) : string := Config.node_id (config c).

Definition set_membership (m : Membership.MembershipManager) (c : ClusterCoordinator) :=
  mkCoord (config c) m (election c) (replication c) (_staged_replicates c).
Definition set_election (e : Election.ElectionManager) (c : ClusterCoordinator) :=
  mkCoord (config c) (membership c) e (replication c) (_staged_replicates c).
Definition set_replication (r : Replication.ReplicationManager) (c : ClusterCoordinator) :=
  mkCoord (config c) (membership c) (election c) r (_staged_replicates c).
Definition set_staged (d : dict Z LogEntry) (c : ClusterCoordinator) :=
  mkCoord (config c) (membership c) (election c) (replication c) d.

(** What the coordinator does to the outside: the node's apply callback, a
    message sent without waiting for an answer, and the notifications that it
    only prints. *)
Inductive coord_event :=
  | Apply (e : LogEntry)
  | Cast (target : NodeInfo) (m : Message)
  | Replicated (follower : string) (e : LogEntry) (acked : bool)
  | Notice (e : member_event).

Abbreviation proc := (prog ClusterCoordinator coord_event).

(** [ClusterCoordinator.__init__]: its own node information and the parts. *)
Definition init (now rto : time) (cfg : Config.NodeConfig) : ClusterCoordinator :=
  let local := NodeInfo.new now (Config.node_id cfg) (Config.host cfg) (Config.client_port cfg)
                 (Config.cluster_port cfg) in
  mkCoord cfg (Membership.init local (Config.failure_timeout cfg) (Config.dead_timeout cfg))
    (Election.init (Config.node_id cfg) (Config.election_timeout_max cfg) now rto)
    (Replication.init (Config.replication_factor cfg) (Config.default_consistency cfg)) [].

(** ** The components *)

Definition in_membership {A} (p : prog Membership.MembershipManager member_event A) : proc A :=
  zoom membership set_membership Notice p.

Definition in_replication {A} (p : prog Replication.ReplicationManager Replication.replication_event A)
    : proc A :=
  zoom replication set_replication
    (λ ev, match ev with Replication.SendReplicate f e a => Replicated f e a end) p.

(** [set_node_role] for the local node, then [self.local_node.role = role]. *)
Definition set_local_role (r : NodeRole) : proc () :=
  c ← get_state;
  in_membership (Membership.set_node_role (node_id c) r);;
  in_membership (modify (λ m, Membership.with_local m (NodeInfo.set_role (Membership.local_node m) r))).

(** The election's callbacks. *)
Definition on_election_event (ev : election_event) : proc () :=
  match ev with
  | OnBecomeLeader => set_local_role LEADER
  | OnBecomeFollower _ => set_local_role FOLLOWER
  | ApplyEntry e => emit (Apply e)
  end.

(** Runs an operation of the election and then its callbacks, in order.  The
    callbacks do not touch the election, so running them after the operation
    is running them inside it. *)
Definition in_election {A} (p : prog Election.ElectionManager election_event A) : proc A := λ c,
  match p (election c) with
  | (el, evs, r) =>
      match for_each on_election_event evs (set_election el c) with
      | (c, es, _) => (c, es, r)
      end
  end.

Definition get_cluster_size (c : ClusterCoordinator) : Z :=
  Z.max 1 (Z.of_nat (Membership.node_count (membership c))).

Definition is_leader (c : ClusterCoordinator) : bool := Election.is_leader (election c).
Definition get_leader_id (c : ClusterCoordinator) : option string := Election.leader_id (election c).
Definition get_leader_address (c : ClusterCoordinator) : option string :=
  NodeInfo.client_address <$> Membership.get_leader (membership c).

(** The alive nodes but the local one. *)
Definition peers (c : ClusterCoordinator) : list NodeInfo :=
  base.filter (λ n, NodeInfo.node_id n ≠ node_id c) (Membership.get_alive_nodes (membership c)).

Definition _get_followers (c : ClusterCoordinator) : list string := NodeInfo.node_id <$> peers c.

Section network.
Context (now rto : time) (blocked : string → bool).
(** host, port, message. *)
Context (exchange : string → Z → Message → option Message).

(** The truth of a field of an answer's payload. *)
Definition answer_true (field : string) (r : option Message) : bool :=
  match r with
  | Some r => match payload r with JObj d => otruthy (dict_get d field) | _ => false end
  | None => false
  end.

(** [client.send_message] to the cluster port of a node. *)
Definition ask (n : NodeInfo) (m : Message) : option Message :=
  exchange (NodeInfo.host n) (NodeInfo.cluster_port n) m.

Definition _request_votes (c : ClusterCoordinator) (term last_log_index last_log_term : Z) : Z :=
  1 + Z.of_nat (length (base.filter (λ n,
    negb (blocked (NodeInfo.node_id n)) &&
    answer_true "vote_granted" (ask n (create_vote_request (node_id c) term last_log_index last_log_term)) = true)
    (peers c))).

(** One round of the election loop of a node that is not the leader. *)
Definition election_round : proc () :=
  c ← get_state;
  if Election._should_start_election now (election c) then
    r ← in_election (Election.begin_election rto);
    let '(term, last_index, last_term) := r in
    c ← get_state;
    in_election (Election.finish_election term (_request_votes c term last_index last_term) (get_cluster_size c))
  else mret ().

Definition _send_heartbeats : proc () :=
  c ← get_state;
  let data := Membership.get_members_data (membership c) in
  for_each (λ n,
    if blocked (NodeInfo.node_id n) then mret ()
    else emit (Cast n (create_heartbeat (node_id c) (Election.current_term (election c)) (node_id c) data)))
    (peers c).

Definition _send_gossip (target : NodeInfo) (members : list json) : proc () :=
  if blocked (NodeInfo.node_id target) then mret ()
  else
    c ← get_state;
    let leader := if is_leader c then [("leader_id", JStr (node_id c))]%string else [] in
    emit (Cast target
      (mkMsg GOSSIP (JObj ([("members", JArr members)]%string ++ leader)) (node_id c)
         (Election.get_term (election c)) 0)).

Definition create_phase (c : ClusterCoordinator) (e : LogEntry) (phase : string) : Message :=
  create_replicate (node_id c) (Election.current_term (election c)) (LogEntry.to_dict e) phase.

(** One prepare or commit to one follower. *)
Definition send_phase (c : ClusterCoordinator) (phase : string) (e : LogEntry) (follower : string) : bool :=
  match Membership.get_node (membership c) follower with
  | None => false
  | Some n => if blocked follower then false else answer_true "success" (ask n (create_phase c e phase))
  end.

Definition _send_replicate (c : ClusterCoordinator) (follower : string) (e : LogEntry) : bool :=
  send_phase c "prepare" e follower.

Definition commit_to_followers (c : ClusterCoordinator) (e : LogEntry) (targets : list string) : Z :=
  Z.of_nat (length (base.filter (λ f, send_phase c "commit" e f = true) targets)).

(** [self.replication.replicate(...)] with its callbacks. *)
Definition replicate (e : LogEntry) (c : option ConsistencyLevel) (targets : option (list string)) : proc bool :=
  s ← get_state;
  in_replication (Replication.replicate (λ f e, _send_replicate s f e) e c targets (Some (_get_followers s))).

Definition append_and_replicate (command key : string) (value : json) (ttl : option Z)
    (consistency : option ConsistencyLevel) : proc bool :=
  c ← get_state;
  if is_leader c then
    e ← in_election (Election.append_entry now command key value ttl);
    match e with
    | None => mret false
    | Some e =>
        ok ← replicate e (Some (default (Config.default_consistency (config c)) consistency)) None;
        (if ok : bool then emit (Apply e) else mret ());;
        mret ok
    end
  else mret false.

(** [join_cluster]: any exception is printed and gives [False]. *)
Definition join_cluster (seed_address : string) : proc bool :=
  catch (
    match split_all ":" seed_address with
    | [host; port] =>
        port ← lift (py_int port);
        c ← get_state;
        match exchange host port (mkMsg JOIN (NodeInfo.to_dict (Membership.local_node (membership c)))
                                    (node_id c) 0 0) with
        | Some r =>
            if decide (msg_type r = RESPONSE) then
              members ← lift (res_bind (get_default (payload r) "members" (JArr [])) as_list);
              in_membership (Membership.handle_gossip now members);;
              mret true
            else mret false
        | None => mret false
        end
    | _ => raise ValueError
    end) (λ _, mret false).

(** ** Incoming messages *)

(** [payload.get(name)] *)
Definition field (m : Message) (name : string) (dflt : json) : proc json :=
  lift (get_default (payload m) name dflt).

Definition int_field (m : Message) (name : string) : proc Z :=
  lift (res_bind (get_default (payload m) name (JInt 0)) as_int).

Definition handle_heartbeat (m : Message) : proc (option Message) :=
  leader ← field m "leader_id" JNull;
  (if truthy leader then
     leader ← lift (as_str leader);
     _ ← in_election (Election.receive_heartbeat now rto leader (term m));
     mret ()
   else mret ());;
  members ← field m "members" (JArr []);
  (if truthy members then
     members ← lift (as_list members);
     in_membership (Membership.handle_gossip now members)
   else mret ());;
  in_membership (Membership.update_heartbeat now (sender_id m));;
  mret None.

Definition handle_vote (m : Message) : proc (option Message) :=
  index ← int_field m "last_log_index";
  lterm ← int_field m "last_log_term";
  r ← in_election (Election.handle_vote_request now (sender_id m) (term m) index lterm);
  c ← get_state;
  mret (Some (create_vote_response (node_id c) r.1 r.2)).

Definition handle_gossip_message (m : Message) : proc (option Message) :=
  members ← lift (res_bind (get_default (payload m) "members" (JArr [])) as_list);
  in_membership (Membership.handle_gossip now members);;
  in_membership (Membership.update_heartbeat now (sender_id m));;
  mret None.

Definition handle_join (m : Message) : proc (option Message) :=
  n ← lift (NodeInfo.from_dict now (payload m));
  _ ← in_membership (Membership.add_node n);
  c ← get_state;
  mret (Some (ok_response (JObj [("members", JArr (Membership.get_members_data (membership c)))]%string))).

Definition replicate_ok : Message := ok_response (JObj [("success", JBool true)]%string).

Definition handle_replicate (m : Message) : proc (option Message) :=
  data ← field m "entry" JNull;
  if truthy data then
    e ← lift (LogEntry.from_dict data);
    phase ← field m "phase" JNull;
    phase ← lift (if truthy phase then as_str phase else Ok "prepare"%string);
    if decide (lower phase = "prepare"%string) then
      modify (λ c, set_staged (dict_set (LogEntry.index e) e (_staged_replicates c)) c);;
      mret (Some replicate_ok)
    else
      c ← get_state;
      let staged := dict_get (_staged_replicates c) (LogEntry.index e) in
      modify (λ c, set_staged (dict_del (LogEntry.index e) (_staged_replicates c)) c);;
      emit (Apply (default e staged));;
      mret (Some replicate_ok)
  else mret (Some (error_response "No entry in payload")).

Definition handle_append (m : Message) : proc (option Message) :=
  prev_index ← int_field m "prev_log_index";
  prev_term ← int_field m "prev_log_term";
  entries ← lift (res_bind (get_default (payload m) "entries" (JArr [])) as_list);
  leader_commit ← int_field m "leader_commit";
  r ← in_election (Election.handle_append_entries now rto (sender_id m) (term m) prev_index prev_term
                     entries leader_commit);
  c ← get_state;
  mret (Some (mkMsg APPEND_RESPONSE
    (JObj [("success", JBool r.1.2); ("match_index", JInt r.2)]%string) (node_id c) r.1.1 0)).

Definition handle_cluster_message (m : Message) : proc (option Message) :=
  match msg_type m with
  | HEARTBEAT => handle_heartbeat m
  | VOTE_REQUEST => handle_vote m
  | GOSSIP => handle_gossip_message m
  | JOIN => handle_join m
  | REPLICATE => handle_replicate m
  | APPEND_ENTRIES => handle_append m
  | _ => mret None
  end.

End network.

Definition get_cluster_info (c : ClusterCoordinator) : json :=
  let el := election c in
  JObj [("node_id", JStr (node_id c)); ("role", JStr (role_value (Election.role el)));
        ("term", JInt (Election.current_term el)); ("leader_id", jopt JStr (Election.leader_id el));
        ("members", JArr (NodeInfo.to_dict <$> Membership.get_all_nodes (membership c)));
        ("alive_count", JInt (Z.of_nat (Membership.node_count (membership c))));
        ("replication", JObj [("pending", JInt (Replication.get_pending_count (replication c)));
                              ("async_queue", JInt (Replication.get_async_queue_size (replication c)))]%string);
        ("log_length", JInt (Z.of_nat (length (Election.log el))));
        ("commit_index", JInt (Election.commit_index el))]%string.

End Coordinator.
