(* ===== verification/CoordinatorFacts.v ===== *)
(** The replication protocol between a leader and a follower, and the join
    handshake. *)

From S2P Require Import Prelude.
From S2P Require Import PyMonad.
From S2P Require Import PyDict.
From S2P Require Import Json.
From S2P Require Import Config.
From S2P Require Import Fields.
From S2P Require Import Parse.
From S2P Require Import Protocol.
From S2P Require Import Election.
From S2P Require Import Membership.
From S2P Require Import Replication.
From S2P Require Import Coordinator.
#[local] Open Scope Z_scope.

Module CoordF.

(** One positive answer per message. *)
Definition all_ok (n : nat) : list (option Message.Message) := replicate n (Some Coordinator.replicate_ok).

Lemma all_ok_app n m : all_ok n ++ all_ok m = all_ok (n + m).
Proof. symmetry. apply replicate_add. Qed.

Import Message Protocol Coordinator.

(** ** Prepare and commit *)

Inductive phase := Prepare | Commit.
Definition phase_name (p : phase) : string := match p with Prepare => "prepare" | Commit => "commit" end.

(** The message that [_send_replicate] and [commit_to_followers] build. *)
Definition phase_msg (sender : string) (term : Z) (p : phase) (e : LogEntry) : Message :=
  create_replicate sender term (LogEntry.to_dict e) (phase_name p).

Section follower.
Context (now rto : time).
Abbreviation handle := (handle_cluster_message now rto).

Definition stage (e : LogEntry) (c : ClusterCoordinator) : ClusterCoordinator :=
  set_staged (dict_set (LogEntry.index e) e (_staged_replicates c)) c.
Definition unstage (i : Z) (c : ClusterCoordinator) : ClusterCoordinator :=
  set_staged (dict_del i (_staged_replicates c)) c.

(** Decoding a replication message. *)
Lemma handle_replicate_msg sender tm p e c :
  handle (phase_msg sender tm p e) c =
  match p with
  | Prepare => (stage e c, [], Ok (Some replicate_ok))
  | Commit => (unstage (LogEntry.index e) c,
      [Apply (default e (dict_get (_staged_replicates c) (LogEntry.index e)))], Ok (Some replicate_ok))
  end.
Proof.
  change (handle (phase_msg sender tm p e)) with (handle_replicate (phase_msg sender tm p e)).
  unfold handle_replicate, field.
  change (get_default (payload (phase_msg sender tm p e)) "entry" JNull) with (Ok (LogEntry.to_dict e)).
  change (get_default (payload (phase_msg sender tm p e)) "phase" JNull) with (Ok (JStr (phase_name p))).
  rewrite lift_ok_bind. change (truthy (LogEntry.to_dict e)) with true. cbv iota.
  rewrite LogEntry.from_dict_to_dict, !lift_ok_bind. by destruct p.
Qed.

Lemma handle_prepare sender tm e c :
  handle (phase_msg sender tm Prepare e) c = (stage e c, [], Ok (Some replicate_ok)).
Proof. apply (handle_replicate_msg sender tm Prepare). Qed.

Lemma handle_commit sender tm e c :
  handle (phase_msg sender tm Commit e) c =
  (unstage (LogEntry.index e) c,
   [Apply (default e (dict_get (_staged_replicates c) (LogEntry.index e)))], Ok (Some replicate_ok)).
Proof. apply (handle_replicate_msg sender tm Commit). Qed.

(** A follower that receives replication messages, with its answers. *)
Fixpoint receive (ms : list Message) : prog ClusterCoordinator coord_event (list (option Message)) :=
  match ms with
  | [] => mret []
  | m :: ms => r ← handle m; rs ← receive ms; mret (r :: rs)
  end.

(** Messages about other entries: sender, term, phase, entry. *)
Definition other : Type := string * Z * phase * LogEntry.
Definition other_msg (o : other) : Message := phase_msg o.1.1.1 o.1.1.2 o.1.2 o.2.

(** The staging table is keyed by the index of the entry. *)
Definition staged_wf (c : ClusterCoordinator) : Prop :=
  ∀ i e, dict_get (_staged_replicates c) i = Some e → LogEntry.index e = i.

Lemma stage_wf e c : staged_wf c → staged_wf (stage e c).
Proof. intros Hwf i x. simpl. rewrite dict_get_set. case_decide; [by intros [= <-]|apply Hwf]. Qed.

Lemma unstage_wf i c : staged_wf c → staged_wf (unstage i c).
Proof. intros Hwf j x. simpl. rewrite dict_get_del. case_decide; [done|apply Hwf]. Qed.

Lemma receive_others os i c : staged_wf c → Forall (λ o : other, LogEntry.index o.2 ≠ i) os →
  ∃ c' es, receive (other_msg <$> os) c = (c', es, Ok (all_ok (length os))) ∧
    staged_wf c' ∧ dict_get (_staged_replicates c') i = dict_get (_staged_replicates c) i ∧
    Forall (λ ev, ∃ x, ev = Apply x ∧ LogEntry.index x ≠ i) es.
Proof.
  intros Hwf Hos. revert c Hwf. induction Hos as [|[[[sd tm] ph] e] os Hi _ IH]; intros c Hwf.
  { exists c, []. split; [done|]. split; [done|]. split; [done|]. apply Forall_nil_2. }
  simpl in Hi. cbn [fmap list_fmap receive other_msg fst snd]. destruct ph.
  - destruct (IH (stage e c) (stage_wf e c Hwf)) as (c' & es & Heq & Hwf' & Hget & Hes).
    exists c', es. split; [|split; [done|split; [|done]]].
    + erewrite bind_ok; [|apply handle_prepare|erewrite bind_ok; [|exact Heq|]; reflexivity].
      by rewrite app_nil_r.
    + rewrite Hget. simpl. by rewrite dict_get_set_ne.
  - destruct (IH (unstage (LogEntry.index e) c) (unstage_wf _ c Hwf)) as (c' & es & Heq & Hwf' & Hget & Hes).
    eexists c', (_ :: es). split; [|split; [done|split]].
    + erewrite bind_ok; [|apply handle_commit|erewrite bind_ok; [|exact Heq|]; reflexivity].
      by rewrite app_nil_r.
    + rewrite Hget. simpl. by rewrite dict_get_del_ne.
    + apply Forall_cons. split; [|done]. eexists. split; [done|].
      simpl. destruct (dict_get (_staged_replicates c) (LogEntry.index e)) as [x|] eqn:Ex; [|done].
      simpl. by rewrite (Hwf _ _ Ex).
Qed.

Lemma receive_app ms ms' c c1 es1 rs1 c2 es2 rs2 :
  receive ms c = (c1, es1, Ok rs1) → receive ms' c1 = (c2, es2, Ok rs2) →
  receive (ms ++ ms') c = (c2, es1 ++ es2, Ok (rs1 ++ rs2)).
Proof.
  revert c es1 rs1. induction ms as [|m ms IH]; intros c es1 rs1; cbn [app receive].
  { intros [= -> <- <-] H2. done. }
  intros (s & es & r & es' & Hm & Hrest & ->)%bind_ok_inv H2.
  apply bind_ok_inv in Hrest as (s' & es'' & rs & es3 & Hms & Hret & ->).
  injection Hret as -> <- <-.
  erewrite bind_ok; [|exact Hm|erewrite bind_ok; [|eapply IH; [exact Hms|exact H2]|done]; done].
  by rewrite !app_nil_r, app_assoc.
Qed.

(** Claim C16. Two-phase replication on a follower: a prepared entry is not
    applied until its commit arrives; then exactly that entry is applied, once, and both
    messages are acknowledged, whatever replication messages for other
    indices (from any sender, in any phase) arrive in between, and none of
    those applies anything under the entry's index. *)
Theorem prepare_then_commit sender tm e others c
    (Hwf : staged_wf c) (Hothers : Forall (λ o : other, LogEntry.index o.2 ≠ LogEntry.index e) others) :
  ∃ c' es,
    receive (phase_msg sender tm Prepare e :: (other_msg <$> others) ++ [phase_msg sender tm Commit e]) c =
      (c', es ++ [Apply e], Ok (all_ok (length others + 2))) ∧
    Forall (λ ev, ∃ x, ev = Apply x ∧ LogEntry.index x ≠ LogEntry.index e) es ∧
    staged_wf c' ∧ dict_get (_staged_replicates c') (LogEntry.index e) = None.
Proof.
  destruct (receive_others others (LogEntry.index e) (stage e c) (stage_wf e c Hwf) Hothers)
    as (c1 & es & Heq & Hwf1 & Hget & Hes).
  exists (unstage (LogEntry.index e) c1), es. split; [|split; [done|split]].
  - cbn [receive]. erewrite bind_ok; [|apply handle_prepare|].
    2: { erewrite bind_ok; [|eapply receive_app; [exact Heq|]|done]; [done|].
         cbn [receive]. erewrite bind_ok; [|apply handle_commit|done]. done. }
    rewrite Hget. simpl. rewrite dict_get_set_eq, !app_nil_r. simpl.
    change [Some replicate_ok] with (all_ok 1). rewrite all_ok_app.
    change (Some replicate_ok :: all_ok (length others + 1)) with (all_ok (S (length others + 1))).
    by replace (S (length others + 1)) with (length others + 2)%nat by lia.
  - by apply unstage_wf.
  - simpl. apply dict_get_del_eq.
Qed.

(** The staging table is keyed by the index alone, and indices are
    numbered by each coordinator for itself: if a follower still holds an
    entry that was prepared but never committed, a commit of a different
    entry with the same index applies the stale one, and the follower
    acknowledges the commit. *)
Theorem stale_staged_entry_applied s1 t1 s2 t2 e1 e2 c
    (Hidx : LogEntry.index e1 = LogEntry.index e2) :
  ∃ c', receive [phase_msg s1 t1 Prepare e1; phase_msg s2 t2 Commit e2] c =
    (c', [Apply e1], Ok [Some replicate_ok; Some replicate_ok]).
Proof.
  eexists. cbn [receive]. erewrite bind_ok; [|apply handle_prepare|].
  2: { erewrite bind_ok; [|erewrite bind_ok; [|apply handle_commit|done]; done|done]. done. }
  rewrite <-Hidx. simpl. rewrite dict_get_set_eq. done.
Qed.

End follower.

(** ** The join handshake *)

Definition join_msg (c : ClusterCoordinator) : Message :=
  mkMsg JOIN (NodeInfo.to_dict (Membership.local_node (membership c))) (node_id c) 0 0.

Lemma zoom_membership {A} (p : prog Membership.MembershipManager member_event A) c m es r :
  p (membership c) = (m, es, r) → in_membership p c = (set_membership m c, Notice <$> es, r).
Proof. unfold in_membership, zoom. by intros ->. Qed.

Lemma set_membership_same c : set_membership (membership c) c = c.
Proof. by destruct c. Qed.

Lemma add_node_member n m : ∃ m' es b, Membership.add_node n m = (m', es, Ok b) ∧
  is_Some (Membership.get_node m' (NodeInfo.node_id n)).
Proof.
  unfold Membership.add_node. rewrite get_bind.
  destruct (Membership.get_node m (NodeInfo.node_id n)) as [old|] eqn:Eo.
  - case_match.
    + eexists _, _, true. split; [done|]. unfold Membership.get_node. simpl. by rewrite dict_get_set_eq.
    + eexists m, [], false. split; [done|]. by rewrite Eo.
  - eexists _, _, true. split; [done|]. unfold Membership.get_node. simpl. by rewrite dict_get_set_eq.
Qed.

(** The join handshake is one-sided: the seed handles the JOIN
    message by adding the joining node to its members and answers with its
    member list, but nested under "data" where [join_cluster] does not look;
    the joining node reports success and its own state, membership included,
    is unchanged. *)
Theorem join_learns_nothing now rto seed c address host p port exchange
    (Haddr : split_all ":" address = [host; p]) (Hport : py_int p = Ok port)
    (Hnet : ∀ answer seed' es,
       handle_cluster_message now rto (join_msg c) seed = (seed', es, Ok (Some answer)) →
       exchange host port (join_msg c) = Some answer) :
  (∃ seed' es answer,
     handle_cluster_message now rto (join_msg c) seed = (seed', es, Ok (Some answer)) ∧
     is_Some (Membership.get_node (membership seed')
                (NodeInfo.node_id (Membership.local_node (membership c))))) ∧
  join_cluster now exchange address c = (c, [], Ok true).
Proof.
  destruct (add_node_member (NodeInfo.mkNode (NodeInfo.node_id (Membership.local_node (membership c)))
    (NodeInfo.host (Membership.local_node (membership c))) (NodeInfo.client_port (Membership.local_node (membership c)))
    (NodeInfo.cluster_port (Membership.local_node (membership c))) (NodeInfo.state (Membership.local_node (membership c)))
    (NodeInfo.role (Membership.local_node (membership c))) (NodeInfo.last_heartbeat (Membership.local_node (membership c)))
    (NodeInfo.incarnation (Membership.local_node (membership c))) now) (membership seed)) as (m' & es & b & Hadd & Hin).
  set (answer := ok_response (JObj [("members", JArr (Membership.get_members_data m'))]%string)).
  assert (Hseed : ∃ es', handle_cluster_message now rto (join_msg c) seed =
    (set_membership m' seed, es', Ok (Some answer))).
  { eexists. change (handle_cluster_message now rto (join_msg c)) with (handle_join now (join_msg c)).
    unfold handle_join. cbn [payload join_msg]. rewrite NodeInfo.from_dict_to_dict_node, lift_ok_bind.
    erewrite bind_ok; [|by apply zoom_membership|reflexivity]. done. }
  destruct Hseed as [es' Hseed]. split; [by exists (set_membership m' seed), es', answer|].
  specialize (Hnet _ _ _ Hseed). unfold join_cluster, catch. rewrite Haddr, Hport, lift_ok_bind, get_bind.
  fold (join_msg c). rewrite Hnet. cbn [msg_type answer ok_response create_response].
  rewrite decide_True by done.
  change (get_default (payload answer) "members" (JArr [])) with (Ok (JArr [])). cbn [res_bind as_list].
  rewrite lift_ok_bind. erewrite bind_ok; [|by apply zoom_membership|reflexivity].
  by rewrite set_membership_same.
Qed.

Definition demo_cfg (id : string) : Config.NodeConfig := Config.get_default_config id 7001 8001.
Definition demo_coord (id : string) : ClusterCoordinator := init 0 5 (demo_cfg id).
Definition demo_entry (k : string) : LogEntry :=
  LogEntry.mkLog 1 1 "SET" k (JStr "v") None 0 1 None None "n1".

Lemma demo_staged_wf id : staged_wf (demo_coord id).
Proof. by intros i x. Qed.

Lemma prepare_then_commit_witness :
  ∃ c' es,
    receive 0 0 (phase_msg "n1" 1 Prepare (demo_entry "k") :: (other_msg <$> []) ++
                   [phase_msg "n1" 1 Commit (demo_entry "k")]) (demo_coord "n2") =
      (c', es ++ [Apply (demo_entry "k")], Ok (all_ok 2)) ∧
    Forall (λ ev, ∃ x, ev = Apply x ∧ LogEntry.index x ≠ 1) es ∧
    staged_wf c' ∧ dict_get (_staged_replicates c') 1 = None.
Proof.
  apply (prepare_then_commit 0 0 "n1" 1 (demo_entry "k") [] (demo_coord "n2")).
  - apply demo_staged_wf.
  - apply Forall_nil_2.
Defined.

Lemma stale_staged_entry_applied_witness :
  demo_entry "old" ≠ demo_entry "new" ∧
  ∃ c', receive 0 0 [phase_msg "n1" 1 Prepare (demo_entry "old"); phase_msg "n3" 2 Commit (demo_entry "new")]
    (demo_coord "n2") = (c', [Apply (demo_entry "old")], Ok [Some replicate_ok; Some replicate_ok]).
Proof. split; [done|]. apply (stale_staged_entry_applied 0 0 "n1" 1 "n3" 2); reflexivity. Defined.

Lemma join_learns_nothing_witness :
  let answer := match result_of (handle_cluster_message 0 0 (join_msg (demo_coord "n2")) (demo_coord "n1")) with
                | Ok r => r | Raise _ => None end in
  (∃ seed' es answer,
     handle_cluster_message 0 0 (join_msg (demo_coord "n2")) (demo_coord "n1") = (seed', es, Ok (Some answer)) ∧
     is_Some (Membership.get_node (membership seed') "n2")) ∧
  join_cluster 0 (λ _ _ _, answer) "localhost:8001" (demo_coord "n2") = (demo_coord "n2", [], Ok true).
Proof.
  cbv zeta. apply (join_learns_nothing 0 0 (demo_coord "n1") (demo_coord "n2") "localhost:8001" "localhost" "8001" 8001).
  - reflexivity.
  - reflexivity.
  - intros answer seed' es ->. reflexivity.
Defined.

End CoordF.
