(* ===== verification/ElectionRound.v ===== *)
(** One election round of the coordinators: a node whose leader is silent wins
    when a majority can vote for it, and its heartbeat makes followers. *)

From S2P Require Import Prelude.
From S2P Require Import PyMonad.
From S2P Require Import PyDict.
From S2P Require Import Json.
From S2P Require Import Config.
From S2P Require Import Fields.
From S2P Require Import Protocol.
From S2P Require Import Election.
From S2P Require Import Membership.
From S2P Require Import Coordinator.
From S2P Require Import CoordinatorFacts.
#[local] Open Scope Z_scope.

Module ElectionRound.
Import Message Protocol Coordinator.

(** The part of a coordinator that the election reads. *)
Definition same_election (c c' : ClusterCoordinator) : Prop :=
  election c' = election c ∧ config c' = config c.

#[local] Instance same_election_refl : Reflexive same_election.
Proof. by intros c. Qed.
#[local] Instance same_election_trans : Transitive same_election.
Proof. intros c1 c2 c3 [??] [??]. split; congruence. Qed.

#[local] Instance same_election_preorder : PreOrder same_election.
Proof. split; apply _. Qed.

(** A program none of whose runs touch it, whether they raise or not. *)
Abbreviation keeps_election := (preserves same_election).

Lemma keeps_membership {A} (p : prog Membership.MembershipManager member_event A) :
  keeps_election (in_membership p).
Proof. intros c. unfold in_membership, zoom, state_of. by destruct (p (membership c)) as [[??]?]. Qed.
#[local] Hint Resolve keeps_membership : preserves.

Lemma keeps_election_event ev : keeps_election (on_election_event ev).
Proof. destruct ev; cbn [on_election_event]; unfold set_local_role; solve_preserves. Qed.
#[local] Hint Resolve keeps_election_event : preserves.

(** An election operation does to the coordinator's election what it does alone. *)
Lemma in_election_spec {A} (p : prog Election.ElectionManager election_event A) c m es r :
  p (election c) = (m, es, r) →
  ∃ c' es', in_election p c = (c', es', r) ∧ election c' = m ∧ config c' = config c.
Proof.
  intros Hp. unfold in_election. rewrite Hp.
  assert (keeps_election (for_each on_election_event es)) as Hk by auto with preserves.
  destruct (Hk (set_election m c)) as [He Hc].
  unfold state_of in *. destruct (for_each _ _ _) as [[c' es'] r']. by exists c', es'.
Qed.

(** ** Voting *)

(** A member that would vote for [c] in its next term, and is reached: it is
    at an older term, and its log is not ahead. *)
Definition votes_for (blocked : string → bool) (exchange : string → Z → Message → option Message)
    (c : ClusterCoordinator) (n : NodeInfo) : Prop :=
  blocked (NodeInfo.node_id n) = false ∧
  ∃ now rto peer,
    Election.current_term (election peer) <= Election.current_term (election c) ∧
    Election._is_log_up_to_date (election peer) (Z.of_nat (length (Election.log (election c))))
      (Election.last_log_term (election c)) = true ∧
    ∀ m peer' es answer, handle_cluster_message now rto m peer = (peer', es, Ok (Some answer)) →
      ask exchange n m = Some answer.

Lemma grants now candidate t index lterm m :
  Election.current_term m < t → Election._is_log_up_to_date m index lterm = true →
  ∃ m', Election.handle_vote_request now candidate t index lterm m = (m', [], Ok (t, true)).
Proof.
  intros Ht Hlog. unfold Election.handle_vote_request. rewrite get_bind.
  destruct (Z.ltb_spec t (Election.current_term m)); [lia|].
  destruct (Z.ltb_spec (Election.current_term m) t); [|lia].
  rewrite modify_bind, get_bind, decide_True by (by left).
  change (Election._is_log_up_to_date (Election.set_vote_state m t None FOLLOWER (Election.leader_id m)) index lterm)
    with (Election._is_log_up_to_date m index lterm).
  rewrite Hlog, modify_bind. by eexists.
Qed.

Lemma vote_answer now rto sender t index lterm peer :
  Election.current_term (election peer) < t →
  Election._is_log_up_to_date (election peer) index lterm = true →
  ∃ peer' es, handle_cluster_message now rto (create_vote_request sender t index lterm) peer =
    (peer', es, Ok (Some (create_vote_response (node_id peer) t true))).
Proof.
  intros Ht Hlog. set (m := create_vote_request sender t index lterm).
  change (handle_cluster_message now rto m) with (handle_vote now m). unfold handle_vote, int_field.
  change (get_default (payload m) "last_log_index" (JInt 0)) with (Ok (JInt index)).
  change (get_default (payload m) "last_log_term" (JInt 0)) with (Ok (JInt lterm)).
  cbn [res_bind as_int]. rewrite !lift_ok_bind.
  destruct (grants now sender t index lterm (election peer) Ht Hlog) as [el Hel].
  destruct (in_election_spec _ peer _ _ _ Hel) as (c & es & Heq & _ & Hcfg).
  eexists c, (es ++ []). erewrite bind_ok; [done|exact Heq|].
  rewrite get_bind. unfold node_id. by rewrite Hcfg.
Qed.

Lemma votes_counted blocked exchange c voters :
  voters `sublist_of` peers c → Forall (votes_for blocked exchange c) voters →
  1 + Z.of_nat (length voters) <=
    _request_votes blocked exchange c (Election.current_term (election c) + 1)
      (Z.of_nat (length (Election.log (election c)))) (Election.last_log_term (election c)).
Proof.
  intros Hsub Hall. unfold _request_votes. set (P := λ n, _ = true).
  assert (Hin : Forall P voters).
  { eapply Forall_impl; [exact Hall|]. intros n (Hb & now & rto & peer & Ht & Hlog & Hask). unfold P.
    rewrite Hb. destruct (vote_answer now rto (node_id c) (Election.current_term (election c) + 1) _ _ peer
      ltac:(lia) Hlog) as (peer' & es & Heq). by rewrite (Hask _ _ _ _ Heq). }
  assert (length voters <= length (base.filter P (peers c)))%nat; [|lia].
  apply sublist_length. clear Hall. induction Hsub as [|n l k Hsub IH|n l k Hsub IH]; [done| |].
  - apply Forall_cons in Hin as [Hn Hl]. rewrite filter_cons_True by done. by constructor; auto.
  - rewrite filter_cons. case_decide; [constructor|]; auto.
Qed.

(** ** The round *)

Lemma in_begin_election rto c :
  in_election (Election.begin_election rto) c =
    (set_election (state_of (Election.begin_election rto (election c))) c, [],
     Ok (Election.current_term (election c) + 1, Z.of_nat (length (Election.log (election c))),
         Election.last_log_term (election c))).
Proof. reflexivity. Qed.

Lemma candidate_wins t votes size m :
  Election.role m = CANDIDATE → Election.current_term m = t → Election.required_majority size <= votes →
  ∃ m', Election.finish_election t votes size m = (m', [OnBecomeLeader], Ok tt) ∧
    Election.role m' = LEADER ∧ Election.current_term m' = t ∧
    Election.leader_id m' = Some (Election.node_id m).
Proof.
  intros Hr Ht Hmaj. unfold Election.finish_election. rewrite get_bind, decide_False by (intros [?|?]; congruence).
  destruct (Z.leb_spec (Election.required_majority size) votes); [|lia].
  unfold Election._become_leader. rewrite modify_bind. by eexists.
Qed.

(** After a heartbeat of a term that is not older, a manager follows the
    sender and waits a full timeout before it stands for election. *)
Lemma heartbeat_followed now rto leader t m :
  Election.current_term m <= t →
  let m' := state_of (Election.receive_heartbeat now rto leader t m) in
  Election.role m' = FOLLOWER ∧ Election.leader_id m' = Some leader ∧ Election.current_term m' = t ∧
  ∀ later, later <= now + rto → Election._should_start_election later m' = false.
Proof.
  intros Ht m'.
  assert (H : Election.role m' = FOLLOWER ∧ Election.leader_id m' = Some leader ∧
    Election.current_term m' = t ∧ Election._last_heartbeat m' = now ∧ Election._election_timeout m' = rto).
  { unfold m', Election.receive_heartbeat. rewrite get_bind. destruct (Z.ltb_spec t (Election.current_term m)); [lia|].
    destruct (Z.ltb_spec (Election.current_term m) t).
    all: rewrite ?modify_bind, ?ret_bind, ?modify_bind, get_bind.
    all: destruct (decide _) as [Hd|Hd]; simpl; simpl in Hd.
    all: try (split_and!; (done || lia); fail).
    all: apply Decidable.not_or in Hd as [?%dec_stable ?%dec_stable]; split_and!; (done || lia). }
  destruct H as (Hr & Hl & Hc & Hhb & Hto). split_and!; [done..|]. intros later Hlater.
  unfold Election._should_start_election. rewrite Hr, Hhb, Hto, decide_False by done.
  apply Z.ltb_ge. lia.
Qed.

Lemma election_bind {A B} (p : proc A) (f : A → proc B) c :
  (∀ a, keeps_election (f a)) → election (state_of ((p ≫= f) c)) = election (state_of (p c)).
Proof.
  intros Hf. unfold mbind, prog_bind, state_of. destruct (p c) as [[c1 es] [a|x]]; [|done].
  pose proof (Hf a c1) as [He _]. unfold state_of in He. by destruct (f a c1) as [[??]?].
Qed.

(** The rest of a heartbeat message, the members it carries, changes nothing
    of the election. *)
Lemma heartbeat_message now rto sender t leader members c :
  leader ≠ EmptyString →
  election (state_of (handle_cluster_message now rto (create_heartbeat sender t leader members) c)) =
    state_of (Election.receive_heartbeat now rto leader t (election c)).
Proof.
  intros Hne. set (m := create_heartbeat sender t leader members).
  change (handle_cluster_message now rto m) with (handle_heartbeat now rto m). unfold handle_heartbeat, field.
  change (get_default (payload m) "leader_id" JNull) with (Ok (JStr leader)). rewrite lift_ok_bind.
  replace (truthy (JStr leader)) with true by (by destruct leader). cbn [as_str].
  rewrite election_bind.
  - rewrite lift_ok_bind, election_bind by (intros ?; apply preserves_ret).
    destruct (Election.receive_heartbeat now rto leader t (election c)) as [[el es] r] eqn:E.
    destruct (in_election_spec _ c _ _ _ E) as (c' & es' & Heq & He & _).
    change (term m) with t. rewrite Heq. exact He.
  - intros _. solve_preserves.
Qed.

(** Claim C18. Elections make progress.  When a node has heard no leader for its timeout,
    and enough alive members to make, with itself, a majority of its view are
    reached, at an older term and without a log that is ahead, then one round
    of its loop makes it the leader of the next term.  Its heartbeat then makes
    every coordinator that is not at a later term follow it, and keeps that one from standing
    for election during its own timeout. *)
Theorem silent_leader_replaced now rto blocked exchange c voters
    (Hsilent : Election._should_start_election now (election c) = true)
    (Hsub : voters `sublist_of` peers c) (Hvotes : Forall (votes_for blocked exchange c) voters)
    (Hmaj : Election.required_majority (get_cluster_size c) <= 1 + Z.of_nat (length voters)) :
  let t := Election.current_term (election c) + 1 in
  ∃ c' es, election_round now rto blocked exchange c = (c', es, Ok tt) ∧
    is_leader c' = true ∧ Election.current_term (election c') = t ∧
    get_leader_id c' = Some (Election.node_id (election c)) ∧
    ∀ now' rto' members leader peer, leader ≠ EmptyString → Election.current_term (election peer) <= t →
      let peer' := state_of (handle_cluster_message now' rto' (create_heartbeat leader t leader members) peer) in
      is_leader peer' = false ∧ get_leader_id peer' = Some leader ∧
      Election.current_term (election peer') = t ∧
      ∀ later, later <= now' + rto' → Election._should_start_election later (election peer') = false.
Proof.
  intros t. pose proof (votes_counted blocked exchange c voters Hsub Hvotes) as Hcount.
  set (c1 := set_election (state_of (Election.begin_election rto (election c))) c).
  destruct (candidate_wins t (_request_votes blocked exchange c1 t (Z.of_nat (length (Election.log (election c))))
    (Election.last_log_term (election c))) (get_cluster_size c1) (election c1))
    as (m & Hwin & Hrole & Hterm & Hid); [done|done|etrans; [exact Hmaj|exact Hcount]|].
  destruct (in_election_spec _ c1 _ _ _ Hwin) as (c' & es & Heq & Hel & _).
  exists c', es. split_and!.
  - unfold election_round. rewrite get_bind, Hsilent. erewrite bind_silent; [|apply in_begin_election].
    cbv beta iota. rewrite get_bind. exact Heq.
  - unfold is_leader, Election.is_leader. rewrite Hel, Hrole. done.
  - by rewrite Hel.
  - unfold get_leader_id. rewrite Hel, Hid. done.
  - intros now' rto' members leader peer Hne Hpeer peer'.
    destruct (heartbeat_followed now' rto' leader t (election peer) Hpeer) as (Hr & Hl & Ht & Hs).
    unfold is_leader, Election.is_leader, get_leader_id, peer'. rewrite heartbeat_message by done.
    rewrite Hr. done.
Qed.

(** Two coordinators: "n2" answers "n1" through its own handler. *)
Definition demo_pair : ClusterCoordinator :=
  state_of (in_membership (Membership.add_node
    (NodeInfo.new 0 "n2" "localhost" 7002 8002)) (CoordF.demo_coord "n1")).

Definition demo_exchange (host : string) (port : Z) (m : Message) : option Message :=
  match result_of (handle_cluster_message 9 5 m (CoordF.demo_coord "n2")) with Ok r => r | Raise _ => None end.

Lemma silent_leader_replaced_witness :
  ∃ c' es, election_round 9 5 (λ _, false) demo_exchange demo_pair = (c', es, Ok tt) ∧
    is_leader c' = true ∧ Election.current_term (election c') = 1 ∧ get_leader_id c' = Some "n1"%string ∧
    ∀ now' rto' members leader peer, leader ≠ EmptyString → Election.current_term (election peer) <= 1 →
      let peer' := state_of (handle_cluster_message now' rto' (create_heartbeat leader 1 leader members) peer) in
      is_leader peer' = false ∧ get_leader_id peer' = Some leader ∧
      Election.current_term (election peer') = 1 ∧
      ∀ later, later <= now' + rto' → Election._should_start_election later (election peer') = false.
Proof.
  apply (silent_leader_replaced 9 5 (λ _, false) demo_exchange demo_pair (peers demo_pair)).
  - reflexivity.
  - reflexivity.
  - apply Forall_cons. split; [|apply Forall_nil_2]. split; [reflexivity|].
    exists 9, 5, (CoordF.demo_coord "n2"). split; [by vm_compute|]. split; [reflexivity|].
    intros m peer' es answer Heq. unfold ask, demo_exchange. by rewrite Heq.
  - by vm_compute.
Defined.

End ElectionRound.
