(* ===== verification/ClusterWire.v ===== *)
(** The cluster messages on the wire: each decodes to what was meant, and does
    at the receiver what the sender meant. *)

From S2P Require Import Prelude.
From S2P Require Import PyMonad.
From S2P Require Import PyDict.
From S2P Require Import Json.
From S2P Require Import Config.
From S2P Require Import Fields.
From S2P Require Import Protocol.
From S2P Require Import ProtocolFacts.
From S2P Require Import Election.
From S2P Require Import Membership.
From S2P Require Import Replication.
From S2P Require Import Coordinator.
From S2P Require Import MembershipFacts.
From S2P Require Import CoordinatorFacts.
From S2P Require Import ElectionRound.
#[local] Open Scope Z_scope.

Module ClusterWire.
Import Message Protocol Coordinator.

(** Objects with fixed field names have no duplicate keys. *)
Ltac json_object :=
  apply json_wf_obj; split; [apply (bool_decide_unpack _); vm_compute; exact I|];
  repeat (apply Forall_cons; split; [cbn [snd]; try exact I|]); try apply Forall_nil_2.
Ltac solve_json_wf :=
  json_object;
  repeat match goal with
  | |- json_wf (jopt _ ?o) => destruct o; exact I
  | H : json_wf ?j |- json_wf ?j => exact H
  | |- json_wf (JArr _) => apply json_wf_arr
  end.

Lemma node_data_wf n : json_wf (NodeInfo.to_dict n).
Proof. unfold NodeInfo.to_dict. solve_json_wf. Qed.

Lemma log_data_wf e : json_wf (LogEntry.value e) → json_wf (LogEntry.to_dict e).
Proof. intros He. unfold LogEntry.to_dict. solve_json_wf. Qed.

Lemma members_data_wf m : Forall json_wf (Membership.get_members_data m).
Proof. apply Forall_fmap, Forall_true. apply node_data_wf. Qed.

(** A handler that only answers with well-formed messages. *)
Definition answers_wf (p : proc (option Message)) : Prop :=
  ∀ c c' es r, p c = (c', es, Ok (Some r)) → ProtocolF.msg_wf r.

Lemma answers_wf_bind {A} (p : proc A) f : (∀ a, answers_wf (f a)) → answers_wf (p ≫= f).
Proof. intros Hf c c' es r (? & ? & ? & ? & _ & Hr & _)%bind_ok_inv. by eapply Hf. Qed.

Lemma answers_ret r : ProtocolF.msg_wf r → answers_wf (mret (Some r)).
Proof. by intros Hr c c' es r' [= _ _ <-]. Qed.

Lemma answers_none : answers_wf (mret None).
Proof. by intros c c' es r. Qed.

Ltac solve_answers :=
  repeat first
    [ apply answers_none
    | apply answers_ret; unfold ProtocolF.msg_wf; cbn; solve_json_wf
    | apply answers_wf_bind; intros ?
    | match goal with |- answers_wf (if ?b then _ else _) => destruct b end ].

Lemma handler_answers now rto m : answers_wf (handle_cluster_message now rto m).
Proof.
  unfold handle_cluster_message. destruct (msg_type m); try apply answers_none.
  - unfold handle_heartbeat. solve_answers.
  - unfold handle_vote. solve_answers.
  - unfold handle_append. solve_answers.
  - unfold handle_join. solve_answers. json_object. apply json_wf_arr, members_data_wf.
  - unfold handle_gossip_message. solve_answers.
  - unfold handle_replicate. solve_answers. all: json_object.
Qed.

(** The messages that a coordinator sends of itself. *)
Inductive sent (blocked : string → bool) (c : ClusterCoordinator) : Message → Prop :=
  | sent_vote t i l : sent blocked c (create_vote_request (node_id c) t i l)
  | sent_heartbeat n m : Cast n m ∈ events_of (_send_heartbeats blocked c) → sent blocked c m
  | sent_gossip n x m :
      Cast n m ∈ events_of (_send_gossip blocked x (Membership.get_members_data (membership c)) c) →
      sent blocked c m
  | sent_phase e ph : json_wf (LogEntry.value e) → sent blocked c (create_phase c e ph)
  | sent_join : sent blocked c (CoordF.join_msg c).

Lemma heartbeat_events (blocked : string → bool) data (c k : ClusterCoordinator) : ∀ ns n m,
  Cast n m ∈ events_of (for_each (λ n : NodeInfo, if blocked (NodeInfo.node_id n) then mret ()
    else emit (Cast n (create_heartbeat (node_id k) (Election.current_term (election k)) (node_id k) data)) : proc ()) ns c) →
  m = create_heartbeat (node_id k) (Election.current_term (election k)) (node_id k) data.
Proof.
  induction ns as [|x ns IH]; intros n m; [by intros ?%not_elem_of_nil|]. cbn [for_each].
  destruct (blocked (NodeInfo.node_id x)).
  - rewrite ret_bind. apply IH.
  - unfold mbind, prog_bind, emit. unfold events_of in *. specialize (IH n m).
    destruct (for_each _ ns c) as [[??]?]. cbn. intros [[= -> ->]|Hin]%elem_of_cons; [done|by apply IH].
Qed.

Lemma sent_wf blocked c m : sent blocked c m → ProtocolF.msg_wf m.
Proof.
  unfold ProtocolF.msg_wf. intros [t i l|n m' H|n x m' H|e ph He|]; cbn [payload].
  - cbn. solve_json_wf.
  - unfold _send_heartbeats in H. rewrite get_bind in H. apply heartbeat_events in H as ->. cbn.
    solve_json_wf. apply members_data_wf.
  - unfold _send_gossip in H. destruct (blocked _); [by apply not_elem_of_nil in H|].
    rewrite get_bind in H. apply list_elem_of_singleton in H as [= _ ->]. cbn [payload].
    destruct (is_leader c); cbn [app]; solve_json_wf; apply members_data_wf.
  - cbn. solve_json_wf. by apply log_data_wf.
  - apply node_data_wf.
Qed.

(** The receiver of a message that a coordinator sends, or of an answer that it
    gives to whatever message it received in whatever state, decodes exactly
    that message. *)
Lemma sent_decodes blocked c m : sent blocked c m → decode (frame m) = Ok m.
Proof. intros H. apply ProtocolF.frame_roundtrip. by eapply sent_wf. Qed.

Lemma answer_decodes now rto q c c' es a :
  handle_cluster_message now rto q c = (c', es, Ok (Some a)) → decode (frame a) = Ok a.
Proof. intros H. apply ProtocolF.frame_roundtrip. by eapply handler_answers. Qed.

(** ** What the messages do to the receiver *)

(** A coordinator whose membership table is its own. *)
Definition sound (c : ClusterCoordinator) : Prop :=
  MembershipF.wf (membership c) ∧ MembershipF.local_id (membership c) = node_id c.

Definition record_of (k : string) (c : ClusterCoordinator) : option NodeInfo := Membership.get_node (membership c) k.

(** The record that a receiver holds of a node when it is told another. *)
Definition merged (now : time) (theirs mine : option NodeInfo) : option NodeInfo :=
  match theirs, mine with
  | None, _ => mine
  | Some n, None => Some (MembershipF.stamp now n)
  | Some n, Some e =>
      if (NodeInfo.incarnation e <? NodeInfo.incarnation n) || (NodeInfo.last_heartbeat e <? NodeInfo.last_heartbeat n)
      then Some (MembershipF.stamp now n) else Some e
  end.

(** The sender has been heard: its record is fresh, and no longer suspect. *)
Definition heard (now : time) (sender k : string) (r : option NodeInfo) : option NodeInfo :=
  if decide (sender = k) then
    (λ n, NodeInfo.set_state (NodeInfo.set_heartbeat n now)
            (if decide (NodeInfo.state n = SUSPECT) then ALIVE else NodeInfo.state n)) <$> r
  else r.

(** Every record of [c1], its own included, has reached [c2]. *)
Definition learned (now : time) (c1 c2 c2' : ClusterCoordinator) : Prop :=
  sound c2' ∧ node_id c2' = node_id c2 ∧
  ∀ k, k ≠ node_id c2 → record_of k c2' = heard now (node_id c1) k (merged now (record_of k c1) (record_of k c2)).

(** *** Gossip of a whole table *)

Lemma gossip_list now ns m : MembershipF.wf m → NoDup (NodeInfo.node_id <$> ns) →
  ∃ m' es, Membership.handle_gossip now (NodeInfo.to_dict <$> ns) m = (m', es, Ok tt) ∧
    MembershipF.wf m' ∧ MembershipF.local_id m' = MembershipF.local_id m ∧
    ∀ k o, k ≠ MembershipF.local_id m → (∀ n, o = Some n ↔ n ∈ ns ∧ NodeInfo.node_id n = k) →
      Membership.get_node m' k = merged now o (Membership.get_node m k).
Proof.
  unfold Membership.handle_gossip. revert m. induction ns as [|n ns IH]; intros m Hwf Hnd.
  { exists m, []. do 3 (split; [done|]). intros k [n|] _ Ho; [|done].
    destruct (proj1 (Ho n) eq_refl) as [?%not_elem_of_nil _]. done. }
  rewrite fmap_cons in *. apply NoDup_cons in Hnd as [Hn Hnd].
  assert (Hone : ∃ m1 es1, Membership.gossip_one now (NodeInfo.to_dict n) m = (m1, es1, Ok tt) ∧
    MembershipF.wf m1 ∧ MembershipF.local_id m1 = MembershipF.local_id m ∧
    ∀ k, k ≠ MembershipF.local_id m → Membership.get_node m1 k =
      if decide (NodeInfo.node_id n = k) then merged now (Some n) (Membership.get_node m k) else Membership.get_node m k).
  { destruct (decide (NodeInfo.node_id n = MembershipF.local_id m)) as [Hl|Hl].
    - exists m, []. rewrite MembershipF.gossip_local by done. do 3 (split; [done|]). intros k Hk.
      by rewrite decide_False by congruence.
    - destruct (MembershipF.gossip_one_spec now m n Hwf Hl) as (Hr & Hw & Hl' & Hg).
      destruct (Membership.gossip_one now (NodeInfo.to_dict n) m) as [[m1 es1] r]. cbn in Hr. subst r.
      exists m1, es1. do 3 (split; [done|]). intros k _. apply Hg. }
  destruct Hone as (m1 & es1 & Hrun & Hw1 & Hl1 & Hg1).
  destruct (IH m1 Hw1 Hnd) as (m' & es & Hrest & Hw' & Hl' & Hg'). exists m', (es1 ++ es).
  split; [cbn [for_each]; by erewrite bind_ok; [|exact Hrun|exact Hrest]|]. split; [done|]. split; [congruence|].
  intros k o Hk Ho. specialize (Hg1 k Hk). destruct (decide (NodeInfo.node_id n = k)) as [Hid|Hid].
  - assert (o = Some n) as -> by (apply Ho; split; [by left|done]). rewrite <-Hg1.
    apply (Hg' k None); [congruence|]. intros x. split; [done|]. intros [Hx Hxk]. exfalso. apply Hn.
    rewrite Hid, <-Hxk. by apply list_elem_of_fmap_2.
  - rewrite <-Hg1. apply Hg'; [congruence|]. intros x. rewrite Ho, elem_of_cons. naive_solver.
Qed.

Lemma listed_node m n k : MembershipF.wf m →
  Membership.get_node m k = Some n ↔ n ∈ Membership.get_all_nodes m ∧ NodeInfo.node_id n = k.
Proof.
  intros Hwf. unfold Membership.get_node, Membership.get_all_nodes. rewrite fmap_Some, list_elem_of_fmap. split.
  - intros (s & Hs & ->). split; [|by eapply MembershipF.wf_name].
    apply dict_get_Some_in in Hs. by exists (k, s).
  - intros [([k' s] & -> & Hin) Hid]. cbn [snd] in *.
    apply dict_in_get in Hin; [|by apply Hwf]. rewrite (MembershipF.wf_name m Hwf _ _ Hin) in Hid. subst k'. by exists s.
Qed.

Lemma gossip_table now m1 m2 : MembershipF.wf m1 → MembershipF.wf m2 →
  ∃ m' es, Membership.handle_gossip now (Membership.get_members_data m1) m2 = (m', es, Ok tt) ∧
    MembershipF.wf m' ∧ MembershipF.local_id m' = MembershipF.local_id m2 ∧
    ∀ k, k ≠ MembershipF.local_id m2 →
      Membership.get_node m' k = merged now (Membership.get_node m1 k) (Membership.get_node m2 k).
Proof.
  intros H1 H2. destruct (gossip_list now (Membership.get_all_nodes m1) m2 H2) as (m' & es & Hrun & Hw & Hl & Hg);
    [by apply MembershipF.all_nodes_distinct|].
  exists m', es. split; [exact Hrun|]. do 2 (split; [done|]). intros k Hk. apply Hg; [done|].
  intros n. by apply listed_node.
Qed.

(** *** The parts of a handler *)

(** What a callback may do to the coordinator: its own record, no other. *)
Definition others_kept (c c' : ClusterCoordinator) : Prop :=
  node_id c' = node_id c ∧
  (sound c → sound c' ∧ ∀ k, k ≠ node_id c → record_of k c' = record_of k c).

#[local] Instance others_kept_preorder : PreOrder others_kept.
Proof.
  split; [by intros c|]. intros c1 c2 c3 [Hi1 H1] [Hi2 H2]. split; [congruence|]. intros Hs.
  destruct (H1 Hs) as [Hs2 Hk2]. destruct (H2 Hs2) as [Hs3 Hk3]. split; [done|]. intros k Hk.
  rewrite Hk3 by congruence. auto.
Qed.

Lemma keeps_others_membership {A} (p : prog Membership.MembershipManager member_event A) c :
  MembershipF.stays_wf (membership c) (state_of (p (membership c))) →
  (∀ k, sound c → k ≠ node_id c →
     Membership.get_node (state_of (p (membership c))) k = Membership.get_node (membership c) k) →
  others_kept c (state_of (in_membership p c)).
Proof.
  intros Hwf Hget. unfold in_membership, zoom, state_of in *. destruct (p (membership c)) as [[m es] r]. cbn [fst] in *.
  split; [done|]. intros [Hw Hl]. destruct (Hwf Hw) as [Hw' Hl'].
  split; [split; [done|by cbn; rewrite Hl'] |]. intros k Hk. by apply Hget.
Qed.

Lemma keeps_others_event ev : preserves others_kept (on_election_event ev).
Proof.
  assert (Hrole : ∀ r, preserves others_kept (set_local_role r)).
  { intros r. unfold set_local_role. apply preserves_state. intros c.
    transitivity (state_of (in_membership (Membership.set_node_role (node_id c) r) c)).
    - apply keeps_others_membership.
      + by apply MembershipF.keeps_mutate.
      + intros k [Hw Hl] Hk. unfold Membership.set_node_role, modify, state_of. cbn [fst].
        rewrite MembershipF.mutate_get by done. by rewrite decide_False by congruence.
    - set (c1 := state_of (in_membership (Membership.set_node_role (node_id c) r) c)).
      transitivity (state_of (in_membership (modify (λ m, Membership.with_local m
        (NodeInfo.set_role (Membership.local_node m) r)) : Membership.proc ()) c1)); [|done].
      clearbody c1. apply keeps_others_membership.
      + by apply (MembershipF.keeps_with_local (λ n, NodeInfo.set_role n r)).
      + intros k [Hw Hl] Hk. unfold modify, state_of, Membership.get_node. cbn [fst Membership._members Membership.with_local].
        destruct (dict_get (Membership._members (membership c1)) k) as [[|n]|] eqn:E; [|done|done].
        apply (MembershipF.wf_name _ Hw) in E. cbn in E. unfold MembershipF.local_id in Hl. congruence. }
  destruct ev; cbn [on_election_event]; [apply Hrole|apply Hrole|apply preserves_emit].
Qed.

(** An election operation in a coordinator. *)
Lemma in_election_part {A} (p : prog Election.ElectionManager election_event A) c m es r :
  p (election c) = (m, es, r) → sound c →
  ∃ c' es', in_election p c = (c', es', r) ∧ election c' = m ∧ node_id c' = node_id c ∧ sound c' ∧
    ∀ k, k ≠ node_id c → record_of k c' = record_of k c.
Proof.
  intros Hp Hs. destruct (ElectionRound.in_election_spec p c m es r Hp) as (c' & es' & Hrun & He & Hc).
  exists c', es'. split; [done|]. split; [done|].
  assert (Hkept : others_kept (set_election m c) c').
  { unfold in_election in Hrun. rewrite Hp in Hrun.
    assert (Hk : preserves others_kept (for_each on_election_event es)) by apply preserves_for_each, keeps_others_event.
    specialize (Hk (set_election m c)).
    unfold state_of in Hk. destruct (for_each _ _ _) as [[c1 ?] ?]. by simplify_eq. }
  destruct Hkept as [Hi Hrest]. split; [exact Hi|]. destruct (Hrest Hs) as [Hs' Hk]. by split.
Qed.

(** The members that a message carries, and the sender's fresh record. *)
Lemma table_part now c1 c : sound c1 → sound c →
  ∃ c' es, (in_membership (Membership.handle_gossip now (Membership.get_members_data (membership c1)));;
      in_membership (Membership.update_heartbeat now (node_id c1));; mret None : proc (option Message)) c = (c', es, Ok None) ∧
    election c' = election c ∧ learned now c1 c c'.
Proof.
  intros [Hw1 _] [Hw Hl].
  destruct (gossip_table now (membership c1) (membership c) Hw1 Hw) as (m' & es & Hrun & Hw' & Hl' & Hg).
  set (f := λ n, let n := NodeInfo.set_heartbeat n now in
    if decide (NodeInfo.state n = SUSPECT) then NodeInfo.set_state n ALIVE else n).
  assert (Hf : MembershipF.keeps_name f) by (intros n; unfold f; cbv zeta; by case_decide).
  set (m'' := Membership.mutate (node_id c1) f m').
  exists (set_membership m'' (set_membership m' c)), ((Notice <$> es) ++ []).
  split.
  { erewrite bind_ok; [|by apply CoordF.zoom_membership|].
    2: { erewrite bind_ok; [|by apply CoordF.zoom_membership|]; reflexivity. } reflexivity. }
  split; [done|]. split; [|split; [done|]].
  - split; [by apply MembershipF.mutate_wf|]. cbn [membership set_membership]. unfold m''. rewrite MembershipF.mutate_local by done. by rewrite Hl', Hl.
  - intros k Hk. unfold record_of. cbn [membership set_membership]. unfold m''.
    rewrite MembershipF.mutate_get by done. unfold heard.
    destruct (decide (node_id c1 = k)) as [<-|Hid]; rewrite Hg by congruence; [|done].
    apply option_fmap_ext. intros n. unfold f. cbv zeta. destruct n. cbn. by case_decide.
Qed.

(** A whole table has at least the sender's own record. *)
Lemma members_data_truthy m : MembershipF.wf m → truthy (JArr (Membership.get_members_data m)) = true.
Proof.
  intros [_ [s Hs] _]. unfold Membership.get_members_data, Membership.get_all_nodes.
  by destruct (Membership._members m).
Qed.

(** *** Received messages *)

Section received.
Context (now rto : time) (blocked : string → bool).
Context (c1 c2 : ClusterCoordinator) (Hc1 : sound c1) (Hc2 : sound c2).

(** The text of a frame, decoded and handled. *)
Definition deliver (text : string) : proc (option Message) :=
  m ← lift (decode text); handle_cluster_message now rto m.

Lemma deliver_sent m c : sent blocked c1 m → deliver (frame m) c = handle_cluster_message now rto m c.
Proof. intros Hm. unfold deliver. by rewrite (sent_decodes blocked c1 m Hm), lift_ok_bind. Qed.

(** A heartbeat of a term that is not older is followed, and an older one
    leaves the election alone; either way the table is learned. *)
Definition followed (c2' : ClusterCoordinator) : Prop :=
  if decide (Election.current_term (election c1) < Election.current_term (election c2)) then election c2' = election c2
  else is_leader c2' = false ∧ get_leader_id c2' = Some (node_id c1) ∧
       Election.current_term (election c2') = Election.current_term (election c1) ∧
       ∀ later, later <= now + rto → Election._should_start_election later (election c2') = false.

Lemma receive_heartbeat_run id t m : ∃ m' es b, Election.receive_heartbeat now rto id t m = (m', es, Ok b) ∧
  (t < Election.current_term m → m' = m).
Proof.
  unfold Election.receive_heartbeat. rewrite get_bind. destruct (Z.ltb_spec t (Election.current_term m)).
  { by eexists _, _, _. }
  destruct (Z.ltb_spec (Election.current_term m) t); rewrite ?modify_bind, ?ret_bind, ?modify_bind, get_bind;
    case_decide; rewrite ?modify_bind; (eexists _, _, _; split; [reflexivity|lia]).
Qed.

Lemma heartbeat_arrives : node_id c1 ≠ EmptyString →
  let m := create_heartbeat (node_id c1) (Election.current_term (election c1)) (node_id c1)
             (Membership.get_members_data (membership c1)) in
  ∃ c2' es, handle_cluster_message now rto m c2 = (c2', es, Ok None) ∧ followed c2' ∧ learned now c1 c2 c2'.
Proof.
  intros Hne m. set (t := Election.current_term (election c1)).
  change (handle_cluster_message now rto m) with (handle_heartbeat now rto m). unfold handle_heartbeat, field.
  change (get_default (payload m) "leader_id" JNull) with (Ok (JStr (node_id c1))). rewrite lift_ok_bind.
  replace (truthy (JStr (node_id c1))) with true by (by destruct (node_id c1)). cbn [as_str].
  destruct (receive_heartbeat_run (node_id c1) t (election c2)) as (e & evs & b & He & Hold).
  destruct (in_election_part _ c2 _ _ _ He Hc2) as (c & es & Hrun & Hel & Hid & Hs & Hk).
  destruct (table_part now c1 c Hc1 Hs) as (c2' & es' & Hrun' & Hel' & Hs' & Hid' & Hk').
  assert (Hfirst : (leader ← lift (Ok (node_id c1)); _ ← in_election (Election.receive_heartbeat now rto leader t);
    mret () : proc ()) c2 = (c, es ++ [], Ok ())) by (rewrite lift_ok_bind; by erewrite bind_ok; [|exact Hrun|reflexivity]).
  exists c2', ((es ++ []) ++ es'). split; [|split].
  - erewrite bind_ok; [reflexivity|exact Hfirst|].
    change (get_default (payload m) "members" (JArr [])) with (Ok (JArr (Membership.get_members_data (membership c1)))).
    rewrite lift_ok_bind, members_data_truthy by apply Hc1. cbn [as_list]. rewrite <-Hrun'.
    unfold mbind at 1, prog_bind at 1. by rewrite lift_ok_bind.
  - unfold followed. fold t. case_decide as Ht.
    + rewrite Hel', Hel. by apply Hold.
    + destruct (ElectionRound.heartbeat_followed now rto (node_id c1) t (election c2)) as (Hr & Hl & Ht' & Hst); [lia|].
      rewrite He in Hr, Hl, Ht', Hst. cbn in Hr, Hl, Ht', Hst.
      unfold is_leader, Election.is_leader, get_leader_id. rewrite Hel', Hel, Hr. done.
  - split; [done|]. split; [congruence|]. intros k Hk2. rewrite Hk' by congruence. by rewrite Hk.
Qed.

Lemma gossip_arrives leader :
  let m := mkMsg GOSSIP (JObj ([("members", JArr (Membership.get_members_data (membership c1)))]%string ++ leader))
             (node_id c1) (Election.get_term (election c1)) 0 in
  ∃ c2' es, handle_cluster_message now rto m c2 = (c2', es, Ok None) ∧
    election c2' = election c2 ∧ learned now c1 c2 c2'.
Proof.
  intros m. change (handle_cluster_message now rto m) with (handle_gossip_message now m). unfold handle_gossip_message.
  change (get_default (payload m) "members" (JArr [])) with (Ok (JArr (Membership.get_members_data (membership c1)))).
  cbn [res_bind as_list]. rewrite lift_ok_bind. by apply table_part.
Qed.

(** The conditions on which a vote is granted. *)
Definition would_vote (t index lterm : Z) : Prop :=
  let e := election c2 in
  (Election.current_term e < t ∨
   Election.current_term e = t ∧ (Election.voted_for e = None ∨ Election.voted_for e = Some (node_id c1))) ∧
  Election._is_log_up_to_date e index lterm = true.

Lemma vote_run id t index lterm m :
  ∃ m' es tm b, Election.handle_vote_request now id t index lterm m = (m', es, Ok (tm, b)) ∧
    (b = true ↔ (Election.current_term m < t ∨
        Election.current_term m = t ∧ (Election.voted_for m = None ∨ Election.voted_for m = Some id)) ∧
      Election._is_log_up_to_date m index lterm = true) ∧
    (b = true → Election.voted_for m' = Some id ∧ Election.current_term m' = t).
Proof.
  unfold Election.handle_vote_request. rewrite get_bind. destruct (Z.ltb_spec t (Election.current_term m)).
  { eexists _, _, _, false. split; [done|]. split; [split; [done|lia]|done]. }
  destruct (Z.ltb_spec (Election.current_term m) t); rewrite ?modify_bind, ?ret_bind, get_bind.
  - rewrite decide_True by (by left).
    change (Election._is_log_up_to_date (Election.set_vote_state m t None FOLLOWER (Election.leader_id m)) index lterm)
      with (Election._is_log_up_to_date m index lterm).
    destruct (Election._is_log_up_to_date m index lterm); rewrite ?modify_bind.
    + eexists _, _, _, true. split; [done|]. split; [split; auto|done].
    + eexists _, _, _, false. split; [done|]. split; [split; [done|by intros []]|done].
  - case_decide.
    + destruct (Election._is_log_up_to_date m index lterm); rewrite ?modify_bind.
      * eexists _, _, _, true. split; [done|]. split; [split; [|done]; split; [right; split; [lia|done]|done]|].
        intros _. split; [done|]. cbn. lia.
      * eexists _, _, _, false. split; [done|]. split; [split; [done|by intros []]|done].
    + eexists _, _, _, false. split; [done|]. split; [split; [done|]|done]. intros [[?|[_ ?]] _]; [lia|done].
Qed.

Lemma vote_arrives t index lterm :
  ∃ c2' es a, handle_cluster_message now rto (create_vote_request (node_id c1) t index lterm) c2 = (c2', es, Ok (Some a)) ∧
    (answer_true "vote_granted" (Some a) = true ↔ would_vote t index lterm) ∧
    (answer_true "vote_granted" (Some a) = true →
       Election.voted_for (election c2') = Some (node_id c1) ∧ Election.current_term (election c2') = t).
Proof.
  set (m := create_vote_request (node_id c1) t index lterm).
  change (handle_cluster_message now rto m) with (handle_vote now m). unfold handle_vote, int_field.
  change (get_default (payload m) "last_log_index" (JInt 0)) with (Ok (JInt index)).
  change (get_default (payload m) "last_log_term" (JInt 0)) with (Ok (JInt lterm)).
  cbn [res_bind as_int]. rewrite !lift_ok_bind.
  destruct (vote_run (node_id c1) t index lterm (election c2)) as (e & evs & tm & b & Hrun & Hiff & Hset).
  destruct (in_election_part _ c2 _ _ _ Hrun Hc2) as (c & es & Heq & Hel & _).
  exists c, (es ++ []), (create_vote_response (node_id c) tm b).
  assert (Hb : answer_true "vote_granted" (Some (create_vote_response (node_id c) tm b)) = b) by (by destruct b).
  rewrite Hb, Hel. split; [|by split]. erewrite bind_ok; [done|exact Heq|]. by rewrite get_bind.
Qed.

(** The record of the joining node, unless one is held that is not older. *)
Definition admitted (n : NodeInfo) (mine : option NodeInfo) : option NodeInfo :=
  match mine with
  | Some e => if NodeInfo.incarnation e <? NodeInfo.incarnation n then Some (MembershipF.stamp now n) else Some e
  | None => Some (MembershipF.stamp now n)
  end.

Lemma join_arrives :
  let n := Membership.local_node (membership c1) in
  ∃ c2' es a, handle_cluster_message now rto (CoordF.join_msg c1) c2 = (c2', es, Ok (Some a)) ∧
    record_of (NodeInfo.node_id n) c2' = admitted n (record_of (NodeInfo.node_id n) c2).
Proof.
  intros n. set (n' := MembershipF.stamp now n).
  assert (Hadd : ∃ m' es b, Membership.add_node n' (membership c2) = (m', es, Ok b) ∧
    Membership.get_node m' (NodeInfo.node_id n) = admitted n (record_of (NodeInfo.node_id n) c2)).
  { unfold Membership.add_node, record_of, admitted. rewrite get_bind. change (NodeInfo.node_id n') with (NodeInfo.node_id n).
    change (NodeInfo.incarnation n') with (NodeInfo.incarnation n).
    destruct (Membership.get_node (membership c2) (NodeInfo.node_id n)) as [e|] eqn:E;
      [destruct (_ <? _); [|by eexists _, _, _]|].
    all: rewrite modify_bind; eexists _, _, _; split; [reflexivity|].
    all: unfold Membership.get_node; cbn; by rewrite dict_get_set_eq. }
  destruct Hadd as (m' & es & b & Hrun & Hg).
  change (handle_cluster_message now rto (CoordF.join_msg c1)) with (handle_join now (CoordF.join_msg c1)).
  unfold handle_join. cbn [payload CoordF.join_msg].
  rewrite NodeInfo.from_dict_to_dict_node, lift_ok_bind.
  eexists (set_membership m' c2), _, _. split; [|exact Hg].
  erewrite bind_ok; [reflexivity|by apply CoordF.zoom_membership|]. by rewrite get_bind.
Qed.

(** The heartbeats that are sent: one to every peer that is not cut off. *)
Lemma heartbeats_sent n m : Cast n m ∈ events_of (_send_heartbeats blocked c1) ↔
  (n ∈ peers c1 ∧ blocked (NodeInfo.node_id n) = false) ∧
  m = create_heartbeat (node_id c1) (Election.current_term (election c1)) (node_id c1)
        (Membership.get_members_data (membership c1)).
Proof.
  unfold _send_heartbeats. rewrite get_bind. generalize (Membership.get_members_data (membership c1)) as data. intros data.
  generalize c1 at 5 as c. induction (peers c1) as [|x ns IH]; intros c; cbn [for_each].
  { rewrite !elem_of_nil. naive_solver. }
  rewrite elem_of_cons. destruct (blocked (NodeInfo.node_id x)) eqn:Eb.
  - rewrite ret_bind, IH. naive_solver congruence.
  - specialize (IH c). unfold mbind, prog_bind, emit, events_of in *.
    destruct (for_each _ ns c) as [[??]?]. cbn in *. rewrite elem_of_cons, IH. naive_solver.
Qed.

(** Claim C32. The cluster messages do at the receiver what the sender meant, for two
    coordinators with their own tables and a sender with a name.  Heartbeats go to
    exactly the alive peers that are not cut off; a receiver decodes one and follows
    the sender in its term, standing for no election during its timeout, unless it is
    at a later term, whose election stays as it was.  A heartbeat or gossip brings
    every record of the sender's table but the receiver's own, kept where its
    incarnation or heartbeat is newer, and marks the sender as heard; gossip touches
    no election.  The decoded answer to a vote request grants the vote exactly when
    the receiver is at an older term, or at this term without another vote, and its
    log is not ahead; the vote is then cast.  A prepared entry with a JSON value is
    held as sent, a commit applies the held one, or its own when none is held, both
    acknowledged.  A join brings the sender's record, unless one of no older
    incarnation is held. *)
Theorem cluster_messages_arrive (Hid : node_id c1 ≠ EmptyString) :
  (∀ n, (∃ m, Cast n m ∈ events_of (_send_heartbeats blocked c1)) ↔ n ∈ peers c1 ∧ blocked (NodeInfo.node_id n) = false) ∧
  (∀ n m, Cast n m ∈ events_of (_send_heartbeats blocked c1) →
     ∃ c2' es, deliver (frame m) c2 = (c2', es, Ok None) ∧ followed c2' ∧ learned now c1 c2 c2') ∧
  (∀ x n m, Cast n m ∈ events_of (_send_gossip blocked x (Membership.get_members_data (membership c1)) c1) →
     ∃ c2' es, deliver (frame m) c2 = (c2', es, Ok None) ∧ election c2' = election c2 ∧ learned now c1 c2 c2') ∧
  (∀ t index lterm, ∃ c2' es a a',
     deliver (frame (create_vote_request (node_id c1) t index lterm)) c2 = (c2', es, Ok (Some a)) ∧
     decode (frame a) = Ok a' ∧
     (answer_true "vote_granted" (Some a') = true ↔ would_vote t index lterm) ∧
     (answer_true "vote_granted" (Some a') = true →
        Election.voted_for (election c2') = Some (node_id c1) ∧ Election.current_term (election c2') = t)) ∧
  (∀ e, json_wf (LogEntry.value e) →
     ∃ a a', decode (frame a) = Ok a' ∧ answer_true "success" (Some a') = true ∧
       deliver (frame (create_phase c1 e "prepare")) c2 = (CoordF.stage e c2, [], Ok (Some a)) ∧
       deliver (frame (create_phase c1 e "commit")) c2 =
         (CoordF.unstage (LogEntry.index e) c2,
          [Apply (default e (dict_get (_staged_replicates c2) (LogEntry.index e)))], Ok (Some a))) ∧
  ∃ c2' es a, deliver (frame (CoordF.join_msg c1)) c2 = (c2', es, Ok (Some a)) ∧
    let n := Membership.local_node (membership c1) in
    record_of (NodeInfo.node_id n) c2' = admitted n (record_of (NodeInfo.node_id n) c2).
Proof.
  split_and!.
  - intros n. split; [intros [m Hm]; by apply heartbeats_sent in Hm as [? _]|]. intros Hn. eexists. by apply heartbeats_sent.
  - intros n m Hm. rewrite deliver_sent by by eapply sent_heartbeat. apply heartbeats_sent in Hm as [_ ->].
    by apply heartbeat_arrives.
  - intros x n m Hm. rewrite deliver_sent by by eapply sent_gossip.
    unfold _send_gossip in Hm. destruct (blocked _); [by apply not_elem_of_nil in Hm|].
    rewrite get_bind in Hm. apply list_elem_of_singleton in Hm as [= _ ->]. apply gossip_arrives.
  - intros t index lterm. rewrite deliver_sent by constructor.
    destruct (vote_arrives t index lterm) as (c2' & es & a & Hrun & Hv). exists c2', es, a, a.
    split; [done|]. split; [by eapply answer_decodes|exact Hv].
  - intros e He. exists replicate_ok, replicate_ok. rewrite !deliver_sent by by constructor.
    pose proof (CoordF.handle_prepare now rto (node_id c1) (Election.current_term (election c1)) e c2) as Hp.
    split; [by eapply answer_decodes|]. split; [done|]. split; [exact Hp|].
    apply (CoordF.handle_commit now rto (node_id c1) (Election.current_term (election c1))).
  - rewrite deliver_sent by constructor. apply join_arrives.
Qed.

End received.

(** "n1" and "n2": n1 knows n3, n2 learns of it from a heartbeat of n1. *)
Definition demo_third : NodeInfo := NodeInfo.new 3 "n3" "h" 7003 8003.
Definition demo_sender : ClusterCoordinator :=
  state_of (in_membership (Membership.add_node demo_third) (CoordF.demo_coord "n1")).

Lemma cluster_messages_arrive_witness :
  ∃ n m c2' es, Cast n m ∈ events_of (_send_heartbeats (λ _, false) demo_sender) ∧
    deliver 5 5 (frame m) (CoordF.demo_coord "n2") = (c2', es, Ok None) ∧
    followed 5 5 demo_sender (CoordF.demo_coord "n2") c2' ∧
    record_of "n3" c2' = Some (MembershipF.stamp 5 demo_third).
Proof.
  assert (Hwf : ∀ id, sound (CoordF.demo_coord id)) by (intros id; split; [apply MembershipF.init_members_wf|done]).
  assert (Hs : sound demo_sender).
  { split; [|done]. exact (proj1 (MembershipF.keeps_add demo_third _ (proj1 (Hwf "n1"%string)))). }
  destruct (cluster_messages_arrive 5 5 (λ _, false) demo_sender (CoordF.demo_coord "n2") Hs (Hwf "n2"%string) ltac:(done))
    as (Hto & Hbeat & _).
  assert (Hp : peers demo_sender = [demo_third]) by (vm_compute; reflexivity).
  destruct (proj2 (Hto demo_third)) as [m Hm]; [split; [rewrite Hp; by left|done]|].
  destruct (Hbeat _ _ Hm) as (c2' & es & Hrun & Hf & _ & _ & Hk).
  exists demo_third, m, c2', es. split; [exact Hm|]. split; [exact Hrun|]. split; [exact Hf|].
  by rewrite Hk.
Defined.

End ClusterWire.
