(* ===== verification/Node.v ===== *)
(** [minidb/node.py], first part: the node's state and the coordinated write
    path.

    A request runs in an environment: the clock, the random choices, and what
    other nodes answer.  [call] is a client command sent to a node,
    [exchange] a message to its cluster port.  Calls made are events. *)

From S2P Require Import Prelude.
From S2P Require Import PyMonad.
From S2P Require Import Text.
From S2P Require Import PyDict.
From S2P Require Import Json.
From S2P Require Import Config.
From S2P Require Import Fields.
From S2P Require Import Parse.
From S2P Require Import Protocol.
From S2P Require Import Store.
From S2P Require Import Aof.
From S2P Require Import Snapshot.
From S2P Require Import Ring.
From S2P Require Import Election.
From S2P Require Import Membership.
From S2P Require Import Storage.
From S2P Require Import Replication.
From S2P Require Import Coordinator.
From S2P Require Import ReadCoordinator.
From S2P Require Import Routing.
From S2P Require Import Migration.
From S2P Require Import RateLimiter.
From S2P Require Import FaultInjection.
From S2P Require Import Merkle.
From stdpp Require Import sorting.
From Stdlib Require Import QArith.
#[local] Open Scope Z_scope.

(** [needle in s] *)
Fixpoint py_contains (needle s : string) : bool :=
  startswith s needle ||
  match s with EmptyString => false | String _ s => py_contains needle s end.

Module Node.
Import Message Protocol.

(** The answer to a client command: the connection failed, no response came,
    or a response did. *)
Inductive reply := NoConnection | NoResponse | Answer (m : Message).

Record DatabaseNode := mkDbNode {
  config : Config.NodeConfig;
  storage : Storage.storage;
  ring : Ring.ConsistentHashRing;
  router : Router.ShardRouter;
  migration : Migration.ShardMigrationManager;
  fault_injector : Faults.FaultInjector;
  cluster : Coordinator.ClusterCoordinator;
  read_stats : Read.stats;
  backpressure : RateLimit.BackpressureManager;
  _known_ring_nodes : gset string;
  _write_sequence : Z;
}.

Definition node_id (n : DatabaseNode) : string := Config.node_id (config n).

Definition set_storage (x : Storage.storage) (n : DatabaseNode) :=
  mkDbNode (config n) x (ring n) (router n) (migration n) (fault_injector n) (cluster n)
    (read_stats n) (backpressure n) (_known_ring_nodes n) (_write_sequence n).
Definition set_ring (x : Ring.ConsistentHashRing) (n : DatabaseNode) :=
  mkDbNode (config n) (storage n) x (router n) (migration n) (fault_injector n) (cluster n)
    (read_stats n) (backpressure n) (_known_ring_nodes n) (_write_sequence n).
Definition set_router (x : Router.ShardRouter) (n : DatabaseNode) :=
  mkDbNode (config n) (storage n) (ring n) x (migration n) (fault_injector n) (cluster n)
    (read_stats n) (backpressure n) (_known_ring_nodes n) (_write_sequence n).
Definition set_migration (x : Migration.ShardMigrationManager) (n : DatabaseNode) :=
  mkDbNode (config n) (storage n) (ring n) (router n) x (fault_injector n) (cluster n)
    (read_stats n) (backpressure n) (_known_ring_nodes n) (_write_sequence n).
Definition set_faults (x : Faults.FaultInjector) (n : DatabaseNode) :=
  mkDbNode (config n) (storage n) (ring n) (router n) (migration n) x (cluster n)
    (read_stats n) (backpressure n) (_known_ring_nodes n) (_write_sequence n).
Definition set_cluster (x : Coordinator.ClusterCoordinator) (n : DatabaseNode) :=
  mkDbNode (config n) (storage n) (ring n) (router n) (migration n) (fault_injector n) x
    (read_stats n) (backpressure n) (_known_ring_nodes n) (_write_sequence n).
Definition set_read_stats (x : Read.stats) (n : DatabaseNode) :=
  mkDbNode (config n) (storage n) (ring n) (router n) (migration n) (fault_injector n) (cluster n)
    x (backpressure n) (_known_ring_nodes n) (_write_sequence n).
Definition set_backpressure (x : RateLimit.BackpressureManager) (n : DatabaseNode) :=
  mkDbNode (config n) (storage n) (ring n) (router n) (migration n) (fault_injector n) (cluster n)
    (read_stats n) x (_known_ring_nodes n) (_write_sequence n).
Definition set_known (x : gset string) (n : DatabaseNode) :=
  mkDbNode (config n) (storage n) (ring n) (router n) (migration n) (fault_injector n) (cluster n)
    (read_stats n) (backpressure n) x (_write_sequence n).
Definition set_sequence (x : Z) (n : DatabaseNode) :=
  mkDbNode (config n) (storage n) (ring n) (router n) (migration n) (fault_injector n) (cluster n)
    (read_stats n) (backpressure n) (_known_ring_nodes n) x.

(** What a request does to the outside. *)
Inductive node_event :=
  | Called (host : string) (port : Z) (cmd : string) (args : list string)
  | Cast (target : NodeInfo) (m : Message)
  | Replicated (follower : string) (e : LogEntry) (acked : bool)
  | Notice (e : member_event)
  | Migrated (e : Migration.event data_item).

Abbreviation proc := (prog DatabaseNode node_event).

Section node.
Context `{RingHash}.
(** The clock, the next election timeout, and [str(e)]. *)
Context (now rto : time) (exn_str : exn → string).
(** Random draws: the fault injector's (by fault), its jitter, the backpressure's. *)
Context (draw : string → Q) (jitter : string → time) (bp_draw : Q).
(** Other nodes: the cluster port and the client port. *)
Context (exchange : string → Z → Message → option Message).
Context (call : string → Z → string → list string → reply).
(** The remote replicas whose answers come in time, in their order. *)
Context (arrival : list string → list string).

(** [__init__], with its persistence already opened. *)
Definition init (cfg : Config.NodeConfig) (st : Storage.storage) : DatabaseNode :=
  let id := Config.node_id cfg in
  let rf := Config.replication_factor cfg in
  mkDbNode cfg st
    (Ring.add_node (Ring.init (Config.virtual_nodes cfg)) id)
    (Router.set_node_health
       (Router.update_node_address (Router.init id rf) id
          (Config.host cfg +:+ ":" +:+ dump_int (Config.client_port cfg))) id true)
    (Migration.init id rf)
    (Faults.init id false)
    (Coordinator.init now rto cfg)
    Read.stats0
    (RateLimit.bp_init (RateLimit.Token (RateLimit.token_init 1000 100)))
    {[id]} 0.

(** ** Running the components *)

Definition in_storage {A} (p : prog Storage.storage Empty_set A) : proc A :=
  zoom storage set_storage (λ e, match e : Empty_set with end) p.

(** The coordinator's apply callback is [_apply_log_entry]. *)
Definition on_coord_event (ev : Coordinator.coord_event) : proc () :=
  match ev with
  | Coordinator.Apply e => in_storage (Storage._apply_log_entry now e)
  | Coordinator.Cast n m => emit (Cast n m)
  | Coordinator.Replicated f e a => emit (Replicated f e a)
  | Coordinator.Notice e => emit (Notice e)
  end.

(** Runs an operation of the coordinator, then its callbacks in order; the
    operation's result counts unless a callback raises. *)
Definition in_cluster {A} (p : prog Coordinator.ClusterCoordinator Coordinator.coord_event A) : proc A := λ n,
  match p (cluster n) with
  | (c, evs, r) =>
      match for_each on_coord_event evs (set_cluster c n) with
      | (n, es, Ok _) => (n, es, r)
      | (n, es, Raise x) => (n, es, Raise x)
      end
  end.

(** The fault injector's verdict for a target.  Its drop counter is updated
    where the node itself asks ([_handle_cluster_message]) only. *)
Definition blocked (n : DatabaseNode) (target : string) : bool :=
  match result_of (Faults.should_fail_network draw now target (fault_injector n)) with
  | Ok b => b
  | Raise _ => false
  end.

(** [TCPClient(...); connect(); send_command(...)] *)
Definition command (host : string) (port : Z) (cmd : string) (args : list string) : proc reply :=
  emit (Called host port cmd args);;
  mret (call host port cmd args).

Definition get_node (n : DatabaseNode) (id : string) : option NodeInfo :=
  Membership.get_node (Coordinator.membership (cluster n)) id.

(** [response.payload.get(name)], raising when the payload is no object. *)
Definition payload_get (m : Message) (name : string) : res json := get_default (payload m) name JNull.

Definition is_success (m : Message) : bool :=
  match payload_get m "success" with Ok j => truthy j | Raise _ => false end.

(** ** Writes *)

Definition _next_write_index : proc Z :=
  modify (λ n, set_sequence (_write_sequence n + 1) n);;
  n ← get_state;
  mret (_write_sequence n).

(** The members a write goes to: the alive ones, the local node included. *)
Definition write_replicas (n : DatabaseNode) : list string :=
  let alive := NodeInfo.node_id <$> Membership.get_alive_nodes (Coordinator.membership (cluster n)) in
  let alive := if decide (node_id n ∈ alive) then alive else node_id n :: alive in
  py_take (Z.max (Config.replication_factor (config n)) (Z.of_nat (length alive))) alive.

(** The replicas a level needs to have applied the write. *)
Definition required_total (cfg : Config.NodeConfig) : Z :=
  match Config.default_consistency cfg with
  | ALL | STRONG => Config.replication_factor cfg
  | QUORUM => Config.replication_factor cfg / 2 + 1
  | _ => 1
  end.

Definition show_list (xs : list string) : string := py_repr (JArr (JStr <$> xs)).

(** The entry of a write, from the value it replaces. *)
Definition write_entry (n : DatabaseNode) (index : Z) (operation key : string) (value : json)
    (ttl : option Z) (current : option KVStore.KeyMetadata) : LogEntry :=
  let at_ := now + Faults.get_clock_skew now (fault_injector n) in
  LogEntry.mkLog (Election.current_term (Coordinator.election (cluster n))) index operation key value ttl
    at_ (match current with Some m => KVStore.version m + 1 | None => 1 end)
    ((λ t, at_ + seconds t) <$> ttl)
    (Some (match current with Some m => KVStore.created_at m | None => at_ end))
    (node_id n).

Definition _apply_partition_write (operation key : string) (value : json) (ttl : option Z) : proc Message :=
  n ← get_state;
  let cfg := config n in
  let rf := Config.replication_factor cfg in
  if negb (Coordinator.is_leader (cluster n)) then
    mret (error_response ("This node is not the write leader for " +:+ key))
  else if Z.of_nat (Ring.get_node_count (ring n)) <? rf then
    mret (error_response ("Cluster not ready for " +:+ operation +:+ ": ring has " +:+
      dump_int (Z.of_nat (Ring.get_node_count (ring n))) +:+ " nodes, need " +:+ dump_int rf))
  else
    let replicas := write_replicas n in
    current ← in_storage (Storage.store_get_meta now key);
    index ← _next_write_index;
    n ← get_state;
    let e := write_entry n index operation key value ttl current in
    let remote := base.filter (λ r, r ≠ node_id n) replicas in
    let alive_ids := NodeInfo.node_id <$> Coordinator.peers (cluster n) in
    let targets := base.filter (λ r, r ∈ alive_ids) remote in
    if bool_decide (remote ≠ []) && (length targets <? length remote)%nat then
      mret (error_response ("Replication targets unavailable for " +:+ operation +:+ ": missing " +:+
        show_list (merge_sort String.le (remove_dups (base.filter (λ r, r ∉ targets) remote))) +:+
        " (replica set " +:+ show_list replicas +:+ ")"))
    else
      ok ← in_cluster (Coordinator.replicate (blocked n) exchange e
                         (Some (Config.default_consistency cfg)) (Some targets));
      if ok : bool then
        n ← get_state;
        let committed := Coordinator.commit_to_followers (blocked n) exchange (cluster n) e targets in
        if committed + 1 <? required_total cfg then
          mret (error_response ("Commit acknowledgements unavailable for " +:+ operation))
        else
          in_storage (Storage._apply_log_entry now e);;
          mret (ok_response (JStr "OK"))
      else
        mret (error_response ("Replication failed for " +:+ operation +:+ " on replica set " +:+
          show_list replicas)).

Definition _revert_partition_write (key operation : string) (previous : option KVStore.KeyMetadata) : proc () :=
  match previous with
  | None => if decide (operation = "SET"%string)
            then _ ← in_storage (Storage.store_delete key); mret () else mret ()
  | Some p =>
      in_storage (Storage.store_set now key (KVStore.value p)
        (KVStore.mkOpts None (Some (KVStore.version p)) (KVStore.expires_at p) (Some (KVStore.created_at p))
           (Some (KVStore.updated_at p)) (Some (KVStore.coordinator_id p))))
  end.

(** The arguments of a forwarded write. *)
Definition forward_args (operation key : string) (value : json) (ttl : option Z) : list string :=
  if decide (operation = "SET"%string)
  then [operation; key; dumps value; match ttl with None => EmptyString | Some t => dump_int t end]
  else [operation; key].

(** [needle in (error or "")] for the text of an error field. *)
Definition mentions (needle : string) (error : json) : res bool :=
  if truthy error then
    match error with
    | JStr s => Ok (py_contains needle s)
    | JArr xs => Ok (bool_decide (JStr needle ∈ xs))
    | JObj d => Ok (dict_mem needle d)
    | _ => Raise TypeError
    end
  else Ok false.

(** [_forward_write].  A "Leader mismatch" answer retries at a new leader; the
    leader this node knows does not change meanwhile, so the second round is
    the last. *)
Fixpoint forward_rounds (rounds : nat) (target operation key : string) (value : json) (ttl : option Z)
    : proc Message :=
  match rounds with
  | O => mret (error_response ("Failed to forward write for key: " +:+ key))
  | S rounds =>
      n ← get_state;
      match get_node n target with
      | Some node =>
          if decide (NodeInfo.state node = ALIVE) then
            r ← command (NodeInfo.host node) (NodeInfo.client_port node) "__LEADER_WRITE"
                  (forward_args operation key value ttl);
            match r with
            | NoConnection => mret (error_response ("Failed to reach write coordinator " +:+ target))
            | NoResponse => mret (error_response ("Failed to forward write for key: " +:+ key))
            | Answer m =>
                match payload m with
                | JObj d =>
                    if otruthy (dict_get d "success") then mret m
                    else
                      match mentions "Leader mismatch" (dict_get_or d "error" JNull) with
                      | Ok true =>
                          match Coordinator.get_leader_id (cluster n) with
                          | Some leader =>
                              if truthy_str leader && negb (bool_decide (leader = target))
                              then forward_rounds rounds leader operation key value ttl
                              else mret m
                          | None => mret m
                          end
                      | Ok false => mret m
                      | Raise _ => mret (error_response ("Failed to forward write for key: " +:+ key))
                      end
                | _ => mret (error_response ("Failed to forward write for key: " +:+ key))
                end
            end
          else mret (error_response ("Write coordinator unavailable for key: " +:+ key))
      | None => mret (error_response ("Write coordinator unavailable for key: " +:+ key))
      end
  end.

Definition _forward_write := forward_rounds 2.

Definition _coordinate_or_forward_write (operation key : string) (value : json) (ttl : option Z) : proc Message :=
  n ← get_state;
  if Coordinator.is_leader (cluster n) then _apply_partition_write operation key value ttl
  else
    match Coordinator.get_leader_id (cluster n) with
    | Some leader =>
        if truthy_str leader then _forward_write leader operation key value ttl
        else mret (error_response "No cluster leader for write")
    | None => mret (error_response "No cluster leader for write")
    end.

Definition _handle_set (args : list string) : proc Message :=
  match args with
  | key :: value :: rest =>
      match (match rest with [] => Ok None | t :: _ => res_map Some (py_int t) end) with
      | Raise _ => mret (error_response "TTL must be an integer")
      | Ok ttl => _coordinate_or_forward_write "SET" key (JStr value) ttl
      end
  | _ => mret (error_response "SET requires key and value")
  end.

Definition _handle_setex (args : list string) : proc Message :=
  match args with
  | key :: t :: value :: _ =>
      match py_int t with
      | Raise _ => mret (error_response "TTL must be an integer")
      | Ok ttl => _coordinate_or_forward_write "SET" key (JStr value) (Some ttl)
      end
  | _ => mret (error_response "SETEX requires key, ttl, and value")
  end.

Definition _handle_delete (args : list string) : proc Message :=
  match args with
  | key :: _ => _coordinate_or_forward_write "DELETE" key JNull None
  | [] => mret (error_response "DELETE requires key")
  end.

(** The arguments of [__LEADER_WRITE] and [__OWNER_WRITE]: operation, key,
    value, ttl, or the error response. *)
Definition parse_internal_write (name kind : string) (args : list string)
    : Message + (string * string * json * option Z) :=
  match args with
  | op :: key :: rest =>
      let op := upper op in
      if decide (op = "SET"%string) then
        match rest with
        | [] => inl (error_response "SET requires value")
        | v :: rest =>
            let value := match loads v with Ok j => j | Raise _ => JStr v end in
            match rest with
            | t :: _ =>
                if decide (t = ""%string ∨ t = "None"%string ∨ t = "null"%string)
                then inr (op, key, value, None)
                else match py_int t with
                     | Ok ttl => inr (op, key, value, Some ttl)
                     | Raise _ => inl (error_response "TTL must be an integer")
                     end
            | [] => inr (op, key, value, None)
            end
        end
      else if decide (op = "DELETE"%string) then inr (op, key, JNull, None)
      else inl (error_response ("Unsupported " +:+ kind +:+ " write: " +:+ op))
  | _ => inl (error_response (name +:+ " requires command and key"))
  end.

Definition _handle_leader_write (args : list string) : proc Message :=
  match parse_internal_write "__LEADER_WRITE" "leader" args with
  | inl e => mret e
  | inr (op, key, value, ttl) =>
      n ← get_state;
      if Coordinator.is_leader (cluster n) then _apply_partition_write op key value ttl
      else mret (error_response ("Leader mismatch for key " +:+ key +:+ ": this node is not the write leader"))
  end.

Definition _handle_owner_write (args : list string) : proc Message :=
  match parse_internal_write "__OWNER_WRITE" "owner" args with
  | inl e => mret e
  | inr (op, key, value, ttl) =>
      n ← get_state;
      let owner := Ring.get_node (ring n) key in
      if decide (owner = Some (node_id n)) then _apply_partition_write op key value ttl
      else mret (error_response ("Owner mismatch for key " +:+ key +:+ ": expected " +:+
             default "None"%string owner +:+ ", got " +:+ node_id n))
  end.

End node.
End Node.
