(* ===== verification/NodeReads.v ===== *)
(** [minidb/node.py], second part: reads through the read coordinator, read
    repair, the internal replica commands, key listings and migration. *)

From S2P Require Import Prelude.
From S2P Require Import PyMonad.
From S2P Require Import Text.
From S2P Require Import PyDict.
From S2P Require Import Json.
From S2P Require Import Config.
From S2P Require Import Fields.
From S2P Require Import Parse.
From S2P Require Import Protocol.
From S2P Require Import Store.
From S2P Require Import Ring.
From S2P Require Import Membership.
From S2P Require Import Storage.
From S2P Require Import Coordinator.
From S2P Require Import ReadCoordinator.
From S2P Require Import Routing.
From S2P Require Import Migration.
From S2P Require Import Node.
From stdpp Require Import sorting.
From Stdlib Require Import QArith.
#[local] Open Scope Z_scope.

Module NodeReads.
Import Message Protocol Node.

Section node.
Context `{RingHash}.
Context (now rto : time) (exn_str : exn → string).
Context (exchange : string → Z → Message → option Message).
Context (call : string → Z → string → list string → reply).
Context (arrival : list string → list string).

Abbreviation command := (command call).

(** ** Values for the read coordinator *)

(** The answer for an absent key, which is also the answer for a replica that
    cannot be asked. *)
Definition no_value : Read.answer := (JNull, 0, false, Read.mkReadMeta 0 0 None EmptyString).

Definition to_answer (m : option KVStore.KeyMetadata) : Read.answer :=
  match m with
  | None => no_value
  | Some m => (KVStore.value m, KVStore.version m, true,
               Read.mkReadMeta (KVStore.updated_at m) (KVStore.created_at m) (KVStore.expires_at m)
                 (KVStore.coordinator_id m))
  end.

Definition _get_local_value_for_read (key : string) : proc Read.answer :=
  m ← in_storage (Storage.store_get_meta now key);
  mret (to_answer m).

(** The metadata of a [__LOCAL_READ] answer. *)
Definition decode_answer (data : json) : res Read.answer :=
  (v ←! get_default data "value" JNull;
   ver ←! res_bind (get_default data "version" (JInt 0)) as_int;
   found ←! get_default data "found" JNull;
   u ←! res_bind (get_default data "updated_at" (JFloat 0)) as_time;
   co ←! res_bind (get_default data "coordinator_id" (JStr EmptyString)) as_str;
   ex ←! res_bind (get_default data "expires_at" JNull) (as_opt as_time);
   c ←! res_bind (get_default data "created_at" (JFloat 0)) as_time;
   Ok (v, ver, truthy found, Read.mkReadMeta u c ex co))%py.

(** [_get_remote_value_for_read]: a read changes nothing at the caller, so the
    answer is a function of the node.  Every failure is [no_value]. *)
Definition _get_remote_value_for_read (n : DatabaseNode) (key target : string) : Read.answer :=
  match get_node n target with
  | None => no_value
  | Some node =>
      match call (NodeInfo.host node) (NodeInfo.client_port node) "__LOCAL_READ" [key] with
      | Answer m =>
          if is_success m then
            match res_bind (get_default (payload m) "data" (JObj [])) decode_answer with
            | Ok a => a
            | Raise _ => no_value
            end
          else no_value
      | _ => no_value
      end
  end.

(** ** Replica values *)

(** The arguments of [__REPLICA_SET]. *)
Definition replica_args (key : string) (value : json) (version : Z) (m : Read.read_meta) : list string :=
  [key; dumps value; dump_int version;
   match Read.m_expires_at m with None => EmptyString | Some t => dump_float t end;
   dump_float (Read.m_updated_at m); dump_float (Read.m_created_at m); Read.m_coordinator_id m].

Definition send_replica (key : string) (value : json) (version : Z) (m : Read.read_meta)
    (target : string) : proc Z :=
  n ← get_state;
  if decide (target = node_id n) then mret 0
  else
    match get_node n target with
    | Some node =>
        if decide (NodeInfo.state node = ALIVE) then
          r ← command (NodeInfo.host node) (NodeInfo.client_port node) "__REPLICA_SET"
                (replica_args key value version m);
          mret (match r with Answer a => if is_success a then 1 else 0 | _ => 0 end)
        else mret 0
    | None => mret 0
    end.

Fixpoint _replicate_value_to_nodes (key : string) (value : json) (version : Z) (m : Read.read_meta)
    (targets : list string) : proc Z :=
  match targets with
  | [] => mret 0
  | t :: targets =>
      x ← send_replica key value version m t;
      y ← _replicate_value_to_nodes key value version m targets;
      mret (x + y)
  end.

Definition to_repair_meta (m : option Read.read_meta) : Storage.repair_meta :=
  match m with
  | Some m => Storage.mkRepair (Some (Read.m_updated_at m)) (Some (Read.m_created_at m))
                (Read.m_expires_at m) (Some (Read.m_coordinator_id m))
  | None => Storage.mkRepair None None None None
  end.

(** [_repair_value]; [None] is a missing or empty metadata dict. *)
Definition _repair_value (key : string) (value : json) (version : Z) (target : option string)
    (metadata : option Read.read_meta) : proc () :=
  n ← get_state;
  let t := default EmptyString target in
  if negb (truthy_str t) || bool_decide (t = node_id n) then
    _ ← in_storage (Storage._apply_repair_data now (node_id n) key value version (to_repair_meta metadata));
    mret ()
  else
    m ← (match metadata with
         | Some m => mret m
         | None =>
             current ← in_storage (Storage.store_get_meta now key);
             mret (match current with
                   | Some c => Read.mkReadMeta (KVStore.updated_at c) (KVStore.created_at c)
                                 (KVStore.expires_at c) (str_or (KVStore.coordinator_id c) (node_id n))
                   | None => Read.mkReadMeta now now None (node_id n)
                   end)
         end);
    _ ← _replicate_value_to_nodes key value version m [t];
    mret ().

(** ** Reads *)

Definition replicas (n : DatabaseNode) (key : string) : list string :=
  Ring.get_nodes (ring n) key (Config.replication_factor (config n)).

(** Does a read at this level look into the local store? *)
Definition reads_local (n : DatabaseNode) (key : string) (c : ConsistencyLevel) : bool :=
  match c with
  | STRONG => match Coordinator.get_leader_id (cluster n) with
              | Some l => truthy_str l && bool_decide (l = node_id n)
              | None => false
              end
  | _ => bool_decide (node_id n ∈ replicas n key)
  end.

Definition local_answer (n : DatabaseNode) (key : string) : Read.answer :=
  to_answer (KVStore.get_with_metadata now (Storage.store (storage n)) key).2.

(** [self.read_coordinator.read(key, c)] with the node's callbacks.  The
    repairs run one by one, and a repair that raises is passed over. *)
Definition read (key : string) (c : ConsistencyLevel) : proc Read.outcome :=
  n ← get_state;
  (if reads_local n key c then _ ← _get_local_value_for_read key; mret () else mret ());;
  match Read.read (node_id n) (Config.replication_factor (config n)) (local_answer n)
          (λ k t, Some (_get_remote_value_for_read n k t)) (replicas n)
          (λ _, Coordinator.get_leader_id (cluster n)) arrival key c (read_stats n) with
  | (s, repairs, r) =>
      modify (set_read_stats s);;
      for_each (λ rp, catch (_repair_value (Read.rp_key rp) (Read.rp_value rp) (Read.rp_version rp)
                               (Some (Read.rp_target rp)) (Some (Read.rp_meta rp))) (λ _, mret ())) repairs;;
      lift r
  end.

(** The level a GET asks for. *)
Definition get_level (n : DatabaseNode) (args : list string) : ConsistencyLevel :=
  match args with
  | l :: _ => match enum_of (upper l) with
              | Ok c => c
              | Raise _ => Config.default_consistency (config n)
              end
  | [] => Config.default_consistency (config n)
  end.

Definition _handle_get (args : list string) : proc Message :=
  match args with
  | [] => mret (error_response "GET requires key")
  | key :: rest =>
      n ← get_state;
      o ← read key (get_level n rest);
      mret (if Read.o_found o then ok_response (Read.o_value o)
            else if Read.o_quorum_failed o then error_response ("Quorum read failed for key " +:+ key)
            else ok_response JNull)
  end.

Definition _handle_exists (args : list string) : proc Message :=
  match args with
  | [] => mret (error_response "EXISTS requires key")
  | key :: _ =>
      o ← read key ANY;
      mret (ok_response (JInt (if Read.o_found o then 1 else 0)))
  end.

(** ** Internal commands *)

Definition local_read_data (m : option KVStore.KeyMetadata) : json :=
  match m with
  | None => JObj [("found", JBool false); ("value", JNull); ("version", JInt 0); ("expires_at", JNull);
                  ("updated_at", JFloat 0); ("created_at", JFloat 0);
                  ("coordinator_id", JStr EmptyString)]%string
  | Some m => JObj [("found", JBool true); ("value", KVStore.value m); ("version", JInt (KVStore.version m));
                  ("expires_at", jopt JFloat (KVStore.expires_at m));
                  ("updated_at", JFloat (KVStore.updated_at m));
                  ("created_at", JFloat (KVStore.created_at m));
                  ("coordinator_id", JStr (KVStore.coordinator_id m))]%string
  end.

Definition _handle_local_read (args : list string) : proc Message :=
  match args with
  | [] => mret (error_response "__LOCAL_READ requires key")
  | key :: _ =>
      m ← in_storage (Storage.store_get_meta now key);
      mret (ok_response (local_read_data m))
  end.

(** [self.store.keys(pattern)] *)
Definition local_keys (pattern : string) : proc (list string) :=
  n ← get_state;
  let r := KVStore.keys now (Storage.store (storage n)) pattern in
  modify (set_storage (Storage.with_store (storage n) r.1));;
  mret r.2.

Definition jstrs (xs : list string) : json := JArr (JStr <$> xs).

Definition _handle_local_keys (args : list string) : proc Message :=
  ks ← local_keys (match args with p :: _ => p | [] => "*"%string end);
  mret (ok_response (jstrs ks)).

(** An optional time argument: what is no number counts as none. *)
Definition expiry_arg (s : string) : option time :=
  if decide (s = ""%string ∨ s = "None"%string ∨ s = "null"%string) then None
  else match py_float s with Ok t => Some t | Raise _ => None end.

Definition loads_or_text (s : string) : json :=
  match loads s with Ok j => j | Raise _ => JStr s end.

Definition _handle_replica_set (args : list string) : proc Message :=
  match args with
  | key :: value :: version :: ex :: u :: c :: rest =>
      match py_int version with
      | Raise _ => mret (error_response "Version must be an integer")
      | Ok version =>
          match py_float u, py_float c with
          | Ok u, Ok c =>
              written ← in_storage (Storage.put_newer now key (loads_or_text value) version (expiry_arg ex)
                                      c u (match rest with co :: _ => co | [] => EmptyString end));
              mret (ok_response (JStr (if written : bool then "OK" else "IGNORED")))
          | _, _ => mret (error_response "Timestamps must be numeric")
          end
      end
  | _ => mret (error_response
      "__REPLICA_SET requires key, value, version, updated_at, created_at, and coordinator_id")
  end.

(** [float(item.get(name) or dflt)] *)
Definition time_field (item : json) (name : string) (dflt : time) : res time :=
  res_bind (get_default item name JNull) (λ j, if truthy j then as_time j else Ok dflt).

(** One item of an import payload. *)
Record import_item := mkImport {
  i_key : string;
  i_value : json;
  i_version : Z;
  i_meta : Read.read_meta;
}.

Definition decode_import (item : json) : res (Z * Read.read_meta) :=
  (ver ←! res_bind (subscript item "version") as_int;
   u ←! time_field item "updated_at" now;
   c ←! time_field item "created_at" u;
   ex ←! res_bind (get_default item "expires_at" JNull) (as_opt as_time);
   co ←! res_bind (get_default item "coordinator_id" (JStr EmptyString)) as_str;
   Ok (ver, Read.mkReadMeta u c ex co))%py.

Definition older_than_stored (ver : Z) (m : Read.read_meta) (current : option KVStore.KeyMetadata) : bool :=
  match current with
  | Some c => Storage.order_ltb (ver, Read.m_updated_at m, Read.m_coordinator_id m)
                (Storage._metadata_sort_key c)
  | None => false
  end.

(** The loop over the items: (imported, skipped, items this node must fan out). *)
Fixpoint import_loop (items : dict string json) (imported skipped : Z) (fanout : list import_item)
    : proc (Z * Z * list import_item) :=
  match items with
  | [] => mret (imported, skipped, fanout)
  | (key, item) :: items =>
      d ← lift (decode_import item);
      let '(ver, m) := d in
      current ← in_storage (Storage.store_get_meta now key);
      if older_than_stored ver m current then import_loop items imported (skipped + 1) fanout
      else
        v ← lift (subscript item "value");
        _ ← in_storage (Storage.put_newer now key v ver (Read.m_expires_at m) (Read.m_created_at m)
                          (Read.m_updated_at m) (Read.m_coordinator_id m));
        n ← get_state;
        import_loop items (imported + 1) skipped
          (if decide (Ring.get_node (ring n) key = Some (node_id n))
           then fanout ++ [mkImport key v ver m] else fanout)
  end.

Fixpoint fan_out (items : list import_item) : proc Z :=
  match items with
  | [] => mret 0
  | i :: items =>
      n ← get_state;
      x ← _replicate_value_to_nodes (i_key i) (i_value i) (i_version i) (i_meta i)
            (base.filter (λ r, r ≠ node_id n) (replicas n (i_key i)));
      y ← fan_out items;
      mret (x + y)
  end.

Definition _handle_import_keys (args : list string) : proc Message :=
  match args with
  | [] => mret (error_response "__IMPORT_KEYS requires a payload")
  | text :: _ =>
      match loads text with
      | Raise _ => mret (error_response "Invalid import payload")
      | Ok (JObj items) =>
          r ← import_loop items 0 0 [];
          let '(imported, skipped, fanout) := r in
          replicated ← fan_out fanout;
          mret (ok_response (JObj [("imported", JInt imported); ("skipped", JInt skipped);
                                   ("replicated", JInt replicated)]%string))
      | Ok _ => raise AttributeError
      end
  end.

(** ** Keys of the cluster *)

Definition remote_keys (node : NodeInfo) (pattern : string) : proc (list string) :=
  r ← command (NodeInfo.host node) (NodeInfo.client_port node) "__LOCAL_KEYS" [pattern];
  mret (match r with
        | Answer m =>
            if is_success m then
              match res_bind (res_bind (get_default (payload m) "data" (JArr [])) as_list) (res_mapM as_str) with
              | Ok ks => ks
              | Raise _ => []
              end
            else []
        | _ => []
        end).

Fixpoint collect_keys (pattern : string) (nodes : list NodeInfo) (keys : gset string)
    : proc (gset string) :=
  match nodes with
  | [] => mret keys
  | x :: nodes =>
      ks ← remote_keys x pattern;
      collect_keys pattern nodes (keys ∪ list_to_set ks)
  end.

(** [sorted] of a set of strings. *)
Definition sorted_set (s : gset string) : list string := merge_sort String.le (elements s).

Definition _collect_cluster_keys (pattern : string) : proc (list string) :=
  ks ← local_keys pattern;
  n ← get_state;
  all ← collect_keys pattern (Coordinator.peers (cluster n)) (list_to_set ks);
  mret (sorted_set all).

Definition _handle_keys (args : list string) : proc Message :=
  ks ← _collect_cluster_keys (match args with p :: _ => p | [] => "*"%string end);
  mret (ok_response (jstrs ks)).

(** ** Migration and topology *)

(** [self.store.get_all_data()] *)
Definition get_all_data : proc (dict string data_item) :=
  n ← get_state;
  let r := KVStore.get_all_data now (Storage.store (storage n)) in
  modify (set_storage (Storage.with_store (storage n) r.1));;
  mret r.2.

Definition migration_item (id : string) (i : data_item) : json :=
  let m := match i with
           | Item6 v e ver c u co => (v, e, ver, c, u, co)
           | Item3 v e ver => (v, e, ver, now, now, id)
           end in
  let '(v, e, ver, c, u, co) := m in
  JObj [("value", v); ("expires_at", jopt JFloat e); ("version", JInt ver); ("created_at", JFloat c);
        ("updated_at", JFloat u); ("coordinator_id", JStr co)]%string.

Definition migration_payload (id : string) (data : dict string data_item) : json :=
  JObj (dict_map_values (migration_item id) data).

(** The call of [_send_migration_keys], and its answer. *)
Definition send_migration_result (n : DatabaseNode) (target : string) (data : dict string data_item) : bool :=
  match get_node n target with
  | None => false
  | Some node =>
      match call (NodeInfo.host node) (NodeInfo.client_port node) "__IMPORT_KEYS"
              [dumps (migration_payload (node_id n) data)] with
      | Answer m => is_success m
      | _ => false
      end
  end.

Definition _send_migration_keys (target : string) (data : dict string data_item) : proc bool :=
  n ← get_state;
  (match get_node n target with
   | Some node => _ ← command (NodeInfo.host node) (NodeInfo.client_port node) "__IMPORT_KEYS"
                        [dumps (migration_payload (node_id n) data)]; mret ()
   | None => mret ()
   end);;
  mret (send_migration_result n target data).

(** The node's side of a migration step: sends are calls, deletions go to the
    store.  The answers the manager saw are those the calls give here. *)
Definition on_migration_event (ev : Migration.event data_item) : proc () :=
  match ev with
  | Migration.Sent target data _ => _ ← _send_migration_keys target data; mret ()
  | Migration.Deleted ks =>
      n ← get_state;
      in_storage (Storage._delete_migrated_keys now (node_id n) ks)
  end.

Definition delete_result (n : DatabaseNode) (ks : list string) : res unit :=
  result_of (Storage._delete_migrated_keys now (node_id n) ks (storage n)).

(** Runs an operation of the migration manager with the node's callbacks. *)
Definition in_migration {A}
    (p : Ring.ConsistentHashRing → dict string data_item →
         (string → dict string data_item → res bool) → (list string → res unit) →
         prog Migration.ShardMigrationManager (Migration.event data_item) A) : proc A :=
  data ← get_all_data;
  n ← get_state;
  match p (ring n) data (λ t d, Ok (send_migration_result n t d)) (delete_result n) (migration n) with
  | (m, evs, r) =>
      modify (set_migration m);;
      for_each (λ ev, catch (on_migration_event ev) (λ _, mret ())) evs;;
      lift r
  end.

(** One round of the migration loop: the pending tasks, each with the keys the
    store has when it starts. *)
Definition migration_round (fin : time) : proc () :=
  n ← get_state;
  for_each (λ a, in_migration (λ ring data send del,
    Migration._execute_migration ring data send del exn_str now fin a)) (Migration.pending (migration n)).

Definition partitions (n : DatabaseNode) : Partition.PartitionManager :=
  Partition.mkPartition (node_id n) (ring n) (Config.replication_factor (config n)).

(** The first loop of [_sync_topology]: routing metadata of one member. *)
Definition sync_member (r : Router.ShardRouter) (m : NodeInfo) : Router.ShardRouter :=
  if decide (NodeInfo.state m = DEAD) then Router.remove_node r (NodeInfo.node_id m)
  else Router.set_node_health
         (Router.update_node_address r (NodeInfo.node_id m) (NodeInfo.client_address m))
         (NodeInfo.node_id m) (bool_decide (NodeInfo.state m = ALIVE)).

Definition active_ids (n : DatabaseNode) : gset string :=
  list_to_set (NodeInfo.node_id <$>
    base.filter (λ m, NodeInfo.state m ≠ DEAD) (Membership.get_all_nodes (Coordinator.membership (cluster n)))).

Definition topology_join (id : string) : proc () :=
  modify (λ n, set_ring (Partition.ring (Partition.add_node (partitions n) id)) n);;
  _ ← in_migration (λ ring data _ _, Migration.on_node_join ring data now id);
  mret ().

(** [on_node_leave] of the migration manager does nothing. *)
Definition topology_leave (id : string) : proc () :=
  n ← get_state;
  if decide (id = node_id n) then mret ()
  else
    modify (λ n, set_ring (Partition.ring (Partition.remove_node (partitions n) id)) n);;
    modify (λ n, set_router (Router.remove_node (router n) id) n).

Definition _sync_topology : proc () :=
  modify (λ n, set_router (fold_left sync_member
    (Membership.get_all_nodes (Coordinator.membership (cluster n))) (router n)) n);;
  n ← get_state;
  let active := active_ids n in
  for_each topology_join (sorted_set (active ∖ _known_ring_nodes n));;
  for_each topology_leave (sorted_set (_known_ring_nodes n ∖ active));;
  modify (set_known active).

(** [join_cluster] *)
Definition join_cluster (seed_address : string) : proc bool :=
  in_cluster now (Coordinator.join_cluster now exchange seed_address).

End node.
End NodeReads.
