(* ===== verification/NodeAdmin.v ===== *)
(** [minidb/node.py], third part: the commands that report or administer, the
    dispatch of client commands, the cluster port and the node's lifecycle.

    A float that is not a time is [jfloat q] for its exact value [q]. *)

From S2P Require Import Prelude.
From S2P Require Import PyMonad.
From S2P Require Import Text.
From S2P Require Import PyDict.
From S2P Require Import Json.
From S2P Require Import Config.
From S2P Require Import Fields.
From S2P Require Import Parse.
From S2P Require Import Protocol.
From S2P Require Import Store.
From S2P Require Import Ring.
From S2P Require Import Election.
From S2P Require Import Membership.
From S2P Require Import Storage.
From S2P Require Import Replication.
From S2P Require Import Coordinator.
From S2P Require Import ReadCoordinator.
From S2P Require Import Routing.
From S2P Require Import Migration.
From S2P Require Import RateLimiter.
From S2P Require Import FaultInjection.
From S2P Require Import Node.
From S2P Require Import NodeReads.
From stdpp Require Import sorting.
From Stdlib Require Import QArith.
#[local] Open Scope Z_scope.

Module NodeAdmin.
Import Message Protocol Node NodeReads.

Section node.
Context `{RingHash}.
Context (now rto : time) (exn_str : exn → string) (jfloat : Q → json).
Context (draw : string → Q) (jitter : string → time) (bp_draw : Q).
Context (exchange : string → Z → Message → option Message).
Context (call : string → Z → string → list string → reply).
Context (arrival : list string → list string).

(** ** Reports *)

Definition store_stats (s : KVStore.KVStore) : dict string json :=
  let v := KVStore.get_stats now s in
  let st := KVStore.v_stats v in
  [("hits", JInt (KVStore.hits st)); ("misses", JInt (KVStore.misses st)); ("sets", JInt (KVStore.sets st));
   ("deletes", JInt (KVStore.deletes st)); ("expired", JInt (KVStore.expired st));
   ("uptime_seconds", JFloat (KVStore.v_uptime v)); ("hit_rate", jfloat (KVStore.v_hit_rate v));
   ("key_count", JInt (Z.of_nat (KVStore.v_key_count v)));
   ("memory_keys", JInt (Z.of_nat (KVStore.v_memory_keys v)))]%string.

Definition read_stats_json (s : Read.stats) : json :=
  JObj [("total_reads", JInt (Read.total_reads s)); ("local_reads", JInt (Read.local_reads s));
        ("remote_reads", JInt (Read.remote_reads s)); ("quorum_reads", JInt (Read.quorum_reads s));
        ("leader_reads", JInt (Read.leader_reads s));
        ("stale_reads_detected", JInt (Read.stale_reads_detected s));
        ("read_repairs", JInt (Read.read_repairs s))]%string.

(** [rejected / total if total > 0 else 0] *)
Definition rate_json (s : RateLimit.RateLimitStats) : json :=
  if 0 <? RateLimit.total_requests s then jfloat (RateLimit.rejection_rate s) else JInt 0.

Definition avg_latency_json (l : RateLimit.AdaptiveRateLimiter) : json :=
  match RateLimit._recent_latencies l with
  | [] => JInt 0
  | _ => jfloat (RateLimit.avg_latency l * 1000)
  end.

Definition limiter_counts (s : RateLimit.RateLimitStats) : dict string json :=
  [("total_requests", JInt (RateLimit.total_requests s)); ("allowed", JInt (RateLimit.allowed_requests s));
   ("rejected", JInt (RateLimit.rejected_requests s));
   ("rejection_rate", rate_json s)]%string.

(** [get_stats] of each limiter. *)
Definition token_stats (t : RateLimit.TokenBucketLimiter) : json :=
  JObj ([("type", JStr "token_bucket"); ("rate", jfloat (RateLimit.rate t));
         ("burst", JInt (RateLimit.burst t))]%string ++ limiter_counts (RateLimit.t_stats t)).

Definition sliding_stats (t : RateLimit.SlidingWindowLimiter) : json :=
  JObj ([("type", JStr "sliding_window"); ("max_requests", JInt (RateLimit.max_requests t));
         ("window_seconds", JFloat (RateLimit.window_seconds t))]%string ++
        limiter_counts (RateLimit.s_stats t)).

Definition adaptive_stats (t : RateLimit.AdaptiveRateLimiter) : json :=
  JObj ([("type", JStr "adaptive"); ("current_rate", jfloat (RateLimit._current_rate t));
         ("min_rate", jfloat (RateLimit.min_rate t)); ("max_rate", jfloat (RateLimit.max_rate t));
         ("avg_latency_ms", avg_latency_json t)]%string ++
        limiter_counts (RateLimit.a_stats t)).

Definition limiter_stats (l : RateLimit.RateLimiter) : json :=
  match l with
  | RateLimit.Token t => token_stats t
  | RateLimit.Sliding t => sliding_stats t
  | RateLimit.Adaptive t => adaptive_stats t
  end.

Definition backpressure_stats (b : RateLimit.BackpressureManager) : json :=
  JObj [("backpressure_level", jfloat (RateLimit._backpressure_level b));
        ("queue_depths", JObj (dict_map_values JInt (RateLimit._queue_depths b)));
        ("rate_limiter", limiter_stats (RateLimit.rate_limiter b))]%string.

Definition leader_json (n : DatabaseNode) : json := jopt JStr (Coordinator.get_leader_id (cluster n)).
Definition role_json (n : DatabaseNode) : json :=
  JStr (role_value (Election.role (Coordinator.election (cluster n)))).
Definition term_json (n : DatabaseNode) : json :=
  JInt (Election.current_term (Coordinator.election (cluster n))).
Definition size_json (n : DatabaseNode) : json :=
  JInt (Z.of_nat (Membership.node_count (Coordinator.membership (cluster n)))).

Definition info_section (n : DatabaseNode) (section : string) : option json :=
  let s := Storage.store (storage n) in
  let stats := store_stats s in
  let keys := JInt (Z.of_nat (KVStore.size s)) in
  let uptime := dict_get_or stats "uptime_seconds" (JInt 0) in
  dict_get
    [("node", JObj [("node_id", JStr (node_id n)); ("role", role_json n); ("leader_id", leader_json n);
                    ("term", term_json n); ("uptime", uptime)]);
     ("storage", JObj [("keys", keys); ("stats", JObj stats)]);
     ("cluster", JObj [("leader_id", leader_json n); ("cluster_size", size_json n); ("role", role_json n);
                       ("term", term_json n)]);
     ("reads", read_stats_json (read_stats n));
     ("migration", Migration.get_migration_status (migration n))]%string section.

Definition _handle_info (args : list string) (n : DatabaseNode) : Message :=
  match args with
  | [] =>
      let s := Storage.store (storage n) in
      let stats := store_stats s in
      ok_response (JObj [("node_id", JStr (node_id n)); ("role", role_json n); ("leader_id", leader_json n);
        ("term", term_json n); ("keys", JInt (Z.of_nat (KVStore.size s))); ("stats", JObj stats);
        ("cluster_size", size_json n); ("uptime", dict_get_or stats "uptime_seconds" (JInt 0))]%string)
  | name :: _ =>
      match info_section n (lower name) with
      | Some j => ok_response j
      | None => error_response ("Unknown INFO section: " +:+ lower name)
      end
  end.

Definition _handle_cluster_info (n : DatabaseNode) : Message :=
  ok_response (Coordinator.get_cluster_info (cluster n)).

Definition _handle_nodes (n : DatabaseNode) : Message :=
  ok_response (JObj [("nodes", JArr (Membership.get_members_data (Coordinator.membership (cluster n))))]%string).

Definition _handle_leader (n : DatabaseNode) : Message :=
  ok_response (JObj [("leader_id", leader_json n);
    ("leader_address", jopt JStr (Coordinator.get_leader_address (cluster n)));
    ("is_self", JBool (bool_decide (Coordinator.get_leader_id (cluster n) = Some (node_id n))))]%string).

Definition ring_entry (p : N * string) : json :=
  JObj [("hash", JInt (Z.of_N p.1)); ("node", JStr p.2)]%string.

(** A bad sample count raises: the dispatcher answers with its text. *)
Definition _handle_ring (args : list string) (n : DatabaseNode) : res Message :=
  (samples ←! match args with s :: _ => py_int s | [] => Ok 20 end;
   Ok (ok_response (JObj
     [("ring", JArr (py_take samples (ring_entry <$> Ring.get_ring_state (ring n))));
      ("node_count", JInt (Z.of_nat (Ring.get_node_count (ring n))));
      ("virtual_nodes", JInt (Z.of_nat (Config.virtual_nodes (config n))))]%string)))%py.

Definition _handle_shards : proc Message :=
  ks ← _collect_cluster_keys now call "*";
  n ← get_state;
  mret (ok_response (JObj
    [("total_keys", JInt (Z.of_nat (length ks)));
     ("distribution", JObj (dict_map_values JInt (Ring.get_key_distribution (ring n) ks)));
     ("local_keys", JInt (Z.of_nat (length (base.filter (λ k, Partition.is_local_key (partitions n) k = true) ks))));
     ("primary_keys", JInt (Z.of_nat (length
        (base.filter (λ k, Partition.is_primary_owner (partitions n) k = true) ks))))]%string)).

Definition replication_counts (n : DatabaseNode) : Z * Z :=
  let r := Coordinator.replication (cluster n) in
  (Replication.get_pending_count r, Replication.get_async_queue_size r).

Definition _handle_replicas (args : list string) (n : DatabaseNode) : Message :=
  match args with
  | [] =>
      ok_response (JObj [("replication_factor", JInt (Config.replication_factor (config n)));
        ("default_consistency", JStr (consistency_value (Config.default_consistency (config n))));
        ("pending_requests", JInt (replication_counts n).1);
        ("async_queue_size", JInt (replication_counts n).2)]%string)
  | key :: _ =>
      ok_response (JObj [("key", JStr key); ("primary", jopt JStr (Ring.get_node (ring n) key));
        ("replicas", jstrs (replicas n key));
        ("is_local_replica", JBool (bool_decide (node_id n ∈ replicas n key)))]%string)
  end.

Definition _handle_route (args : list string) (n : DatabaseNode) : Message :=
  match args with
  | [] => error_response "ROUTE requires key"
  | key :: _ => ok_response (Router.get_routing_info (ring n) (router n) key)
  end.

Definition _handle_stats (n : DatabaseNode) : Message :=
  ok_response (JObj
    [("storage", JObj (store_stats (Storage.store (storage n))));
     ("cluster", JObj [("members", size_json n); ("leader", leader_json n); ("term", term_json n)]);
     ("replication", JObj [("pending", JInt (replication_counts n).1);
                           ("async_queue", JInt (replication_counts n).2)]);
     ("reads", read_stats_json (read_stats n));
     ("rate_limit", limiter_stats (RateLimit.rate_limiter (backpressure n)));
     ("backpressure", JObj [("level", jfloat (RateLimit._backpressure_level (backpressure n)))]);
     ("migration", Migration.get_migration_status (migration n))]%string).

(** ** Administration *)

Definition _handle_rebalance : proc Message :=
  started ← in_migration now call (λ ring data _ _, Migration.calculate_rebalance_migrations ring data now);
  n ← get_state;
  mret (ok_response (JObj [("migrations_started", JInt (Z.of_nat started));
                           ("status", Migration.get_migration_status (migration n))]%string)).

Definition _handle_migrate (n : DatabaseNode) : Message :=
  ok_response (Migration.get_migration_status (migration n)).

(** [self.cluster.election.step_down()] *)
Definition step_down : proc () := in_cluster now (Coordinator.in_election (Election.step_down now rto)).

Definition _handle_failover : proc Message :=
  n ← get_state;
  if Coordinator.is_leader (cluster n) then
    step_down;;
    n ← get_state;
    mret (ok_response (JObj [("message", JStr "Stepping down as leader"); ("old_term", term_json n)]%string))
  else
    match Coordinator.get_leader_address (cluster n) with
    | Some a => if truthy_str a then mret (error_response ("Not leader. Redirect to " +:+ a))
                else mret (error_response "No leader available")
    | None => mret (error_response "No leader available")
    end.

Definition _handle_leader_kill : proc () :=
  n ← get_state;
  if Coordinator.is_leader (cluster n) then step_down else mret ().

(** The fault callbacks that a command can reach: a pause only waits, and a
    crash stops the node, which ends the run. *)
Definition on_fault_event (ev : Faults.fault_event) : proc () :=
  match ev with
  | Faults.OnLeaderKill => _handle_leader_kill
  | Faults.OnPause _ => mret ()
  | Faults.OnCrash => mret ()
  end.

Definition in_faults {A} (p : prog Faults.FaultInjector Faults.fault_event A) : proc A := λ n,
  match p (fault_injector n) with
  | (i, evs, r) =>
      match for_each on_fault_event evs (set_faults i n) with
      | (n, es, Ok _) => (n, es, r)
      | (n, es, Raise x) => (n, es, Raise x)
      end
  end.

Definition inject (f : Faults.Fault) (answer : string) : proc Message :=
  _ ← in_faults (Faults.inject_fault now (draw (Faults.fault_id f)) f);
  mret (ok_response (JStr answer)).

(** [float(s)] of a percentage, in millionths, as a share. *)
Definition percentage (p : time) : Q :=
  let q := (inject_Z p / 1000000)%Q in
  if RateLimit.Qlt_bool 1 q then (q / 100)%Q else q.

Definition fault_json (f : Faults.Fault) : json :=
  JObj [("fault_id", JStr (Faults.fault_id f)); ("type", JStr (fault_type_value (Faults.fault_type f)));
        ("targets", jstrs (Faults.target_nodes f)); ("probability", jfloat (Faults.probability f));
        ("active", JBool (Faults.active f && negb (Faults._is_expired now f)));
        ("parameters", JObj
          (opt_field "partition_from" (jstrs <$> Faults.partition_from (Faults.params f)) ++
           opt_field "delay_ms" (JInt <$> Faults.delay_ms (Faults.params f)) ++
           opt_field "jitter_ms" (JInt <$> Faults.jitter_ms (Faults.params f)) ++
           opt_field "skew_seconds" (JFloat <$> Faults.skew_seconds (Faults.params f)) ++
           opt_field "pause_duration" (JFloat <$> Faults.pause_duration (Faults.params f))))]%string.

Definition get_active_faults (i : Faults.FaultInjector) : json :=
  JArr (fault_json <$> dict_values (Faults._faults i)).

Definition _handle_fault (args : list string) : proc Message :=
  n ← get_state;
  match args with
  | [] => mret (ok_response (Faults.get_stats (fault_injector n)))
  | action :: args =>
      let action := upper action in
      if decide (action = "ENABLE"%string) then
        modify (λ n, set_faults (Faults.enable (fault_injector n)) n);;
        mret (ok_response (JStr "Fault injection enabled"))
      else if decide (action = "DISABLE"%string) then
        modify (λ n, set_faults (Faults.disable (fault_injector n)) n);;
        mret (ok_response (JStr "Fault injection disabled"))
      else if decide (action = "CLEAR"%string) then
        modify (λ n, set_faults (Faults.clear_all_faults (fault_injector n)) n);;
        mret (ok_response (JStr "All faults cleared"))
      else if decide (action = "PARTITION"%string) then
        match args with
        | [] => mret (error_response "Usage: FAULT PARTITION <node_id>")
        | target :: _ => inject (Faults.create_network_partition now [target] 0) ("Partitioned from " +:+ target)
        end
      else if decide (action = "LIST"%string) then
        mret (ok_response (get_active_faults (fault_injector n)))
      else if decide (action = "DELAY"%string) then
        match args with
        | [] => mret (error_response "Usage: FAULT DELAY <ms> [jitter]")
        | d :: rest =>
            match py_int d, (match rest with j :: _ => py_int j | [] => Ok 0 end) with
            | Ok d, Ok j => inject (Faults.create_network_delay now d j) ("Injected " +:+ dump_int d +:+ "ms delay")
            | _, _ => mret (error_response "Invalid delay value")
            end
        end
      else if decide (action = "DROP"%string) then
        match args with
        | [] => mret (error_response "Usage: FAULT DROP <percentage>")
        | p :: _ =>
            match py_float p with
            | Ok p => inject (Faults.create_packet_drop now (percentage p))
                        ("Injected " +:+ dumps (jfloat (percentage p * 100)) +:+ "% packet drop")
            | Raise _ => mret (error_response "Invalid percentage")
            end
        end
      else mret (error_response ("Unknown fault action: " +:+ action))
  end.

Definition _handle_ratelimit (n : DatabaseNode) : Message := ok_response (backpressure_stats (backpressure n)).

(** A report: it reads the node and changes nothing. *)
Definition report (f : DatabaseNode → Message) : proc Message := n ← get_state; mret (f n).

(** ** Dispatch *)

Definition dispatch (cmd : string) (args : list string) : proc Message :=
  if decide (cmd = "SET"%string) then _handle_set now draw exchange call args
  else if decide (cmd = "SETEX"%string) then _handle_setex now draw exchange call args
  else if decide (cmd = "GET"%string) then _handle_get now call arrival args
  else if decide (cmd = "DELETE"%string ∨ cmd = "DEL"%string) then _handle_delete now draw exchange call args
  else if decide (cmd = "EXISTS"%string) then _handle_exists now call arrival args
  else if decide (cmd = "KEYS"%string) then _handle_keys now call args
  else if decide (cmd = "INFO"%string) then report (_handle_info args)
  else if decide (cmd = "CLUSTER"%string) then report _handle_cluster_info
  else if decide (cmd = "PING"%string) then mret (ok_response (JStr "PONG"))
  else if decide (cmd = "NODES"%string) then report _handle_nodes
  else if decide (cmd = "LEADER"%string) then report _handle_leader
  else if decide (cmd = "RING"%string) then n ← get_state; lift (_handle_ring args n)
  else if decide (cmd = "SHARDS"%string) then _handle_shards
  else if decide (cmd = "REPLICAS"%string) then report (_handle_replicas args)
  else if decide (cmd = "ROUTE"%string) then report (_handle_route args)
  else if decide (cmd = "STATS"%string) then report _handle_stats
  else if decide (cmd = "REBALANCE"%string) then _handle_rebalance
  else if decide (cmd = "MIGRATE"%string) then report _handle_migrate
  else if decide (cmd = "FAILOVER"%string) then _handle_failover
  else if decide (cmd = "FAULT"%string) then _handle_fault args
  else if decide (cmd = "RATELIMIT"%string) then report _handle_ratelimit
  else if decide (cmd = "__LEADER_WRITE"%string) then _handle_leader_write now draw exchange args
  else if decide (cmd = "__OWNER_WRITE"%string) then _handle_owner_write now draw exchange args
  else if decide (cmd = "__LOCAL_READ"%string) then _handle_local_read now args
  else if decide (cmd = "__LOCAL_KEYS"%string) then _handle_local_keys now args
  else if decide (cmd = "__REPLICA_SET"%string) then _handle_replica_set now args
  else if decide (cmd = "__IMPORT_KEYS"%string) then _handle_import_keys now call args
  else mret (error_response ("Unknown command: " +:+ cmd)).

(** A command and its arguments as the clients send them: text. *)
Definition command_of (payload : json) : res (string * list string) :=
  (p ←! parse_command payload;
   cmd ←! as_str p.1;
   args ←! res_bind (as_list p.2) (res_mapM as_str);
   Ok (cmd, args))%py.

Definition _handle_client_message (m : Message) : proc Message :=
  n ← get_state;
  let r := RateLimit.should_accept_request now bp_draw (backpressure n) (str_or (sender_id m) "default") in
  modify (set_backpressure r.1);;
  if r.2 then
    c ← lift (command_of (payload m));
    catch (dispatch c.1 c.2) (λ x, mret (error_response (exn_str x)))
  else mret (error_response "Rate limited - try again later").

(** ** The cluster port *)

Definition _handle_cluster_message (m : Message) : proc (option Message) :=
  drop ← in_faults (Faults.should_fail_network draw now (sender_id m));
  if drop : bool then mret None
  else
    _ ← in_faults (Faults.get_network_delay draw jitter now (sender_id m));
    in_cluster now (Coordinator.handle_cluster_message now rto m).

(** ** Lifecycle *)

(** [start]: recovery, then the first look at the topology.  The threads it
    starts are the rounds of the components. *)
Definition start : proc Z :=
  count ← in_storage (Storage._recover_data now);
  _sync_topology now call;;
  mret count.

(** One round of [_maintenance_loop].  The cleanup that opens the storage round
    finds nothing more, as the clock does not move within a round. *)
Definition maintenance (gz_size : string → Z) (failing : option nat) : proc () :=
  catch (
    modify (λ n, set_storage (Storage.with_store (storage n)
      (KVStore.cleanup_expired_keys now (Storage.store (storage n)))) n);;
    _sync_topology now call;;
    in_storage (Storage.maintenance_round gz_size now failing);;
    modify (λ n, set_backpressure (RateLimit.update_queue_depth (backpressure n) "pending_writes"
                                     (replication_counts n).1) n)) (λ _, mret ()).

Definition stop (gz_size : string → Z) (failing : option nat) : proc () :=
  in_storage (Storage.shutdown gz_size now failing).

End node.
End NodeAdmin.
