(* ===== verification/NodeLoop.v ===== *)
(** The running node ([minidb/node.py] with the loops of its components): what
    reaches it from outside, and one step for each.

    A [world] is what one step sees of the outside: the clock, the random draws
    and what other nodes answer.  A background loop is one input per round; an
    exception of a round is printed by its loop and goes no further. *)

From S2P Require Import Prelude.
From S2P Require Import PyMonad.
From S2P Require Import PyDict.
From S2P Require Import Json.
From S2P Require Import Config.
From S2P Require Import Protocol.
From S2P Require Import Ring.
From S2P Require Import Election.
From S2P Require Import Membership.
From S2P Require Import Storage.
From S2P Require Import Replication.
From S2P Require Import Merkle.
From S2P Require Import Coordinator.
From S2P Require Import Node.
From S2P Require Import NodeReads.
From S2P Require Import NodeAdmin.
From Stdlib Require Import QArith.
#[local] Open Scope Z_scope.

Module NodeLoop.
Import Message Protocol Node NodeReads NodeAdmin.

Record world := mkWorld {
  w_now : time;
  w_rto : time;
  w_exn_str : exn → string;
  w_jfloat : Q → json;
  w_draw : string → Q;
  w_jitter : string → time;
  w_bp_draw : Q;
  w_exchange : string → Z → Message → option Message;
  w_call : string → Z → string → list string → reply;
  w_arrival : list string → list string;
}.

(** What reaches a node. *)
Inductive input :=
  | ClientMessage (m : Message)
  | ClusterMessage (m : Message)
  | ElectionRound
  | GossipRound (sample : list NodeInfo → nat → list NodeInfo)
  | ReplicationRound
  | MigrationRound (fin : time)
  | RepairRound (tree : Merkle.MerkleTree)
  | MaintenanceRound (gz_size : string → Z) (failing : option nat)
  | FsyncRound
  | JoinCluster (seed : string).

Section loop.
Context `{RingHash} `{MerkleHash}.
Context (w : world).

#[local] Abbreviation now := (w_now w).

(** [except Exception as e: print(...)] *)
Definition guarded {S E : Type} (p : prog S E ()) : prog S E () := catch p (λ _, mret ()).

(** ** The coordinator's loops *)

(** One round of [_election_loop], with the node's fault injector. *)
Definition election_loop : proc () :=
  guarded (
    n ← get_state;
    in_cluster now (
      c ← get_state;
      if Coordinator.is_leader c then Coordinator._send_heartbeats (blocked now (w_draw w) n)
      else Coordinator.election_round now (w_rto w) (blocked now (w_draw w) n) (w_exchange w))).

(** The membership's callbacks: joins, leaves and suspects are printed, and
    gossip is sent. *)
Definition on_member_event (b : string → bool) (ev : member_event) : Coordinator.proc () :=
  match ev with
  | SendGossip target members => Coordinator._send_gossip b target members
  | ev => emit (Coordinator.Notice ev)
  end.

Definition gossip (b : string → bool) (sample : list NodeInfo → nat → list NodeInfo) : Coordinator.proc () := λ c,
  match Membership.gossip_round now sample (Coordinator.membership c) with
  | (m, evs, r) => (for_each (on_member_event b) evs;; lift r) (Coordinator.set_membership m c)
  end.

Definition gossip_loop (sample : list NodeInfo → nat → list NodeInfo) : proc () :=
  guarded (
    n ← get_state;
    in_cluster now (gossip (blocked now (w_draw w) n) sample)).

(** One round of [_async_replication_loop]. *)
Definition replication_loop : proc () :=
  guarded (
    n ← get_state;
    in_cluster now (
      c ← get_state;
      Coordinator.in_replication
        (Replication.async_round (Coordinator._send_replicate (blocked now (w_draw w) n) (w_exchange w) c)))).

(** ** Repair *)

(** [_setup_repair_callbacks]: the node sets three of the five. *)
Definition repair_callbacks (data : dict string (json * Z)) (n : DatabaseNode) : AntiEntropy.callbacks :=
  AntiEntropy.mkCallbacks (Some data) None None true
    (Some (NodeInfo.node_id <$> Membership.get_alive_nodes (Coordinator.membership (cluster n)))).

Definition no_meta : Storage.repair_meta := Storage.mkRepair None None None None.

(** One round of the repair loop, on the manager's tree. *)
Definition repair_loop (tree : Merkle.MerkleTree) : proc Merkle.MerkleTree :=
  data ← in_storage (Storage._get_data_for_repair now);
  n ← get_state;
  match AntiEntropy._repair_loop (node_id n) (repair_callbacks data n) tree with
  | (tree, repairs, _) =>
      for_each (λ r : AntiEntropy.repair,
        _ ← in_storage (Storage._apply_repair_data now (node_id n) r.1.1 r.1.2 r.2 no_meta);
        mret ()) repairs;;
      mret tree
  end.

(** ** Creation and crash *)

(** [create_node]; [kwargs] sets the other options. *)
Definition create_node (id : string) (client_port cluster_port : Z)
    (kwargs : Config.NodeConfig → Config.NodeConfig) (st : Storage.storage) : DatabaseNode :=
  Node.init now (w_rto w) (kwargs (Config.get_default_config id client_port cluster_port)) st.

(** [_handle_crash]: an orderly stop. *)
Definition _handle_crash (gz_size : string → Z) (failing : option nat) : proc () :=
  NodeAdmin.stop now gz_size failing.

(** ** One step *)

Definition react (i : input) : proc (option Message) :=
  match i with
  | ClientMessage m =>
      r ← _handle_client_message now (w_rto w) (w_exn_str w) (w_jfloat w) (w_draw w) (w_bp_draw w)
            (w_exchange w) (w_call w) (w_arrival w) m;
      mret (Some r)
  | ClusterMessage m => _handle_cluster_message now (w_rto w) (w_draw w) (w_jitter w) m
  | ElectionRound => election_loop;; mret None
  | GossipRound sample => gossip_loop sample;; mret None
  | ReplicationRound => replication_loop;; mret None
  | MigrationRound fin => guarded (NodeReads.migration_round now (w_exn_str w) (w_call w) fin);; mret None
  | RepairRound tree => _ ← repair_loop tree; mret None
  | MaintenanceRound gz failing => maintenance now (w_call w) gz failing;; mret None
  | FsyncRound => in_storage (Storage.fsync_round now);; mret None
  | JoinCluster seed => _ ← NodeReads.join_cluster now (w_exchange w) seed; mret None
  end.

End loop.

(** The node after a run of steps, each in its own world, whatever they
    answer or raise. *)
Definition run_node `{RingHash} `{MerkleHash} (n : DatabaseNode) (tr : list (world * input)) : DatabaseNode :=
  fold_left (λ n s, state_of (react s.1 s.2 n)) tr n.

End NodeLoop.
