(* ===== verification/NodeFacts.v ===== *)
(** The node: when a write is acknowledged and what it then guarantees, writes
    forwarded to the leader, and what replicas tell each other. *)

From S2P Require Import Prelude.
From S2P Require Import PyMonad.
From S2P Require Import Text.
From S2P Require Import PyDict.
From S2P Require Import Json.
From S2P Require Import JsonFacts.
From S2P Require Import Config.
From S2P Require Import Fields.
From S2P Require Import Parse.
From S2P Require Import Protocol.
From S2P Require Import Store.
From S2P Require Import Ring.
From S2P Require Import Election.
From S2P Require Import Membership.
From S2P Require Import Storage.
From S2P Require Import Replication.
From S2P Require Import Coordinator.
From S2P Require Import ReadCoordinator.
From S2P Require Import Node.
From S2P Require Import NodeReads.
From S2P Require Import NodeAdmin.
From Stdlib Require Import QArith.
#[local] Open Scope Z_scope.

Module NodeF.
Import Message Protocol Node NodeReads NodeAdmin.

(** ** Running components *)

Lemma in_storage_run {A} (p : prog Storage.storage Empty_set A) n :
  in_storage p n = (set_storage (state_of (p (storage n))) n, [], result_of (p (storage n))).
Proof.
  unfold in_storage, zoom, state_of, result_of.
  by destruct (p (storage n)) as [[st [|[]]] r].
Qed.

Lemma set_storage_same n : set_storage (storage n) n = n.
Proof. by destruct n. Qed.

(** The part of the node that every write relies on and keeps. *)
Definition node_wf (n : DatabaseNode) : Prop :=
  Coordinator.config (cluster n) = config n ∧
  Replication.replication_factor (Coordinator.replication (cluster n)) = Config.replication_factor (config n) ∧
  Replication._pending (Coordinator.replication (cluster n)) = [].

Section writes.
Context `{RingHash}.
Context (now : time) (draw : string → Q).
Context (exchange : string → Z → Message → option Message).

(** The peers that answer one phase of a write with success. *)
Definition confirmations (n : DatabaseNode) (phase : string) (e : LogEntry) : Z :=
  Z.of_nat (length (base.filter (λ f,
    Coordinator.send_phase (blocked now draw n) exchange (cluster n) phase e f = true)
    (Coordinator._get_followers (cluster n)))).

(** Without callbacks of its own, a call of [replicate] only changes the
    replication manager. *)
Lemma in_cluster_replicate e c ts n (b : string → bool) :
  let run := Replication.replicate
               (λ f e, Coordinator._send_replicate b exchange (cluster n) f e) e c (Some ts)
               (Some (Coordinator._get_followers (cluster n))) (Coordinator.replication (cluster n)) in
  ∃ es, in_cluster now (Coordinator.replicate b exchange e c (Some ts)) n =
    (set_cluster (Coordinator.set_replication (state_of run) (cluster n)) n, es, result_of run).
Proof.
  cbv zeta. unfold in_cluster, Coordinator.replicate. rewrite get_bind.
  unfold Coordinator.in_replication, zoom.
  destruct (Replication.replicate _ e c (Some ts) _ _) as [[r evs] x].
  assert (Hemit : ∀ (l : list Replication.replication_event) m, ∃ es,
    for_each (on_coord_event now)
      ((λ ev, match ev with Replication.SendReplicate f e a => Coordinator.Replicated f e a end) <$> l) m =
    (m, es, Ok ())).
  { intros l. induction l as [|[f e' a] l IH]; intros m; [by exists []|].
    destruct (IH m) as [es Hes]. exists (Replicated f e' a :: es). rewrite fmap_cons. cbn [for_each].
    erewrite bind_ok; [|reflexivity|exact Hes]. done. }
  destruct (Hemit evs (set_cluster (Coordinator.set_replication r (cluster n)) n)) as [es Hes].
  exists es. rewrite Hes. done.
Qed.

(** The members a write goes to are the alive peers: no target can be missing. *)
Lemma write_targets n : Coordinator.config (cluster n) = config n →
  base.filter (λ r, r ≠ node_id n) (write_replicas n) = Coordinator._get_followers (cluster n).
Proof.
  intros Hcfg. unfold write_replicas, Coordinator._get_followers, Coordinator.peers, Coordinator.node_id.
  set (nodes := Membership.get_alive_nodes (Coordinator.membership (cluster n))).
  set (alive := NodeInfo.node_id <$> nodes).
  assert (Hall : base.filter (λ r, r ≠ node_id n) alive =
    NodeInfo.node_id <$> base.filter (λ x, NodeInfo.node_id x ≠ Config.node_id (Coordinator.config (cluster n))) nodes).
  { unfold alive. rewrite Hcfg. fold (node_id n). clearbody nodes. induction nodes as [|x l IH]; [done|].
    rewrite fmap_cons, !filter_cons. fold (node_id n). destruct (decide (NodeInfo.node_id x ≠ node_id n)).
    - by rewrite fmap_cons, IH.
    - done. }
  rewrite <-Hall. set (a' := if decide _ then alive else node_id n :: alive).
  assert (Htake : py_take (Z.max (Config.replication_factor (config n)) (Z.of_nat (length a'))) a' = a').
  { unfold py_take. destruct (Z.ltb_spec (Z.max (Config.replication_factor (config n)) (Z.of_nat (length a'))) 0); [lia|].
    apply take_ge. lia. }
  rewrite Htake. unfold a'. destruct (decide (node_id n ∈ alive)); [done|].
  rewrite filter_cons, decide_False by tauto. done.
Qed.

(** What the leader makes of a write: its entry, and the store after looking
    the key up. *)
Definition looked_up (n : DatabaseNode) (key : string) : Storage.storage :=
  state_of (Storage.store_get_meta now key (storage n)).

Definition write_of (n : DatabaseNode) (operation key : string) (value : json) (ttl : option Z) : LogEntry :=
  write_entry now n (_write_sequence n + 1) operation key value ttl
    (KVStore.get_with_metadata now (Storage.store (storage n)) key).2.

Definition may_write (n : DatabaseNode) : Prop :=
  Coordinator.is_leader (cluster n) = true ∧
  Config.replication_factor (config n) <= Z.of_nat (Ring.get_node_count (ring n)).

(** Enough replicas prepared [e], and enough applied it, the local one counted. *)
Definition write_acknowledged (n : DatabaseNode) (e : LogEntry) : Prop :=
  (Replication.is_sync (Config.default_consistency (config n)) = true →
   required_total (config n) <= 1 + confirmations n "prepare" e) ∧
  required_total (config n) <= 1 + confirmations n "commit" e.

Lemma required_total_same n (c : ConsistencyLevel) : node_wf n → c = Config.default_consistency (config n) →
  Replication.required_total (Replication.replication_factor (Coordinator.replication (cluster n))) c =
  required_total (config n).
Proof.
  intros (_ & Hrf & _) ->. unfold required_total, Replication.required_total. rewrite Hrf.
  by destruct (Config.default_consistency (config n)).
Qed.

(** The replication of a write to the peers, as the node runs it. *)
Lemma replicate_to_peers n m e (Hwf : node_wf n)
    (Hcl : cluster m = cluster n) (Hcfg : config m = config n) (Hinj : fault_injector m = fault_injector n) :
  ∃ c' es ok, in_cluster now (Coordinator.replicate (blocked now draw m) exchange e
        (Some (Config.default_consistency (config n))) (Some (Coordinator._get_followers (cluster n)))) m =
      (set_cluster c' m, es, Ok ok) ∧
    (∃ r, c' = Coordinator.set_replication r (cluster n) ∧ Replication._pending r = [] ∧
       Replication.replication_factor r = Config.replication_factor (config n)) ∧
    (ok = true ↔ (Replication.is_sync (Config.default_consistency (config n)) = true →
                  required_total (config n) <= 1 + confirmations n "prepare" e)).
Proof.
  destruct (in_cluster_replicate e (Some (Config.default_consistency (config n)))
    (Coordinator._get_followers (cluster n)) m (blocked now draw m)) as [es Hrun].
  rewrite Hrun, Hcl. clear Hrun.
  set (send := λ f e, Coordinator._send_replicate (blocked now draw m) exchange (cluster n) f e).
  destruct (Replication.replicate_outcome send e (Some (Config.default_consistency (config n)))
    (Coordinator._get_followers (cluster n)) (Coordinator.replication (cluster n)))
    as (r & evs & ok & Heq & Hpend & Hrf & Hspec).
  { destruct Hwf as (_ & _ & ->). done. }
  change (Replication.replicate send e (Some (Config.default_consistency (config n)))
      (Some (Coordinator._get_followers (cluster n))) (Some (Coordinator._get_followers (cluster n)))
      (Coordinator.replication (cluster n)) = (r, evs, Ok ok)) in Heq.
  rewrite Heq. exists (Coordinator.set_replication r (cluster n)), es, ok. split; [done|].
  split. { exists r. destruct Hwf as (_ & Hrf' & Hp). rewrite Hpend, Hrf. done. }
  cbn [default] in Hspec. rewrite (required_total_same n) in Hspec by done.
  destruct (Replication.is_sync _) eqn:Es; [|by destruct Hspec as [-> _]; split].
  destruct Hspec as [-> _].
  assert (Hacks : Replication.acks send e (Coordinator._get_followers (cluster n)) = confirmations n "prepare" e).
  { unfold Replication.acks, confirmations, send, Coordinator._send_replicate, blocked. by rewrite Hinj. }
  rewrite Hacks. unfold confirmations.
  pose proof (length_filter (λ f,
    Coordinator.send_phase (blocked now draw n) exchange (cluster n) "prepare" e f = true)
    (Coordinator._get_followers (cluster n))).
  split; [intros [?|[_ ?]] _; lia|]. intros Hn. specialize (Hn eq_refl). lia.
Qed.

Lemma lookup_key n key : in_storage (Storage.store_get_meta now key) n =
  (set_storage (looked_up n key) n, [], Ok (KVStore.get_with_metadata now (Storage.store (storage n)) key).2).
Proof. by rewrite in_storage_run. Qed.

(** After the lookup and the write number: the rest of a leader's write. *)
Definition finish_write (n : DatabaseNode) (e : LogEntry) (operation : string) (replicas : list string)
    : proc Message :=
  ok ← in_cluster now (Coordinator.replicate (blocked now draw n) exchange e
         (Some (Config.default_consistency (config n))) (Some (Coordinator._get_followers (cluster n))));
  if ok : bool then
    n' ← get_state;
    let committed := Coordinator.commit_to_followers (blocked now draw n') exchange (cluster n') e
                       (Coordinator._get_followers (cluster n)) in
    if committed + 1 <? required_total (config n)
    then mret (error_response ("Commit acknowledgements unavailable for " +:+ operation))
    else in_storage (Storage._apply_log_entry now e);; mret (ok_response (JStr "OK"))
  else mret (error_response ("Replication failed for " +:+ operation +:+ " on replica set " +:+
         show_list replicas)).

Definition before_write (n : DatabaseNode) (key : string) : DatabaseNode :=
  set_sequence (_write_sequence n + 1) (set_storage (looked_up n key) n).

(** A leader with a full ring reaches the replication of its entry. *)
Lemma leader_write op key value ttl n : node_wf n → may_write n →
  _apply_partition_write now draw exchange op key value ttl n =
  finish_write n (write_of n op key value ttl) op (write_replicas n) (before_write n key).
Proof.
  intros (Hcfg & _) [Hl Hring]. unfold _apply_partition_write. rewrite get_bind, Hl. cbn [negb].
  destruct (Z.ltb_spec (Z.of_nat (Ring.get_node_count (ring n))) (Config.replication_factor (config n))); [lia|].
  erewrite bind_silent; [|apply lookup_key].
  unfold _next_write_index. rewrite <-bind_assoc, modify_bind, <-bind_assoc, get_bind, ret_bind, get_bind.
  change (set_sequence (_write_sequence (set_storage (looked_up n key) n) + 1)
            (set_storage (looked_up n key) n)) with (before_write n key).
  assert (Ht : base.filter (λ r, r ≠ node_id (before_write n key)) (write_replicas n) =
    Coordinator._get_followers (cluster n)) by exact (write_targets n Hcfg).
  rewrite Ht. clear Ht.
  set (peers := Coordinator._get_followers (cluster n)).
  change (NodeInfo.node_id <$> Coordinator.peers (cluster (before_write n key))) with peers.
  assert (Hall : base.filter (λ r, r ∈ peers) peers = peers) by (apply pfilter_all; done).
  rewrite Hall. destruct (Nat.ltb_spec (length peers) (length peers)); [lia|].
  rewrite andb_false_r. done.
Qed.

#[global] Instance may_write_dec n : Decision (may_write n).
Proof. unfold may_write. apply _. Defined.
#[global] Instance write_acknowledged_dec n e : Decision (write_acknowledged n e).
Proof. unfold write_acknowledged. apply _. Defined.

Lemma refused_write op key value ttl n : ¬ may_write n →
  ∃ msg, _apply_partition_write now draw exchange op key value ttl n = (n, [], Ok (error_response msg)).
Proof.
  intros Hno. unfold _apply_partition_write. rewrite get_bind.
  destruct (Coordinator.is_leader (cluster n)) eqn:Hl; cbn [negb]; [|by eexists].
  destruct (Z.ltb_spec (Z.of_nat (Ring.get_node_count (ring n))) (Config.replication_factor (config n)));
    [by eexists|].
  by destruct Hno.
Qed.

Lemma leader_outcome op key value ttl n (Hwf : node_wf n) (Hmay : may_write n) :
  let e := write_of n op key value ttl in
  ∃ n' es r, _apply_partition_write now draw exchange op key value ttl n = (n', es, r) ∧ node_wf n' ∧
    (write_acknowledged n e →
       let applied := Storage._apply_log_entry now e (looked_up n key) in
       storage n' = state_of applied ∧ r = res_map (λ _, ok_response (JStr "OK")) (result_of applied)) ∧
    (¬ write_acknowledged n e → storage n' = looked_up n key ∧ ∃ msg, r = Ok (error_response msg)).
Proof.
  cbv zeta. set (e := write_of n op key value ttl).
  rewrite leader_write by done. fold e. unfold finish_write.
  destruct (replicate_to_peers n (before_write n key) e Hwf eq_refl eq_refl eq_refl)
    as (c' & es & ok & Hrun & (rm & -> & Hpend & Hrf) & Hok).
  set (m := set_cluster (Coordinator.set_replication rm (cluster n)) (before_write n key)).
  assert (Hm : node_wf m) by (destruct Hwf as (? & _); repeat split; done).
  change (blocked now draw (before_write n key)) with (blocked now draw n) in Hrun.
  destruct ok.
  2: { exists m, (es ++ []). eexists. split; [eapply bind_ok; [exact Hrun|reflexivity]|]. split; [done|].
       split; [intros [Hp _]; by apply Hok in Hp|eauto]. }
  assert (Hprep := proj1 Hok eq_refl).
  assert (Hcommit : Coordinator.commit_to_followers (blocked now draw m) exchange (cluster m) e
    (Coordinator._get_followers (cluster n)) = confirmations n "commit" e) by done.
  unfold write_acknowledged.
  destruct (Z.ltb_spec (confirmations n "commit" e + 1) (required_total (config n))) as [Hlt|Hge].
  - exists m, (es ++ []). eexists. split.
    { eapply bind_ok; [exact Hrun|]. cbv beta iota. fold m.
      rewrite get_bind, Hcommit, (proj2 (Z.ltb_lt _ _) Hlt). reflexivity. }
    split; [done|]. split; [intros [_ ?]; lia|eauto].
  - exists (set_storage (state_of (Storage._apply_log_entry now e (looked_up n key))) m), (es ++ []). eexists.
    split.
    { eapply bind_ok; [exact Hrun|]. cbv beta iota. fold m.
      rewrite get_bind, Hcommit, (proj2 (Z.ltb_ge _ _) Hge). unfold mbind, prog_bind.
      rewrite in_storage_run. change (storage m) with (looked_up n key).
      instantiate (1 := res_map (λ _, ok_response (JStr "OK"))
        (result_of (Storage._apply_log_entry now e (looked_up n key)))).
      by destruct (result_of (Storage._apply_log_entry now e (looked_up n key))). }
    split; [done|]. split; [done|]. intros []; split; [done|lia].
Qed.

(** Claim C6. What a write does, on every outcome.  A node that is not the
    leader, or whose ring is smaller than the replication factor, refuses and
    changes nothing.  Otherwise the entry goes to all alive peers: when the
    level's number of replicas prepared it and applied it, the local one
    counted, the entry is applied to the local store and file once and the
    answer is OK; when not, the answer is an error and the local store is
    only looked at. *)
Theorem write_outcome op key value ttl n (Hwf : node_wf n) :
  let e := write_of n op key value ttl in
  ∃ n' es r, _apply_partition_write now draw exchange op key value ttl n = (n', es, r) ∧ node_wf n' ∧
    (may_write n → write_acknowledged n e →
       let applied := Storage._apply_log_entry now e (looked_up n key) in
       storage n' = state_of applied ∧ r = res_map (λ _, ok_response (JStr "OK")) (result_of applied)) ∧
    (may_write n → ¬ write_acknowledged n e →
       storage n' = looked_up n key ∧ ∃ msg, r = Ok (error_response msg)) ∧
    (¬ may_write n → n' = n ∧ ∃ msg, r = Ok (error_response msg)).
Proof.
  cbv zeta. destruct (decide (may_write n)) as [Hmay|Hno].
  - destruct (leader_outcome op key value ttl n Hwf Hmay) as (n' & es & r & Hrun & Hwf' & Hok & Herr).
    exists n', es, r. split_and!; [done..|auto|auto|done].
  - destruct (refused_write op key value ttl n Hno) as [msg Hrun].
    exists n, [], (Ok (error_response msg)). split_and!; [done..|eauto].
Qed.


(** ** Forwarded writes *)

(** The two forms of a response. *)
Definition is_answer (a : Message) : Prop := (∃ d, a = ok_response d) ∨ (∃ e, a = error_response e).

Lemma ok_is_answer d : is_answer (ok_response d).
Proof. left. by exists d. Qed.
Lemma error_is_answer e : is_answer (error_response e).
Proof. right. by exists e. Qed.
Hint Resolve ok_is_answer error_is_answer : yields.

Lemma apply_write_answers op key value ttl :
  yields is_answer (_apply_partition_write now draw exchange op key value ttl).
Proof. unfold _apply_partition_write. cbv zeta. solve_yields. Qed.

(** A forwarded write is read back as it was. *)
Lemma parse_forwarded name kind op key value ttl :
  (op = "SET"%string ∧ json_wf value) ∨ (op = "DELETE"%string ∧ value = JNull ∧ ttl = None) →
  parse_internal_write name kind (forward_args op key value ttl) = inr (op, key, value, ttl).
Proof.
  intros [[-> Hv]|(-> & -> & ->)]; [|done]. unfold forward_args. rewrite decide_True by done.
  unfold parse_internal_write. change (upper "SET") with "SET"%string. rewrite decide_True by done.
  rewrite loads_dumps by done. destruct ttl as [t|]; [|by rewrite decide_True by auto].
  pose proof (py_int_pretty t) as Ht. rewrite decide_False; [by rewrite Ht|].
  intros [Hs|[Hs|Hs]]; rewrite Hs in Ht; by vm_compute in Ht.
Qed.

(** What the client port answers for a handler's result. *)
Definition served (exn_str : exn → string) (r : res Message) : Message :=
  match r with Ok a => a | Raise x => error_response (exn_str x) end.

(** A follower and its leader: the follower knows the leader as an alive
    member, and its calls there are served by the leader's handler. *)
Record follows (exn_str : exn → string) (call : string → Z → string → list string → reply)
    (n leader : DatabaseNode) : Prop := {
  f_self : Coordinator.is_leader (cluster n) = false;
  f_leader : Coordinator.is_leader (cluster leader) = true;
  f_known : Coordinator.get_leader_id (cluster n) = Some (node_id leader);
  f_named : truthy_str (node_id leader) = true;
  f_member : ∃ info, get_node n (node_id leader) = Some info ∧ NodeInfo.state info = ALIVE ∧
    ∀ args, call (NodeInfo.host info) (NodeInfo.client_port info) "__LEADER_WRITE" args =
      Answer (served exn_str (result_of (_handle_leader_write now draw exchange args leader)));
}.

Lemma forward_to_leader exn_str call op key value ttl n leader :
  (op = "SET"%string ∧ json_wf value) ∨ (op = "DELETE"%string ∧ value = JNull ∧ ttl = None) →
  follows exn_str call n leader →
  ∃ es, _coordinate_or_forward_write now draw exchange call op key value ttl n =
    (n, es, Ok (served exn_str
      (result_of (_coordinate_or_forward_write now draw exchange call op key value ttl leader)))).
Proof.
  intros Hop [Hself Hlead Hknown Hnamed (info & Hget & Halive & Hcall)].
  unfold _coordinate_or_forward_write. rewrite !get_bind, Hself, Hlead, Hknown, Hnamed.
  unfold _forward_write. cbn [forward_rounds]. rewrite get_bind, Hget, decide_True by done.
  unfold command. rewrite Hcall. unfold _handle_leader_write. rewrite parse_forwarded by done.
  rewrite get_bind, Hlead.
  assert (Ha : is_answer (served exn_str (result_of (_apply_partition_write now draw exchange op key value ttl leader)))).
  { pose proof (apply_write_answers op key value ttl leader) as Ha. unfold served.
    destruct (result_of _); [done|]. right. eauto. }
  revert Ha. generalize (served exn_str (result_of (_apply_partition_write now draw exchange op key value ttl leader))).
  intros a Ha. eexists. eapply bind_ok; [eapply bind_ok; reflexivity|]. cbv beta iota.
  destruct Ha as [[d ->]|[e ->]]; [reflexivity|].
  set (d := [("success"%string, JBool false); ("data"%string, JNull); ("error"%string, JStr e)]).
  change (payload (error_response e)) with (JObj d). cbv beta iota.
  change (otruthy (dict_get d "success")) with false. change (dict_get_or d "error" JNull) with (JStr e).
  unfold mentions. destruct (truthy (JStr e)); [|reflexivity]. cbv beta iota.
  destruct (py_contains _ e); [|reflexivity].
  rewrite Hknown, Hnamed, bool_decide_eq_true_2 by done. reflexivity.
Qed.

(** Claim C9. A write may be sent to any node: a follower that knows its
    leader answers SET, SETEX and DELETE with exactly what the leader's client
    port answers to the same command, and changes nothing itself.  Keys,
    values and TTLs survive the trip through the internal command's text
    arguments. *)
Theorem writes_are_location_transparent exn_str call n leader args
    (Hfollows : follows exn_str call n leader) :
  let same (h : list string → proc Message) := ∃ es,
    h args n = (n, es, Ok (served exn_str (result_of (h args leader)))) in
  same (_handle_set now draw exchange call) ∧ same (_handle_setex now draw exchange call) ∧
  same (_handle_delete now draw exchange call).
Proof.
  cbv zeta. split_and!.
  - unfold _handle_set. destruct args as [|key [|value rest]]; try by eexists.
    destruct (match rest with [] => Ok None | t :: _ => res_map Some (py_int t) end); [|by eexists].
    apply forward_to_leader; [by left|done].
  - unfold _handle_setex. destruct args as [|key [|t [|value rest]]]; try by eexists.
    destruct (py_int t); [|by eexists]. apply forward_to_leader; [by left|done].
  - unfold _handle_delete. destruct args as [|key rest]; [by eexists|].
    apply forward_to_leader; [by right|done].
Qed.


End writes.

(** ** A cluster of three nodes *)

#[local] Instance demo_hash : RingHash := λ s, N.of_nat (String.length s).

Definition demo_cfg (id : string) (cport : Z) : Config.NodeConfig :=
  let c := Config.get_default_config id cport (cport + 1000) in {|
    Config.node_id := id; Config.host := Config.host c; Config.client_port := cport;
    Config.cluster_port := Config.cluster_port c; Config.aof_enabled := false; Config.snapshot_enabled := false;
    Config.snapshot_interval := Config.snapshot_interval c; Config.aof_fsync_interval := Config.aof_fsync_interval c;
    Config.heartbeat_interval := Config.heartbeat_interval c; Config.failure_timeout := Config.failure_timeout c;
    Config.dead_timeout := Config.dead_timeout c; Config.election_timeout_min := Config.election_timeout_min c;
    Config.election_timeout_max := Config.election_timeout_max c; Config.replication_factor := 3;
    Config.default_consistency := QUORUM; Config.virtual_nodes := 1 |}.

Definition demo_info (id : string) (cport : Z) : NodeInfo := NodeInfo.new 0 id "localhost" cport (cport + 1000).

(** A node that knows the three members, with the given role and leader. *)
Definition demo_node (id : string) (cport : Z) (r : NodeRole) : DatabaseNode :=
  let n := init 0 5 (demo_cfg id cport) (Storage.mkStorage (KVStore.init 0) None None) in
  let c := cluster n in
  let join x m := state_of (Membership.add_node x m) in
  let members := foldr join (Coordinator.membership c)
                   (base.filter (λ x, NodeInfo.node_id x ≠ id)
                      [demo_info "n1" 7001; demo_info "n2" 7002; demo_info "n3" 7003]) in
  let el := Election.set_vote_state (Coordinator.election c) 1 (Some "n1"%string) r (Some "n1"%string) in
  set_ring (foldr (λ x r, Ring.add_node r x) (ring n) ["n1"; "n2"; "n3"]%string)
    (set_cluster (Coordinator.set_election el (Coordinator.set_membership members c)) n).

Definition demo_leader : DatabaseNode := demo_node "n1" 7001 LEADER.
Definition demo_follower : DatabaseNode := demo_node "n2" 7002 FOLLOWER.

(** Peers that confirm every phase. *)
Definition all_confirm : string → Z → Message → option Message := λ _ _ _, Some Coordinator.replicate_ok.

Lemma demo_leader_wf : node_wf demo_leader.
Proof. by vm_compute. Qed.

Lemma write_outcome_witness :
  ∃ n' es, _apply_partition_write 5 (λ _, 0%Q) all_confirm "SET" "k" (JStr "v") None demo_leader =
    (n', es, Ok (ok_response (JStr "OK"))) ∧ node_wf n' ∧
    (KVStore.get_with_metadata 5 (Storage.store (storage n')) "k").2 ≠ None.
Proof.
  destruct (write_outcome 5 (λ _, 0%Q) all_confirm "SET" "k" (JStr "v") None demo_leader demo_leader_wf)
    as (n' & es & r & Hrun & Hwf & Hok & _).
  exists n', es. rewrite Hrun.
  destruct Hok as [Hst ->]; [split; [reflexivity|by apply Z.leb_le]|split; [intros _|]; by apply Z.leb_le|].
  split; [reflexivity|]. split; [exact Hwf|]. rewrite Hst. by vm_compute.
Defined.

(** The leader's client port, as a follower reaches it. *)
Definition demo_call : string → Z → string → list string → reply := λ _ _ _ args,
  Answer (served (λ _, "error"%string)
    (result_of (_handle_leader_write 5 (λ _, 0%Q) all_confirm args demo_leader))).

Lemma demo_follows : follows 5 (λ _, 0%Q) all_confirm (λ _, "error"%string) demo_call demo_follower demo_leader.
Proof.
  split; [by vm_compute..|]. exists (demo_info "n1" 7001). split; [by vm_compute|]. split; [by vm_compute|].
  intros args. reflexivity.
Qed.

Lemma writes_are_location_transparent_witness :
  ∃ es, _handle_set 5 (λ _, 0%Q) all_confirm demo_call ["k"; "v"; "60"]%string demo_follower =
    (demo_follower, es, Ok (ok_response (JStr "OK"))).
Proof.
  destruct (writes_are_location_transparent 5 (λ _, 0%Q) all_confirm (λ _, "error"%string) demo_call
    demo_follower demo_leader ["k"; "v"; "60"]%string demo_follows) as [[es Hset] _].
  exists es. rewrite Hset. by vm_compute.
Defined.

End NodeF.
