(* ===== verification/NodeAnswers.v ===== *)
(** Every command is answered: the client port of a node sends one response
    for each line it gets, whatever the line holds and whatever goes wrong. *)

From S2P Require Import Prelude.
From S2P Require Import PyMonad.
From S2P Require Import Text.
From S2P Require Import Parse.
From S2P Require Import PyDict.
From S2P Require Import Json.
From S2P Require Import Config.
From S2P Require Import Protocol.
From S2P Require Import ProtocolFacts.
From S2P Require Import Store.
From S2P Require Import Ring.
From S2P Require Import Election.
From S2P Require Import Membership.
From S2P Require Import Storage.
From S2P Require Import Coordinator.
From S2P Require Import ReadCoordinator.
From S2P Require Import Routing.
From S2P Require Import RateLimiter.
From S2P Require Import Merkle.
From S2P Require Import MerkleFacts.
From S2P Require Import Node.
From S2P Require Import NodeReads.
From S2P Require Import NodeAdmin.
From S2P Require Import NodeLoop.
From S2P Require Import NodeFacts.
From Stdlib Require Import QArith.
#[local] Open Scope Z_scope.

Module NodeAnswers.
Import Message Protocol ProtocolF Node NodeReads NodeAdmin NodeLoop NodeF.

(** ** What a handler returns *)

Section handlers.
Context `{RingHash}.
Context (now rto : time) (exn_str : exn → string) (jfloat : Q → json).
Context (draw : string → Q) (bp_draw : Q).
Context (exchange : string → Z → Message → option Message).
Context (call : string → Z → string → list string → reply).
Context (arrival : list string → list string).

(** The arguments of the write that a command has another node do. *)
Inductive forwards : string → list string → list string → Prop :=
  | forwards_set key value rest ttl :
      match rest with [] => Ok None | t :: _ => res_map Some (py_int t) end = Ok ttl →
      forwards "SET" (key :: value :: rest) (forward_args "SET" key (JStr value) ttl)
  | forwards_setex key t value rest ttl :
      py_int t = Ok ttl → forwards "SETEX" (key :: t :: value :: rest) (forward_args "SET" key (JStr value) (Some ttl))
  | forwards_delete cmd key rest :
      cmd = "DELETE"%string ∨ cmd = "DEL"%string →
      forwards cmd (key :: rest) (forward_args "DELETE" key JNull None).

(** What another node answered to a write, with an object as its payload. *)
Definition answered_write (wargs : list string) (a : Message) : Prop :=
  (∃ host port, call host port "__LEADER_WRITE" wargs = Answer a) ∧ ∃ d, payload a = JObj d.

Definition own_or_write (wargs : list string) (a : Message) : Prop := is_answer a ∨ answered_write wargs a.

(** A response to a command: the node's own, or another node's to the write of
    this command. *)
Definition response (cmd : string) (args : list string) (a : Message) : Prop :=
  is_answer a ∨ ∃ wargs, forwards cmd args wargs ∧ answered_write wargs a.

Lemma ok_own wargs d : own_or_write wargs (ok_response d).
Proof. left. apply ok_is_answer. Qed.
Lemma error_own wargs e : own_or_write wargs (error_response e).
Proof. left. apply error_is_answer. Qed.
#[local] Hint Resolve ok_own error_own : yields.

Lemma write_responds wargs op key value ttl :
  yields (own_or_write wargs) (_apply_partition_write now draw exchange op key value ttl).
Proof. eapply yields_mono; [|apply apply_write_answers]. by left. Qed.
#[local] Hint Resolve write_responds : yields.

(** A forwarded write gives what the target answered, or an error. *)
Lemma forward_responds rounds target op key value ttl :
  yields (own_or_write (forward_args op key value ttl)) (forward_rounds call rounds target op key value ttl).
Proof.
  revert target. induction rounds as [|rounds IH]; intros target; cbn [forward_rounds]; [solve_yields|].
  apply yields_bind; intros n. destruct (get_node n target) as [node|]; [|solve_yields].
  destruct (decide (NodeInfo.state node = ALIVE)); [|solve_yields].
  apply (yields_bind_with (λ r, r = call (NodeInfo.host node) (NodeInfo.client_port node) "__LEADER_WRITE"
    (forward_args op key value ttl))); [by intros s|]. intros r Hr.
  destruct r as [| |a]; [solve_yields..|].
  assert (Ha : ∀ d, payload a = JObj d → own_or_write (forward_args op key value ttl) a).
  { intros d Hd. right. split; [by do 2 eexists|by exists d]. }
  destruct (payload a) as [| | | | | |d] eqn:Ed; solve_yields.
Qed.
#[local] Hint Resolve forward_responds : yields.

Lemma coordinate_responds op key value ttl :
  yields (own_or_write (forward_args op key value ttl)) (_coordinate_or_forward_write now draw exchange call op key value ttl).
Proof. unfold _coordinate_or_forward_write, _forward_write. solve_yields. Qed.

(** A handler of writes forwards the write of its command. *)
Lemma write_command cmd args op key value ttl : forwards cmd args (forward_args op key value ttl) →
  yields (response cmd args) (_coordinate_or_forward_write now draw exchange call op key value ttl).
Proof.
  intros Hf. eapply yields_mono; [|apply coordinate_responds]. intros a [?|?]; [by left|]. right. by eexists.
Qed.

Lemma ok_response_ok cmd args d : response cmd args (ok_response d).
Proof. left. apply ok_is_answer. Qed.
Lemma error_response_ok cmd args e : response cmd args (error_response e).
Proof. left. apply error_is_answer. Qed.
#[local] Hint Resolve ok_response_ok error_response_ok : yields.

Lemma set_responds args : yields (response "SET" args) (_handle_set now draw exchange call args).
Proof.
  unfold _handle_set. destruct args as [|key [|value rest]]; [solve_yields..|].
  destruct (match rest with [] => _ | _ => _ end) as [ttl|x] eqn:E; [|solve_yields].
  apply write_command. by constructor.
Qed.

Lemma setex_responds args : yields (response "SETEX" args) (_handle_setex now draw exchange call args).
Proof.
  unfold _handle_setex. destruct args as [|key [|t [|value rest]]]; [solve_yields..|].
  destruct (py_int t) as [ttl|x] eqn:E; [|solve_yields]. apply write_command. by constructor.
Qed.

Lemma delete_responds cmd args : cmd = "DELETE"%string ∨ cmd = "DEL"%string →
  yields (response cmd args) (_handle_delete now draw exchange call args).
Proof.
  intros Hc. unfold _handle_delete. destruct args as [|key rest]; [solve_yields|]. apply write_command. by constructor.
Qed.

Section command.
Context (cmd : string) (args : list string).
Abbreviation responds_to := (yields (response cmd args)).

Lemma inject_responds f answer : responds_to (inject now rto draw f answer).
Proof. unfold inject. solve_yields. Qed.
#[local] Hint Resolve inject_responds : yields.

Lemma fault_responds fargs : responds_to (_handle_fault now rto jfloat draw fargs).
Proof. unfold _handle_fault. cbv zeta. solve_yields. Qed.
#[local] Hint Resolve fault_responds : yields.

Lemma report_responds f : (∀ n, response cmd args (f n)) → responds_to (report f).
Proof. intros Hf. unfold report. apply yields_bind; intros n. by apply yields_ret. Qed.

Lemma ring_responds rargs n : responds_to (lift (_handle_ring rargs n) : proc Message).
Proof.
  apply yields_lift. intros a. unfold _handle_ring.
  destruct (match rargs with [] => _ | _ => _ end); [|done]. intros [= <-]. apply ok_response_ok.
Qed.
#[local] Hint Resolve ring_responds : yields.

(** Reads the handler down to its responses. *)
Tactic Notation "responds" reference(h) := unfold h; cbv beta zeta; solve_yields.

Lemma own_write_responds op key value ttl :
  responds_to (_apply_partition_write now draw exchange op key value ttl).
Proof. eapply yields_mono; [|apply apply_write_answers]. by left. Qed.
#[local] Hint Resolve own_write_responds : yields.

Lemma internal_write_responds wargs :
  responds_to (_handle_leader_write now draw exchange wargs) ∧
  responds_to (_handle_owner_write now draw exchange wargs).
Proof.
  split; [unfold _handle_leader_write|unfold _handle_owner_write];
    (destruct (parse_internal_write _ _ wargs) as [e|[[[op key] value] ttl]] eqn:Ep; [|solve_yields]);
    apply yields_ret; left; unfold parse_internal_write in Ep; repeat case_match; simplify_eq; apply error_is_answer.
Qed.

Lemma dispatch_responds : responds_to (dispatch now rto jfloat draw exchange call arrival cmd args).
Proof.
  unfold dispatch. destruct (internal_write_responds args).
  repeat (let Hcmd := fresh in case_decide as Hcmd; [first
    [ assumption
    | rewrite Hcmd; apply set_responds | rewrite Hcmd; apply setex_responds | by apply delete_responds
    | apply report_responds; intros n; first [responds _handle_info | responds _handle_replicas | responds _handle_route | by apply ok_response_ok]
    | responds _handle_get | responds _handle_exists | responds _handle_keys | responds _handle_shards | responds _handle_rebalance
    | responds _handle_failover | responds _handle_local_read | responds _handle_local_keys
    | responds _handle_replica_set | responds _handle_import_keys | solve_yields ]|]).
  solve_yields.
Qed.
End command.

(** A response to a message: to its command, if it has one. *)
Definition response_to (m : Message) (a : Message) : Prop :=
  is_answer a ∨ ∃ cmd args, command_of (payload m) = Ok (cmd, args) ∧ response cmd args a.

Lemma message_responds m :
  yields (response_to m) (_handle_client_message now rto exn_str jfloat draw bp_draw exchange call arrival m).
Proof.
  unfold _handle_client_message. cbv zeta. apply yields_bind; intros n. apply yields_bind; intros [].
  destruct (RateLimit.should_accept_request _ _ _ _).2; [|apply yields_ret; left; apply error_is_answer].
  apply (yields_bind_with (λ c, command_of (payload m) = Ok c)); [by apply yields_lift|]. intros [cmd args] Hc s.
  cbn [fst snd]. destruct (catch_result (response cmd args) (dispatch now rto jfloat draw exchange call arrival cmd args)
    (λ x, error_response (exn_str x)) s) as (a & -> & Ha); [apply dispatch_responds|intros x; apply error_response_ok|].
  right. by exists cmd, args.
Qed.

(** A command that the node lets in and can decode has a response, whatever
    its handler does or raises; a refused one is told so, and an undecodable one
    raises, which the server turns into its error response.  Only the commands
    that are run touch more of the node than the rate limiter. *)
Theorem every_command_answered m n :
  let r := RateLimit.should_accept_request now bp_draw (backpressure n) (str_or (sender_id m) "default") in
  let run := _handle_client_message now rto exn_str jfloat draw bp_draw exchange call arrival m n in
  (r.2 = false → run = (set_backpressure r.1 n, [], Ok (error_response "Rate limited - try again later"))) ∧
  (r.2 = true → match command_of (payload m) with
                | Raise x => run = (set_backpressure r.1 n, [], Raise x)
                | Ok (cmd, args) =>
                    ∃ a, result_of run = Ok a ∧ response cmd args a ∧
                      (∀ x, result_of (dispatch now rto jfloat draw exchange call arrival cmd args
                                         (set_backpressure r.1 n)) = Raise x → a = error_response (exn_str x))
                end).
Proof.
  cbv zeta. unfold _handle_client_message. rewrite get_bind. cbv zeta. rewrite modify_bind.
  set (r := RateLimit.should_accept_request _ _ _ _). destruct r.2; (split; [try done|try done]); intros _.
  destruct (command_of (payload m)) as [[cmd args]|x]; [|by rewrite lift_raise_bind].
  rewrite lift_ok_bind. cbn [fst snd]. set (n' := set_backpressure r.1 n).
  set (p := dispatch now rto jfloat draw exchange call arrival cmd args).
  destruct (catch_result (response cmd args) p (λ x, error_response (exn_str x)) n') as (a & Ha & Hr);
    [apply dispatch_responds|intros ?; apply error_response_ok|].
  exists a. split; [exact Ha|]. split; [exact Hr|]. intros x Hx.
  unfold catch, result_of in *. destruct (p n') as [[n1 es] [b|y]]; simpl in *; [done|]. congruence.
Qed.

End handlers.

(** ** The client port *)

Section port.
Context `{RingHash} `{MerkleHash}.
(** What happens around the messages of one connection: the world of each, and
    what else reaches the node before it, from other connections, other nodes
    and its own loops. *)
Context (ws : nat → world) (between : nat → list (world * input)) (exn_str : exn → string).

(** The node and the number of messages of the connection that it has handled. *)
Definition client_handler (s : DatabaseNode * nat) (m : Message) : (DatabaseNode * nat) * res (option Message) :=
  let r := react (ws s.2) (ClientMessage m) (run_node s.1 (between s.2)) in ((state_of r, Datatypes.S s.2), result_of r).

(** A response to a line, in the world of the message that it holds: a line
    that holds none is answered by the error of its decoding. *)
Definition line_response (k : nat) (line : string) (a : Message) : Prop :=
  match decode line with
  | Ok m => response_to (w_call (ws k)) m a
  | Raise x => a = error_response (exn_str x)
  end.

Definition next (k : nat) (line : string) : nat := match decode line with Ok _ => Datatypes.S k | Raise _ => k end.

(** The responses to the lines: one for each line that is not empty, in order. *)
Inductive answered : nat → list string → list Message → Prop :=
  | answered_none k : answered k [] []
  | answered_empty k ls out : answered k ls out → answered k (EmptyString :: ls) out
  | answered_line k l a ls out :
      l ≠ EmptyString → line_response k l a → answered (next k l) ls out → answered k (l :: ls) (a :: out).

Lemma line_answered s line : line ≠ EmptyString →
  let r := Server.serve_line client_handler exn_str s line in
  ∃ a, r.2 = [a] ∧ line_response s.2 line a ∧ r.1.2 = next s.2 line.
Proof.
  intros Hne. unfold Server.serve_line. destruct line as [|c line]; [done|]. cbn [truthy_str].
  set (l := String c line). unfold next, line_response.
  destruct (decode l) as [m|x]; [|by eexists].
  unfold client_handler. set (w := ws s.2). set (r := react w (ClientMessage m) (run_node s.1 (between s.2))).
  assert (Hr : match result_of r with Ok (Some a) => response_to (w_call w) m a | Ok None => False | Raise _ => True end).
  { subst r. unfold react, mbind, prog_bind.
    pose proof (message_responds (w_now w) (w_rto w) (w_exn_str w) (w_jfloat w) (w_draw w) (w_bp_draw w)
      (w_exchange w) (w_call w) (w_arrival w) m (run_node s.1 (between s.2))) as Hm.
    by destruct (_handle_client_message _ _ _ _ _ _ _ _ _ _ _) as [[n es] [a|x]]. }
  destruct (result_of r) as [[a|]|x]; [by exists a|done|].
  eexists. split; [done|]. split; [left; apply error_is_answer|done].
Qed.

Lemma empty_line s : Server.serve_line client_handler exn_str s EmptyString = (s, []).
Proof. done. Qed.

Lemma lines_answered ls s : answered s.2 ls (serve_lines client_handler exn_str s ls).2.
Proof.
  revert s. induction ls as [|l ls IH]; intros s; [constructor|]. cbn [serve_lines].
  destruct (decide (l ≠ EmptyString)) as [Hl|Hl].
  - destruct (line_answered s l Hl) as (a & Ha & Hok & Hk). rewrite Ha.
    specialize (IH (Server.serve_line client_handler exn_str s l).1). rewrite Hk in IH.
    destruct (serve_lines _ _ _ ls) as [s' out]. by constructor.
  - apply dec_stable in Hl as ->. rewrite empty_line. cbn [fst snd]. specialize (IH s).
    destruct (serve_lines _ _ _ ls). by constructor.
Qed.

Lemma answered_length k ls out : answered k ls out → length out = length (base.filter (λ l, l ≠ EmptyString) ls).
Proof.
  induction 1 as [|k ls out _ IH|k l a ls out Hl _ _ IH]; [done| |].
  - rewrite filter_cons_False; [done|]. by intros [].
  - rewrite filter_cons_True by done. cbn [length]. by rewrite IH.
Qed.

(** Claim C8. Whatever text comes in at a connection of the client port, however it
    is cut into chunks, and whatever commands of other connections, cluster
    messages and loop rounds reach the node before each of its messages: every
    complete line that is not empty is answered by exactly one response, in order.
    A line that holds no message is answered by the error of its decoding.  Any
    other response is the node's own, errors included, or, when the line holds a
    SET, SETEX, DELETE or DEL, what another node answered to this very write. *)
Theorem client_port_answers n chunks ls torn
    (Hne : Forall (λ c, c ≠ EmptyString) chunks)
    (Htext : concat_str chunks = String.append (concat_str (line_text <$> ls)) torn)
    (Hls : Forall (λ l, str_has newline l = false) ls) (Htorn : str_has newline torn = false) :
  let out := (Server._handle_client client_handler exn_str (n, 0%nat) chunks).2 in
  length out = length (base.filter (λ l, l ≠ EmptyString) ls) ∧ answered 0 ls out.
Proof.
  cbv zeta. unfold Server._handle_client. rewrite handle_loop_text by done.
  rewrite str_app_nil_l, Htext, drain_lines by done.
  pose proof (lines_answered ls (n, 0%nat)) as Hout. destruct (serve_lines _ _ (n, 0%nat) ls) as [s' out].
  split; [by eapply answered_length|exact Hout].
Qed.

End port.

(** ** Witnesses *)

#[local] Existing Instance NodeF.demo_hash.

Definition demo_world : world :=
  mkWorld 5 (seconds 3) (λ _, "error"%string) (λ _, JNull) (λ _, 0%Q) (λ _, 0) 0%Q (λ _ _ _, None)
    (λ _ _ _ _, NoConnection) (λ xs, xs).

(** A PING is answered; so are a line that is no message and a bad RING. *)
Definition demo_lines : list string :=
  [frame (create_command "PING" [] "cli"); EmptyString; "hello"; frame (create_command "RING" [JStr "x"] "cli")]%string.

(** Before the third message a command of another client arrives. *)
Definition demo_between (k : nat) : list (world * input) :=
  if decide (k = 2%nat) then [(demo_world, ClientMessage (create_command "PING" [] "other"))] else [].

Lemma client_port_answers_witness :
  let out := (Server._handle_client (client_handler (λ _, demo_world) demo_between) (λ _, "error"%string) (demo_leader, 0%nat)
    [concat_str (line_text <$> demo_lines)]).2 in
  length out = 3%nat ∧ answered (λ _, demo_world) (λ _, "error"%string) 0 demo_lines out.
Proof.
  apply (client_port_answers (λ _, demo_world) demo_between (λ _, "error"%string) demo_leader
    [concat_str (line_text <$> demo_lines)] demo_lines EmptyString).
  - repeat constructor. by vm_compute.
  - reflexivity.
  - repeat constructor.
  - reflexivity.
Defined.

Lemma every_command_answered_witness :
  let r := RateLimit.should_accept_request 5 0%Q (backpressure demo_leader) "cli" in
  let run := _handle_client_message 5 (seconds 3) (λ _, "error"%string) (λ _, JNull) (λ _, 0%Q) 0%Q (λ _ _ _, None)
    (λ _ _ _ _, NoConnection) (λ xs, xs) (create_command "PING" [] "cli") demo_leader in
  r.2 = true ∧ (∃ a, result_of run = Ok a ∧ response (λ _ _ _ _, NoConnection) "PING" [] a).
Proof.
  pose proof (every_command_answered 5 (seconds 3) (λ _, "error"%string) (λ _, JNull) (λ _, 0%Q) 0%Q (λ _ _ _, None)
    (λ _ _ _ _, NoConnection) (λ xs, xs) (create_command "PING" [] "cli") demo_leader) as [_ H].
  split; [reflexivity|]. destruct (H eq_refl) as (a & Ha & Hr & _). by exists a.
Defined.

End NodeAnswers.
