(* ===== verification/NodeReadFacts.v ===== *)
(** The node's reads: replicas read and repaired over the client port, and what
    happens to reads when replicas cannot be reached. *)

From S2P Require Import Prelude.
From S2P Require Import PyMonad.
From S2P Require Import Text.
From S2P Require Import PyDict.
From S2P Require Import Json.
From S2P Require Import JsonFacts.
From S2P Require Import Config.
From S2P Require Import Fields.
From S2P Require Import Parse.
From S2P Require Import Protocol.
From S2P Require Import Store.
From S2P Require Import Ring.
From S2P Require Import Membership.
From S2P Require Import Storage.
From S2P Require Import StorageFacts.
From S2P Require Import Coordinator.
From S2P Require Import ReadCoordinator.
From S2P Require Import ReadFacts.
From S2P Require Import LastWriter.
From S2P Require Import Node.
From S2P Require Import NodeReads.
From S2P Require Import NodeFacts.
From Stdlib Require Import QArith.
#[local] Open Scope Z_scope.

Module NodeReadF.
Import Message Protocol Node NodeReads NodeF.

Section reads.
Context `{RingHash}.
Context (now : time) (exn_str : exn → string).
Context (call : string → Z → string → list string → reply).

(** ** Reading a replica *)

Lemma decode_local_read m : decode_answer (local_read_data m) = Ok (to_answer m).
Proof.
  destruct m as [m|]; [|reflexivity]. unfold local_read_data, decode_answer, to_answer.
  by destruct (KVStore.expires_at m).
Qed.

(** A replica and what the caller reaches at its address. *)
Record reaches (n replica : DatabaseNode) (target : string) (cmd : string)
    (handler : list string → proc Message) : Prop := {
  r_info : ∃ info, get_node n target = Some info ∧ NodeInfo.state info = ALIVE ∧
    ∀ args, call (NodeInfo.host info) (NodeInfo.client_port info) cmd args =
      Answer (served exn_str (result_of (handler args replica)));
}.

Lemma remote_answer n replica target key :
  reaches n replica target "__LOCAL_READ" (_handle_local_read now) →
  _get_remote_value_for_read call n key target = local_answer now replica key.
Proof.
  intros [(info & Hget & _ & Hcall)].
  unfold _get_remote_value_for_read, local_answer. rewrite Hget, Hcall.
  unfold _handle_local_read. erewrite bind_silent; [|apply lookup_key].
  cbn [result_of served]. unfold served, result_of, mret, prog_ret. cbn [snd].
  set (d := local_read_data _).
  change (is_success (ok_response d)) with true. cbv beta iota.
  change (res_bind (get_default (payload (ok_response d)) "data" (JObj [])) decode_answer) with (decode_answer d).
  unfold d. by rewrite decode_local_read.
Qed.

(** What a replica reads is its value that has not expired. *)
Lemma local_answer_current n key :
  match LastWriter.current now (storage n) key with
  | Some m => local_answer now n key = (KVStore.value m, KVStore.version m, true,
       Read.mkReadMeta (KVStore.updated_at m) (KVStore.created_at m) (KVStore.expires_at m) (KVStore.coordinator_id m))
  | None => local_answer now n key = no_value
  end.
Proof.
  unfold local_answer, LastWriter.current, StorageF.lookup, KVStore.get_with_metadata.
  destruct (dict_get _ key) as [m|]; [|done]. by destruct (KVStore.is_expired now m).
Qed.

(** Claim C25. Reading a key from a remote replica that answers gives what the
    replica itself reads from its store: value, version, expiry, times and
    coordinator all survive the answer's JSON, and an absent or expired key is
    reported as absent. *)
Theorem remote_read_is_local_read n replica target key
    (Hreach : reaches n replica target "__LOCAL_READ" (_handle_local_read now)) :
  _get_remote_value_for_read call n key target = local_answer now replica key ∧
  match LastWriter.current now (storage replica) key with
  | Some m => _get_remote_value_for_read call n key target =
      (KVStore.value m, KVStore.version m, true,
       Read.mkReadMeta (KVStore.updated_at m) (KVStore.created_at m) (KVStore.expires_at m) (KVStore.coordinator_id m))
  | None => _get_remote_value_for_read call n key target = no_value
  end.
Proof.
  assert (Heq : _get_remote_value_for_read call n key target = local_answer now replica key) by by apply remote_answer.
  split; [exact Heq|]. rewrite Heq. apply local_answer_current.
Qed.

(** ** Repairing a replica *)

Lemma expiry_arg_dump o :
  expiry_arg (match o with None => EmptyString | Some t => dump_float t end) = o.
Proof.
  unfold expiry_arg. destruct o as [t|]; [|by rewrite decide_True by auto].
  pose proof (py_float_dump t) as Ht. rewrite decide_False; [by rewrite Ht|].
  intros [Hs|[Hs|Hs]]; rewrite Hs in Ht; by vm_compute in Ht.
Qed.

Lemma handle_replica_args key value version m r : json_wf value →
  _handle_replica_set now (replica_args key value version m) r =
  (written ← in_storage (Storage.put_newer now key value version (Read.m_expires_at m) (Read.m_created_at m)
                           (Read.m_updated_at m) (Read.m_coordinator_id m));
   mret (ok_response (JStr (if written : bool then "OK" else "IGNORED")))) r.
Proof.
  intros Hv. unfold _handle_replica_set, replica_args.
  rewrite py_int_pretty, !py_float_dump, expiry_arg_dump. unfold loads_or_text.
  by rewrite loads_dumps.
Qed.

(** The stamps of a repair as [_apply_repair_data] reads them: a missing or zero
    update time is the present, a missing or zero creation time the update time. *)
Definition restamped (m : Read.read_meta) : Read.read_meta :=
  let updated_at := Storage.time_or (Some (Read.m_updated_at m)) now in
  Read.mkReadMeta updated_at (Storage.time_or (Some (Read.m_created_at m)) updated_at)
    (Read.m_expires_at m) (Read.m_coordinator_id m).

Lemma restamped_same m : Read.m_updated_at m ≠ 0 → Read.m_created_at m ≠ 0 → restamped m = m.
Proof.
  destruct m as [u c e co]. unfold restamped, Storage.time_or, truthy_time. simpl. intros Hu Hc.
  by destruct (Z.eqb_spec u 0), (Z.eqb_spec c 0).
Qed.

Lemma local_repair_run key value version m replica : json_wf value →
  state_of (_repair_value now call key value version None (Some m) replica) =
  state_of (_handle_replica_set now (replica_args key value version (restamped m)) replica).
Proof.
  intros Hv. rewrite handle_replica_args by done. unfold _repair_value. rewrite get_bind.
  cbn [default truthy_str negb orb]. unfold mbind, prog_bind. rewrite !in_storage_run.
  change (Storage._apply_repair_data now (node_id replica) key value version (to_repair_meta (Some m))) with
    (Storage.put_newer now key value version (Read.m_expires_at (restamped m)) (Read.m_created_at (restamped m))
      (Read.m_updated_at (restamped m)) (Read.m_coordinator_id (restamped m))).
  by destruct (result_of _).
Qed.

(** Claim C26. A repair with a JSON value has the same effect on a remote replica
    as it would have on the node's own store when both its times are set: the
    arguments of [__REPLICA_SET] carry the value and its metadata unchanged, and
    the replica writes them to store and file under the same newest-wins rule.  In
    general the local repair is the remote one with its times filled in: only the
    local path replaces an update time of zero by the present, and a creation time
    of zero by the update time. *)
Theorem remote_repair_is_local_repair key value version m replica (Hv : json_wf value) :
  (Read.m_updated_at m ≠ 0 → Read.m_created_at m ≠ 0 →
   state_of (_handle_replica_set now (replica_args key value version m) replica) =
   state_of (_repair_value now call key value version None (Some m) replica)) ∧
  state_of (_repair_value now call key value version None (Some m) replica) =
    state_of (_handle_replica_set now (replica_args key value version (restamped m)) replica).
Proof.
  pose proof (local_repair_run key value version m replica Hv) as Hrun. split; [|exact Hrun].
  intros Hu Hc. by rewrite Hrun, restamped_same.
Qed.

(** A value without an update time: the remote replica keeps the newer value that it
    holds, and the local repair, stamped with the present, replaces it. *)
Theorem unstamped_repair_wins_locally key value version created co replica old
    (Hv : json_wf value) (Hver : version ≠ 0) (Hready : LastWriter.aof_ready (storage replica))
    (Hold : LastWriter.current now (storage replica) key = Some old)
    (Hsame : KVStore.version old = version) (Hnewer : 0 < KVStore.updated_at old < now) :
  let m := Read.mkReadMeta 0 created None co in
  state_of (_handle_replica_set now (replica_args key value version m) replica) = replica ∧
  KVStore.value <$> LastWriter.current now (storage
    (state_of (_repair_value now call key value version None (Some m) replica))) key = Some value.
Proof.
  cbv zeta. set (m := Read.mkReadMeta 0 created None co).
  assert (Hrun : ∀ m', state_of (_handle_replica_set now (replica_args key value version m') replica) =
    set_storage (state_of (LastWriter.receive now key (LastWriter.mkPut value version (Read.m_expires_at m')
      (Read.m_created_at m') (Read.m_updated_at m') (Read.m_coordinator_id m')) (storage replica))) replica).
  { intros m'. rewrite handle_replica_args by done. unfold mbind, prog_bind. rewrite in_storage_run.
    unfold LastWriter.receive. cbn [LastWriter.p_value LastWriter.p_version LastWriter.p_expires_at
      LastWriter.p_created_at LastWriter.p_updated_at LastWriter.p_coordinator_id]. by destruct (result_of _). }
  rewrite local_repair_run, !Hrun by done. split.
  - erewrite LastWriter.receive_older; [|exact Hold|].
    + by destruct replica.
    + apply LastWriter.order_ltb_iff. right. split; [done|]. left. simpl. lia.
  - set (q := LastWriter.mkPut _ _ _ _ _ _).
    destruct (LastWriter.receive_spec now key q (storage replica) Hready) as (st' & b & -> & _ & Hk & _); [by split|].
    unfold LastWriter.current. cbn [storage set_storage state_of fst]. rewrite Hk, Hold. unfold LastWriter.newer_step.
    assert (Ho : Storage.order_ltb (LastWriter.order_of q) (Storage._metadata_sort_key old) = false).
    { apply LastWriter.order_ltb_false. right. split; [done|]. left. change (KVStore.updated_at old < now). lia. }
    by rewrite Ho.
Qed.

(** ** What a GET answers *)

Context (arrival : list string → list string).

(** The read coordinator with the node's callbacks. *)
Definition coordinated_read (n : DatabaseNode) (key : string) (c : ConsistencyLevel) :=
  Read.read (node_id n) (Config.replication_factor (config n)) (local_answer now n)
    (λ k t, Some (_get_remote_value_for_read call n k t)) (replicas n)
    (λ _, Coordinator.get_leader_id (cluster n)) arrival key c (read_stats n).

Definition get_response (key : string) (o : Read.outcome) : Message :=
  if Read.o_found o then ok_response (Read.o_value o)
  else if Read.o_quorum_failed o then error_response ("Quorum read failed for key " +:+ key)
  else ok_response JNull.

(** Repairs that raise are passed over. *)
Lemma repairs_pass {X} (f : X → proc ()) xs n :
  ∃ n' es, for_each (λ x, catch (f x) (λ _, mret ())) xs n = (n', es, Ok tt).
Proof.
  revert n. induction xs as [|x xs IH]; intros n; [by exists n, []|]. cbn [for_each].
  assert (∃ n1 es1, catch (f x) (λ _, mret ()) n = (n1, es1, Ok tt)) as (n1 & es1 & H1).
  { unfold catch. destruct (f x n) as [[n1 es1] [[]|y]]; [by eexists _, _|]. cbn. by eexists _, _. }
  destruct (IH n1) as (n2 & es2 & H2). exists n2, (es1 ++ es2). by eapply bind_ok.
Qed.

(** The answer to a GET is the coordinator's, whatever becomes of the repairs. *)
Lemma get_answer key rest n :
  result_of (_handle_get now call arrival (key :: rest) n) =
    res_map (get_response key) (result_of (coordinated_read n key (get_level n rest))).
Proof.
  unfold _handle_get. rewrite get_bind. set (c := get_level n rest).
  unfold read. rewrite <-bind_assoc, get_bind.
  set (first := if reads_local n key c then _ else _ : proc ()).
  assert (Hfirst : ∃ n1, first n = (n1, [], Ok tt)).
  { unfold first. destruct (reads_local n key c); [|by eexists].
    unfold _get_local_value_for_read. rewrite <-bind_assoc.
    erewrite bind_silent; [|apply lookup_key]. by eexists. }
  destruct Hfirst as [n1 Hfirst]. clearbody first. rewrite <-bind_assoc. erewrite bind_silent; [|exact Hfirst].
  fold (coordinated_read n key c). destruct (coordinated_read n key c) as [[s repairs] r].
  rewrite <-bind_assoc, modify_bind, <-bind_assoc.
  destruct (repairs_pass (λ rp, _repair_value now call (Read.rp_key rp) (Read.rp_value rp) (Read.rp_version rp)
    (Some (Read.rp_target rp)) (Some (Read.rp_meta rp))) repairs (set_read_stats s n1)) as (n2 & es & Hes).
  unfold mbind, prog_bind. rewrite Hes. by destruct r.
Qed.

(** ** Replicas that cannot be reached *)

Lemma unreachable_answer n key target :
  (∀ h p c a, call h p c a = NoConnection) → _get_remote_value_for_read call n key target = no_value.
Proof.
  intros Hcall. unfold _get_remote_value_for_read. destruct (get_node n target); [|done]. by rewrite Hcall.
Qed.

(** Every replica that answers is counted, and here all of them answer. *)
Lemma all_answers_collected n key m :
  (∀ xs, arrival xs = xs) →
  let results := Read._read_from_replicas (node_id n) (local_answer now n)
    (λ k t, Some (_get_remote_value_for_read call n k t)) arrival key (replicas n key) m in
  m <= Z.of_nat (length results) ∨ length results = length (replicas n key).
Proof.
  intros Harr. cbv zeta. unfold Read._read_from_replicas. rewrite Harr.
  set (rs := replicas n key). set (remotes := base.filter (λ r, r ≠ node_id n) rs).
  destruct (ReadF.gather_length (λ k t, Some (_get_remote_value_for_read call n k t)) key m remotes
    (omap (λ r, if decide (r = node_id n) then Read._read_local (node_id n) (local_answer now n) key true else None) rs))
    as [?|Hlen]; [by left|right]. rewrite Hlen.
  pose proof (f_equal length (ReadF.locals_nodes (node_id n) (local_answer now n) key rs)) as Hl.
  rewrite length_fmap in Hl. rewrite Hl. unfold remotes. clear.
  induction rs as [|r rs IH]; [done|]. rewrite !filter_cons.
  destruct (decide (r = node_id n)), (decide (r ≠ node_id n)); try done; cbn [length omap list_omap] in *;
    unfold omap, list_omap in *; lia.
Qed.

(** Unreachable replicas count as answers.  When no other node can be
    reached and the local store has no value, a QUORUM read does not fail: it
    answers with success and a null value, whatever the other replicas hold,
    as long as the ring names a quorum of replicas. *)
Theorem unreachable_quorum_reads_null key n
    (Hcall : ∀ h p c a, call h p c a = NoConnection) (Harr : ∀ xs, arrival xs = xs)
    (Hmiss : local_answer now n key = no_value)
    (Hring : Read.quorum_size (Config.replication_factor (config n)) <= Z.of_nat (length (replicas n key))) :
  result_of (_handle_get now call arrival [key; "QUORUM"%string] n) = Ok (ok_response JNull).
Proof.
  rewrite get_answer. change (get_level n ["QUORUM"%string]) with QUORUM.
  set (results := Read._read_from_replicas (node_id n) (local_answer now n)
    (λ k t, Some (_get_remote_value_for_read call n k t)) arrival key (replicas n key)
    (Read.quorum_size (Config.replication_factor (config n)))).
  assert (Hnone : base.filter (λ r, Read.is_present r = true) results = []).
  { apply pfilter_none. intros r Hr Hp. apply ReadF.collect_in in Hr as (_ & a & Ha & Hto); [|by intros xs; rewrite Harr].
    unfold ReadF.answers in Ha. assert (a = no_value) as ->.
    { destruct (decide _); [congruence|]. rewrite unreachable_answer in Ha by done. congruence. }
    revert Hto Hp. generalize (Read.node_id r). intros x [= <-]. done. }
  assert (Hlen : (Z.of_nat (length results) <? Read.quorum_size (Config.replication_factor (config n))) = false).
  { apply Z.ltb_ge. destruct (all_answers_collected n key
      (Read.quorum_size (Config.replication_factor (config n))) Harr) as [Hge|Heq]; [done|].
    fold results in Heq. rewrite Heq. exact Hring. }
  unfold coordinated_read, Read.read, Read._read_quorum, Read.choose. fold results. by rewrite Hlen, Hnone.
Qed.

End reads.

#[local] Existing Instance NodeF.demo_hash.

(** ** Three nodes, one of them holding a value *)

Definition demo_put : LastWriter.put := LastWriter.mkPut (JStr "v") 3 (Some (seconds 60)) 1 2 "n1".

Definition demo_replica : DatabaseNode :=
  set_storage (state_of (LastWriter.receive 5 "k" demo_put (storage demo_follower))) demo_follower.

Definition demo_reach : string → Z → string → list string → reply := λ _ _ _ args,
  Answer (served (λ _, "error"%string) (result_of (_handle_local_read 5 args demo_replica))).

Lemma demo_reaches : reaches (λ _, "error"%string) demo_reach demo_leader demo_replica "n2" "__LOCAL_READ"
  (_handle_local_read 5).
Proof. split. exists (demo_info "n2" 7002). split; [by vm_compute|]. split; [by vm_compute|]. done. Qed.

Lemma remote_read_is_local_read_witness :
  _get_remote_value_for_read demo_reach demo_leader "k" "n2" =
    (JStr "v", 3, true, Read.mkReadMeta 2 1 (Some (seconds 60)) "n1").
Proof.
  destruct (remote_read_is_local_read 5 (λ _, "error"%string) demo_reach demo_leader demo_replica "n2" "k"
    demo_reaches) as [-> _].
  by vm_compute.
Defined.

Lemma remote_repair_is_local_repair_witness :
  state_of (_handle_replica_set 5 (replica_args "k" (JStr "w") 4 (Read.mkReadMeta 3 1 None "n3")) demo_replica) =
  state_of (_repair_value 5 demo_reach "k" (JStr "w") 4 None (Some (Read.mkReadMeta 3 1 None "n3")) demo_replica).
Proof. apply remote_repair_is_local_repair; [exact I|discriminate|discriminate]. Defined.

Lemma unstamped_repair_wins_locally_witness :
  let m := Read.mkReadMeta 0 1 None "n3" in
  state_of (_handle_replica_set 5 (replica_args "k" (JStr "w") 3 m) demo_replica) = demo_replica ∧
  KVStore.value <$> LastWriter.current 5 (storage
    (state_of (_repair_value 5 demo_reach "k" (JStr "w") 3 None (Some m) demo_replica))) "k" = Some (JStr "w").
Proof.
  apply (unstamped_repair_wins_locally 5 demo_reach "k" (JStr "w") 3 1 "n3" demo_replica (LastWriter.put_meta demo_put)).
  - exact I.
  - discriminate.
  - intros a Ha. vm_compute in Ha. discriminate.
  - by vm_compute.
  - reflexivity.
  - by vm_compute.
Defined.

Lemma unreachable_quorum_reads_null_witness :
  local_answer 5 demo_replica "k" ≠ no_value ∧
  result_of (_handle_get 5 (λ _ _ _ _, NoConnection) (λ xs, xs) ["k"; "QUORUM"]%string demo_leader) =
    Ok (ok_response JNull).
Proof.
  split; [by vm_compute|]. apply (unreachable_quorum_reads_null 5 (λ _ _ _ _, NoConnection) (λ xs, xs) "k" demo_leader).
  - reflexivity.
  - reflexivity.
  - by vm_compute.
  - apply Z.leb_le. by vm_compute.
Defined.
End NodeReadF.
