(* ===== verification/NodeMigrationFacts.v ===== *)
(** Moving keys between nodes: what the sender puts in a batch is what the
    receiver stores. *)

From S2P Require Import Prelude.
From S2P Require Import PyMonad.
From S2P Require Import Text.
From S2P Require Import PyDict.
From S2P Require Import Json.
From S2P Require Import JsonFacts.
From S2P Require Import Config.
From S2P Require Import Fields.
From S2P Require Import Protocol.
From S2P Require Import Store.
From S2P Require Import Ring.
From S2P Require Import Membership.
From S2P Require Import Storage.
From S2P Require Import StorageFacts.
From S2P Require Import LastWriter.
From S2P Require Import Coordinator.
From S2P Require Import ReadCoordinator.
From S2P Require Import Routing.
From S2P Require Import Migration.
From S2P Require Import Node.
From S2P Require Import NodeReads.
From S2P Require Import NodeFacts.
From stdpp Require Import sorting.
From Stdlib Require Import QArith.
#[local] Open Scope Z_scope.

Module NodeMigrationF.
Import Message Protocol Node NodeReads NodeF.
Import LastWriter.

(** The value an item carries. *)
Definition put_of (i : data_item) : put :=
  match i with
  | Item6 v e ver c u co => mkPut v ver e c u co
  | Item3 v e ver => mkPut v ver e 0 0 EmptyString
  end.

(** An item as [get_all_data] gives it, live, with its times set. *)
Definition item_ok (now : time) (i : data_item) : Prop :=
  match i with
  | Item6 v e ver c u co => json_wf v ∧ c ≠ 0 ∧ u ≠ 0 ∧ live_put now (put_of i)
  | Item3 _ _ _ => False
  end.

Definition data_ok (now : time) (data : dict string data_item) : Prop :=
  dict_wf data ∧ Forall (λ p, item_ok now p.2) data.

Section import.
Context `{RingHash}.
Context (now : time) (call : string → Z → string → list string → reply).

Definition meta_of (p : put) : Read.read_meta :=
  Read.mkReadMeta (p_updated_at p) (p_created_at p) (p_expires_at p) (p_coordinator_id p).

Lemma decode_item id i : item_ok now i →
  decode_import now (migration_item now id i) = Ok (p_version (put_of i), meta_of (put_of i)) ∧
  subscript (migration_item now id i) "value" = Ok (p_value (put_of i)) ∧
  json_wf (migration_item now id i).
Proof.
  destruct i as [v e ver c u co|]; [|done]. intros (Hv & Hc & Hu & _). split; [|split; [done|]].
  - set (item := migration_item now id (Item6 v e ver c u co)).
    assert (Htu : time_field item "updated_at" now = Ok u).
    { change (time_field item "updated_at" now) with (if negb (u =? 0) then Ok u else Ok now).
      by destruct (Z.eqb_spec u 0). }
    assert (Htc : time_field item "created_at" u = Ok c).
    { change (time_field item "created_at" u) with (if negb (c =? 0) then Ok c else Ok u).
      by destruct (Z.eqb_spec c 0). }
    unfold decode_import. change (res_bind (subscript item "version") as_int) with (@Ok Z ver).
    cbn [res_bind]. rewrite Htu. cbn [res_bind]. rewrite Htc.
    by destruct e.
  - unfold migration_item. apply json_wf_obj. split.
    { apply (bool_decide_unpack _). by vm_compute. }
    repeat (apply Forall_cons; split; [simpl; by first [done|destruct e]|]). by apply Forall_nil.
Qed.

(** Replicas that are told of a value only see calls. *)
Lemma replicate_value_runs key value version m targets n :
  ∃ es z, _replicate_value_to_nodes call key value version m targets n = (n, es, Ok z).
Proof.
  induction targets as [|t targets IH]; [by eexists _, _|]. cbn [_replicate_value_to_nodes].
  assert (Hone : ∃ es z, send_replica call key value version m t n = (n, es, Ok z)).
  { unfold send_replica. rewrite get_bind. repeat case_match; by eexists _, _. }
  destruct Hone as (es1 & x & H1), IH as (es2 & y & H2).
  eexists _, _. eapply bind_ok; [exact H1|]. eapply bind_ok; [exact H2|]. reflexivity.
Qed.

Lemma fan_out_runs items n : ∃ es z, fan_out call items n = (n, es, Ok z).
Proof.
  induction items as [|i items IH]; [by eexists _, _|]. cbn [fan_out]. rewrite get_bind.
  destruct (replicate_value_runs (i_key i) (i_value i) (i_version i) (i_meta i)
    (base.filter (λ r, r ≠ node_id n) (replicas n (i_key i))) n) as (es1 & x & H1).
  destruct IH as (es2 & y & H2).
  eexists _, _. eapply bind_ok; [exact H1|]. eapply bind_ok; [exact H2|]. reflexivity.
Qed.

Definition stored (n : DatabaseNode) (k : string) : option KVStore.KeyMetadata :=
  StorageF.lookup (Storage.store (storage n)) k.

(** One item of the payload is received like a repaired value. *)
Lemma import_step id k i rest imp sk fan n :
  aof_ready (storage n) → item_ok now i →
  ∃ n1 imp1 sk1 fan1,
    import_loop now ((k, migration_item now id i) :: rest) imp sk fan n =
      import_loop now rest imp1 sk1 fan1 n1 ∧
    imp1 + sk1 = imp + sk + 1 ∧ aof_ready (storage n1) ∧
    stored n1 k = newer_step (current now (storage n) k) (put_of i) ∧
    (∀ k', k' ≠ k → stored n1 k' = stored n k').
Proof.
  intros Hr Hi. destruct (decode_item id i Hi) as (Hdec & Hval & _).
  assert (Hlive : live_put now (put_of i)) by (destruct i; [apply Hi|done]).
  set (p := put_of i) in *. set (item := migration_item now id i) in *. clearbody item.
  cbn [import_loop]. rewrite Hdec, lift_ok_bind. cbv beta iota.
  destruct (get_meta_spec now k (storage n)) as (s1 & Hget & Hother & Hs1 & Hsame).
  set (n1 := set_storage (Storage.with_store (storage n) s1) n).
  assert (Hin : in_storage (Storage.store_get_meta now k) n = (n1, [], Ok (current now (storage n) k))).
  { rewrite in_storage_run. unfold state_of, result_of. by rewrite Hget. }
  erewrite bind_silent; [|exact Hin].
  destruct (older_than_stored (p_version p) (meta_of p) (current now (storage n) k)) eqn:Eo.
  - exists n1, imp, (sk + 1), fan. split; [done|]. split; [lia|]. split; [done|]. split; [|done].
    unfold stored. cbn [n1 storage set_storage Storage.with_store Storage.store]. rewrite Hs1.
    unfold older_than_stored in Eo. destruct (current now (storage n) k) as [m|]; [|done].
    unfold newer_step. change (order_of p) with (p_version p, Read.m_updated_at (meta_of p), Read.m_coordinator_id (meta_of p)).
    by rewrite Eo.
  - rewrite Hval, lift_ok_bind.
    destruct (receive_spec now k p (storage n1)) as (st' & b & Hrec & Hr' & Hk & Hk' & _); [done|done|].
    set (n2 := set_storage st' n1).
    assert (Hput : in_storage (Storage.put_newer now k (p_value p) (p_version p) (Read.m_expires_at (meta_of p))
      (Read.m_created_at (meta_of p)) (Read.m_updated_at (meta_of p)) (Read.m_coordinator_id (meta_of p))) n1 =
      (n2, [], Ok b)).
    { rewrite in_storage_run. unfold state_of, result_of.
      change (Storage.put_newer _ _ _ _ _ _ _ _) with (receive now k p). by rewrite Hrec. }
    erewrite bind_silent; [|exact Hput]. rewrite get_bind.
    eexists n2, (imp + 1), sk, _. split; [reflexivity|]. split; [lia|]. split; [done|]. split.
    + unfold stored. cbn [n2 storage set_storage]. rewrite Hk. f_equal. by apply current_after.
    + intros k' Hne. unfold stored. cbn [n2 storage set_storage]. rewrite Hk' by done. by apply Hother.
Qed.

(** What a key holds after a batch: the item's value unless the stored one is
    newer, and its old value when the batch does not mention it. *)
Definition after_batch (n : DatabaseNode) (data : dict string data_item) (k : string)
    : option KVStore.KeyMetadata :=
  match dict_get data k with
  | Some i => newer_step (current now (storage n) k) (put_of i)
  | None => stored n k
  end.

Lemma import_loop_spec id data imp sk fan n :
  aof_ready (storage n) → data_ok now data →
  ∃ n' es imp' sk' fan', import_loop now (dict_map_values (migration_item now id) data) imp sk fan n =
      (n', es, Ok (imp', sk', fan')) ∧
    imp' + sk' = imp + sk + Z.of_nat (length data) ∧ aof_ready (storage n') ∧
    ∀ k, stored n' k = after_batch n data k.
Proof.
  revert imp sk fan n. induction data as [|[k i] data IH]; intros imp sk fan n Hr [Hwf Hok].
  { exists n, [], imp, sk, fan. split; [reflexivity|]. split; [simpl; lia|]. done. }
  unfold dict_wf in Hwf. cbn in Hwf. apply NoDup_cons in Hwf as [Hk Hwf]. apply Forall_cons in Hok as [Hi Hok].
  destruct (import_step id k i (dict_map_values (migration_item now id) data) imp sk fan n Hr Hi)
    as (n1 & imp1 & sk1 & fan1 & Hstep & Hcount & Hr1 & Hk1 & Hother).
  destruct (IH imp1 sk1 fan1 n1 Hr1 (conj Hwf Hok)) as (n' & es & imp' & sk' & fan' & Hrun & Hcount' & Hr' & Hst).
  exists n', es, imp', sk', fan'. split; [by etransitivity; [exact Hstep|]|].
  split; [cbn [length]; lia|]. split; [done|]. intros k'. rewrite Hst. unfold after_batch. cbn [dict_get].
  destruct (decide (k' = k)) as [->|Hne].
  - assert (dict_get data k = None) as -> by by apply dict_get_None. exact Hk1.
  - rewrite Hother by done. destruct (dict_get data k'); [|done]. f_equal. unfold current.
    unfold stored in Hother. by rewrite Hother.
Qed.

(** A migrated batch arrives whole: the receiver decodes the payload
    the sender wrote and answers success, having stored every live item with
    its value, version, times and coordinator unless it already holds a newer
    value, counting each item as imported or skipped, and no other key
    changes.  So keys the sender deletes after this answer are not lost. *)
Theorem migrated_batch_arrives id data n
    (Hready : aof_ready (storage n)) (Hdata : data_ok now data) :
  ∃ n' es imported skipped replicated,
    _handle_import_keys now call [dumps (migration_payload now id data)] n =
      (n', es, Ok (ok_response (JObj [("imported", JInt imported); ("skipped", JInt skipped);
                                     ("replicated", JInt replicated)]%string))) ∧
    imported + skipped = Z.of_nat (length data) ∧ (∀ k, stored n' k = after_batch n data k) ∧
    aof_ready (storage n').
Proof.
  unfold _handle_import_keys. rewrite loads_dumps.
  2: { destruct Hdata as [Hwf Hok]. apply json_wf_obj. split.
       - unfold dict_wf, dict_keys, dict_map_values in *. by rewrite <-list_fmap_compose.
       - apply Forall_fmap. eapply Forall_impl; [exact Hok|]. intros [k i] Hi. by apply decode_item. }
  unfold migration_payload. cbv beta iota.
  destruct (import_loop_spec id data 0 0 [] n Hready Hdata) as (n' & es & imp & sk & fan & Hrun & Hc & Hr' & Hst).
  destruct (fan_out_runs fan n') as (es2 & z & Hfan).
  exists n', (es ++ es2 ++ []), imp, sk, z. split; [|split; [lia|by split]].
  eapply bind_ok; [exact Hrun|]. cbv beta iota. eapply bind_ok; [exact Hfan|]. reflexivity.
Qed.

End import.

#[local] Existing Instance NodeF.demo_hash.

(** Two items for a fresh node. *)
Definition demo_batch : dict string data_item :=
  [("a", Item6 (JInt 1) None 1 1 2 "n1"); ("b", Item6 (JStr "x") None 2 1 3 "n1")]%string.

Lemma demo_batch_ok : data_ok 5 demo_batch.
Proof.
  split; [apply (bool_decide_unpack _); by vm_compute|].
  repeat (apply Forall_cons; split; [by repeat split|]). by apply Forall_nil.
Qed.

Lemma migrated_batch_arrives_witness :
  ∃ n' es imported skipped replicated,
    _handle_import_keys 5 (λ _ _ _ _, NoConnection) [dumps (migration_payload 5 "n1" demo_batch)] demo_follower =
      (n', es, Ok (ok_response (JObj [("imported", JInt imported); ("skipped", JInt skipped);
                                     ("replicated", JInt replicated)]%string))) ∧
    imported + skipped = 2 ∧ KVStore.value <$> stored n' "b" = Some (JStr "x").
Proof.
  assert (Hr : aof_ready (storage demo_follower)) by (intros a Ha; vm_compute in Ha; discriminate).
  destruct (migrated_batch_arrives 5 (λ _ _ _ _, NoConnection) "n1" demo_batch demo_follower Hr demo_batch_ok)
    as (n' & es & i & s & r & Hrun & Hc & Hst & _).
  exists n', es, i, s, r. split; [exact Hrun|]. split; [exact Hc|]. rewrite Hst. by vm_compute.
Defined.
End NodeMigrationF.
