(* ===== verification/Handover.v ===== *)
(** Key migration between two nodes: the source runs a task of its migration
    manager with the node's callbacks, the target handles the calls that reach
    it, and every key stays at one of the two. *)

From S2P Require Import Prelude.
From S2P Require Import PyMonad.
From S2P Require Import PyDict.
From S2P Require Import Json.
From S2P Require Import Config.
From S2P Require Import Protocol.
From S2P Require Import Store.
From S2P Require Import StoreSpec.
From S2P Require Import Ring.
From S2P Require Import Aof.
From S2P Require Import Storage.
From S2P Require Import StorageFacts.
From S2P Require Import LastWriter.
From S2P Require Import Membership.
From S2P Require Import ReadCoordinator.
From S2P Require Import Migration.
From S2P Require Import MigrationFacts.
From S2P Require Import Coordinator.
From S2P Require Import Node.
From S2P Require Import NodeReads.
From S2P Require Import NodeFacts.
From S2P Require Import NodeMigrationFacts.
#[local] Open Scope Z_scope.

Module Handover.
Import Message Protocol Node NodeReads NodeF LastWriter StorageF NodeMigrationF.

(** ** What the manager's task does *)
Section manager.
Context `{RingHash} {V : Type}.
Context (ring : Ring.ConsistentHashRing) (local_keys : dict string V).
Context (send_keys : string → dict string V → res bool) (delete_keys : list string → res unit) (exn_str : exn → string).

Lemma execute_events now fin a m t : Migration.heap m !! a = Some t → NoDup (Migration.keys t) →
  ∃ m' es bs st failure,
    Migration._execute_migration ring local_keys send_keys delete_keys exn_str now fin a m = (m', es, Ok ()) ∧
    MigrationF.outcome ring local_keys send_keys delete_keys m t bs st failure es.
Proof.
  intros Ht Hnd. unfold Migration._execute_migration. rewrite modify_bind, get_bind.
  set (m1 := Migration.mutate a _ m).
  assert (Hm1 : Migration.heap m1 !! a = Some (Migration.set_started t now))
    by (unfold m1; simpl; by rewrite list_lookup_alter_eq, Ht).
  rewrite Hm1.
  destruct (MigrationF.transfer_spec ring local_keys send_keys delete_keys fin a (Migration.set_started t now) m1 Hnd)
    as (bs & es & r & Heq & _ & Ho).
  unfold catch, mbind, prog_bind. rewrite Heq.
  destruct r as [[]|x]; (eexists _, _, bs, _, _; split; [done|]); rewrite ?app_nil_r; exact Ho.
Qed.
End manager.

(** ** The node's side of it *)
Section source.
Context `{RingHash} (now : time) (call : string → Z → string → list string → reply).

Definition import_call (node : NodeInfo) (id : string) (b : dict string data_item) : node_event :=
  Called (NodeInfo.host node) (NodeInfo.client_port node) "__IMPORT_KEYS" [dumps (migration_payload now id b)].

Definition step (ev : Migration.event data_item) : Node.proc () :=
  catch (on_migration_event now call ev) (λ _, mret ()).

Lemma step_sent n tgt b ok :
  step (Migration.Sent tgt b ok) n =
    (n, match get_node n tgt with Some node => [import_call node (node_id n) b] | None => [] end, Ok tt).
Proof.
  unfold step, catch, on_migration_event, _send_migration_keys. unfold mbind, prog_bind, get_state.
  by destruct (get_node n tgt) as [node|].
Qed.

Lemma steps_sent n tgt node bs : get_node n tgt = Some node →
  for_each step (MigrationF.sent tgt bs) n = (n, import_call node (node_id n) <$> bs, Ok tt).
Proof.
  intros Hn. induction bs as [|b bs IH]; [done|]. unfold MigrationF.sent. rewrite fmap_cons. cbn [for_each].
  unfold mbind, prog_bind. rewrite step_sent, Hn. unfold MigrationF.sent in IH. by rewrite IH.
Qed.

(** Sends leave the node alone. *)
Lemma steps_silent n evs : Forall (λ ev : Migration.event data_item, match ev with Migration.Sent _ _ _ => True | _ => False end) evs →
  ∃ es, for_each step evs n = (n, es, Ok tt).
Proof.
  induction 1 as [|[tgt b ok|ks] evs Hev _ [es IH]]; [by exists []| |done]. cbn [for_each].
  unfold mbind, prog_bind. rewrite step_sent, IH. by eexists.
Qed.

Definition untouched (ks : list string) (st st' : Storage.storage) : Prop :=
  ∀ k, k ∉ ks → lookup (Storage.store st') k = lookup (Storage.store st) k.

#[local] Instance untouched_preorder ks : PreOrder (untouched ks).
Proof. split; [by intros st k|]. intros s1 s2 s3 H1 H2 k Hk. by rewrite H2, H1. Qed.

Lemma delete_untouched id ks : preserves (untouched ks) (Storage._delete_migrated_keys now id ks).
Proof.
  assert (Hall : ∀ ks', ks' ⊆ ks → preserves (untouched ks) (Storage._delete_migrated_keys now id ks')).
  2: by apply Hall.
  intros ks'. unfold Storage._delete_migrated_keys. induction ks' as [|k ks' IH]; intros Hsub; [apply preserves_ret|].
  cbn [for_each]. apply preserves_bind; [|intros _; apply IH; set_solver].
  assert (Hk : k ∈ ks) by set_solver.
  apply preserves_bind; [|intros m; apply preserves_bind; [|intros b]].
  - intros st k' Hk'. destruct (get_meta_spec now k st) as (s1 & -> & Hother & _). apply Hother. by intros ->.
  - intros st k' Hk'. change (lookup (KVStore.delete (Storage.store st) k).1 k' = lookup (Storage.store st) k').
    rewrite lookup_delete. by rewrite decide_False by (by intros ->).
  - apply preserves_state. intros st. destruct (Storage.aof st) as [a0|]; [|by intros k'].
    destruct (AOF.append now a0 _ _); by intros k'.
Qed.

Lemma step_deleted n ks : ∃ n' es r, step (Migration.Deleted ks) n = (n', es, r) ∧
  untouched ks (storage n) (storage n') ∧ es = [].
Proof.
  unfold step, on_migration_event, catch. rewrite get_bind, in_storage_run.
  pose proof (delete_untouched (node_id n) ks (storage n)) as Hu.
  destruct (result_of _); eexists _, _, _; (split; [reflexivity|]); by split.
Qed.

End source.

(** ** The target's side of it *)
Section target.
Context `{RingHash} (tnow : time) (tcall : string → Z → string → list string → reply).
(** Which of the calls the target got and handled. *)
Context (handled : node_event → bool).

Definition receive_call (T : DatabaseNode) (ev : node_event) : DatabaseNode :=
  match ev with
  | Called _ _ cmd args =>
      if handled ev && bool_decide (cmd = "__IMPORT_KEYS"%string)
      then state_of (_handle_import_keys tnow tcall args T) else T
  | _ => T
  end.

(** The target after the calls that the source made, in their order. *)
Definition receives (T : DatabaseNode) (es : list node_event) : DatabaseNode := fold_left receive_call es T.

Lemma payload_now now id b : data_ok tnow b → migration_payload now id b = migration_payload tnow id b.
Proof.
  intros [_ Hok]. unfold migration_payload. f_equal. unfold dict_map_values.
  induction Hok as [|[k i] b Hi _ IH]; [done|]. rewrite !fmap_cons. f_equal; [|exact IH]. cbn in Hi |- *.
  by destruct i.
Qed.

(** At least as new as [m]. *)
Definition as_new (m : KVStore.KeyMetadata) (o : option KVStore.KeyMetadata) : Prop :=
  ∃ m', o = Some m' ∧ Storage.order_ltb (Storage._metadata_sort_key m') (Storage._metadata_sort_key m) = false.

Lemma newer_step_new o m : as_new m (newer_step o (put_of (KVStore.to_item m))).
Proof.
  unfold newer_step.
  change (order_of (put_of (KVStore.to_item m))) with (Storage._metadata_sort_key m).
  destruct o as [m'|]; [destruct (Storage.order_ltb (Storage._metadata_sort_key m) _) eqn:E|].
  - exists m'. split; [done|]. by apply order_ltb_asym.
  - eexists. split; [reflexivity|]. apply order_ltb_irrefl.
  - eexists. split; [reflexivity|]. apply order_ltb_irrefl.
Qed.

(** What a batch delivers stays when later batches have other keys. *)
Lemma receive_batches now node id bs T (k : string) (m : KVStore.KeyMetadata) :
  aof_ready (storage T) → Forall (data_ok tnow) bs → NoDup (dict_keys (concat bs)) →
  Forall (λ b, handled (import_call now node id b) = true) bs →
  (k, KVStore.to_item m) ∈ concat bs →
  as_new m (stored (receives T (import_call now node id <$> bs)) k).
Proof.
  intros Hr Hok Hnd Hh Hin. 
  assert (Hone : ∀ T b, aof_ready (storage T) → data_ok tnow b → handled (import_call now node id b) = true →
    aof_ready (storage (receive_call T (import_call now node id b))) ∧
    ∀ k, stored (receive_call T (import_call now node id b)) k = after_batch tnow T b k).
  { clear. intros T b Hr Hb Hh. unfold receive_call, import_call in *. rewrite Hh. cbn [andb].
    rewrite bool_decide_eq_true_2 by done. rewrite payload_now by done.
    by destruct (migrated_batch_arrives tnow tcall id b T Hr Hb) as (n' & es & i & s & r & -> & _ & Hst & Hr'). }
  assert (Hrest : ∀ bs T, aof_ready (storage T) → Forall (data_ok tnow) bs →
    Forall (λ b, handled (import_call now node id b) = true) bs → k ∉ dict_keys (concat bs) →
    stored (receives T (import_call now node id <$> bs)) k = stored T k).
  { clear -Hone. induction bs as [|b bs IH]; intros T Hr Hok Hh Hk; [done|].
    apply Forall_cons in Hok as [Hb Hok], Hh as [Hhb Hh]. unfold dict_keys in Hk. cbn [concat] in Hk.
    rewrite fmap_app, elem_of_app in Hk. destruct (Hone T b Hr Hb Hhb) as [Hr' Hst].
    unfold receives. rewrite fmap_cons. cbn [fold_left]. fold (receives (receive_call T (import_call now node id b))
      (import_call now node id <$> bs)). rewrite IH by (done || tauto). rewrite Hst. unfold after_batch.
    rewrite (proj2 (dict_get_None b k)); [done|]. tauto. }
  revert T Hr Hok Hnd Hh Hin. induction bs as [|b bs IH]; intros T Hr Hok Hnd Hh Hin; [by apply not_elem_of_nil in Hin|].
  apply Forall_cons in Hok as [Hb Hok], Hh as [Hhb Hh]. unfold dict_keys in Hnd. cbn [concat] in Hnd, Hin.
  rewrite fmap_app in Hnd. apply NoDup_app in Hnd as (Hndb & Hdis & Hnd). destruct (Hone T b Hr Hb Hhb) as [Hr' Hst].
  unfold receives. rewrite fmap_cons. cbn [fold_left]. fold (receives (receive_call T (import_call now node id b))
    (import_call now node id <$> bs)).
  apply elem_of_app in Hin as [Hin|Hin]; [|by apply IH].
  rewrite Hrest; [|done|done|done|].
  - rewrite Hst. unfold after_batch. rewrite (dict_in_get b k _ Hndb Hin). apply newer_step_new.
  - intros Hk. apply (Hdis k); [|done]. apply list_elem_of_fmap. by exists (k, KVStore.to_item m).
Qed.

End target.

(** ** Both sides *)

Lemma for_each_app {S E X} (f : X → prog S E ()) xs ys s s1 es1 : for_each f xs s = (s1, es1, Ok tt) →
  for_each f (xs ++ ys) s = match for_each f ys s1 with (s2, es2, r) => (s2, es1 ++ es2, r) end.
Proof.
  revert s es1. induction xs as [|x xs IH]; intros s es1; cbn [for_each Datatypes.app].
  { intros [= <- <-]. by destruct (for_each f ys s) as [[??]?]. }
  unfold mbind, prog_bind. destruct (f x s) as [[s' es] [u|e]]; [|done].
  destruct (for_each f xs s') as [[s2 es2] r] eqn:Hr. intros [= -> <- ->].
  rewrite (IH _ _ Hr). destruct (for_each f ys s1) as [[??]?]. by rewrite app_assoc.
Qed.

Lemma cleanup_current now st k : KVFacts.wf (Storage.store st) →
  lookup (KVStore._cleanup_expired now (Storage.store st)) k = current now st k.
Proof.
  intros Hwf. apply option_eq. intros m. unfold lookup, current. rewrite KVFacts.cleanup_store by done. split.
  - intros [Hl Hm]%dict_get_Some_in%list_elem_of_filter. apply dict_in_get in Hm; [|done]. unfold lookup.
    rewrite Hm. unfold KVFacts.live in Hl. cbn in Hl. by rewrite Hl.
  - unfold lookup. destruct (dict_get _ k) as [m'|] eqn:Hm; [|done]. destruct (KVStore.is_expired now m') eqn:Hl; [done|].
    intros [= <-]. apply dict_in_get; [by apply dict_wf_filter|]. apply list_elem_of_filter.
    split; [exact Hl|by apply dict_get_Some_in].
Qed.

Lemma present_keys {V} (d : dict string V) ks : NoDup ks → NoDup (dict_keys (MigrationF.present d ks)).
Proof.
  intros Hnd. assert (Hsub : dict_keys (MigrationF.present d ks) `sublist_of` ks).
  { clear Hnd. induction ks as [|k ks IH]; [constructor|]. rewrite MigrationF.present_cons.
    destruct (dict_get d k); [|by constructor]. unfold dict_keys in *. rewrite fmap_cons. by constructor. }
  by eapply sublist_NoDup.
Qed.

Lemma present_elem {V} (d : dict string V) ks k v : k ∈ ks → dict_get d k = Some v → (k, v) ∈ MigrationF.present d ks.
Proof. intros Hk Hv. apply list_elem_of_omap. exists k. split; [done|]. by rewrite Hv. Qed.

Lemma present_get {V} (d : dict string V) ks k v : (k, v) ∈ MigrationF.present d ks → dict_get d k = Some v.
Proof.
  intros (k' & _ & H)%list_elem_of_omap. destruct (dict_get d k') as [v'|] eqn:E; [|done]. by injection H as -> ->.
Qed.

Section handover.
Context `{RingHash} (now fin : time) (exn_str : exn → string).
Context (call : string → Z → string → list string → reply).
Context (tnow : time) (tcall : string → Z → string → list string → reply) (handled : node_event → bool).

Definition run_task (a : nat) : Node.proc () :=
  in_migration now call (λ ring data send del, Migration._execute_migration ring data send del exn_str now fin a).

Definition cleaned (s : DatabaseNode) : DatabaseNode :=
  set_storage (Storage.with_store (storage s) (KVStore._cleanup_expired now (Storage.store (storage s)))) s.

(** The task's calls, and what it deletes, on the source. *)
Lemma run_task_steps s a t : Migration.heap (migration s) !! a = Some t → NoDup (Migration.keys t) →
  let data := (KVStore.get_all_data now (Storage.store (storage s))).2 in
  let send := λ tg d, Ok (send_migration_result now call (cleaned s) tg d) in
  ∃ m' evs bs st failure,
    MigrationF.outcome (ring s) data send (delete_result now (cleaned s)) (migration s) t bs st failure evs ∧
    run_task a s = match for_each (step now call) evs (set_migration m' (cleaned s)) with
                   | (s', es, Ok _) => (s', es, Ok tt)
                   | (s', es, Raise x) => (s', es, Raise x)
                   end.
Proof.
  intros Ht Hnd. cbv zeta. set (data := (KVStore.get_all_data _ _).2).
  set (send := λ tg d, Ok (send_migration_result now call (cleaned s) tg d)).
  set (del := delete_result now (cleaned s)).
  destruct (execute_events (ring s) data send del exn_str now fin a (migration s) t Ht Hnd)
    as (m' & evs & bs & st & failure & Hrun & Ho).
  exists m', evs, bs, st, failure. split; [exact Ho|].
  unfold run_task, in_migration.
  assert (Hdata : get_all_data now s = (cleaned s, [], Ok data)) by done.
  erewrite bind_silent by exact Hdata. rewrite get_bind.
  change (ring (cleaned s)) with (ring s). change (migration (cleaned s)) with (migration s). cbv beta. fold send del. rewrite Hrun.
  rewrite modify_bind. unfold mbind, prog_bind. change (for_each (λ ev, catch _ _) evs) with (for_each (step now call) evs).
  destruct (for_each (step now call) evs _) as [[s' es] [[]|x]]; [|done]. unfold lift. by rewrite app_nil_r.
Qed.

(** The data of a node are its live values. *)
Lemma data_get s k m : KVFacts.wf (Storage.store (storage s)) → current now (storage s) k = Some m →
  dict_get (KVStore.get_all_data now (Storage.store (storage s))).2 k = Some (KVStore.to_item m).
Proof.
  intros Hwf Hm. cbn [KVStore.get_all_data snd]. rewrite dict_get_map_values.
  rewrite <-cleanup_current in Hm by done. unfold lookup in Hm. by rewrite Hm.
Qed.

Lemma data_item_of s k i : KVFacts.wf (Storage.store (storage s)) →
  dict_get (KVStore.get_all_data now (Storage.store (storage s))).2 k = Some i →
  ∃ m, current now (storage s) k = Some m ∧ i = KVStore.to_item m.
Proof.
  intros Hwf Hi. cbn [KVStore.get_all_data snd] in Hi. rewrite dict_get_map_values in Hi.
  destruct (dict_get _ k) as [m|] eqn:Hm; [|done]. injection Hi as <-. exists m. split; [|done].
  by rewrite <-cleanup_current.
Qed.

(** A batch of a split of well-formed data. *)
Lemma concat_part (bs : list (dict string data_item)) b : b ∈ bs → b `sublist_of` concat bs.
Proof.
  induction bs as [|b0 bs IH]; [by intros ?%not_elem_of_nil|]. cbn [concat].
  intros [->|Hb]%elem_of_cons; [by apply sublist_inserts_r|by apply sublist_inserts_l, IH].
Qed.

Lemma data_ok_part (d b : dict string data_item) : b `sublist_of` d → NoDup (dict_keys d) →
  Forall (λ p, item_ok tnow p.2) d → data_ok tnow b.
Proof.
  intros Hsub Hnd Hok. split.
  - eapply sublist_NoDup; [exact Hnd|]. unfold dict_keys. by apply fmap_sublist.
  - apply Forall_forall. rewrite Forall_forall in Hok. intros p Hp. apply Hok.
    by apply (sublist_subseteq _ _ Hsub).
Qed.

(** The calls of the accepted batches, and the node after them. *)
Lemma accepted_steps s m' tgt bs : Forall (λ b, send_migration_result now call (cleaned s) tgt b = true) bs →
  ∃ node, for_each (step now call) (MigrationF.sent tgt bs) (set_migration m' (cleaned s)) =
      (set_migration m' (cleaned s), import_call now node (node_id s) <$> bs, Ok tt) ∧
    Forall (λ b, ∃ m, call (NodeInfo.host node) (NodeInfo.client_port node) "__IMPORT_KEYS"
      [dumps (migration_payload now (node_id s) b)] = Answer m ∧ is_success m = true) bs.
Proof.
  intros Hbs. destruct (get_node (cleaned s) tgt) as [node|] eqn:Hn.
  - exists node. split; [by apply (steps_sent now call (set_migration m' (cleaned s)))|].
    eapply Forall_impl; [exact Hbs|]. intros b. unfold send_migration_result. rewrite Hn.
    change (node_id (cleaned s)) with (node_id s).
    destruct (call _ _ _ _) as [| |m]; try done. by exists m.
  - destruct bs as [|b bs]; [by exists (NodeInfo.mkNode "" "" 0 0 DEAD FOLLOWER 0 0 0)|].
    apply Forall_cons in Hbs as [Hb _]. unfold send_migration_result in Hb. by rewrite Hn in Hb.
Qed.

(** Claim C13. Migration loses nothing.  A node runs a migration task with the
    node's callbacks, and the target handles at least the calls that it answered
    with success, in their order.  Then every value that the node held before is
    still there with all its metadata, or it is a key of the task that the node no
    longer replicates and the target holds the same or a newer value of it. *)
Theorem migration_loses_nothing s T a t
    (Hwf : KVFacts.wf (Storage.store (storage s)))
    (Ht : Migration.heap (migration s) !! a = Some t) (Hnd : NoDup (Migration.keys t))
    (Hok : ∀ k m, current now (storage s) k = Some m → item_ok tnow (KVStore.to_item m))
    (Hready : aof_ready (storage T))
    (Hhandled : ∀ h p c args m, call h p c args = Answer m → is_success m = true → handled (Called h p c args) = true) :
  ∃ s' es r, run_task a s = (s', es, r) ∧
    ∀ k m, current now (storage s) k = Some m →
      stored s' k = Some m ∨
      k ∈ Migration.keys t ∧
      (Migration.local_node_id (migration s) ∉ Ring.get_nodes (ring s) k (Migration.replication_factor (migration s))) ∧
      as_new m (stored (receives tnow tcall handled T es) k).
Proof.
  destruct (run_task_steps s a t Ht Hnd) as (m' & evs & bs & st & failure & [Hacc Ho] & Hrun). cbv zeta in *.
  set (data := (KVStore.get_all_data now (Storage.store (storage s))).2) in *.
  set (s2 := set_migration m' (cleaned s)) in *.
  assert (Hkept : ∀ k m, current now (storage s) k = Some m → stored s2 k = Some m).
  { intros k m Hm. rewrite <-cleanup_current in Hm by done. exact Hm. }
  assert (Hdone : ∀ dels, evs = MigrationF.sent (Migration.target_node t) bs ++ dels →
    concat bs = MigrationF.present data (Migration.keys t) →
    (dels = [] ∨ dels = [Migration.Deleted (MigrationF.not_replica (ring s) (migration s) (Migration.keys t))]) →
    ∃ s' es r, run_task a s = (s', es, r) ∧ ∀ k m, current now (storage s) k = Some m →
      stored s' k = Some m ∨ k ∈ Migration.keys t ∧
      (Migration.local_node_id (migration s) ∉ Ring.get_nodes (ring s) k (Migration.replication_factor (migration s))) ∧
      as_new m (stored (receives tnow tcall handled T es) k)).
  { intros dels -> Hcat Hdels.
    assert (Hsend : Forall (λ b, send_migration_result now call (cleaned s) (Migration.target_node t) b = true) bs).
    { eapply Forall_impl; [exact Hacc|]. intros b Hb. by injection Hb. }
    destruct (accepted_steps s m' _ bs Hsend) as (node & Hsteps & Hcalls).
    rewrite (for_each_app _ _ _ _ _ _ Hsteps) in Hrun.
    assert (Hd : ∃ s3 r, for_each (step now call) dels s2 = (s3, [], r) ∧
      untouched (MigrationF.not_replica (ring s) (migration s) (Migration.keys t)) (storage s2) (storage s3)).
    { destruct Hdels as [->| ->]; [by exists s2, (Ok tt)|]. cbn [for_each]. 
      destruct (step_deleted now call s2 (MigrationF.not_replica (ring s) (migration s) (Migration.keys t)))
        as (s3 & es3 & r3 & H3 & Hu & ->). unfold mbind, prog_bind. rewrite H3. exists s3.
      destruct r3 as [u|x]; [by exists (Ok tt)|by exists (Raise x)]. }
    destruct Hd as (s3 & r3 & H3 & Hu). change (set_migration m' (cleaned s)) with s2 in Hrun. rewrite H3 in Hrun.
    rewrite app_nil_r in Hrun.
    exists s3, (import_call now node (node_id s) <$> bs), (match r3 with Ok _ => Ok tt | Raise x => Raise x end).
    split; [rewrite Hrun; by destruct r3|]. intros k m Hm.
    destruct (decide (k ∈ MigrationF.not_replica (ring s) (migration s) (Migration.keys t))) as [Hk|Hk].
    2: { left. unfold stored. rewrite Hu by done. by apply Hkept. }
    right. apply list_elem_of_filter in Hk as [Hrep Hk]. split; [done|]. split; [done|].
    apply (receive_batches tnow tcall handled now node (node_id s) bs T k m); [done| | | |].
    - apply Forall_forall. intros b Hb. apply (data_ok_part (concat bs)).
      + by apply concat_part.
      + rewrite Hcat. by apply present_keys.
      + rewrite Hcat. apply Forall_forall. intros [k' i] Hin. apply present_get in Hin.
        destruct (data_item_of s k' i Hwf Hin) as (m0 & Hm0 & ->). by eapply Hok.
    - rewrite Hcat. by apply present_keys.
    - eapply Forall_impl; [exact Hcalls|]. intros b (mm & Hc & Hs). by eapply Hhandled.
    - rewrite Hcat. apply present_elem; [done|]. by apply data_get. }
  destruct Ho as [(_ & _ & Hcat & _ & Hevs)|[(_ & Hcat & _ & _ & Hevs)|(_ & b & failed & more & x & _ & _ & _ & _ & Hevs)]].
  - eapply Hdone; [exact Hevs|exact Hcat|]. case_decide; [by left|by right].
  - eapply Hdone; [exact Hevs|exact Hcat|by right].
  - destruct (steps_silent now call s2 evs) as [es Hes].
    { rewrite Hevs. apply Forall_app. split; [|by repeat constructor]. apply Forall_fmap, Forall_true. done. }
    change (set_migration m' (cleaned s)) with s2 in Hrun. rewrite Hes in Hrun.
    exists s2, es, (Ok tt). split; [exact Hrun|]. intros k m Hm. left. by apply Hkept.
Qed.

End handover.

(** ** A key of [n2] goes to [n3] *)
#[local] Existing Instance NodeF.demo_hash.

(** The value of [n2]'s key, and the task of its manager that moves the key. *)
Definition demo_meta : KVStore.KeyMetadata := KVStore.mkMeta (JInt 1) 1 2 None 1 "n2".
Definition demo_task : Migration.MigrationTask :=
  Migration.mkTask "migrate-n2-to-n3-0" "n2" "n3" ["a"; "b"] Migration.PENDING 0 None None None.
Definition demo_source : DatabaseNode :=
  set_migration (Migration.register demo_task (Migration.init "n2" 1))
    (set_storage (Storage.mkStorage (KVStore.with_store (KVStore.init 0) [("a"%string, demo_meta)]) None None) demo_follower).
Definition demo_target : DatabaseNode := demo_node "n3" 7003 FOLLOWER.
Definition demo_answer : string → Z → string → list string → reply := λ _ _ _ _, Answer (ok_response JNull).

Lemma migration_loses_nothing_witness :
  ∃ s' es r, run_task 5 6 (λ _, "error"%string) demo_answer 0 demo_source = (s', es, r) ∧
    stored s' "a" = None ∧
    as_new demo_meta (stored (receives 5 demo_answer (λ _, true) demo_target es) "a").
Proof.
  assert (Hready : aof_ready (storage demo_target)) by (intros a Ha; vm_compute in Ha; discriminate).
  assert (Hwf : KVFacts.wf (Storage.store (storage demo_source))) by (apply (bool_decide_unpack _); by vm_compute).
  assert (Hcur : ∀ k m, current 5 (storage demo_source) k = Some m → item_ok 5 (KVStore.to_item m)).
  { intros k m. unfold current, lookup. change (KVStore._store _) with [("a"%string, demo_meta)]. cbn [dict_get].
    case_decide as Hk; [|done]. change (KVStore.is_expired 5 demo_meta) with false. intros [= <-]. by repeat split. }
  destruct (migration_loses_nothing 5 6 (λ _, "error"%string) demo_answer 5 demo_answer (λ _, true)
    demo_source demo_target 0 demo_task Hwf) as (s' & es & r & Hrun & Hkeys); [reflexivity| |done|done|done|].
  { by apply (bool_decide_unpack _). }
  assert (Hgone : stored (state_of (run_task 5 6 (λ _, "error"%string) demo_answer 0 demo_source)) "a" = None) by by vm_compute.
  rewrite Hrun in Hgone. exists s', es, r. split; [exact Hrun|]. split; [exact Hgone|].
  destruct (Hkeys "a"%string demo_meta ltac:(by vm_compute)) as [Hs|(_ & _ & Hn)]; [|exact Hn].
  cbn in Hgone. by rewrite Hgone in Hs.
Defined.
End Handover.
