(* ===== verification/TopologyFacts.v ===== *)
(** The ring and the routing table follow the membership view, so nodes with
    the same view place every key on the same replicas. *)

From S2P Require Import Prelude.
From S2P Require Import PyMonad.
From S2P Require Import PyDict.
From S2P Require Import Json.
From S2P Require Import Config.
From S2P Require Import Store.
From S2P Require Import StoreSpec.
From S2P Require Import Ring.
From S2P Require Import RingFacts.
From S2P Require Import Membership.
From S2P Require Import Storage.
From S2P Require Import Coordinator.
From S2P Require Import Routing.
From S2P Require Import Migration.
From S2P Require Import Node.
From S2P Require Import NodeReads.
From S2P Require Import NodeFacts.
From stdpp Require Import sorting.
From Stdlib Require Import QArith.
#[local] Open Scope Z_scope.

Module TopologyF.
Import Node NodeReads.

Section topology.
Context `{RingHash}.

(** What joins and leaves do not touch. *)
Record frame (n n' : DatabaseNode) : Prop := {
  fr_config : config n' = config n;
  fr_cluster : cluster n' = cluster n;
  fr_known : _known_ring_nodes n' = _known_ring_nodes n;
  fr_sequence : _write_sequence n' = _write_sequence n;
  fr_store : KVFacts.wf (Storage.store (storage n)) → KVFacts.wf (Storage.store (storage n'));
}.

Lemma frame_refl n : frame n n.
Proof. done. Qed.

Lemma frame_trans a b c : frame a b → frame b c → frame a c.
Proof. intros [] []. split; [congruence..|auto]. Qed.

Lemma add_node_nodes (r : Ring.ConsistentHashRing) x :
  Ring._nodes (Ring.add_node r x) = {[x]} ∪ Ring._nodes r ∧
  Ring.virtual_nodes (Ring.add_node r x) = Ring.virtual_nodes r.
Proof. unfold Ring.add_node. case_decide; [|done]. split; [set_solver|done]. Qed.

Lemma remove_node_nodes (r : Ring.ConsistentHashRing) x :
  Ring._nodes (Ring.remove_node r x) = Ring._nodes r ∖ {[x]} ∧
  Ring.virtual_nodes (Ring.remove_node r x) = Ring.virtual_nodes r.
Proof. unfold Ring.remove_node. case_decide; [done|]. split; [set_solver|done]. Qed.

(** A ring that is well formed, over the nodes [s]. *)
Definition ring_over (r : Ring.ConsistentHashRing) (vn : nat) (s : gset string) : Prop :=
  RingF.wf r ∧ Ring.virtual_nodes r = vn ∧ Ring._nodes r = s.

Context (now : time) (call : string → Z → string → list string → reply).

Lemma topology_join_runs id n vn s : ring_over (ring n) vn s →
  ∃ n', topology_join now call id n = (n', [], Ok tt) ∧ frame n n' ∧ router n' = router n ∧
    ring_over (ring n') vn ({[id]} ∪ s).
Proof.
  intros (Hwf & Hvn & Hs). unfold topology_join. rewrite modify_bind.
  set (n1 := set_ring _ n).
  assert (Hmig : ∃ n2 o, in_migration now call (λ ring data _ _, Migration.on_node_join ring data now id) n1 =
    (n2, [], Ok o) ∧ frame n1 n2 ∧ router n2 = router n1 ∧ ring n2 = ring n1).
  { unfold in_migration, get_all_data. rewrite <-bind_assoc, get_bind, <-bind_assoc, modify_bind, ret_bind, get_bind.
    set (n2 := set_storage _ n1). set (data := (KVStore.get_all_data now _).2).
    assert (Hjoin : ∃ m o, Migration.on_node_join (ring n2) data now id (migration n2) = (m, [], Ok o)).
    { unfold Migration.on_node_join. rewrite get_bind. case_decide; [by eexists _, _|].
      rewrite modify_bind. by eexists _, _. }
    destruct Hjoin as (m & o & Hj). rewrite Hj. exists (set_migration m n2), o. split_and!; try done. split; try done. intros Hst. by apply KVFacts.cleanup_wf. }
  destruct Hmig as (n2 & o & Hrun & Hf & Hr & Hring).
  exists n2. split; [by erewrite bind_silent; [|exact Hrun]|]. split; [by destruct Hf|]. split; [exact Hr|].
  rewrite Hring. cbn [n1 ring set_ring Partition.ring Partition.add_node partitions].
  destruct (add_node_nodes (ring n) id) as [Hn Hv].
  split; [by apply RingF.add_node_wf|]. split; [by rewrite Hv|by rewrite Hn, Hs].
Qed.

Lemma topology_joins ids n vn s : ring_over (ring n) vn s →
  ∃ n', for_each (topology_join now call) ids n = (n', [], Ok tt) ∧ frame n n' ∧ router n' = router n ∧
    ring_over (ring n') vn (list_to_set ids ∪ s).
Proof.
  revert n s. induction ids as [|id ids IH]; intros n s Hr.
  { exists n. split; [done|]. split; [apply frame_refl|]. split; [done|]. by rewrite list_to_set_nil, union_empty_l_L. }
  destruct (topology_join_runs id n vn s Hr) as (n1 & H1 & F1 & R1 & O1).
  destruct (IH n1 _ O1) as (n2 & H2 & F2 & R2 & O2).
  exists n2. split; [cbn [for_each]; by erewrite bind_silent; [|exact H1]|].
  split; [by eapply frame_trans|]. split; [congruence|].
  rewrite list_to_set_cons. by replace ({[id]} ∪ list_to_set ids ∪ s) with (list_to_set ids ∪ ({[id]} ∪ s)) by set_solver.
Qed.

(** The routes to the nodes outside [ids] stay. *)
Definition same_routes (ids : list string) (r r' : Router.ShardRouter) : Prop :=
  ∀ x, x ∉ ids → Router._get_address r' x = Router._get_address r x ∧
                  Router._is_healthy r' x = Router._is_healthy r x.

Lemma remove_routes r x : same_routes [x] r (Router.remove_node r x).
Proof.
  intros y Hy%not_elem_of_cons. destruct Hy as [Hy _].
  unfold Router._get_address, Router._is_healthy, dict_get_or. simpl. by rewrite !dict_get_del_ne.
Qed.

Lemma topology_leaves ids n vn s : ring_over (ring n) vn s →
  ∃ n', for_each topology_leave ids n = (n', [], Ok tt) ∧ frame n n' ∧
    same_routes ids (router n) (router n') ∧
    ring_over (ring n') vn (s ∖ (list_to_set ids ∖ {[node_id n]})).
Proof.
  revert n s. induction ids as [|id ids IH]; intros n s Hr.
  { exists n. split; [done|]. split; [apply frame_refl|]. split; [by intros x|].
    by replace (s ∖ (list_to_set [] ∖ {[node_id n]})) with s by set_solver. }
  assert (Hone : ∃ n1, topology_leave id n = (n1, [], Ok tt) ∧ frame n n1 ∧
    same_routes [id] (router n) (router n1) ∧ ring_over (ring n1) vn (s ∖ ({[id]} ∖ {[node_id n]}))).
  { unfold topology_leave. rewrite get_bind. destruct (decide (id = node_id n)) as [->|Hne].
    - exists n. split; [done|]. split; [apply frame_refl|]. split; [by intros x|].
      by replace (s ∖ ({[node_id n]} ∖ {[node_id n]})) with s by set_solver.
    - rewrite modify_bind. eexists. split; [reflexivity|]. split; [done|]. split; [apply remove_routes|].
      destruct Hr as (Hwf & Hvn & Hs), (remove_node_nodes (ring n) id) as [Hn Hv].
      split; [by apply RingF.remove_node_wf|]. split; [by rewrite <-Hvn, <-Hv|].
      cbn [ring set_router set_ring Partition.ring Partition.remove_node partitions].
      rewrite Hn, Hs. set_solver. }
  destruct Hone as (n1 & H1 & F1 & R1 & O1). destruct (IH n1 _ O1) as (n2 & H2 & F2 & R2 & O2).
  assert (Hid : node_id n1 = node_id n) by (unfold node_id; by rewrite (fr_config _ _ F1)).
  exists n2. split; [cbn [for_each]; by erewrite bind_silent; [|exact H1]|].
  split; [by eapply frame_trans|]. split.
  - intros x Hx%not_elem_of_cons. destruct Hx as [Hx Hxs].
    destruct (R1 x) as [A1 B1]; [set_solver|]. destruct (R2 x Hxs) as [A2 B2]. by rewrite A2, B2.
  - rewrite Hid in O2. rewrite list_to_set_cons.
    by replace (s ∖ (({[id]} ∪ list_to_set ids) ∖ {[node_id n]}))
      with (s ∖ ({[id]} ∖ {[node_id n]}) ∖ (list_to_set ids ∖ {[node_id n]})) by set_solver.
Qed.

(** ** Routing *)

(** A member's route: its client address, healthy exactly when ALIVE. *)
Definition routed (r : Router.ShardRouter) (m : NodeInfo) : Prop :=
  Router._get_address r (NodeInfo.node_id m) = Some (NodeInfo.client_address m) ∧
  Router._is_healthy r (NodeInfo.node_id m) = bool_decide (NodeInfo.state m = ALIVE).

Lemma sync_member_other r m x : x ≠ NodeInfo.node_id m →
  Router._get_address (sync_member r m) x = Router._get_address r x ∧
  Router._is_healthy (sync_member r m) x = Router._is_healthy r x.
Proof.
  intros Hx. unfold sync_member, Router._get_address, Router._is_healthy, dict_get_or.
  case_decide; simpl; by rewrite ?dict_get_del_ne, ?dict_get_set_ne.
Qed.

Lemma sync_member_self r m : NodeInfo.state m ≠ DEAD → routed (sync_member r m) m.
Proof.
  intros Hm. unfold routed, sync_member, Router._get_address, Router._is_healthy, dict_get_or.
  rewrite decide_False by done. simpl. by rewrite !dict_get_set_eq.
Qed.

Lemma sync_members_other ms r x : x ∉ NodeInfo.node_id <$> ms →
  Router._get_address (fold_left sync_member ms r) x = Router._get_address r x ∧
  Router._is_healthy (fold_left sync_member ms r) x = Router._is_healthy r x.
Proof.
  revert r. induction ms as [|m ms IH]; intros r Hx; [done|]. rewrite fmap_cons in Hx.
  apply not_elem_of_cons in Hx as [Hm Hms]. cbn [fold_left].
  destruct (IH (sync_member r m) Hms) as [-> ->]. by apply sync_member_other.
Qed.

Lemma sync_members_routed ms r m : NoDup (NodeInfo.node_id <$> ms) → m ∈ ms → NodeInfo.state m ≠ DEAD →
  routed (fold_left sync_member ms r) m.
Proof.
  revert r. induction ms as [|x ms IH]; intros r Hnd Hm Hs; [by apply not_elem_of_nil in Hm|].
  rewrite fmap_cons in Hnd. apply NoDup_cons in Hnd as [Hx Hnd]. cbn [fold_left].
  apply elem_of_cons in Hm as [->|Hm]; [|by apply IH].
  unfold routed. destruct (sync_members_other ms (sync_member r x) _ Hx) as [-> ->]. by apply sync_member_self.
Qed.

Definition members (n : DatabaseNode) : list NodeInfo :=
  Membership.get_all_nodes (Coordinator.membership (cluster n)).

(** Between synchronisations: the ring holds the nodes last seen. *)
Definition synced (n : DatabaseNode) : Prop :=
  RingF.wf (ring n) ∧ Ring._nodes (ring n) = _known_ring_nodes n.

Lemma elem_of_sorted_set x (s : gset string) : x ∈ sorted_set s ↔ x ∈ s.
Proof. unfold sorted_set. by rewrite merge_sort_Permutation, elem_of_elements. Qed.

Lemma sorted_set_all (s : gset string) : list_to_set (sorted_set s) = s.
Proof. apply set_eq. intros x. by rewrite elem_of_list_to_set, elem_of_sorted_set. Qed.

(** Adding the new nodes and dropping the gone ones, but not oneself. *)
Lemma settled_nodes (A K : gset string) x : x ∈ A → ((A ∖ K) ∪ K) ∖ ((K ∖ A) ∖ {[x]}) = A.
Proof.
  intros Hx. apply set_eq. intros y.
  rewrite !elem_of_difference, elem_of_union, elem_of_difference, elem_of_singleton.
  destruct (decide (y = x)) as [Hy|Hy]; [rewrite Hy; destruct (decide (x ∈ K)); tauto|].
  destruct (decide (y ∈ A)), (decide (y ∈ K)); tauto.
Qed.

(** Claim C22. The ring and the routes follow the membership.  When the node lists
    each member once and itself as not DEAD, and its ring holds the nodes that it
    saw last, as its first sync leaves it, then after a topology sync the ring
    consists of exactly the members that are not DEAD, in the one arrangement
    those members have, so two nodes with the same view place and replicate every
    key alike whatever they saw before; every such member has its client address
    as its route, healthy exactly when it is ALIVE; and the node is ready for the
    next sync. *)
Theorem topology_follows_membership n
    (Hsync : synced n) (Hself : node_id n ∈ active_ids n) (Hids : NoDup (NodeInfo.node_id <$> members n)) :
  ∃ n', _sync_topology now call n = (n', [], Ok tt) ∧ synced n' ∧
    Ring._nodes (ring n') = active_ids n ∧
    (∀ r, RingF.wf r → Ring.virtual_nodes r = Ring.virtual_nodes (ring n) → Ring._nodes r = active_ids n →
       ∀ key, Ring.get_node (ring n') key = Ring.get_node r key ∧
              ∀ count, Ring.get_nodes (ring n') key count = Ring.get_nodes r key count) ∧
    (∀ m, m ∈ members n → NodeInfo.state m ≠ DEAD → routed (router n') m).
Proof.
  destruct Hsync as [Hwf Hknown]. unfold _sync_topology. rewrite modify_bind, get_bind.
  set (n0 := set_router _ n). set (active := active_ids n).
  change (active_ids n0) with active. change (_known_ring_nodes n0) with (_known_ring_nodes n).
  destruct (topology_joins (sorted_set (active ∖ _known_ring_nodes n)) n0 (Ring.virtual_nodes (ring n))
    (Ring._nodes (ring n))) as (n1 & H1 & F1 & R1 & O1); [done|].
  destruct (topology_leaves (sorted_set (_known_ring_nodes n ∖ active)) n1 _ _ O1) as (n2 & H2 & F2 & R2 & O2).
  exists (set_known active n2).
  assert (Hid : node_id n1 = node_id n) by (unfold node_id; by rewrite (fr_config _ _ F1)).
  destruct O2 as (W2 & V2 & N2). rewrite !sorted_set_all, Hid in N2.
  assert (Hnodes : Ring._nodes (ring n2) = active).
  { rewrite N2, Hknown. by apply settled_nodes. }
  split; [by erewrite bind_silent; [|exact H1]; erewrite bind_silent; [|exact H2]|].
  split; [by split|]. split; [done|]. split.
  - intros r Hr Hv Hn key. assert (r = ring n2) as ->; [|done].
    apply RingF.wf_unique; [done|done|by rewrite Hv|by rewrite Hn].
  - intros m Hm Hs. assert (Hin : NodeInfo.node_id m ∈ active).
    { apply elem_of_list_to_set, list_elem_of_fmap. exists m. split; [done|]. by apply list_elem_of_filter. }
    cbn [router set_known]. unfold routed. destruct (R2 (NodeInfo.node_id m)) as [-> ->].
    { rewrite elem_of_sorted_set, elem_of_difference. tauto. }
    rewrite R1. by apply sync_members_routed.
Qed.

End topology.

#[local] Existing Instance NodeF.demo_hash.

(** A node whose ring is its own, which then learns the other members. *)
Definition joining : DatabaseNode :=
  set_known {[ "n1"%string ]} (set_ring (Ring.add_node (Ring.init 1) "n1") NodeF.demo_leader).

Lemma joining_synced : synced joining.
Proof. split; [apply RingF.add_node_wf, RingF.init_wf|]. by vm_compute. Qed.

Lemma topology_follows_membership_witness :
  ∃ n', _sync_topology 5 (λ _ _ _ _, NoConnection) joining = (n', [], Ok tt) ∧
    Ring._nodes (ring n') = {[ "n1"; "n2"; "n3" ]}%string.
Proof.
  destruct (topology_follows_membership 5 (λ _ _ _ _, NoConnection) joining joining_synced)
    as (n' & Hrun & _ & Hn & _).
  - apply (bool_decide_unpack _). by vm_compute.
  - apply (bool_decide_unpack _). by vm_compute.
  - exists n'. split; [exact Hrun|]. rewrite Hn. apply (bool_decide_unpack _). by vm_compute.
Defined.

End TopologyF.
