(* ===== verification/NodeInvariant.v ===== *)
(** What every run of a node keeps: the invariants of its parts together, and
    what never goes back (the term, the vote of a term, the numbers of its
    writes). *)

From S2P Require Import Prelude.
From S2P Require Import PyMonad.
From S2P Require Import Text.
From S2P Require Import PyDict.
From S2P Require Import Json.
From S2P Require Import Config.
From S2P Require Import Protocol.
From S2P Require Import Store.
From S2P Require Import StoreSpec.
From S2P Require Import Ring.
From S2P Require Import RingFacts.
From S2P Require Import Election.
From S2P Require Import ElectionSafety.
From S2P Require Import Membership.
From S2P Require Import MembershipFacts.
From S2P Require Import Aof.
From S2P Require Import Snapshot.
From S2P Require Import Storage.
From S2P Require Import Replication.
From S2P Require Import RateLimiter.
From S2P Require Import FaultInjection.
From S2P Require Import Merkle.
From S2P Require Import MerkleFacts.
From S2P Require Import Coordinator.
From S2P Require Import ElectionRound.
From S2P Require Import Node.
From S2P Require Import NodeReads.
From S2P Require Import NodeAdmin.
From S2P Require Import NodeLoop.
From S2P Require Import NodeFacts.
From S2P Require Import TopologyFacts.
From Stdlib Require Import QArith.
#[local] Open Scope Z_scope.

(** ** The storage: one value per key *)
Module StorageInv.
Import Storage.

Definition stored_once (st st' : storage) : Prop := KVFacts.wf (store st) → KVFacts.wf (store st').

#[global] Instance stored_once_preorder : PreOrder stored_once.
Proof. split; [by intros s Hs|]. intros s1 s2 s3 H1 H2 Hs. auto. Qed.

Abbreviation keeps := (preserves stored_once).

Lemma keeps_set now k v o : keeps (store_set now k v o).
Proof. intros st Hst. by apply dict_wf_set. Qed.

Lemma keeps_get_meta now k : keeps (store_get_meta now k).
Proof.
  intros st Hst. pose proof (KVFacts.get_meta_step now (store st) k Hst) as H.
  unfold store_get_meta, state_of, mbind, prog_bind, get_state, put_state, mret, prog_ret. simpl.
  by destruct (KVStore.get_with_metadata now (store st) k) as [s m]; destruct H as (_ & _ & ?).
Qed.

Lemma keeps_delete k : keeps (store_delete k).
Proof.
  intros st Hst. pose proof (KVFacts.delete_step 0 (store st) k Hst) as H.
  unfold store_delete, state_of, mbind, prog_bind, get_state, put_state, mret, prog_ret. simpl.
  by destruct (KVStore.delete (store st) k) as [s b]; destruct H as (_ & ?).
Qed.

Lemma keeps_aof now e sync : keeps (aof_append now e sync).
Proof.
  apply preserves_state. intros st Hst. destruct (aof st) as [a|]; [|done].
  by destruct (AOF.append now a e sync).
Qed.
#[global] Hint Resolve keeps_set keeps_get_meta keeps_delete keeps_aof : preserves.

Lemma keeps_apply now e : keeps (_apply_log_entry now e).
Proof. unfold _apply_log_entry. solve_preserves. Qed.

Lemma keeps_put_newer now k v ver ex c u co : keeps (put_newer now k v ver ex c u co).
Proof. unfold put_newer. solve_preserves. Qed.
#[global] Hint Resolve keeps_apply keeps_put_newer : preserves.

Lemma keeps_repair now id k v ver m : keeps (_apply_repair_data now id k v ver m).
Proof. unfold _apply_repair_data. cbv zeta. solve_preserves. Qed.

Lemma keeps_delete_migrated now id ks : keeps (_delete_migrated_keys now id ks).
Proof. unfold _delete_migrated_keys. solve_preserves. Qed.

Lemma keeps_repair_data now : keeps (_get_data_for_repair now).
Proof. apply preserves_state. intros st Hst. by apply KVFacts.cleanup_wf. Qed.

Lemma keeps_fsync now : keeps (fsync_round now).
Proof. apply preserves_modify. intros st Hst. by destruct (aof st). Qed.

Lemma stored_maintenance gz now failing : keeps (maintenance_round gz now failing).
Proof.
  unfold maintenance_round. apply preserves_bind; [apply preserves_modify; intros st Hst; by apply KVFacts.cleanup_wf|].
  intros _. apply preserves_state. intros st Hst. destruct (snapshot st) as [sn|]; [|done].
  destruct (Snapshot.should_snapshot now sn); [|done]. cbv zeta.
  pose proof (KVFacts.cleanup_wf now (store st) Hst) as Hc.
  unfold mbind, prog_bind, put_state, modify, mret, prog_ret, state_of. simpl.
  destruct (Snapshot.save _ _ _ _ _ _).2; [|done]. destruct (aof st) as [a|]; [|done].
  by destruct (AOF.should_compact a).
Qed.
(** An invariant of the function that is replayed is one of the replay. *)
Lemma replay_invariant {S} (P : S → Prop) (f : S → AOF.AOFEntry → S * res unit) file s r :
  (∀ s e, P s → P (f s e).1) → P s → AOF.replay f file s = Ok r → P r.1.
Proof.
  intros Hf Hs. destruct file as [text|]; [|by intros [= <-]]. unfold AOF.replay.
  assert (Hl : ∀ ls st r', P st.1.1 → AOF.replay_lines f st ls = Ok r' → P r'.1.1).
  { clear -Hf. induction ls as [|l ls IH]; intros st r' Hst; cbn [AOF.replay_lines]; [by intros [= <-]|].
    destruct (AOF.replay_line f st l) as [st'|x] eqn:El; [|done]. apply IH. clear IH.
    unfold AOF.replay_line in El. destruct st as [[s0 n0] c0]. simpl in Hst.
    destruct (truthy_str (strip l)); [|by simplify_eq].
    destruct (AOF.from_line (strip l)) as [e|x]; [|destruct (AOF.corrupt x); by simplify_eq].
    specialize (Hf s0 e Hst). destruct (f s0 e) as [s1 [u|x]]; simpl in Hf; [by simplify_eq|].
    destruct (AOF.corrupt x); by simplify_eq. }
  destruct (AOF.replay_lines f (s, 0, 0) (lines text)) as [[[s' n] c]|x] eqn:E; [|done]. intros [= <-].
  exact (Hl _ (s, 0, 0) _ Hs E).
Qed.

Lemma keeps_replayed now s e : KVFacts.wf s → KVFacts.wf (apply_aof_entry now s e).1.
Proof.
  intros Hs. unfold apply_aof_entry. destruct (AOF.command e); [| |done].
  2: { pose proof (KVFacts.delete_step 0 s (AOF.key e) Hs) as Hd. simpl.
       destruct (KVStore.delete s (AOF.key e)) as [s' b]. by destruct Hd. }
  cbv zeta. destruct (truthy_time _ && _); [done|]. by apply dict_wf_set.
Qed.

Lemma keeps_replay_log now : keeps (
  (st ← get_state;
  match aof st with
  | Some a =>
      r ← lift (AOF.replay (apply_aof_entry now) (Some (AOF.contents a)) (store st));
      put_state (with_store st r.1);; mret r.2
  | None => mret 0
  end) : prog storage Empty_set Z).
Proof.
  apply preserves_state. intros st Hst. destruct (aof st) as [a|]; [|done].
  destruct (AOF.replay _ _ _) as [r|x] eqn:E; [|done].
  unfold lift, mbind, prog_bind, put_state, mret, prog_ret, state_of. cbn [fst store with_store].
  eapply replay_invariant; [|exact Hst|exact E]. intros s e. apply keeps_replayed.
Qed.

(** Recovery: the snapshot is loaded entry by entry, and the log replayed. *)
Lemma keeps_recover now : keeps (_recover_data now).
Proof.
  unfold _recover_data. pose proof (keeps_replay_log now) as Hlog.
  set (replay_log := (st ← get_state; _)) in Hlog. fold replay_log.
  apply preserves_state. intros st. destruct (snapshot st) as [sn|]; [|rewrite ret_bind; apply Hlog]. cbv zeta.
  set (st' := mkStorage _ _ _).
  assert (Hbind : state_of ((put_state st';; replay_log) st) = state_of (replay_log st')).
  { unfold mbind, prog_bind, put_state, state_of. by destruct (replay_log st') as [[??]?]. }
  rewrite Hbind. transitivity st'; [|apply Hlog]. intros Hst. unfold st'. cbn [store].
  destruct (Snapshot.load _ _ _).2 as [data|]; [|done].
  case_decide; [done|]. by destruct (KVFacts.load_step now (store st) data Hst).
Qed.

#[global] Hint Resolve keeps_fsync keeps_recover keeps_repair keeps_delete_migrated keeps_repair_data stored_maintenance : preserves.

End StorageInv.

(** ** The election

    What a node does to its election is told by a relation of its states that
    the manager's methods respect: two are used, that terms go up and a vote
    stays for its term, and that nothing but the calls of a follower happened. *)
Module ElectionInv.
Import Election Cluster.

Class order (R : relation ElectionManager) : Prop := {
  #[global] o_preorder :: PreOrder R;
  o_id m m' : R m m' → node_id m' = node_id m;
  o_call m m' : call m m' → R m m';
}.

(** The relation admits elections and votes too. *)
Class voting (R : relation ElectionManager) : Prop := {
  v_begin rto : preserves R (begin_election rto);
  v_finish t votes n : preserves R (finish_election t votes n);
  v_vote now c t index lterm : preserves R (handle_vote_request now c t index lterm);
}.

Section order.
Context {R : relation ElectionManager} `{!order R}.

Lemma keeps_heartbeat now rto leader t : preserves R (receive_heartbeat now rto leader t).
Proof. intros m. apply o_call, call_heartbeat. Qed.
Lemma keeps_step_down now rto : preserves R (step_down now rto).
Proof. intros m. apply o_call, call_step_down. Qed.
Lemma keeps_append_entries now rto leader t pi pt es lc :
  preserves R (handle_append_entries now rto leader t pi pt es lc).
Proof. intros m. apply o_call, call_append_entries. Qed.

End order.

#[global] Hint Resolve keeps_heartbeat keeps_step_down keeps_append_entries v_begin v_finish v_vote : preserves.

(** Nothing but calls. *)
Definition calls : relation ElectionManager := rtc call.

Lemma calls_benign m m' : calls m m' → benign m m'.
Proof. induction 1 as [|m1 m2 m3 H12 _ IH]; [reflexivity|]. etrans; [by apply benign_call|exact IH]. Qed.

#[global] Instance calls_order : order calls.
Proof.
  split; [unfold calls; split; apply _|by intros m m' [Hid _]%calls_benign|]. intros m m'. apply rtc_once.
Qed.

Record later (m m' : ElectionManager) : Prop := {
  l_id : node_id m' = node_id m;
  l_term : current_term m <= current_term m';
  l_vote : current_term m' = current_term m → ∀ c, voted_for m = Some c → voted_for m' = Some c;
}.

#[global] Instance later_preorder : PreOrder later.
Proof.
  split; [by intros m|]. intros m1 m2 m3 [H1 H2 H3] [G1 G2 G3].
  split; [congruence|lia|]. intros Ht c Hc. apply G3; [lia|]. apply H3; [lia|done].
Qed.

Lemma benign_later m m' : benign m m' → later m m'.
Proof. intros [Hid [(Ht & _)|(Ht & Hv & _)]]; (split; [done|lia|]); intros; [lia|congruence]. Qed.

#[global] Instance later_order : order later.
Proof. split; [apply _|apply l_id|]. intros m m' H. by apply benign_later, benign_call. Qed.

Lemma later_begin rto : preserves later (begin_election rto).
Proof. intros m. destruct (begin_effect rto m) as (? & Ht & _). split; [done|lia|]. rewrite Ht. lia. Qed.

Lemma later_finish t votes n : preserves later (finish_election t votes n).
Proof.
  intros m. destruct (finish_effect t votes n m) as [->|(? & Ht & Ht' & Hv & _)]; [done|].
  split; [done|lia|]. intros _ c. congruence.
Qed.

Lemma later_vote now c t index lterm : preserves later (handle_vote_request now c t index lterm).
Proof.
  intros m. pose proof (vote_effect now c t index lterm m) as H. cbv zeta in H.
  destruct (result_of _) as [[t' []]|x]; [|by apply benign_later..].
  destruct H as (Hid & Ht & Hv & Hor & _). split; [done|destruct Hor as [?|[? _]]; lia|].
  intros Hs d Hd. destruct Hor as [?|(_ & [?|?])]; [lia|congruence|congruence].
Qed.

(** The answer carries the term that the node is then in. *)
Lemma vote_term now c t index lterm m m' es t' granted :
  handle_vote_request now c t index lterm m = (m', es, Ok (t', granted)) → t' = current_term m'.
Proof.
  unfold handle_vote_request, mbind, prog_bind, get_state, modify, mret, prog_ret. simpl.
  destruct (t <? current_term m); [intros Hr; by simplify_eq|].
  destruct (current_term m <? t); simpl; [|case_decide; [|intros Hr; by simplify_eq]];
    (destruct (_is_log_up_to_date _ _ _); intros Hr; simpl in Hr; by simplify_eq).
Qed.

Lemma calls_later m m' : calls m m' → later m m'.
Proof. intros H. by apply benign_later, calls_benign. Qed.

#[global] Instance later_voting : voting later.
Proof. split; [apply later_begin|apply later_finish|apply later_vote]. Qed.

End ElectionInv.

(** ** The replication: nothing stays pending between operations *)
Module ReplicationInv.
Import Replication.

Definition settled (r r' : ReplicationManager) : Prop :=
  _pending r = [] → replication_factor r' = replication_factor r ∧ _pending r' = [].

#[global] Instance settled_preorder : PreOrder settled.
Proof.
  split; [by intros r|]. intros r1 r2 r3 H1 H2 Hp. destruct (H1 Hp) as [E1 Hp2].
  destruct (H2 Hp2). split; congruence.
Qed.

Lemma keeps_replicate send e c targets gf : preserves settled (replicate send e c targets gf).
Proof.
  intros r Hp.
  assert (Hsome : ∀ fs, replicate send e c targets gf r = replicate send e c (Some fs) None r →
    replication_factor (state_of (replicate send e c targets gf r)) = replication_factor r ∧
    _pending (state_of (replicate send e c targets gf r)) = []).
  { intros fs ->. destruct (replicate_outcome send e c fs r) as (r' & es & ok & -> & Hp' & Hf & _); [by rewrite Hp|].
    split; [exact Hf|exact (eq_trans Hp' Hp)]. }
  destruct targets as [fs|]; [by apply (Hsome fs)|]. destruct gf as [fs|]; [by apply (Hsome fs)|].
  unfold replicate. rewrite get_bind. done.
Qed.

Lemma keeps_acknowledge i : preserves settled (acknowledge i).
Proof. apply preserves_state. intros r Hp. by rewrite Hp. Qed.

Lemma settled_async send : preserves settled (async_round send).
Proof.
  pose proof keeps_acknowledge. apply preserves_bind; [apply preserves_get|]. intros r.
  destruct (_async_queue r) as [|[e ts] q]; [solve_preserves|].
  apply preserves_bind; [by apply preserves_modify|]. intros _. unfold _replicate_to_followers.
  apply preserves_for_each. intros f. apply preserves_bind; [apply preserves_emit|]. intros _.
  by destruct (send f e && negb true); solve_preserves.
Qed.
#[global] Hint Resolve keeps_replicate settled_async : preserves.

End ReplicationInv.

(** ** The coordinator *)
Module CoordinatorInv.
Import Message Protocol Coordinator NodeLoop.

Section coordinator.
Context {R : relation Election.ElectionManager} `{!ElectionInv.order R}.

Record later (c c' : ClusterCoordinator) : Prop := {
  l_config : config c' = config c;
  l_members : MembershipF.stays_wf (membership c) (membership c');
  l_election : R (election c) (election c');
  l_replication : ReplicationInv.settled (replication c) (replication c');
}.

#[global] Instance coordinator_preorder : PreOrder later.
Proof.
  split; [by intros c|]. intros c1 c2 c3 [] []. split; [congruence|by etrans..].
Qed.

Abbreviation keeps := (preserves later).

Lemma coord_keeps_membership {A} (p : prog Membership.MembershipManager member_event A) :
  preserves MembershipF.stays_wf p → keeps (in_membership p).
Proof. apply preserves_zoom. by intros c m Hm. Qed.

Lemma keeps_replication {A} (p : prog Replication.ReplicationManager Replication.replication_event A) :
  preserves ReplicationInv.settled p → keeps (in_replication p).
Proof. apply preserves_zoom. by intros c r Hr. Qed.

#[local] Hint Resolve MembershipF.keeps_health MembershipF.keeps_add MembershipF.keeps_gossip_one : preserves.

Lemma members_gossip now ds : preserves MembershipF.stays_wf (Membership.handle_gossip now ds).
Proof. unfold Membership.handle_gossip. solve_preserves. Qed.

Lemma members_heartbeat now id : preserves MembershipF.stays_wf (Membership.update_heartbeat now id).
Proof. apply MembershipF.keeps_mutate. intros x. cbn beta zeta. by case_decide. Qed.

Lemma members_role id r : preserves MembershipF.stays_wf (Membership.set_node_role id r).
Proof. by apply MembershipF.keeps_mutate. Qed.
#[local] Hint Resolve members_gossip members_heartbeat members_role : preserves.
#[local] Hint Extern 1 (keeps (in_membership _)) => apply coord_keeps_membership : preserves.
#[local] Hint Extern 1 (keeps (in_replication _)) => apply keeps_replication : preserves.

Lemma keeps_local_role r : keeps (set_local_role r).
Proof.
  unfold set_local_role. apply preserves_bind; [apply preserves_get|]. intros c.
  apply preserves_bind; [solve_preserves|]. intros _. apply coord_keeps_membership.
  by apply (MembershipF.keeps_with_local (λ n, NodeInfo.set_role n r)).
Qed.
#[local] Hint Resolve keeps_local_role : preserves.

Lemma keeps_election {A} (p : prog Election.ElectionManager election_event A) :
  preserves R p → keeps (in_election p).
Proof.
  intros Hp c. specialize (Hp (election c)). unfold in_election, state_of in *.
  destruct (p (election c)) as [[el evs] r]. simpl in Hp.
  assert (Hev : keeps (for_each on_election_event evs)).
  { apply preserves_for_each. intros []; cbn [on_election_event]; solve_preserves. }
  specialize (Hev (set_election el c)). unfold state_of in Hev.
  destruct (for_each _ _ _) as [[c' es] r']. simpl in *. etrans; [|exact Hev]. by split.
Qed.
#[local] Hint Extern 1 (keeps (in_election _)) => apply keeps_election : preserves.

Lemma later_staged d c : later c (set_staged d c).
Proof. by split. Qed.
#[local] Hint Resolve later_staged : preserves.

Lemma keeps_handle now rto m : (msg_type m = VOTE_REQUEST → keeps (handle_vote now m)) →
  keeps (handle_cluster_message now rto m).
Proof.
  intros Hvote. unfold handle_cluster_message.
  destruct (msg_type m); [..|apply preserves_ret]; try apply preserves_ret; try (by apply Hvote);
    unfold handle_heartbeat, handle_gossip_message, handle_join, handle_replicate, handle_append,
      field, int_field; solve_preserves.
Qed.

Lemma keeps_vote now m : ElectionInv.voting R → keeps (handle_vote now m).
Proof. intros HR. unfold handle_vote, int_field. solve_preserves. Qed.

Lemma keeps_election_round now rto b x : ElectionInv.voting R → keeps (election_round now rto b x).
Proof.
  intros HR. unfold election_round. apply preserves_bind; [apply preserves_get|]. intros c.
  destruct (Election._should_start_election _ _); [|apply preserves_ret].
  apply preserves_bind; [solve_preserves|]. intros [[t i] lt]. solve_preserves.
Qed.

Lemma keeps_heartbeats b : keeps (_send_heartbeats b).
Proof. unfold _send_heartbeats. cbv zeta. solve_preserves. Qed.

Lemma keeps_coord_replicate b x e c ts : keeps (replicate b x e c ts).
Proof. unfold replicate. solve_preserves. Qed.

Lemma coord_keeps_async b x c : keeps (in_replication (Replication.async_round (_send_replicate b x c))).
Proof. solve_preserves. Qed.

Lemma keeps_join now x seed : keeps (join_cluster now x seed).
Proof. unfold join_cluster. solve_preserves. Qed.

Lemma keeps_in_step_down now rto : keeps (in_election (Election.step_down now rto)).
Proof. solve_preserves. Qed.

Lemma keeps_gossip w b sample : keeps (NodeLoop.gossip w b sample).
Proof.
  intros c. unfold NodeLoop.gossip.
  assert (Hm : preserves MembershipF.stays_wf (Membership.gossip_round (w_now w) sample)).
  { unfold Membership.gossip_round, Membership._send_gossip_to_random_nodes. cbv zeta. solve_preserves. }
  specialize (Hm (membership c)). unfold state_of in Hm.
  destruct (Membership.gossip_round _ _ _) as [[m evs] r]. simpl in Hm.
  assert (Hev : keeps (for_each (NodeLoop.on_member_event b) evs;; lift r)).
  { apply preserves_bind; [|intros _; apply preserves_lift]. apply preserves_for_each.
    intros ev. unfold NodeLoop.on_member_event, _send_gossip. solve_preserves. }
  etrans; [|apply Hev]. by split.
Qed.

End coordinator.
Arguments later R : clear implicits.

End CoordinatorInv.
#[global] Hint Resolve CoordinatorInv.keeps_handle CoordinatorInv.keeps_election_round CoordinatorInv.keeps_heartbeats
  CoordinatorInv.keeps_coord_replicate CoordinatorInv.coord_keeps_async CoordinatorInv.keeps_join
  CoordinatorInv.keeps_in_step_down CoordinatorInv.keeps_gossip : preserves.

(** ** The node *)
Module NodeInv.
Import Message Protocol Node NodeReads NodeAdmin NodeLoop NodeF TopologyF.

(** Joins and leaves turn the ring of the nodes last seen into that of the
    active ones. *)
Lemma rewired_nodes (A K : gset string) x :
  ((A ∖ K) ∪ ({[x]} ∪ K)) ∖ ((K ∖ A) ∖ {[x]}) = {[x]} ∪ A.
Proof.
  apply set_eq. intros y.
  rewrite !elem_of_difference, !elem_of_union, !elem_of_difference, !elem_of_singleton.
  destruct (decide (y = x)), (decide (y ∈ A)), (decide (y ∈ K)); tauto.
Qed.

Section node.
Context `{RingHash} {R : relation Election.ElectionManager} `{!ElectionInv.order R}.

(** The ring holds the node itself and the nodes last seen. *)
Definition placed (n : DatabaseNode) : Prop :=
  ring_over (ring n) (Config.virtual_nodes (config n)) ({[node_id n]} ∪ _known_ring_nodes n).

Record inv (n : DatabaseNode) : Prop := {
  i_parts : node_wf n;
  i_store : KVFacts.wf (Storage.store (storage n));
  i_members : MembershipF.wf (Coordinator.membership (cluster n));
  i_local : MembershipF.local_id (Coordinator.membership (cluster n)) = node_id n;
  i_election : Election.node_id (Coordinator.election (cluster n)) = node_id n;
  i_ring : placed n;
}.

(** What never goes back. *)
Record later (n n' : DatabaseNode) : Prop := {
  l_config : config n' = config n;
  l_election : R (Coordinator.election (cluster n)) (Coordinator.election (cluster n'));
  l_sequence : _write_sequence n <= _write_sequence n';
}.

Definition safe (n n' : DatabaseNode) : Prop := inv n → inv n' ∧ later n n'.

#[global] Instance safe_preorder : PreOrder safe.
Proof.
  split; [intros n Hn; by split; [|split]|]. intros n1 n2 n3 H1 H2 Hn.
  destruct (H1 Hn) as [Hn2 [C1 E1 S1]], (H2 Hn2) as [Hn3 [C2 E2 S2]].
  split; [done|]. split; [congruence|by etrans|lia].
Qed.

Abbreviation keeps := (preserves safe).

(** A part that no invariant looks at. *)
Lemma safe_same n n' : config n' = config n → storage n' = storage n → ring n' = ring n →
  cluster n' = cluster n → _known_ring_nodes n' = _known_ring_nodes n →
  _write_sequence n <= _write_sequence n' → safe n n'.
Proof.
  intros Hc Hs Hr Hk Hn Hq [[P1 [P2 P3]] St M L E Rg]. unfold placed, node_id in *.
  split; [|split; [done|by rewrite Hk|done]].
  split; unfold placed, node_wf, node_id; by rewrite ?Hk, ?Hc, ?Hs, ?Hr, ?Hn.
Qed.

Lemma safe_router x n : safe n (set_router x n).
Proof. by apply safe_same. Qed.
Lemma safe_migration x n : safe n (set_migration x n).
Proof. by apply safe_same. Qed.
Lemma safe_faults x n : safe n (set_faults x n).
Proof. by apply safe_same. Qed.
Lemma safe_read_stats x n : safe n (set_read_stats x n).
Proof. by apply safe_same. Qed.
Lemma safe_backpressure x n : safe n (set_backpressure x n).
Proof. by apply safe_same. Qed.
Lemma safe_sequence n : safe n (set_sequence (_write_sequence n + 1) n).
Proof. apply safe_same; try done. simpl. lia. Qed.

Lemma safe_storage x n : (KVFacts.wf (Storage.store (storage n)) → KVFacts.wf (Storage.store x)) →
  safe n (set_storage x n).
Proof. intros Hx [P St M L E Rg]. split; [split; auto|split; done]. Qed.

Lemma safe_cleanup now n : safe n (set_storage (Storage.with_store (storage n)
  (KVStore._cleanup_expired now (Storage.store (storage n)))) n).
Proof. apply safe_storage. apply KVFacts.cleanup_wf. Qed.

Lemma safe_cluster n c : CoordinatorInv.later R (cluster n) c → safe n (set_cluster c n).
Proof.
  intros [C M E Rp] [(P1 & P2 & P3) St Mw L En Rg]. destruct (M Mw) as [Mw' L'], (Rp P3) as [R1 R2].
  split; [|by split].
  split; [|done|done|exact (eq_trans L' L)|exact (eq_trans (ElectionInv.o_id _ _ E) En)|done].
  split; [exact (eq_trans C P1)|]. split; [exact (eq_trans R1 P2)|exact R2].
Qed.

Context (now : time).

Lemma keeps_storage {A} (p : prog Storage.storage Empty_set A) :
  preserves StorageInv.stored_once p → keeps (in_storage p).
Proof. apply preserves_zoom. intros n st Hst. by apply safe_storage. Qed.

#[local] Hint Resolve safe_router safe_migration safe_faults safe_read_stats safe_backpressure safe_sequence
  safe_cleanup : preserves.
#[local] Hint Extern 1 (keeps (in_storage _)) => apply keeps_storage : preserves.

Lemma keeps_coord_event ev : keeps (on_coord_event now ev).
Proof. destruct ev; cbn [on_coord_event]; solve_preserves. Qed.

Lemma keeps_cluster {A} (p : prog Coordinator.ClusterCoordinator Coordinator.coord_event A) :
  preserves (CoordinatorInv.later R) p → keeps (in_cluster now p).
Proof.
  intros Hp n. specialize (Hp (cluster n)). unfold in_cluster, state_of in *.
  destruct (p (cluster n)) as [[c evs] r]. simpl in Hp.
  assert (Hev : keeps (for_each (on_coord_event now) evs)) by apply preserves_for_each, keeps_coord_event.
  specialize (Hev (set_cluster c n)). unfold state_of in Hev.
  destruct (for_each _ _ _) as [[n' es] []]; simpl in *; (etrans; [|exact Hev]); by apply safe_cluster.
Qed.

#[local] Hint Extern 1 (keeps (in_cluster _ _)) => apply keeps_cluster : preserves.

(** ** Writes and reads *)

Context (rto : time) (exn_str : exn → string) (jfloat : Q → json) (draw : string → Q) (jitter : string → time).
Context (bp_draw : Q) (exchange : string → Z → Message → option Message).
Context (call : string → Z → string → list string → reply) (arrival : list string → list string).

Lemma keeps_write op key value ttl : keeps (_apply_partition_write now draw exchange op key value ttl).
Proof. unfold _apply_partition_write, _next_write_index. cbv zeta. solve_preserves. Qed.
#[local] Hint Resolve keeps_write : preserves.

Lemma keeps_forward rounds target op key value ttl : keeps (forward_rounds call rounds target op key value ttl).
Proof.
  revert target. induction rounds as [|rounds IH]; intros target; cbn [forward_rounds]; [solve_preserves|].
  unfold Node.command. solve_preserves.
Qed.
#[local] Hint Resolve keeps_forward : preserves.

Lemma keeps_coordinate op key value ttl :
  keeps (_coordinate_or_forward_write now draw exchange call op key value ttl).
Proof. unfold _coordinate_or_forward_write, _forward_write. solve_preserves. Qed.

Lemma keeps_replicate_value key value ver m ts : keeps (_replicate_value_to_nodes call key value ver m ts).
Proof.
  induction ts as [|t ts IH]; cbn [_replicate_value_to_nodes]; [solve_preserves|].
  unfold send_replica, Node.command. solve_preserves.
Qed.
#[local] Hint Resolve keeps_coordinate keeps_replicate_value : preserves.

Lemma keeps_repair_value key value ver t m : keeps (_repair_value now call key value ver t m).
Proof. unfold _repair_value. cbv zeta. solve_preserves. Qed.
#[local] Hint Resolve keeps_repair_value : preserves.

Lemma keeps_read key c : keeps (read now call arrival key c).
Proof. unfold read, _get_local_value_for_read. solve_preserves. Qed.
#[local] Hint Resolve keeps_read : preserves.

Lemma keeps_local_keys p : keeps (local_keys now p).
Proof. apply preserves_state. intros n. apply safe_cleanup. Qed.

Lemma keeps_import_loop items i s f : keeps (import_loop now items i s f).
Proof.
  revert i s f. induction items as [|[k x] items IH]; intros i s f; cbn [import_loop]; solve_preserves.
Qed.

Lemma keeps_fan_out items : keeps (fan_out call items).
Proof. induction items as [|i items IH]; cbn [fan_out]; solve_preserves. Qed.

Lemma keeps_collect p ns ks : keeps (collect_keys call p ns ks).
Proof.
  revert ks. induction ns as [|x ns IH]; intros ks; cbn [collect_keys]; [solve_preserves|].
  unfold remote_keys, Node.command. solve_preserves.
Qed.
#[local] Hint Resolve keeps_local_keys keeps_import_loop keeps_fan_out keeps_collect : preserves.

Lemma keeps_cluster_keys p : keeps (_collect_cluster_keys now call p).
Proof. unfold _collect_cluster_keys. solve_preserves. Qed.
#[local] Hint Resolve keeps_cluster_keys : preserves.

(** ** Migration and topology *)

Lemma keeps_all_data : keeps (get_all_data now).
Proof.
  apply preserves_state. intros n. cbv zeta. unfold state_of. apply safe_cleanup.
Qed.
#[local] Hint Resolve keeps_all_data : preserves.

Lemma keeps_migration_event ev : keeps (on_migration_event now call ev).
Proof. destruct ev; cbn [on_migration_event]; unfold _send_migration_keys, Node.command; solve_preserves. Qed.
#[local] Hint Resolve keeps_migration_event : preserves.

Lemma keeps_in_migration {A} p : keeps (in_migration now call p : proc A).
Proof. unfold in_migration. solve_preserves. Qed.
#[local] Hint Resolve keeps_in_migration : preserves.

Lemma keeps_migration_round fin : keeps (NodeReads.migration_round now exn_str call fin).
Proof. unfold NodeReads.migration_round. solve_preserves. Qed.

Lemma keeps_sync : keeps (_sync_topology now call).
Proof.
  intros n Hn. unfold _sync_topology. rewrite modify_bind, get_bind. set (n0 := set_router _ n). cbv zeta.
  destruct (safe_router (router n0) n Hn) as [Hn0 Hl0]. change (set_router (router n0) n) with n0 in *.
  destruct (topology_joins now call (sorted_set (active_ids n0 ∖ _known_ring_nodes n0)) n0 _ _ (i_ring _ Hn0))
    as (n1 & H1 & F1 & _ & O1).
  destruct (topology_leaves now call (sorted_set (_known_ring_nodes n0 ∖ active_ids n0)) n1 _ _ O1) as (n2 & H2 & F2 & _ & O2).
  erewrite bind_silent by exact H1. erewrite bind_silent by exact H2.
  destruct (frame_trans _ _ _ F1 F2) as [Fc Fk Fn Fs Fst].
  assert (Hid : node_id n1 = node_id n0) by (unfold node_id; by rewrite (fr_config _ _ F1)).
  rewrite !sorted_set_all, Hid, rewired_nodes in O2.
  destruct Hn0 as [(P1 & P2 & P3) St Mw L En _]. unfold node_id in *.
  split; [split|split]; unfold placed, node_wf, node_id, modify, state_of;
    cbn [fst snd config storage ring cluster _known_ring_nodes _write_sequence set_known];
    rewrite ?Fc, ?Fk, ?Fs; try done.
  by apply Fst.
Qed.
#[local] Hint Resolve keeps_migration_round keeps_sync : preserves.

(** ** Commands *)

Lemma keeps_faults {A} (p : prog Faults.FaultInjector Faults.fault_event A) : keeps (in_faults now rto p).
Proof.
  intros n. unfold in_faults, state_of. destruct (p (fault_injector n)) as [[i evs] r].
  assert (Hev : keeps (for_each (on_fault_event now rto) evs)).
  { apply preserves_for_each. intros []; cbn [on_fault_event]; unfold _handle_leader_kill, step_down; solve_preserves. }
  specialize (Hev (set_faults i n)). unfold state_of in Hev.
  destruct (for_each _ _ _) as [[n' es] []]; simpl in *; (etrans; [|exact Hev]); apply safe_faults.
Qed.
#[local] Hint Resolve keeps_faults : preserves.

Lemma keeps_report f : keeps (report f).
Proof. unfold report. solve_preserves. Qed.
#[local] Hint Resolve keeps_report : preserves.

Lemma keeps_fault args : keeps (_handle_fault now rto jfloat draw args).
Proof. unfold _handle_fault, inject. cbv zeta. solve_preserves. Qed.
#[local] Hint Resolve keeps_fault : preserves.

Lemma keeps_dispatch cmd args : keeps (dispatch now rto jfloat draw exchange call arrival cmd args).
Proof.
  unfold dispatch, _handle_set, _handle_setex, _handle_get, _handle_delete, _handle_exists, _handle_keys,
    _handle_shards, _handle_rebalance, _handle_failover, _handle_leader_write, _handle_owner_write,
    _handle_local_read, _handle_local_keys, _handle_replica_set, _handle_import_keys, step_down.
  repeat (case_decide; [cbv zeta; solve_preserves|]). solve_preserves.
Qed.
#[local] Hint Resolve keeps_dispatch : preserves.

Lemma keeps_client m :
  keeps (_handle_client_message now rto exn_str jfloat draw bp_draw exchange call arrival m).
Proof. unfold _handle_client_message. cbv zeta. solve_preserves. Qed.

Lemma keeps_cluster_message m : (msg_type m = VOTE_REQUEST → ElectionInv.voting R) →
  keeps (NodeAdmin._handle_cluster_message now rto draw jitter m).
Proof.
  intros HR. assert (preserves (CoordinatorInv.later R) (Coordinator.handle_cluster_message now rto m)).
  { apply CoordinatorInv.keeps_handle. intros Hm. by apply CoordinatorInv.keeps_vote, HR. }
  unfold NodeAdmin._handle_cluster_message. solve_preserves.
Qed.

Lemma keeps_maintenance gz failing : keeps (maintenance now call gz failing).
Proof. unfold maintenance. solve_preserves. Qed.

Lemma keeps_join_cluster seed : keeps (NodeReads.join_cluster now exchange seed).
Proof. unfold NodeReads.join_cluster. solve_preserves. Qed.

Lemma keeps_start : keeps (NodeAdmin.start now call).
Proof. unfold NodeAdmin.start. solve_preserves. Qed.

(** A new node. *)
Lemma new_node_inv cfg st : KVFacts.wf (Storage.store st) → inv (Node.init now rto cfg st).
Proof.
  intros Hst. split; [done|done|apply MembershipF.init_members_wf|done|done|].
  unfold placed, ring_over. cbn. destruct (add_node_nodes (Ring.init (Config.virtual_nodes cfg)) (Config.node_id cfg)) as [Hn Hv].
  split; [apply RingF.add_node_wf, RingF.init_wf|]. split; [exact Hv|]. rewrite Hn. cbn [Ring.init Ring._nodes].
  by rewrite union_empty_r_L, union_idemp_L.
Qed.

End node.
Arguments later R : clear implicits.
Arguments safe {_} R.

Lemma safe_mono `{RingHash} (R R' : relation Election.ElectionManager) n n' :
  (∀ m m', R m m' → R' m m') → safe R n n' → safe R' n n'.
Proof. intros HR Hs Hn. destruct (Hs Hn) as [Hn' [C E S]]. split; [done|]. split; auto. Qed.

(** The inputs that neither start an election nor ask for a vote. *)
Definition follows (i : input) : Prop :=
  match i with
  | ClusterMessage m => msg_type m ≠ VOTE_REQUEST
  | ElectionRound => False
  | _ => True
  end.

Section react.
Context `{RingHash} `{MerkleHash} {R : relation Election.ElectionManager} `{!ElectionInv.order R}.

Lemma keeps_guarded {A} (f : A → prog DatabaseNode node_event ()) a :
  preserves (safe R) (f a) → preserves (safe R) (guarded (f a)).
Proof. intros Hf. by apply preserves_catch; [|intros; apply preserves_ret]. Qed.

#[local] Hint Resolve keeps_client keeps_cluster_message keeps_maintenance keeps_join_cluster keeps_migration_round : preserves.
#[local] Hint Extern 1 (preserves (safe R) (in_cluster _ _)) => apply keeps_cluster : preserves.
#[local] Hint Extern 1 (preserves (safe R) (in_storage _)) => apply keeps_storage : preserves.

Lemma keeps_repair_loop w tree : preserves (safe R) (repair_loop w tree).
Proof. unfold repair_loop. solve_preserves. Qed.
#[local] Hint Resolve keeps_repair_loop : preserves.

Lemma keeps_react w i : (¬ follows i → ElectionInv.voting R) → preserves (safe R) (react w i).
Proof.
  intros HR. destruct i; cbn [react]; unfold election_loop, gossip_loop, replication_loop, guarded;
    try (by solve_preserves).
  - assert (ElectionInv.voting R) by (apply HR; intros []). solve_preserves. apply keeps_cluster. solve_preserves.
  - solve_preserves. apply keeps_cluster. solve_preserves.
Qed.

End react.

Section runs.
Context `{RingHash} `{MerkleHash}.
#[local] Abbreviation later := (later ElectionInv.later).
#[local] Abbreviation safe := (safe ElectionInv.later).

Lemma react_safe w i : preserves safe (react w i).
Proof. apply keeps_react. intros _. apply _. Qed.

Lemma run_node_safe tr n : safe n (run_node n tr).
Proof.
  revert n. induction tr as [|[w i] tr IH]; intros n; [done|].
  etrans; [apply (react_safe w i)|]. apply IH.
Qed.

Lemma run_node_app tr1 tr2 n : run_node n (tr1 ++ tr2) = run_node (run_node n tr1) tr2.
Proof. unfold run_node. apply fold_left_app. Qed.

(** Claim C7. From its start on, whatever reaches a node and whatever the other nodes
    and its disk do, its invariant holds: one value per key in its store, a
    well-formed membership table under its own name, nothing pending in its
    replication, and a ring that is the one arrangement of the nodes last seen
    and itself.  And its term, its vote in a term and the numbers of its writes
    never go back. *)
Theorem node_invariant w0 cfg st tr1 tr2 (Hst : KVFacts.wf (Storage.store st)) :
  let started := state_of (NodeAdmin.start (w_now w0) (w_call w0) (Node.init (w_now w0) (w_rto w0) cfg st)) in
  let n1 := run_node started tr1 in
  let n2 := run_node started (tr1 ++ tr2) in
  inv n2 ∧ later n1 n2.
Proof.
  cbv zeta. rewrite run_node_app. set (n1 := run_node _ tr1).
  assert (inv n1) as Hn1.
  { apply (run_node_safe tr1). apply keeps_start. by apply new_node_inv. }
  exact (run_node_safe tr2 n1 Hn1).
Qed.

(** ** Repair *)

(** The node's anti-entropy repairs nothing.  Without the two callbacks
    that ask other nodes, which the node does not set, a round of its repair loop
    only drops the expired keys and rebuilds the tree. *)
Theorem node_repairs_nothing w tree n :
  let data := Storage._get_data_for_repair (w_now w) (storage n) in
  ∃ values, repair_loop w tree n = (set_storage (state_of data) n, [], Ok (Merkle.build tree values)) ∧
    result_of data = Ok values ∧
    Storage.store (state_of data) = KVStore._cleanup_expired (w_now w) (Storage.store (storage n)).
Proof.
  cbv zeta. eexists. split; [|split; reflexivity]. unfold repair_loop.
  erewrite bind_silent by (rewrite in_storage_run; reflexivity). rewrite get_bind.
  unfold AntiEntropy._repair_loop, catch. rewrite AntiEntropyF.idle_cycle by (by left). reflexivity.
Qed.

(** ** Votes *)

(** The callbacks of the coordinator touch the storage only. *)
Lemma coord_events_cluster now evs :
  preserves (λ n n', cluster n' = cluster n) (for_each (on_coord_event now) evs).
Proof.
  assert (PreOrder (λ n n', cluster n' = cluster n)) by (split; [done|intros ????; congruence]).
  apply preserves_for_each. intros ev. destruct ev; cbn [on_coord_event]; try solve_preserves.
  intros n. by rewrite in_storage_run.
Qed.

Lemma in_cluster_ok {A} now (p : prog Coordinator.ClusterCoordinator Coordinator.coord_event A) n n' es a :
  in_cluster now p n = (n', es, Ok a) → ∃ evs, p (cluster n) = (cluster n', evs, Ok a).
Proof.
  unfold in_cluster. destruct (p (cluster n)) as [[c evs] r].
  pose proof (coord_events_cluster now evs (set_cluster c n)) as Hc. unfold state_of in Hc.
  destruct (for_each _ _ _) as [[n1 es1] [u|x]]; [|done]. intros [= <- <- ->]. simpl in Hc. subst c. by exists evs.
Qed.

(** A vote that is granted is the node's only one in its term. *)
Lemma vote_granted w m n n' es id t : inv n → msg_type m = VOTE_REQUEST →
  react w (ClusterMessage m) n = (n', es, Ok (Some (create_vote_response id t true))) →
  let e := Coordinator.election (cluster n) in let e' := Coordinator.election (cluster n') in
  Election.current_term e' = t ∧ Election.voted_for e' = Some (sender_id m) ∧
  Election.current_term e <= t ∧
  (Election.current_term e = t → ∀ c, Election.voted_for e = Some c → c = sender_id m).
Proof.
  intros Hn Hm Hrun. cbv zeta. cbn [react] in Hrun. unfold NodeAdmin._handle_cluster_message in Hrun.
  apply bind_ok_inv in Hrun as (nA & e1 & drop & e2 & HA & Hrun & _). destruct drop; [done|].
  apply bind_ok_inv in Hrun as (nB & e3 & delay & e4 & HB & Hrun & _).
  assert (Hlater : later n nB).
  { pose proof (keeps_faults (w_now w) (w_rto w) (Faults.should_fail_network (w_draw w) (w_now w) (sender_id m)) n Hn) as [HnA LA].
    rewrite HA in HnA, LA. cbn in HnA, LA.
    pose proof (keeps_faults (w_now w) (w_rto w)
      (Faults.get_network_delay (w_draw w) (w_jitter w) (w_now w) (sender_id m)) nA HnA) as [_ LB].
    rewrite HB in LB. cbn in LB. destruct LA, LB. split; [congruence|by etrans|lia]. }
  apply in_cluster_ok in Hrun as [evs Hrun].
  unfold Coordinator.handle_cluster_message in Hrun. rewrite Hm in Hrun. unfold Coordinator.handle_vote in Hrun.
  apply bind_ok_inv in Hrun as (c1 & ev1 & index & ev2 & [= <- <- _] & Hrun & _).
  apply bind_ok_inv in Hrun as (c2 & ev3 & lterm & ev4 & [= <- <- _] & Hrun & _).
  apply bind_ok_inv in Hrun as (c3 & ev5 & r & ev6 & Hvote & Hrun & _).
  rewrite get_bind in Hrun. destruct r as [t' granted].
  unfold mret, prog_ret, create_vote_response in Hrun. simpl in Hrun. simplify_eq.
  set (e := Coordinator.election (cluster n)) in *. set (eB := Coordinator.election (cluster nB)) in *.
  destruct (Election.handle_vote_request (w_now w) (sender_id m) (Message.term m) index lterm eB) as [[e' evs'] r] eqn:Hr.
  destruct (ElectionRound.in_election_spec _ _ _ _ _ Hr) as (c' & es' & Hc' & He' & _).
  rewrite Hvote in Hc'. simplify_eq. apply ElectionInv.vote_term in Hr as Hterm'.
  pose proof (Cluster.vote_effect (w_now w) (sender_id m) (Message.term m) index lterm eB) as Heff. cbv zeta in Heff.
  rewrite Hr in Heff. cbn in Heff. destruct Heff as (_ & Ht' & Hv' & Hor & _). rewrite Ht' in *. subst t.
  destruct Hlater as [_ [_ Hterm Hkept] _]. fold e eB in Hterm, Hkept.
  split; [done|]. split; [done|]. split; [destruct Hor as [?|[? _]]; lia|].
  intros Hsame c Hc. destruct Hor as [Hlt|[Heq Hvoted]]; [lia|].
  assert (Hkc : Election.voted_for eB = Some c) by (apply Hkept; [lia|done]).
  destruct Hvoted; congruence.
Qed.

(** Whatever reaches a node between two vote requests, it does not grant its
    vote to two candidates in one term. *)
Theorem node_votes_once w1 w2 n n1 n2 es1 es2 m1 m2 tr id t (Hinv : inv n)
    (H1 : msg_type m1 = VOTE_REQUEST) (H2 : msg_type m2 = VOTE_REQUEST)
    (Hrun1 : react w1 (ClusterMessage m1) n = (n1, es1, Ok (Some (create_vote_response id t true))))
    (Hrun2 : react w2 (ClusterMessage m2) (run_node n1 tr) =
       (n2, es2, Ok (Some (create_vote_response id t true)))) :
  sender_id m1 = sender_id m2.
Proof.
  destruct (vote_granted _ _ _ _ _ _ _ Hinv H1 Hrun1) as (Ht1 & Hv1 & _).
  destruct (react_safe w1 (ClusterMessage m1) n Hinv) as [Hinv1 _]. rewrite Hrun1 in Hinv1. cbn in Hinv1.
  destruct (run_node_safe tr n1 Hinv1) as [Hinv2 [_ [_ Hterm Hvote] _]].
  destruct (vote_granted _ _ _ _ _ _ _ Hinv2 H2 Hrun2) as (_ & _ & Hle & Honce).
  assert (Heq : Election.current_term (Coordinator.election (cluster (run_node n1 tr))) = t) by lia.
  apply Honce; [done|]. apply Hvote; [lia|done].
Qed.

End runs.

(** ** Witnesses *)

#[local] Existing Instance NodeF.demo_hash.

Definition demo_world (now : time) : world :=
  mkWorld now (seconds 3) (λ _, "error"%string) (λ _, JNull) (λ _, 0%Q) (λ _, 0) 0%Q (λ _ _ _, None)
    (λ _ _ _ _, NoConnection) (λ xs, xs).

Definition new_node : DatabaseNode :=
  Node.init 0 (seconds 3) (demo_cfg "n1" 7001) (Storage.mkStorage (KVStore.init 0) None None).

Definition demo_trace : list (world * input) :=
  [(demo_world 1, ClusterMessage (create_vote_request "n2" 1 0 0));
   (demo_world (seconds 20), ElectionRound);
   (demo_world (seconds 21), ClientMessage (create_command "SET" [JStr "k"; JStr "v"] "cli"));
   (demo_world (seconds 22), MaintenanceRound (λ _, 0) None)].

Lemma node_invariant_witness :
  let started := state_of (NodeAdmin.start 0 (λ _ _ _ _, NoConnection) new_node) in
  inv (run_node started demo_trace) ∧ later ElectionInv.later (run_node started []) (run_node started demo_trace) ∧
  Election.current_term (Coordinator.election (cluster (run_node started demo_trace))) = 2.
Proof.
  destruct (node_invariant (demo_world 0) (demo_cfg "n1" 7001) (Storage.mkStorage (KVStore.init 0) None None) []
    demo_trace) as [Hinv Hlater]; [constructor|].
  split; [exact Hinv|]. split; [exact Hlater|]. by vm_compute.
Defined.

Definition vote1 : Message := create_vote_request "n2" 1 0 0.
Definition vote2 : Message := create_vote_request "n2" 1 7 1.

Definition voted : DatabaseNode := state_of (react (demo_world 1) (ClusterMessage vote1) new_node).

Lemma node_votes_once_witness : vote1 ≠ vote2 ∧ sender_id vote1 = sender_id vote2.
Proof.
  split; [discriminate|].
  eapply (node_votes_once (demo_world 1) (demo_world 3) new_node voted _ _ _ vote1 vote2
    [(demo_world 2, GossipRound (λ ns _, ns))] "n1" 1).
  - apply new_node_inv. constructor.
  - reflexivity.
  - reflexivity.
  - vm_compute. reflexivity.
  - vm_compute. reflexivity.
Defined.

End NodeInv.
