(* ===== verification/NodeDurable.v ===== *)
(** A node that crashes.  Everything that reaches a running node leaves its file
    in line with its store: what an entry, a repair or a migrated batch writes is
    decoded JSON, wherever it comes from, and goes to the file with the store. *)

From S2P Require Import Prelude.
From S2P Require Import PyMonad.
From S2P Require Import Text.
From S2P Require Import PyDict.
From S2P Require Import Json.
From S2P Require Import JsonFacts.
From S2P Require Import JsonPrefix.
From S2P Require Import Config.
From S2P Require Import Fields.
From S2P Require Import Parse.
From S2P Require Import Protocol.
From S2P Require Import Store.
From S2P Require Import StoreSpec.
From S2P Require Import Ring.
From S2P Require Import Aof.
From S2P Require Import AofFacts.
From S2P Require Import Snapshot.
From S2P Require Import Election.
From S2P Require Import Membership.
From S2P Require Import Storage.
From S2P Require Import StorageFacts.
From S2P Require Import Durable.
From S2P Require Import Replication.
From S2P Require Import ReadCoordinator.
From S2P Require Import RateLimiter.
From S2P Require Import FaultInjection.
From S2P Require Import Merkle.
From S2P Require Import MerkleFacts.
From S2P Require Import Migration.
From S2P Require Import Coordinator.
From S2P Require Import Node.
From S2P Require Import NodeReads.
From S2P Require Import NodeAdmin.
From S2P Require Import NodeLoop.
From S2P Require Import NodeFacts.
From S2P Require Import NodeInvariant.
From Stdlib Require Import QArith.
#[local] Open Scope Z_scope.

(** ** Parts of decoded JSON *)
Module Decoded.

Lemma obj_value d k j : json_wf (JObj d) → dict_get d k = Some j → json_wf j.
Proof.
  intros [_ Hd]%json_wf_obj Hj%dict_get_Some_in. rewrite Forall_forall in Hd. by apply (Hd (k, j)).
Qed.

Lemma get_default_wf j name dflt r : json_wf j → json_wf dflt → get_default j name dflt = Ok r → json_wf r.
Proof.
  intros Hj Hd. destruct j as [| | | | | |kvs]; try done. unfold get_default, dict_get_or. intros [= <-].
  destruct (dict_get kvs name) eqn:E; [by eapply obj_value|done].
Qed.

Lemma subscript_wf j name r : json_wf j → subscript j name = Ok r → json_wf r.
Proof.
  intros Hj. destruct j as [| | | | | |kvs]; try done. unfold subscript. destruct (dict_get kvs name) eqn:E; [|done].
  intros [= <-]. by eapply obj_value.
Qed.

Lemma as_list_wf j xs : json_wf j → as_list j = Ok xs → Forall json_wf xs.
Proof. intros Hj. destruct j; try done. intros [= <-]. by apply json_wf_arr. Qed.

Lemma loads_or_text_wf s : json_wf (NodeReads.loads_or_text s).
Proof. unfold NodeReads.loads_or_text. destruct (loads s) eqn:E; [by eapply loads_wf|done]. Qed.

(** The values of a dict, one by one. *)
Lemma obj_items d : json_wf (JObj d) → Forall (λ p, json_wf p.2) d.
Proof. by intros [_ ?]%json_wf_obj. Qed.

Lemma res_bind_ok {A B} (m : res A) (f : A → res B) b : res_bind m f = Ok b → ∃ a, m = Ok a ∧ f a = Ok b.
Proof. destruct m as [a|]; [|done]. by exists a. Qed.

Definition entry_ok (e : LogEntry) : Prop := json_wf (LogEntry.value e).

Lemma from_dict_ok d e : json_wf d → LogEntry.from_dict d = Ok e → entry_ok e.
Proof.
  intros Hd. unfold LogEntry.from_dict. intros H.
  repeat (apply res_bind_ok in H as (? & ? & H)). injection H as <-. cbn.
  by eapply get_default_wf; [exact Hd| |eassumption].
Qed.
End Decoded.
Import Decoded.

(** ** The log and the staged entries *)
Module Entries.
Import Election.

Definition log_ok (m : ElectionManager) : Prop := Forall entry_ok (log m).

Definition applies_ok (ev : election_event) : Prop :=
  match ev with ApplyEntry e => entry_ok e | _ => True end.

#[local] Abbreviation keeps := (ensures log_ok applies_ok (λ _, True)).

Lemma logs_begin rto : keeps (begin_election rto).
Proof. unfold begin_election. cbv zeta. solve_ensures. Qed.

Lemma logs_finish t v n : keeps (finish_election t v n).
Proof. unfold finish_election, _become_leader. solve_ensures.
Qed.

Lemma logs_heartbeat now rto leader t : keeps (receive_heartbeat now rto leader t).
Proof. unfold receive_heartbeat. solve_ensures. Qed.

Lemma logs_vote now c t i l : keeps (handle_vote_request now c t i l).
Proof. unfold handle_vote_request. solve_ensures. Qed.

Lemma logs_step_down now rto : keeps (step_down now rto).
Proof. unfold step_down. solve_ensures. Qed.

Lemma py_index_elem {A} (xs : list A) i x : py_index xs i = Ok x → x ∈ xs.
Proof.
  unfold py_index. cbv zeta. case_match; [done|]. destruct (xs !! _) eqn:E; [|done].
  intros [= <-]. by eapply list_elem_of_lookup_2.
Qed.

Lemma log_entry_ok m i e : log_ok m → py_index (log m) i = Ok e → entry_ok e.
Proof. intros Hm He%py_index_elem. unfold log_ok in Hm. rewrite Forall_forall in Hm. by apply Hm. Qed.

Lemma logs_apply_loop rounds : keeps (apply_loop rounds).
Proof.
  induction rounds as [|rounds IH]; cbn [apply_loop]; solve_ensures. by eapply log_entry_ok.
Qed.

Lemma take_log m i : log_ok m → log_ok (set_log m (py_take i (log m))).
Proof. apply Forall_take. Qed.

Lemma snoc_log m xs e : Forall entry_ok xs → entry_ok e → log_ok (set_log m (xs ++ [e])).
Proof. intros Hxs He. apply Forall_app. split; [done|]. by constructor. Qed.

#[local] Hint Resolve logs_apply_loop logs_heartbeat take_log snoc_log : ensures.

Lemma logs_append_one data : json_wf data → keeps (append_one data).
Proof.
  intros Hd. unfold append_one. apply ensures_lift_bind. intros e He%from_dict_ok; [|done].
  apply ensures_get. intros m _. destruct (_ <=? _).
  - apply ensures_lift_bind. intros old _. case_decide; [|by apply ensures_ret].
    apply ensures_modify; [|done]. intros m' Hm'. apply snoc_log; [|done]. by apply Forall_take.
  - apply ensures_modify; [|done]. intros m' Hm'. by apply snoc_log.
Qed.

Lemma logs_append_and_commit entries lc : Forall json_wf entries → keeps (append_and_commit entries lc).
Proof.
  intros He. unfold append_and_commit, _apply_committed_entries. apply (ensures_bind (λ _, True)).
  { apply ensures_for_each. intros d Hd. rewrite Forall_forall in He. by apply logs_append_one, He. }
  intros _ _. solve_ensures.
Qed.

Lemma logs_append_entries now rto l t pi pt es lc : Forall json_wf es →
  keeps (handle_append_entries now rto l t pi pt es lc).
Proof.
  intros He. pose proof (logs_append_and_commit es lc He). unfold handle_append_entries. solve_ensures.
Qed.

End Entries.

(** ** The coordinator *)
Module Staged.
Import Message Protocol Coordinator Entries.

Definition entries_ok (c : ClusterCoordinator) : Prop :=
  log_ok (election c) ∧ Forall (λ p, entry_ok p.2) (_staged_replicates c).

Definition applied_ok (ev : coord_event) : Prop :=
  match ev with Apply e => entry_ok e | _ => True end.

#[local] Abbreviation keeps := (ensures entries_ok applied_ok (λ _, True)).

Lemma stages_membership {A} (p : prog Membership.MembershipManager member_event A) : keeps (in_membership p).
Proof.
  apply (ensures_zoom _ (λ _, True) _ (λ _, True)); [done..|].
  apply ensures_preserves. by intros m.
Qed.

Lemma stages_replication {A} (p : prog Replication.ReplicationManager Replication.replication_event A) :
  keeps (in_replication p).
Proof.
  apply (ensures_zoom _ (λ _, True) _ (λ _, True)); [done..|by intros []|].
  apply ensures_preserves. by intros m.
Qed.
#[local] Hint Resolve stages_membership stages_replication : ensures.

Lemma stages_local_role r : keeps (set_local_role r).
Proof. unfold set_local_role. solve_ensures. Qed.

Lemma stages_election_event ev : applies_ok ev → keeps (on_election_event ev).
Proof. intros Hev. destruct ev; cbn [on_election_event]; [apply stages_local_role..|by apply ensures_emit]. Qed.

(** An operation of the election and its callbacks. *)
Lemma stages_election {A} (P : A → Prop) (p : prog Election.ElectionManager election_event A) :
  ensures log_ok applies_ok P p → ensures entries_ok applied_ok P (in_election p).
Proof.
  intros Hp c [Hl Hs]. specialize (Hp (election c) Hl). unfold in_election, state_of, events_of, result_of in *.
  destruct (p (election c)) as [[el evs] r]. destruct Hp as (Hel & Hevs & Hr). simpl in *.
  assert (Hev : keeps (for_each on_election_event evs)).
  { apply ensures_for_each. intros ev Hin. rewrite Forall_forall in Hevs. by apply stages_election_event, Hevs. }
  specialize (Hev (set_election el c)). unfold state_of, events_of in Hev.
  destruct (for_each _ _ _) as [[c' es] r']. simpl in *. by destruct Hev as (? & ? & _).
Qed.
#[local] Hint Extern 1 (ensures _ _ _ (in_election _)) => apply stages_election : ensures.
#[local] Hint Resolve logs_begin logs_finish logs_heartbeat logs_vote logs_step_down logs_append_entries : ensures.

Lemma stages_election_round now rto b x : keeps (election_round now rto b x).
Proof. unfold election_round. solve_ensures. Qed.

Lemma stages_heartbeats b : keeps (_send_heartbeats b).
Proof. unfold _send_heartbeats. cbv zeta. solve_ensures. Qed.

Lemma stages_coord_replicate b x e c ts : keeps (replicate b x e c ts).
Proof. unfold replicate. solve_ensures. Qed.

Lemma stages_join now x seed : keeps (join_cluster now x seed).
Proof. unfold join_cluster. solve_ensures. Qed.

Lemma stages_gossip w b sample : keeps (NodeLoop.gossip w b sample).
Proof.
  intros c Hc. unfold NodeLoop.gossip. destruct (Membership.gossip_round _ _ _) as [[m evs] r].
  assert (Hev : keeps (for_each (NodeLoop.on_member_event b) evs;; lift r)).
  { unfold NodeLoop.on_member_event, _send_gossip. solve_ensures. }
  destruct (Hev (set_membership m c)) as (? & ? & _); [done|]. split_and!; [done..|]. by destruct (result_of _).
Qed.

(** ** Incoming messages *)

Lemma staged_set k e c : entries_ok c → entry_ok e →
  entries_ok (set_staged (dict_set k e (_staged_replicates c)) c).
Proof.
  intros [Hl Hs] He. split; [done|]. cbn. induction Hs as [|[k' e'] d Hp Hd IH]; cbn [dict_set]; [by repeat constructor|].
  case_decide; by constructor.
Qed.

Lemma staged_del k c : entries_ok c → entries_ok (set_staged (dict_del k (_staged_replicates c)) c).
Proof. 
  intros [Hl Hs]. split; [done|]. cbn. apply Forall_forall. rewrite Forall_forall in Hs.
  intros p [_ Hp]%list_elem_of_filter. by apply Hs.
Qed.

Lemma staged_get k e c : entries_ok c → entry_ok e → entry_ok (default e (dict_get (_staged_replicates c) k)).
Proof.
  intros [_ Hs] He. destruct (dict_get _ k) as [e'|] eqn:E; [|done]. apply dict_get_Some_in in E.
  rewrite Forall_forall in Hs. by apply (Hs (k, e')).
Qed.

Lemma stages_handle_replicate m : json_wf (payload m) → keeps (handle_replicate m).
Proof.
  intros Hm. unfold handle_replicate, field. apply ensures_lift_bind. intros data Hd.
  apply get_default_wf in Hd; [|done..]. destruct (truthy data); [|by apply ensures_ret].
  apply ensures_lift_bind. intros e He%from_dict_ok; [|done].
  apply ensures_lift_bind. intros ph _. apply ensures_lift_bind. intros ph' _. case_decide.
  - apply (ensures_bind (λ _, True)); [|intros; by apply ensures_ret].
    apply ensures_modify; [|done]. intros c Hc. by apply staged_set.
  - apply ensures_get. intros c Hc. apply (ensures_bind (λ _, True)).
    { apply ensures_modify; [|done]. intros c' Hc'. by apply staged_del. }
    intros _ _. apply (ensures_bind (λ _, True)); [|intros; by apply ensures_ret].
    apply ensures_emit; [|done]. by apply staged_get.
Qed.

Lemma stages_handle_append now rto m : json_wf (payload m) → keeps (handle_append now rto m).
Proof.
  intros Hm. unfold handle_append, int_field. do 2 (apply ensures_lift_bind; intros ? _).
  apply ensures_lift_bind. intros es He.
  apply res_bind_ok in He as (j & Hj & He). apply get_default_wf in Hj; [|done..].
  apply as_list_wf in He; [|done]. solve_ensures.
Qed.

Lemma stages_message now rto m : json_wf (payload m) → keeps (handle_cluster_message now rto m).
Proof.
  intros Hm. pose proof (stages_handle_replicate m Hm). pose proof (stages_handle_append now rto m Hm).
  unfold handle_cluster_message. destruct (msg_type m); try done; try (by apply ensures_ret);
    unfold handle_heartbeat, handle_vote, handle_gossip_message, handle_join, field, int_field; solve_ensures.
Qed.

End Staged.

(** ** Values that a read gathers *)
Module ReadValues.
Import Read.

Definition answer_ok (a : answer) : Prop := json_wf a.1.1.1.
Definition result_ok (r : ReadResult) : Prop := json_wf (value r).
Definition repair_ok (rp : repair) : Prop := json_wf (rp_value rp).

Section values.
Context (local_node_id : string) (rf : Z) (get_local : string → answer) (get_remote : string → string → option answer).
Context (get_replicas : string → list string) (get_owner : string → option string) (arrival : list string → list string).
Context (Hlocal : ∀ k, answer_ok (get_local k)) (Hremote : ∀ k n a, get_remote k n = Some a → answer_ok a).

Lemma to_result_ok n a b r : answer_ok a → to_result n a b = Some r → result_ok r.
Proof.
  intros Ha. destruct a as [[[v ver] found] m]. unfold to_result.
  destruct found; [by intros [= <-]|]. destruct b; [by intros [= <-]|done].
Qed.

Lemma gather_ok k least ns rs : Forall result_ok rs → Forall result_ok (gather get_remote k least ns rs).
Proof using Hremote.
  revert rs. induction ns as [|n ns IH]; intros rs Hrs; cbn [gather]; [done|].
  unfold _read_remote. destruct (get_remote k n) as [a|] eqn:Ea; [|by apply IH].
  destruct (to_result n a true) as [r|] eqn:Er; [|by apply IH].
  assert (Hr : Forall result_ok (rs ++ [r])).
  { apply Forall_app. split; [done|]. constructor; [|done]. by eapply to_result_ok, Er; eapply Hremote. }
  cbv zeta. destruct (_ <=? _); [done|by apply IH].
Qed.

Lemma replicas_ok k rs least :
  Forall result_ok (_read_from_replicas local_node_id get_local get_remote arrival k rs least).
Proof using Hlocal Hremote.
  apply gather_ok, Forall_forall. intros r (x & _ & Hr)%list_elem_of_omap. case_decide; [|done].
  by eapply to_result_ok, Hr.
Qed.

#[local] Abbreviation keeps := (ensures (λ _, True) repair_ok (λ _, True)).

Lemma choose_repairs k required rs : Forall result_ok rs → keeps (choose k required rs).
Proof.
  intros Hrs. unfold choose. destruct (_ <? _); [by apply ensures_ret|].
  destruct (base.filter _ rs) as [|p ps] eqn:Ef; [by apply ensures_ret|]. cbv zeta.
  assert (Hbest : result_ok (max_from result_ltb p ps)).
  { assert (Hin : max_from result_ltb p ps ∈ p :: ps) by (apply elem_of_cons, max_from_in).
    rewrite <-Ef in Hin. apply list_elem_of_filter in Hin as [_ Hin]. rewrite Forall_forall in Hrs. by apply Hrs. }
  apply (ensures_bind (λ _, True)); [|by intros; apply ensures_ret].
  destruct (_ || _); [|by apply ensures_ret]. unfold _trigger_read_repair. solve_ensures.
Qed.

Lemma read_repairs k c : keeps (read local_node_id rf get_local get_remote get_replicas get_owner arrival k c).
Proof using Hlocal Hremote.
  pose proof (λ required rs, choose_repairs k required rs) as Hchoose.
  assert (Hfirst : ∀ rs, keeps (first_remote local_node_id get_remote k rs)).
  { induction rs as [|r rs IH]; cbn [first_remote]; solve_ensures. }
  unfold read, _read_strong, _read_quorum, _read_all, _read_any. cbv zeta.
  pose proof (replicas_ok k). destruct c; solve_ensures.
Qed.
End values.
End ReadValues.

(** ** The node *)
Module NodeDurable.
Import Message Protocol Node NodeReads NodeAdmin NodeLoop NodeF Entries Staged ReadValues.

Definition on_file (n : DatabaseNode) : Prop :=
  Durable.covered false (storage n) ∧ entries_ok (cluster n).

Abbreviation keeps := (ensures on_file (λ _, True) (λ _, True)).

Lemma files_storage {A} (p : prog Storage.storage Empty_set A) :
  preserves (Durable.stays_covered false) p → keeps (in_storage p).
Proof.
  intros Hp. apply (ensures_zoom _ (Durable.covered false) _ (λ _, True)); [by intros n []|by intros n st []|done|].
  by apply ensures_preserves.
Qed.

Lemma held_wf strict st k m : Durable.covered strict st → StorageF.lookup (Storage.store st) k = Some m →
  json_wf (KVStore.value m).
Proof.
  intros [_ (a & es & es' & _ & _ & He%Durable.lines_wf & Hh)] Hm. destruct (Hh k m Hm) as (e & Hl & Hw).
  rewrite <-(Durable.w_value _ _ _ Hw). apply Durable.last_entry_in in Hl. rewrite Forall_forall in He. by apply He.
Qed.

Section node.
Context `{RingHash} (now rto : time) (exn_str : exn → string) (jfloat : Q → json) (draw : string → Q) (jitter : string → time).
Context (bp_draw : Q) (exchange : string → Z → Message → option Message).
Context (call : string → Z → string → list string → reply) (arrival : list string → list string).
(** The answers of other nodes are decoded JSON. *)
Context (Hcall : ∀ h p c a m, call h p c a = Answer m → json_wf (payload m)).

#[local] Hint Resolve Durable.keeps_look Durable.keeps_drop Durable.keeps_tick Durable.keeps_maintain : preserves.
#[local] Hint Extern 1 (ensures _ _ _ (in_storage _)) => apply files_storage; solve_preserves : ensures.

Lemma files_entry e : entry_ok e → keeps (in_storage (Storage._apply_log_entry now e)).
Proof. intros He. by apply files_storage, Durable.keeps_applied. Qed.

Lemma files_put k v ver ex c u co : json_wf v → keeps (in_storage (Storage.put_newer now k v ver ex c u co)).
Proof. intros Hv. by apply files_storage, Durable.covered_put_newer. Qed.

(** An operation of the coordinator and its callbacks. *)
Lemma files_cluster {A} (p : prog Coordinator.ClusterCoordinator Coordinator.coord_event A) :
  ensures entries_ok applied_ok (λ _, True) p → keeps (in_cluster now p).
Proof.
  intros Hp n [Hs Hc]. specialize (Hp (cluster n) Hc). unfold in_cluster, state_of, events_of, result_of in *.
  destruct (p (cluster n)) as [[c evs] r]. destruct Hp as (Hc' & Hevs & _). simpl in *.
  assert (Hev : keeps (for_each (on_coord_event now) evs)).
  { apply ensures_for_each. intros ev Hin. rewrite Forall_forall in Hevs. specialize (Hevs ev Hin).
    destruct ev; cbn [on_coord_event]; [by apply files_entry|by apply ensures_emit..]. }
  specialize (Hev (set_cluster c n)). unfold state_of, events_of in Hev.
  destruct (for_each _ _ _) as [[n' es] []]; simpl in *; destruct Hev as (? & ? & _); try done;
    (split_and!; [done..|]); by destruct r.
Qed.
#[local] Hint Extern 1 (ensures _ _ _ (in_cluster _ _)) => apply files_cluster : ensures.
#[local] Hint Resolve Staged.stages_election logs_step_down Staged.stages_election_round Staged.stages_heartbeats
  stages_coord_replicate stages_join stages_gossip stages_message Staged.stages_replication : ensures.

Lemma files_write op key value ttl : json_wf value → keeps (_apply_partition_write now draw exchange op key value ttl).
Proof.
  intros Hv. assert (∀ n i cur, keeps (in_storage (Storage._apply_log_entry now (write_entry now n i op key value ttl cur)))).
  { intros. by apply files_entry. }
  unfold _apply_partition_write, _next_write_index. cbv zeta. solve_ensures.
Qed.

#[local] Hint Resolve files_write : ensures.

Lemma files_forward rounds target op key value ttl : keeps (forward_rounds call rounds target op key value ttl).
Proof.
  revert target. induction rounds as [|rounds IH]; intros target; cbn [forward_rounds]; [solve_ensures|].
  unfold Node.command. solve_ensures.
Qed.
#[local] Hint Resolve files_forward : ensures.

Lemma files_coordinate op key value ttl : json_wf value →
  keeps (_coordinate_or_forward_write now draw exchange call op key value ttl).
Proof. intros Hv. unfold _coordinate_or_forward_write, _forward_write. solve_ensures. Qed.

Lemma files_replicate_value key value ver m ts : keeps (_replicate_value_to_nodes call key value ver m ts).
Proof.
  induction ts as [|t ts IH]; cbn [_replicate_value_to_nodes]; [solve_ensures|].
  unfold send_replica, Node.command. solve_ensures.
Qed.
#[local] Hint Resolve files_coordinate files_replicate_value : ensures.

Lemma files_repair_data id key value ver m : json_wf value →
  keeps (in_storage (Storage._apply_repair_data now id key value ver m)).
Proof. intros Hv. by apply files_put. Qed.
#[local] Hint Resolve files_repair_data : ensures.

Lemma files_repair_value key value ver t m : json_wf value → keeps (_repair_value now call key value ver t m).
Proof. intros Hv. unfold _repair_value. cbv zeta. solve_ensures. Qed.

(** ** Reads *)

Lemma local_answer_ok n key : on_file n → answer_ok (local_answer now n key).
Proof.
  intros [Hs _]. unfold local_answer, answer_ok. pose proof (held_wf false (storage n) key) as Hh.
  unfold KVStore.get_with_metadata, StorageF.lookup in *. destruct (dict_get _ key) as [m|]; [|done].
  destruct (KVStore.is_expired now m); [done|]. by eapply Hh.
Qed.

Lemma decode_answer_ok j a : json_wf j → decode_answer j = Ok a → answer_ok a.
Proof.
  intros Hj. unfold decode_answer. intros H0.
  repeat (apply res_bind_ok in H0 as (? & ? & H0)). injection H0 as <-. cbn.
  by eapply get_default_wf; [exact Hj| |eassumption].
Qed.

Lemma remote_answer_ok n key target : answer_ok (_get_remote_value_for_read call n key target).
Proof using Hcall.
  unfold _get_remote_value_for_read. destruct (get_node n target) as [node|]; [|done].
  destruct (call _ _ _ _) as [| |m] eqn:E; try done. destruct (is_success m); [|done].
  destruct (res_bind _ decode_answer) as [a|] eqn:Ea; [|done].
  apply res_bind_ok in Ea as (j & Hj & Ea). eapply decode_answer_ok, Ea.
  eapply get_default_wf; [by eapply Hcall| |exact Hj]. by apply json_wf_obj; repeat constructor.
Qed.

Lemma files_read key c : keeps (read now call arrival key c).
Proof using Hcall.
  unfold read. apply ensures_get. intros n Hn. apply (ensures_bind (λ _, True)).
  { unfold _get_local_value_for_read. solve_ensures. }
  intros _ _.
  pose proof (read_repairs (node_id n) (Config.replication_factor (config n)) (local_answer now n)
    (λ k t, Some (_get_remote_value_for_read call n k t)) (replicas n) (λ _, Coordinator.get_leader_id (cluster n))
    arrival (λ k, local_answer_ok n k Hn)) as Hr.
  specialize (Hr ltac:(by intros k t a [= <-]; apply remote_answer_ok) key c (read_stats n) I).
  destruct (Read.read _ _ _ _ _ _ _ _ _ _) as [[s repairs] r]. destruct Hr as (_ & Hrep & _). cbn in Hrep.
  apply (ensures_bind (λ _, True)); [by apply ensures_modify|]. intros _ _.
  apply (ensures_bind (λ _, True)); [|intros; by apply ensures_lift].
  apply ensures_for_each. intros rp Hin. rewrite Forall_forall in Hrep. specialize (Hrep rp Hin).
  apply ensures_catch; [by apply files_repair_value|by intros; apply ensures_ret].
Qed.

#[local] Hint Resolve files_read : ensures.

(** ** Keys, imports, migration *)

Lemma on_file_cleanup n : on_file n → on_file (set_storage (Storage.with_store (storage n)
  (KVStore._cleanup_expired now (Storage.store (storage n)))) n).
Proof. intros [Hs Hc]. split; [|done]. by apply Durable.cleanup_shrinks. Qed.

Lemma files_local_keys p : keeps (local_keys now p).
Proof.
  apply ensures_preserves, preserves_state. intros n. apply on_file_cleanup.
Qed.

Lemma files_all_data : keeps (get_all_data now).
Proof.
  apply ensures_preserves, preserves_state. intros n. cbv zeta. apply on_file_cleanup.
Qed.
#[local] Hint Resolve files_local_keys files_all_data : ensures.

Lemma files_import_loop items i s f : Forall (λ p, json_wf p.2) items → keeps (import_loop now items i s f).
Proof.
  intros Hi. revert i s f. induction Hi as [|[k x] items Hx _ IH]; intros i s f; cbn [import_loop].
  { by apply ensures_ret. }
  apply ensures_lift_bind. intros [ver m] _. apply (ensures_bind (λ _, True)); [solve_ensures|]. intros cur _.
  destruct (older_than_stored ver m cur); [apply IH|].
  apply ensures_lift_bind. intros v Hv. apply subscript_wf in Hv; [|done].
  apply (ensures_bind (λ _, True)); [by apply files_put|]. intros _ _. apply ensures_get. intros n _. apply IH.
Qed.

Lemma files_fan_out items : keeps (fan_out call items).
Proof. induction items as [|i items IH]; cbn [fan_out]; solve_ensures. Qed.
#[local] Hint Resolve files_fan_out : ensures.

Lemma files_import args : keeps (_handle_import_keys now call args).
Proof.
  unfold _handle_import_keys. destruct args as [|text args]; [by apply ensures_ret|].
  destruct (loads text) as [j|] eqn:E; [|by apply ensures_ret]. destruct j as [| | | | | |items]; try apply ensures_raise.
  apply loads_wf, obj_items in E. apply (ensures_bind (λ _, True)); [by apply files_import_loop|].
  intros [[i s] f] _. solve_ensures.
Qed.

Lemma files_collect p ns ks : keeps (collect_keys call p ns ks).
Proof.
  revert ks. induction ns as [|x ns IH]; intros ks; cbn [collect_keys]; [by apply ensures_ret|].
  unfold remote_keys, Node.command. solve_ensures.
Qed.
#[local] Hint Resolve files_import files_collect : ensures.

Lemma files_cluster_keys p : keeps (_collect_cluster_keys now call p).
Proof. unfold _collect_cluster_keys. solve_ensures. Qed.
#[local] Hint Resolve files_cluster_keys : ensures.

Lemma files_migration_event ev : keeps (on_migration_event now call ev).
Proof. destruct ev; cbn [on_migration_event]; unfold _send_migration_keys, Node.command; solve_ensures. Qed.
#[local] Hint Resolve files_migration_event : ensures.

Lemma files_in_migration {A} p : keeps (in_migration now call p : proc A).
Proof. unfold in_migration. solve_ensures. Qed.
#[local] Hint Resolve files_in_migration : ensures.

Lemma files_migration_round fin : keeps (NodeReads.migration_round now exn_str call fin).
Proof. unfold NodeReads.migration_round. solve_ensures. Qed.

Lemma files_sync : keeps (_sync_topology now call).
Proof. unfold _sync_topology, topology_join, topology_leave. cbv zeta. solve_ensures. Qed.
#[local] Hint Resolve files_sync : ensures.

(** ** Commands *)

Lemma files_faults {A} (p : prog Faults.FaultInjector Faults.fault_event A) : keeps (in_faults now rto p).
Proof.
  intros n Hn. unfold in_faults, state_of, events_of, result_of. destruct (p (fault_injector n)) as [[i evs] r].
  assert (Hev : keeps (for_each (on_fault_event now rto) evs)).
  { apply ensures_for_each. intros ev _. destruct ev; cbn [on_fault_event];
      unfold _handle_leader_kill, step_down; solve_ensures. }
  specialize (Hev (set_faults i n) Hn). unfold state_of, events_of in Hev.
  destruct (for_each _ _ _) as [[n' es] []]; simpl in *; destruct Hev as (? & ? & _); (split_and!; [done..|]); by destruct r.
Qed.
#[local] Hint Resolve files_faults : ensures.

Lemma files_fault args : keeps (_handle_fault now rto jfloat draw args).
Proof. unfold _handle_fault, inject. cbv zeta. solve_ensures. Qed.
#[local] Hint Resolve files_fault : ensures.

Lemma parse_internal_ok name kind args op key value ttl :
  parse_internal_write name kind args = inr (op, key, value, ttl) → json_wf value.
Proof.
  unfold parse_internal_write. destruct args as [|op' [|key' rest]]; [done..|]. cbv zeta.
  destruct (decide (upper op' = "SET"%string)).
  - destruct rest as [|v rest]; [done|]. pose proof (loads_or_text_wf v) as Hv. unfold loads_or_text in Hv.
    repeat case_match; intros ?; by simplify_eq.
  - case_decide; intros ?; by simplify_eq.
Qed.

Lemma files_leader_write args : keeps (_handle_leader_write now draw exchange args).
Proof.
  unfold _handle_leader_write. destruct (parse_internal_write _ _ _) as [|[[[op key] value] ttl]] eqn:E; [by apply ensures_ret|].
  apply parse_internal_ok in E. solve_ensures.
Qed.

Lemma files_owner_write args : keeps (_handle_owner_write now draw exchange args).
Proof.
  unfold _handle_owner_write. destruct (parse_internal_write _ _ _) as [|[[[op key] value] ttl]] eqn:E; [by apply ensures_ret|].
  apply parse_internal_ok in E. cbv zeta. solve_ensures.
Qed.

Lemma files_replica_set args : keeps (_handle_replica_set now args).
Proof.
  pose proof loads_or_text_wf. unfold _handle_replica_set. repeat case_match; try (by apply ensures_ret).
  all: apply (ensures_bind (λ _, True)); [by apply files_put|intros; by apply ensures_ret].
Qed.
#[local] Hint Resolve files_leader_write files_owner_write files_replica_set : ensures.

Lemma files_set args : keeps (_handle_set now draw exchange call args).
Proof. unfold _handle_set. solve_ensures; by apply files_coordinate. Qed.
Lemma files_setex args : keeps (_handle_setex now draw exchange call args).
Proof. unfold _handle_setex. solve_ensures; by apply files_coordinate. Qed.
Lemma files_delete args : keeps (_handle_delete now draw exchange call args).
Proof. unfold _handle_delete. solve_ensures; by apply files_coordinate. Qed.
#[local] Hint Resolve files_set files_setex files_delete : ensures.

Lemma files_report f : keeps (report f).
Proof. unfold report. solve_ensures. Qed.
#[local] Hint Resolve files_report : ensures.

Lemma files_dispatch cmd args : keeps (dispatch now rto jfloat draw exchange call arrival cmd args).
Proof using Hcall.
  unfold dispatch, _handle_get, _handle_exists, _handle_keys,
    _handle_shards, _handle_rebalance, _handle_failover, _handle_local_read, _handle_local_keys, step_down.
  repeat (case_decide; [cbv zeta; solve_ensures|]). solve_ensures.
Qed.

#[local] Hint Resolve files_dispatch : ensures.

Lemma files_client m :
  keeps (_handle_client_message now rto exn_str jfloat draw bp_draw exchange call arrival m).
Proof using Hcall. unfold _handle_client_message. cbv zeta. solve_ensures. Qed.

Lemma files_cluster_message m : json_wf (payload m) → keeps (NodeAdmin._handle_cluster_message now rto draw jitter m).
Proof. intros Hm. unfold NodeAdmin._handle_cluster_message. solve_ensures. Qed.

Lemma files_maintenance gz failing : keeps (maintenance now call gz failing).
Proof.
  unfold maintenance. apply ensures_catch; [|by intros; apply ensures_ret].
  apply (ensures_bind (λ _, True)); [apply ensures_modify; [apply on_file_cleanup|done]|].
  intros _ _. solve_ensures.
Qed.

End node.

(** ** Runs *)

Section runs.
Context `{RingHash} `{MerkleHash}.

(** What a decoder yields: the payloads of messages and of answers. *)
Definition decoded (s : world * input) : Prop :=
  (∀ h p c a m, w_call s.1 h p c a = Answer m → json_wf (payload m)) ∧
  match s.2 with ClusterMessage m => json_wf (payload m) | _ => True end.

Lemma react_on_file w i : decoded (w, i) → keeps (react w i).
Proof.
  intros [Hcall Hi]. cbn in Hcall, Hi. pose proof (λ now rto, stages_message now rto).
  destruct i; cbn [react]; unfold election_loop, gossip_loop, replication_loop, guarded.
  - apply (ensures_bind (λ _, True)); [by apply files_client|intros; by apply ensures_ret].
  - by apply (ensures_mono (λ _, True)), files_cluster_message.
  - apply (ensures_bind (λ _, True)); [|intros; by apply ensures_ret].
    apply ensures_catch; [|by intros; apply ensures_ret]. apply ensures_get. intros n _. apply files_cluster.
    apply ensures_get. intros c _. destruct (Coordinator.is_leader c);
      [apply Staged.stages_heartbeats|apply Staged.stages_election_round].
  - apply (ensures_bind (λ _, True)); [|intros; by apply ensures_ret].
    apply ensures_catch; [|by intros; apply ensures_ret]. apply ensures_get. intros n _.
    apply files_cluster, stages_gossip.
  - apply (ensures_bind (λ _, True)); [|intros; by apply ensures_ret].
    apply ensures_catch; [|by intros; apply ensures_ret]. apply ensures_get. intros n _. apply files_cluster.
    apply ensures_get. intros c _. apply Staged.stages_replication.
  - apply (ensures_bind (λ _, True)); [|intros; by apply ensures_ret].
    apply ensures_catch; [by apply files_migration_round|by intros; apply ensures_ret].
  - intros n Hn. destruct (NodeInv.node_repairs_nothing w tree n) as (values & Hr & _ & Hst).
    unfold mbind, prog_bind. rewrite Hr. cbn. split_and!; [|done|done]. destruct Hn as [Hs Hc]. split; [|done].
    by apply Durable.cleanup_shrinks.
  - apply (ensures_bind (λ _, True)); [by apply files_maintenance|intros; by apply ensures_ret].
  - apply (ensures_bind (λ _, True)); [apply files_storage, Durable.keeps_tick|intros; by apply ensures_ret].
  - apply (ensures_bind (λ _, True)); [|intros; by apply ensures_ret]. apply files_cluster, stages_join.
Qed.

Lemma run_on_file tr n : Forall decoded tr → on_file n → on_file (run_node n tr).
Proof.
  intros Htr. revert n. induction Htr as [|[w i] tr Hd _ IH]; intros n Hn; [done|].
  apply IH. by apply react_on_file.
Qed.

(** ** Start *)

(** A data directory without a snapshot that loads. *)
Definition no_snapshot (now : time) (sn : option Snapshot.SnapshotPersistence) : Prop :=
  ∀ s, sn = Some s → (Snapshot.load Storage.recursion_limit now (Snapshot.disk s)).2 = None.

Lemma recover_fresh now t0 interval sn : no_snapshot now sn →
  ∃ sn', Storage._recover_data now (Durable.started t0 interval sn) = (Durable.started t0 interval sn', [], Ok 0).
Proof.
  intros Hsn. unfold Storage._recover_data. rewrite get_bind. cbn [Storage.snapshot Durable.started].
  destruct sn as [s|].
  - rewrite (Hsn s eq_refl), put_bind. by eexists.
  - rewrite ret_bind. by exists None.
Qed.

(** The node that a first start gives. *)
Definition first_start (w : world) (cfg : Config.NodeConfig) (t0 interval : time)
    (sn : option Snapshot.SnapshotPersistence) : DatabaseNode :=
  state_of (NodeAdmin.start (w_now w) (w_call w)
    (Node.init (w_now w) (w_rto w) cfg (Durable.started t0 interval sn))).

Lemma first_start_on_file w cfg t0 interval sn : no_snapshot (w_now w) sn → on_file (first_start w cfg t0 interval sn).
Proof.
  intros Hsn. unfold first_start, NodeAdmin.start. set (n0 := Node.init _ _ _ _).
  destruct (recover_fresh (w_now w) t0 interval sn Hsn) as [sn' Hr].
  assert (Hrun : in_storage (Storage._recover_data (w_now w)) n0 =
    (set_storage (Durable.started t0 interval sn') n0, [], Ok 0)).
  { rewrite in_storage_run. change (storage n0) with (Durable.started t0 interval sn). by rewrite Hr. }
  erewrite bind_silent by exact Hrun.
  assert (Hk : keeps (_sync_topology (w_now w) (w_call w);; mret 0)).
  { apply (ensures_bind (λ _, True)); [apply files_sync|intros; by apply ensures_ret]. }
  apply Hk. split; [apply Durable.started_covered|]. split; constructor.
Qed.

(** Claim C11. What a running node holds survives a crash.  Whatever reaches a
    node after its first start, in whatever order, and whatever other nodes
    answer: when it then crashes and loses any part of the unsynced text, its
    restart succeeds, whatever snapshot it finds, and holds every key that the
    node held, with its value and all its metadata, unless the key's last line
    was not synced, came from another node without the metadata, or has expired
    by then. *)
Theorem node_survives_crash w cfg t0 interval sn tr a cut later sn'
    (Hsn : no_snapshot (w_now w) sn) (Htr : Forall decoded tr)
    (Ha : Storage.aof (storage (run_node (first_start w cfg t0 interval sn) tr)) = Some a) :
  let held := StorageF.lookup (Storage.store (storage (run_node (first_start w cfg t0 interval sn) tr))) in
  ∃ st' c, Storage._recover_data later (StorageF.restart later interval (AOF.crash cut a) sn') = (st', [], Ok c) ∧
    ∀ k m, held k = Some m → k ∉ Durable.unsynced_keys a → Durable.whole_line a k = true →
      StorageF.alive_at later m = Some m → StorageF.lookup (Storage.store st') k = Some m.
Proof.
  cbv zeta. destruct (run_on_file tr (first_start w cfg t0 interval sn) Htr) as [Hc _]; [by apply first_start_on_file|].
  eapply Durable.recorded_restart; [|exact Ha]. by apply Durable.covered_recorded in Hc.
Qed.

End runs.

(** ** A concrete run *)

#[local] Existing Instance NodeF.demo_hash.

(** A value from another node, a round of fsync, and a second value that is not
    synced when the node crashes. *)
Definition demo_inputs : list (world * input) :=
  [(NodeInv.demo_world (seconds 1), ClientMessage 
      (create_command "__REPLICA_SET" (JStr <$> ["k"; "7"; "3"; ""; "1.0"; "1.0"; "n2"]) "n2"));
   (NodeInv.demo_world (seconds 1), FsyncRound);
   (NodeInv.demo_world (seconds 1), ClientMessage 
      (create_command "__REPLICA_SET" (JStr <$> ["l"; "8"; "1"; ""; "1.0"; "1.0"; "n2"]) "n2"))]%string.

Lemma demo_decoded : Forall decoded demo_inputs.
Proof. repeat (apply Forall_cons; split; [by split|]). by apply Forall_nil. Qed.

Lemma node_survives_crash_witness :
  let n := run_node (first_start (NodeInv.demo_world 0) (demo_cfg "n1" 7001) 0 (seconds 5) None) demo_inputs in
  ∃ a st' c m, Storage.aof (storage n) = Some a ∧ Durable.unsynced_keys a = ["l"%string] ∧
    Storage._recover_data (seconds 9) (StorageF.restart (seconds 9) (seconds 5) (AOF.crash 4 a) None) = (st', [], Ok c) ∧
    StorageF.lookup (Storage.store st') "k" = Some m ∧ KVStore.value m = JInt 7.
Proof.
  cbv zeta. set (n := run_node _ _).
  assert (Ha : is_Some (Storage.aof (storage n))) by (apply (bool_decide_unpack _); by vm_compute). destruct Ha as [a Ha].
  assert (Hu : (λ a, (Durable.unsynced_keys a, Durable.whole_line a "k")) <$> Storage.aof (storage n) =
    Some (["l"%string], true)) by (by vm_compute).
  rewrite Ha in Hu. injection Hu as Hu Hw.
  assert (Hm : (λ m, (StorageF.alive_at (seconds 9) m, KVStore.value m)) <$>
    StorageF.lookup (Storage.store (storage n)) "k" =
    Some (StorageF.lookup (Storage.store (storage n)) "k", JInt 7)) by (by vm_compute).
  destruct (StorageF.lookup (Storage.store (storage n)) "k") as [m|] eqn:Hk; [|done]. injection Hm as Hm Hv.
  destruct (node_survives_crash (NodeInv.demo_world 0) (demo_cfg "n1" 7001) 0 (seconds 5) None demo_inputs a 4
    (seconds 9) None ltac:(done) demo_decoded Ha) as (st' & c & Hr & Hkeys).
  exists a, st', c, m. split; [exact Ha|]. split; [exact Hu|]. split; [exact Hr|]. split; [|exact Hv].
  apply Hkeys; [exact Hk| |exact Hw|exact Hm]. rewrite Hu. apply (bool_decide_unpack _). by vm_compute.
Defined.

End NodeDurable.
