(* ===== verification/Fleet.v ===== *)
(** A cluster of whole nodes: what reaches each of them is arbitrary, and only
    the votes that they give each other are tied together.  It refines the
    cluster of election managers, so a term has one leader.

    An election is three steps of its node, as in [_start_election], which
    holds its lock while it starts the term and while it counts, and not while
    it asks: whatever reaches the node in between is a step of its own. *)

From S2P Require Import Prelude.
From S2P Require Import PyMonad.
From S2P Require Import PyDict.
From S2P Require Import Json.
From S2P Require Import Config.
From S2P Require Import Protocol.
From S2P Require Import Store.
From S2P Require Import StoreSpec.
From S2P Require Import Ring.
From S2P Require Import Election.
From S2P Require Import ElectionSafety.
From S2P Require Import Membership.
From S2P Require Import MembershipFacts.
From S2P Require Import Storage.
From S2P Require Import FaultInjection.
From S2P Require Import Merkle.
From S2P Require Import MerkleFacts.
From S2P Require Import Coordinator.
From S2P Require Import ElectionRound.
From S2P Require Import Node.
From S2P Require Import NodeReads.
From S2P Require Import NodeAdmin.
From S2P Require Import NodeLoop.
From S2P Require Import NodeFacts.
From S2P Require Import NodeInvariant.
From Stdlib Require Import QArith.
#[local] Open Scope Z_scope.

Module Fleet.
Import Message Protocol Node NodeAdmin NodeLoop.
Import Cluster (vote, voters).

Abbreviation election_of n := (Coordinator.election (cluster n)).

(** ** The phases of an election at its node *)

Definition begin_phase (w : world) : proc (Z * Z * Z) :=
  in_cluster (w_now w) (Coordinator.in_election (Election.begin_election (w_rto w))).

Definition count_phase (w : world) (n : DatabaseNode) (term index lterm : Z) : Z :=
  Coordinator._request_votes (blocked (w_now w) (w_draw w) n) (w_exchange w) (cluster n) term index lterm.

Definition finish_phase (w : world) (term votes : Z) : proc () :=
  in_cluster (w_now w) (
    c ← get_state;
    Coordinator.in_election (Election.finish_election term votes (Coordinator.get_cluster_size c))).

Section fleet.
Context `{RingHash} `{MerkleHash}.

(** The nodes; the votes that they answered, the elections that they started
    and the counts that these came to are kept as a ghost record. *)
Record fleet := mkFleet {
  members : gmap string DatabaseNode;
  answered : gset vote;
  begun : gset (string * Z);
  counted : gset (string * Z * Z);
}.

Definition with_node (id : string) (n : DatabaseNode) (f : fleet) : fleet :=
  mkFleet (<[id := n]> (members f)) (answered f) (begun f) (counted f).

(** An input that starts an election. *)
Definition starts (w : world) (i : input) (n : DatabaseNode) : bool :=
  match i with
  | ElectionRound => Election._should_start_election (w_now w) (election_of n)
  | _ => false
  end.

(** The vote that an answer grants. *)
Definition answer_vote (id : string) (i : input) (r : res (option Message)) : gset vote :=
  match i, r with
  | ClusterMessage m, Ok a =>
      if decide (msg_type m = VOTE_REQUEST ∧ Coordinator.answer_true "vote_granted" a = true)
      then {[(id, sender_id m, term m)]} else ∅
  | _, _ => ∅
  end.

(** The network does not make up votes: who asks for votes in a term is told
    of a vote by a member only if that member answered so. *)
Definition honest (f : fleet) (w : world) (id : string) (n : DatabaseNode) (t index lterm : Z) : Prop :=
  ∀ p, p ∈ Coordinator.peers (cluster n) →
    Coordinator.answer_true "vote_granted"
      (Coordinator.ask (w_exchange w) p (create_vote_request id t index lterm)) = true →
    (NodeInfo.node_id p, id, t) ∈ answered f.

(** With [whole], who finishes an election sees every member alive. *)
Inductive step (whole : Prop) : fleet → fleet → Prop :=
  | step_start f id n w :
      members f !! id = Some n →
      step whole f (with_node id (state_of (NodeAdmin.start (w_now w) (w_call w) n)) f)
  | step_react f id n w i :
      members f !! id = Some n → starts w i n = false →
      let r := react w i n in
      step whole f (mkFleet (<[id := state_of r]> (members f)) (answer_vote id i (result_of r) ∪ answered f)
                (begun f) (counted f))
  | step_begin f id n w :
      members f !! id = Some n →
      let n' := state_of (begin_phase w n) in
      step whole f (mkFleet (<[id := n']> (members f)) (answered f)
                ({[(id, Election.current_term (election_of n'))]} ∪ begun f) (counted f))
  | step_count f id n w t index lterm :
      members f !! id = Some n → (id, t) ∈ begun f → honest f w id n t index lterm →
      step whole f (mkFleet (members f) (answered f) (begun f)
                ({[(id, t, count_phase w n t index lterm)]} ∪ counted f))
  | step_finish f id n w t votes :
      members f !! id = Some n → (id, t, votes) ∈ counted f →
      (whole → Z.of_nat (size (members f)) <= Coordinator.get_cluster_size (cluster n)) →
      step whole f (with_node id (state_of (finish_phase w t votes n)) f).

(** Nodes that were just created, each under its own name. *)
Definition initial (f : fleet) : Prop :=
  answered f = ∅ ∧ begun f = ∅ ∧ counted f = ∅ ∧
  ∀ id n, members f !! id = Some n → ∃ now rto cfg st,
    n = Node.init now rto cfg st ∧ Config.node_id cfg = id ∧ KVFacts.wf (Storage.store st).

(** ** The refinement *)

(** The managers of the nodes, with every vote that was granted. *)
Record refines (f : fleet) (s : Cluster.cluster) : Prop := {
  r_inv : ∀ id n, members f !! id = Some n → NodeInv.inv n ∧ node_id n = id;
  r_nodes : Cluster.nodes s = (λ n, election_of n) <$> members f;
  r_answered : answered f ⊆ Cluster.granted s;
  r_begun : ∀ c t, (c, t) ∈ begun f → (c, c, t) ∈ Cluster.granted s;
  r_counted : ∀ c t k, (c, t, k) ∈ counted f → k <= Z.of_nat (size (voters (Cluster.granted s) c t));
}.

(** ** What a step does to the election of its node *)

Lemma begin_phase_election w n :
  election_of (state_of (begin_phase w n)) = state_of (Election.begin_election (w_rto w) (election_of n)) ∧
  NodeInv.safe ElectionInv.later n (state_of (begin_phase w n)).
Proof.
  split; [reflexivity|]. apply NodeInv.keeps_cluster, CoordinatorInv.keeps_election, ElectionInv.v_begin.
Qed.

Lemma guarded_state {S E A : Type} (p : prog S E ()) (a : A) n :
  state_of ((guarded p;; mret a) n) = state_of (p n).
Proof.
  unfold guarded, catch, mbind, prog_bind, state_of. by destruct (p n) as [[n' es] [u|x]].
Qed.

(** The round of the loop is the three phases in a row. *)
Lemma election_round_phases w n : starts w ElectionRound n = true →
  let n' := state_of (begin_phase w n) in
  let t := Election.current_term (election_of n') in
  state_of (react w ElectionRound n) =
    state_of (finish_phase w t (count_phase w n' t (Z.of_nat (length (Election.log (election_of n))))
                                  (Election.last_log_term (election_of n))) n').
Proof.
  cbn [starts]. intros Hs. cbv zeta. cbn [react]. unfold election_loop. rewrite guarded_state, get_bind.
  assert (Hl : Coordinator.is_leader (cluster n) = false).
  { unfold Election._should_start_election in Hs. unfold Coordinator.is_leader, Election.is_leader.
    by case_decide; [|apply bool_decide_eq_false_2]. }
  unfold in_cluster at 1. rewrite get_bind, Hl. unfold Coordinator.election_round.
  rewrite get_bind, Hs. erewrite bind_silent by apply ElectionRound.in_begin_election.
  cbv beta iota. rewrite get_bind. unfold finish_phase, in_cluster. rewrite get_bind.
  set (n' := state_of (begin_phase w n)).
  change (cluster n') with
    (Coordinator.set_election (state_of (Election.begin_election (w_rto w) (election_of n))) (cluster n)).
  change (count_phase w n' _ _ _) with
    (Coordinator._request_votes (blocked (w_now w) (w_draw w) n) (w_exchange w)
      (Coordinator.set_election (state_of (Election.begin_election (w_rto w) (election_of n))) (cluster n))
      (Election.current_term (election_of n) + 1) (Z.of_nat (length (Election.log (election_of n))))
      (Election.last_log_term (election_of n))).
  change (Election.current_term (election_of n')) with (Election.current_term (election_of n) + 1).
  by destruct (Coordinator.in_election _ _) as [[c evs] r].
Qed.

(** The node's callbacks do not touch the coordinator. *)
Lemma in_cluster_state {A} now (p : prog Coordinator.ClusterCoordinator Coordinator.coord_event A) n :
  cluster (state_of (in_cluster now p n)) = state_of (p (cluster n)).
Proof.
  unfold in_cluster, state_of at 2. destruct (p (cluster n)) as [[c evs] r].
  pose proof (NodeInv.coord_events_cluster now evs (set_cluster c n)) as Hc. unfold state_of in *.
  by destruct (for_each _ _ _) as [[n' es] []].
Qed.

Lemma in_election_state {A} (p : prog Election.ElectionManager election_event A) c :
  Coordinator.election (state_of (Coordinator.in_election p c)) = state_of (p (Coordinator.election c)).
Proof.
  destruct (p (Coordinator.election c)) as [[m es] r] eqn:E.
  destruct (ElectionRound.in_election_spec p c _ _ _ E) as (c' & es' & -> & Hm & _). done.
Qed.

Lemma finish_phase_election w t votes n :
  election_of (state_of (finish_phase w t votes n)) =
    state_of (Election.finish_election t votes (Coordinator.get_cluster_size (cluster n)) (election_of n)) ∧
  NodeInv.safe ElectionInv.later n (state_of (finish_phase w t votes n)).
Proof.
  unfold finish_phase. split.
  - rewrite in_cluster_state, get_bind. apply in_election_state.
  - apply NodeInv.keeps_cluster, preserves_state. intros c. apply CoordinatorInv.keeps_election, ElectionInv.v_finish.
Qed.

Lemma in_cluster_result {A} now (p : prog Coordinator.ClusterCoordinator Coordinator.coord_event A) n a :
  result_of (in_cluster now p n) = Ok a → result_of (p (cluster n)) = Ok a.
Proof.
  unfold in_cluster, result_of. destruct (p (cluster n)) as [[c evs] r].
  by destruct (for_each _ _ _) as [[n' es] []].
Qed.

(** A vote request is malformed, or its answer is the manager's. *)
Lemma handle_vote_run now m c :
  let h := Coordinator.handle_vote now m c in
  (∃ x, h = (c, [], Raise x)) ∨
  ∃ index lterm,
    let v := Election.handle_vote_request now (sender_id m) (term m) index lterm (Coordinator.election c) in
    Coordinator.election (state_of h) = state_of v ∧
    ∀ a, result_of h = Ok a →
      ∃ t b, result_of v = Ok (t, b) ∧ Coordinator.answer_true "vote_granted" a = b.
Proof.
  cbv zeta. unfold Coordinator.handle_vote, Coordinator.int_field.
  destruct (res_bind (Fields.get_default (payload m) "last_log_index" (JInt 0)) _) as [index|x];
    [rewrite lift_ok_bind|left; exists x; by rewrite lift_raise_bind].
  destruct (res_bind (Fields.get_default (payload m) "last_log_term" (JInt 0)) _) as [lterm|x];
    [rewrite lift_ok_bind|left; exists x; by rewrite lift_raise_bind].
  right. exists index, lterm.
  destruct (Election.handle_vote_request now (sender_id m) (term m) index lterm (Coordinator.election c))
    as [[e es] v] eqn:E.
  destruct (ElectionRound.in_election_spec _ c _ _ _ E) as (c' & es' & Hin & He & _).
  unfold mbind, prog_bind. rewrite Hin. destruct v as [[t b]|x]; [|by split]. split; [exact He|].
  intros a [= <-]. exists t, b. split; [done|]. by destruct b.
Qed.

Lemma vote_request_election w id m n n' es r : msg_type m = VOTE_REQUEST → NodeInv.inv n →
  react w (ClusterMessage m) n = (n', es, r) →
  ∃ e, ElectionInv.calls (election_of n) e ∧
    ((election_of n' = e ∧ answer_vote id (ClusterMessage m) r = ∅) ∨
     ∃ index lterm,
       let v := Election.handle_vote_request (w_now w) (sender_id m) (term m) index lterm e in
       election_of n' = state_of v ∧
       answer_vote id (ClusterMessage m) r ⊆
         match result_of v with Ok (_, true) => {[(id, sender_id m, term m)]} | _ => ∅ end).
Proof.
  intros Hm Hn. cbn [react]. unfold NodeAdmin._handle_cluster_message, mbind at 1, prog_bind.
  pose proof (NodeInv.keeps_faults (R := ElectionInv.calls) (w_now w) (w_rto w)
    (Faults.should_fail_network (w_draw w) (w_now w) (sender_id m)) n Hn) as [HA [_ LA _]].
  unfold state_of in HA, LA.
  destruct (in_faults _ _ _ n) as [[nA eA] [drop|x]]; cbn [fst snd] in HA, LA;
    [|intros ?; simplify_eq; eexists; split; [exact LA|by left]].
  destruct drop.
  { unfold mret, prog_ret. intros ?; simplify_eq. eexists. split; [exact LA|]. left. split; [done|]. cbn.
    by rewrite decide_False by (by intros [_ ?]). }
  unfold mbind at 1.
  pose proof (NodeInv.keeps_faults (R := ElectionInv.calls) (w_now w) (w_rto w)
    (Faults.get_network_delay (w_draw w) (w_jitter w) (w_now w) (sender_id m)) nA HA) as [_ [_ LB _]].
  unfold state_of in LB.
  destruct (in_faults _ _ _ nA) as [[nB eB] [delay|x]]; cbn [fst snd] in LB;
    [|intros ?; simplify_eq; eexists; split; [by etrans|by left]].
  pose proof (in_cluster_state (w_now w) (Coordinator.handle_cluster_message (w_now w) (w_rto w) m) nB) as Hs.
  pose proof (in_cluster_result (w_now w) (Coordinator.handle_cluster_message (w_now w) (w_rto w) m) nB) as Hr.
  destruct (in_cluster _ _ nB) as [[nC eC] r0]. intros ?; simplify_eq.
  unfold state_of at 1 in Hs. unfold result_of at 1 in Hr. cbn [fst snd] in Hs, Hr. rewrite Hs.
  unfold Coordinator.handle_cluster_message in Hr |- *. rewrite Hm in Hr |- *.
  exists (election_of nB). split; [by etrans|].
  destruct (handle_vote_run (w_now w) m (cluster nB)) as [[x Hx]|(index & lterm & He & Ha)].
  - left. rewrite Hx in Hr |- *. split; [done|]. destruct r as [a|y]; [by specialize (Hr a eq_refl)|done].
  - right. exists index, lterm. split; [exact He|]. destruct r as [a|y]; [|set_solver].
    destruct (Ha a (Hr a eq_refl)) as (t & b & Hv & Hb). cbn.
    case_decide as Hd; [|set_solver]. destruct Hd as [_ Hd]. rewrite Hv. rewrite Hd in Hb. by subst b.
Qed.

(** ** The simulation *)

Lemma update_calls whole s id m m' :
  Cluster.nodes s !! id = Some m → ElectionInv.calls m m' → rtc (Cluster.step whole) s (Cluster.update s id m').
Proof.
  intros Hm Hc. revert s Hm. induction Hc as [m|m m1 m' H1 _ IH]; intros s Hm.
  - unfold Cluster.update. rewrite insert_id by done. destruct s. apply rtc_refl.
  - eapply rtc_l; [by apply (Cluster.step_call _ s id m m1)|].
    replace (Cluster.update s id m') with (Cluster.update (Cluster.update s id m1) id m').
    + apply IH. apply lookup_insert_eq.
    + unfold Cluster.update. cbn. by rewrite insert_insert_eq.
Qed.

(** One node moves, and votes may be granted. *)
Lemma refines_move f s id n n' A g : refines f s → members f !! id = Some n →
  NodeInv.safe ElectionInv.later n n' → Cluster.granted s ⊆ g → A ⊆ g →
  refines (mkFleet (<[id := n']> (members f)) A (begun f) (counted f))
    (Cluster.mkCluster (<[id := election_of n']> (Cluster.nodes s)) g).
Proof.
  intros [Hinv Hnodes Hans Hbeg Hcnt] Hn Hsafe Hg HA.
  destruct (Hinv id n Hn) as [Hi Hid]. destruct (Hsafe Hi) as [Hi' [Hc _ _]].
  split; cbn.
  - intros id1 n1 [[<- <-]|[_ H1]]%lookup_insert_Some; [|by apply Hinv].
    split; [done|]. unfold node_id. by rewrite Hc.
  - by rewrite Hnodes, fmap_insert.
  - done.
  - intros c t Hin. by apply Hg, Hbeg.
  - intros c t k Hin. etrans; [by apply Hcnt|]. apply Nat2Z.inj_le. by apply Cluster.voters_mono.
Qed.

(** Votes that are counted were granted: by the candidate to itself, and by
    each member whose answer was counted. *)
Lemma count_bound f s id n w t index lterm : refines f s → members f !! id = Some n →
  (id, t) ∈ begun f → honest f w id n t index lterm →
  count_phase w n t index lterm <= Z.of_nat (size (voters (Cluster.granted s) id t)).
Proof.
  intros [Hinv Hnodes Hans Hbeg Hcnt] Hn Hb Hhon. destruct (Hinv id n Hn) as [[[Hcfg _] _ Hm _ _ _] Hid].
  assert (Hcid : Coordinator.node_id (cluster n) = id) by (unfold Coordinator.node_id; by rewrite Hcfg).
  unfold count_phase, Coordinator._request_votes. rewrite Hcid.
  set (P := λ p : NodeInfo, _ = true). set (l := base.filter P (Coordinator.peers (cluster n))).
  assert (NoDup (id :: (NodeInfo.node_id <$> l)) ∧
    list_to_set (id :: (NodeInfo.node_id <$> l)) ⊆ voters (Cluster.granted s) id t) as [Hnd Hsub].
  2: { apply subseteq_size in Hsub. rewrite size_list_to_set in Hsub by done. cbn in Hsub.
       rewrite length_fmap in Hsub. lia. }
  split.
  - apply NoDup_cons. split.
    + intros (p & Hp & Hin)%list_elem_of_fmap. apply list_elem_of_filter in Hin as [_ Hin].
      apply list_elem_of_filter in Hin as [Hne _]. congruence.
    + eapply sublist_NoDup; [by apply MembershipF.all_nodes_distinct|]. apply fmap_sublist.
      unfold l, Coordinator.peers, Membership.get_alive_nodes. etrans; [apply sublist_filter|].
      etrans; apply sublist_filter.
  - intros v. rewrite elem_of_list_to_set, Cluster.elem_of_voters.
    intros [->|(p & -> & Hp)%list_elem_of_fmap]%elem_of_cons; [by apply Hbeg|].
    apply list_elem_of_filter in Hp as [HP Hp]. unfold P in HP. apply andb_true_iff in HP as [_ HP].
    apply Hans. by apply Hhon.
Qed.

Lemma refines_node f s id n : refines f s → members f !! id = Some n →
  Cluster.nodes s !! id = Some (election_of n).
Proof. intros Hr Hn. by rewrite (r_nodes _ _ Hr), lookup_fmap, Hn. Qed.

(** A node that neither starts an election nor votes. *)
Lemma follow_refines whole f s id n n' A : refines f s → members f !! id = Some n → A ⊆ answered f →
  NodeInv.safe ElectionInv.calls n n' →
  ∃ s', rtc (Cluster.step whole) s s' ∧ refines (mkFleet (<[id := n']> (members f)) A (begun f) (counted f)) s'.
Proof.
  intros Hr Hn HA Hsafe. exists (Cluster.update s id (election_of n')). split.
  - eapply update_calls; [by eapply refines_node|]. by apply Hsafe, (r_inv _ _ Hr id).
  - apply (refines_move f s id n n'); [done|done| |done|].
    + eapply NodeInv.safe_mono; [|exact Hsafe]. apply ElectionInv.calls_later.
    + etrans; [exact HA|apply Hr].
Qed.

(** A round of the election loop of a leader, or before the timeout. *)
Lemma idle_round w n : starts w ElectionRound n = false →
  NodeInv.safe ElectionInv.calls n (state_of (react w ElectionRound n)).
Proof.
  intros Hs. set (p := (c ← get_state;
    if Coordinator.is_leader c then Coordinator._send_heartbeats (blocked (w_now w) (w_draw w) n)
    else mret ()) : Coordinator.proc ()).
  assert (Hp : NodeInv.safe ElectionInv.calls n (state_of (in_cluster (w_now w) p n))).
  { apply NodeInv.keeps_cluster. unfold p. apply preserves_bind; [apply preserves_get|]. intros c.
    destruct (Coordinator.is_leader c); [apply CoordinatorInv.keeps_heartbeats|apply preserves_ret]. }
  assert (Heq : state_of (react w ElectionRound n) = state_of (in_cluster (w_now w) p n)); [|by rewrite Heq].
  cbn [react]. unfold election_loop. rewrite guarded_state, get_bind. unfold in_cluster, p.
  rewrite !get_bind. destruct (Coordinator.is_leader (cluster n)); [done|].
  unfold Coordinator.election_round. rewrite get_bind. cbn [starts] in Hs. by rewrite Hs.
Qed.

Lemma react_refines whole f s id n w i : refines f s → members f !! id = Some n → starts w i n = false →
  let r := react w i n in
  ∃ s', rtc (Cluster.step whole) s s' ∧
    refines (mkFleet (<[id := state_of r]> (members f)) (answer_vote id i (result_of r) ∪ answered f)
      (begun f) (counted f)) s'.
Proof.
  intros Hr Hn Hst. cbv zeta.
  assert (Hcase : NodeInv.follows i ∨ i = ElectionRound ∨ ∃ m, i = ClusterMessage m ∧ msg_type m = VOTE_REQUEST).
  { destruct i; cbn; auto. destruct (decide (msg_type m = VOTE_REQUEST)); eauto. }
  destruct Hcase as [Hf|[->|(m & -> & Hm)]].
  - apply (follow_refines whole f s id n); [done|done| |].
    + destruct i; cbn; try set_solver. destruct (result_of _); [|set_solver].
      rewrite decide_False by (by intros [? _]). set_solver.
    + apply NodeInv.keeps_react. by intros ?.
  - apply (follow_refines whole f s id n); [done|done|set_solver|by apply idle_round].
  - destruct (react w (ClusterMessage m) n) as [[n' es] r] eqn:E. unfold state_of, result_of. cbn [fst snd].
    pose proof (NodeInv.react_safe w (ClusterMessage m) n) as Hsafe. rewrite E in Hsafe. cbn in Hsafe.
    destruct (vote_request_election w id m n n' es r Hm (proj1 (r_inv _ _ Hr _ _ Hn)) E)
      as (e & He & [[He' HA]|(index & lterm & He' & HA)]).
    + apply (follow_refines whole f s id n); [done|done|set_solver|]. intros Hi.
      destruct (Hsafe Hi) as [Hi' [Hc _ Hq]]. split; [done|]. split; [done| |done]. by rewrite He'.
    + eexists. split.
      * eapply rtc_r; [eapply update_calls; [by eapply refines_node|exact He]|].
        apply (Cluster.step_vote _ (Cluster.update s id e) id (sender_id m) (term m) e (w_now w) index lterm).
        apply lookup_insert_eq.
      * unfold Cluster.update. cbn [Cluster.nodes Cluster.granted]. rewrite insert_insert_eq, <-He'.
        pose proof (r_answered _ _ Hr) as Hans. unfold Cluster.grant. cbn [Cluster.nodes Cluster.granted].
        destruct (result_of (Election.handle_vote_request _ _ _ _ _ _)) as [[t' [|]]|x];
          (apply (refines_move f s id n n'); [done|done|exact Hsafe|set_solver|set_solver]).
Qed.

Lemma step_refines whole f f' s : refines f s → step whole f f' → ∃ s', rtc (Cluster.step whole) s s' ∧ refines f' s'.
Proof.
  intros Hr Hs. pose proof (refines_node f s) as Hnode.
  destruct Hs as [f id n w Hn|f id n w i Hn Hst r|f id n w Hn n'|f id n w t index lterm Hn Hb Hhon
    |f id n w t votes Hn Hc Hsize].
  - apply (follow_refines whole f s id n); [done..|]. apply NodeInv.keeps_start.
  - by apply (react_refines whole f s id n w i).
  - destruct (begin_phase_election w n) as [He Hsafe]. fold n' in He, Hsafe.
    exists (Cluster.grant (id, id, Election.current_term (election_of n')) (Cluster.update s id (election_of n'))).
    split.
    + rewrite He. apply rtc_once, Cluster.step_begin. by eapply Hnode.
    + set (g := {[(id, id, Election.current_term (election_of n'))]} ∪ Cluster.granted s).
      destruct (refines_move f s id n n' (answered f) g) as [H1 H2 H3 H4 H5];
        [done..|set_solver|etrans; [apply Hr|set_solver]|].
      split; cbn; try done. intros c t [Hc|Hc]%elem_of_union; [|by apply H4].
      apply elem_of_singleton in Hc. simplify_eq. cbn. set_solver.
  - exists s. split; [apply rtc_refl|]. destruct Hr as [H1 H2 H3 H4 H5]. split; cbn; try done.
    intros c t' k [Hk|Hk]%elem_of_union; [|by apply H5]. apply elem_of_singleton in Hk. simplify_eq.
    by apply (count_bound f).
  - destruct (finish_phase_election w t votes n) as [He Hsafe].
    exists (Cluster.update s id (election_of (state_of (finish_phase w t votes n)))). split.
    + rewrite He. apply rtc_once, Cluster.step_finish; [by eapply Hnode|by apply Hr|].
      rewrite (r_nodes _ _ Hr), map_size_fmap. exact Hsize.
    + apply (refines_move f s id n); [done..|apply Hr].
Qed.

Lemma initial_refines f : initial f → ∃ s, Cluster.initial s ∧ refines f s.
Proof.
  intros (Ha & Hb & Hc & Hn). exists (Cluster.mkCluster ((λ n, election_of n) <$> members f) ∅).
  split; [split; [done|]|split; cbn].
  - intros id e (n & <- & (now & rto & cfg & st & -> & <- & _)%Hn)%lookup_fmap_Some. by eexists _, _, _.
  - intros id n (now & rto & cfg & st & -> & Hid & Hst)%Hn. split; [|done]. by apply NodeInv.new_node_inv.
  - done.
  - set_solver.
  - intros c t. rewrite Hb. set_solver.
  - intros c t k. rewrite Hc. set_solver.
Qed.

Lemma steps_refine whole f f' s : rtc (step whole) f f' → refines f s → ∃ s', rtc (Cluster.step whole) s s' ∧ refines f' s'.
Proof.
  intros Hs. revert s. induction Hs as [f|f f1 f' H1 _ IH]; intros s Hr; [by exists s|].
  destruct (step_refines _ _ _ _ Hr H1) as (s1 & Hs1 & Hr1). destruct (IH s1 Hr1) as (s2 & Hs2 & Hr2).
  exists s2. split; [by etrans|done].
Qed.

(** Claim C4. A cluster of whole nodes refines the cluster of their election
    managers.  The nodes start as new, and commands, messages, faults and loop
    rounds reach them in any order; an election is split into its phases, with
    anything in between, and the candidate may finish with any view of which
    members are alive.  The network may lose or delay what it carries but does not
    make up votes: a member that a candidate counts was asked and answered yes.
    Then the elections of the nodes take the steps of managers that start
    elections, vote, finish with at most as many votes as the managers granted, and
    follow; and every vote that a node answered is one that its manager granted.
    When moreover every candidate that finishes sees all members alive, so do the
    managers. *)
Theorem fleet_refines_managers whole f0 f (Hinit : initial f0) (Hrun : rtc (step whole) f0 f) :
  ∃ s0 s, Cluster.initial s0 ∧ rtc (Cluster.step whole) s0 s ∧
    Cluster.nodes s0 = (λ n, election_of n) <$> members f0 ∧
    Cluster.nodes s = (λ n, election_of n) <$> members f ∧
    answered f ⊆ Cluster.granted s.
Proof.
  destruct (initial_refines f0 Hinit) as (s0 & Hi & Hr0).
  destruct (steps_refine _ _ _ _ Hrun Hr0) as (s & Hs & Hr).
  exists s0, s. split_and!; [done|done|apply Hr0|apply Hr|apply Hr].
Qed.

(** Claim C5. A term has one leading node.  In every run of a cluster of whole
    nodes with fixed members, none of which loses its memory, where a vote is
    only counted if the member gave it, and who finishes an election sees every
    member alive, two nodes that lead in the same term are the same node. *)
Theorem one_leading_node f0 f a b na nb (Hinit : initial f0) (Hrun : rtc (step True) f0 f)
    (Ha : members f !! a = Some na) (Hb : members f !! b = Some nb)
    (Hla : Coordinator.is_leader (cluster na) = true) (Hlb : Coordinator.is_leader (cluster nb) = true)
    (Ht : Election.current_term (election_of na) = Election.current_term (election_of nb)) :
  a = b.
Proof.
  destruct (initial_refines f0 Hinit) as (s0 & Hi & Hr0).
  destruct (steps_refine _ _ _ _ Hrun Hr0) as (s & Hs & Hr).
  eapply (Cluster.inv_one_leader s); [|by eapply refines_node..|exact Hla|exact Hlb|exact Ht].
  by eapply Cluster.steps_inv, Hs; apply Cluster.initial_inv.
Qed.

End fleet.

(** ** A concrete run: two nodes, of which one joins and votes *)

#[local] Existing Instance NodeF.demo_hash.

Definition demo_node (id : string) (port : Z) : DatabaseNode :=
  Node.init 0 (seconds 3) (NodeF.demo_cfg id port) (Storage.mkStorage (KVStore.init 0) None None).

Definition demo_fleet : fleet :=
  mkFleet {["n1" := demo_node "n1" 7001; "n2" := demo_node "n2" 7002]}%string ∅ ∅ ∅.

Definition join_n2 : input :=
  ClusterMessage (mkMsg JOIN (NodeInfo.to_dict (NodeInfo.new 0 "n2" "localhost" 7002 8002)) "n2" 0 0).
Definition vote_n1 : input := ClusterMessage (create_vote_request "n1" 1 0 0).

(** "n2" says yes. *)
Definition yes_world : world :=
  mkWorld (seconds 1) (seconds 3) (λ _, "error"%string) (λ _, JNull) (λ _, 0%Q) (λ _, 0) 0%Q
    (λ _ _ _, Some (create_vote_response "n2" 1 true)) (λ _ _ _ _, NoConnection) (λ xs, xs).

Definition n1_met : DatabaseNode := state_of (react yes_world join_n2 (demo_node "n1" 7001)).
Definition n1_stands : DatabaseNode := state_of (begin_phase yes_world n1_met).
Definition n1_leads : DatabaseNode := state_of (finish_phase yes_world 1 2 n1_stands).
Definition n2_voted : DatabaseNode := state_of (react yes_world vote_n1 (demo_node "n2" 7002)).

Definition led_fleet : fleet :=
  mkFleet {["n1" := n1_leads; "n2" := n2_voted]}%string {[("n2", "n1", 1)%string]} {[("n1"%string, 1)]}
    {[("n1"%string, 1, 2)]}.

Lemma demo_run whole : rtc (step whole) demo_fleet led_fleet.
Proof.
  eapply rtc_l; [apply (step_react _ _ "n1" (demo_node "n1" 7001) yes_world join_n2); reflexivity|].
  eapply rtc_l; [apply (step_begin _ _ "n1" n1_met yes_world); apply lookup_insert_eq|].
  eapply rtc_l; [apply (step_react _ _ "n2" (demo_node "n2" 7002) yes_world vote_n1); reflexivity|].
  eapply rtc_l; [apply (step_count _ _ "n1" n1_stands yes_world 1 0 0)|].
  { reflexivity. }
  { by vm_compute. }
  { intros p Hp _. apply (list_elem_of_fmap_2 NodeInfo.node_id) in Hp.
    replace (NodeInfo.node_id <$> _) with ["n2"%string] in Hp by (by vm_compute).
    apply list_elem_of_singleton in Hp. rewrite Hp. by vm_compute. }
  eapply rtc_l; [apply (step_finish _ _ "n1" n1_stands yes_world 1 2)|].
  { reflexivity. }
  { by vm_compute. }
  { by vm_compute. }
  match goal with |- rtc _ ?f _ => replace f with led_fleet by (by vm_compute) end. apply rtc_refl.
Qed.

Lemma demo_initial : initial demo_fleet.
Proof.
  split_and!; [done..|]. intros id n Hn. apply elem_of_map_to_list in Hn.
  replace (map_to_list (members demo_fleet)) with
    [("n1", demo_node "n1" 7001); ("n2", demo_node "n2" 7002)]%string in Hn by (by vm_compute).
  apply elem_of_cons in Hn as [Hn|Hn%list_elem_of_singleton]; simplify_eq;
    (eexists _, _, _, _; split; [reflexivity|]; split; [done|constructor]).
Qed.

Lemma fleet_refines_managers_witness :
  ∃ s0 s, Cluster.initial s0 ∧ rtc (Cluster.step True) s0 s ∧ ("n2", "n1", 1)%string ∈ Cluster.granted s ∧
    Election.is_leader <$> Cluster.nodes s !! "n1"%string = Some true.
Proof.
  destruct (fleet_refines_managers True demo_fleet led_fleet demo_initial (demo_run True))
    as (s0 & s & Hi & Hr & _ & Hn & Ha).
  exists s0, s. split; [done|]. split; [done|]. split; [apply Ha; by vm_compute|]. rewrite Hn. by vm_compute.
Defined.

Lemma one_leading_node_witness :
  Coordinator.is_leader (cluster n1_leads) = true ∧
  ∀ b nb, members led_fleet !! b = Some nb → Coordinator.is_leader (cluster nb) = true →
    Election.current_term (election_of nb) = 1 → "n1"%string = b.
Proof.
  split; [by vm_compute|]. intros b nb Hb Hl Ht.
  apply (one_leading_node demo_fleet led_fleet "n1" b n1_leads nb demo_initial (demo_run True));
    [reflexivity|exact Hb|by vm_compute|exact Hl|rewrite Ht; by vm_compute].
Defined.


End Fleet.
