(* ===== verification/ReadYourWrites.v ===== *)
(** From a write to a later read: the write path, the replicas that confirm it
    and the quorum read composed. *)

From S2P Require Import Prelude.
From S2P Require Import PyMonad.
From S2P Require Import PyDict.
From S2P Require Import Json.
From S2P Require Import Config.
From S2P Require Import Protocol.
From S2P Require Import Store.
From S2P Require Import Ring.
From S2P Require Import Election.
From S2P Require Import Membership.
From S2P Require Import Storage.
From S2P Require Import StorageFacts.
From S2P Require Import Durable.
From S2P Require Import Aof.
From S2P Require Import LastWriter.
From S2P Require Import ReadCoordinator.
From S2P Require Import ReadFacts.
From S2P Require Import FaultInjection.
From S2P Require Import Coordinator.
From S2P Require Import CoordinatorFacts.
From S2P Require Import Node.
From S2P Require Import NodeReads.
From S2P Require Import NodeAdmin.
From S2P Require Import NodeFacts.
From S2P Require Import NodeReadFacts.
From S2P Require Import NodeMigrationFacts.
From Stdlib Require Import QArith.
#[local] Open Scope Z_scope.

Module RYW.
Import Message Protocol Node NodeReads NodeAdmin NodeF NodeReadF StorageF LastWriter.
Abbreviation stored := NodeMigrationF.stored.

(** ** A replica applies the write *)

Lemma apply_set now e st : aof_ready st → complete e → LogEntry.command e = "SET"%string →
  ∃ st', Storage._apply_log_entry now e st = (st', [], Ok tt) ∧
    lookup (Storage.store st') (LogEntry.key e) = Some (entry_meta e).
Proof.
  intros Hr Hc Hs. unfold Storage._apply_log_entry. rewrite decide_True by done.
  erewrite bind_silent; [|reflexivity].
  match goal with |- ∃ st', Storage.aof_append _ ?x _ ?st1 = _ ∧ _ =>
    destruct (aof_append_ready now x true st1) as (st' & Heq & Hst & _); [exact Hr|] end.
  exists st'. split; [exact Heq|]. rewrite Hst. cbn [Storage.store Storage.with_store].
  rewrite lookup_set, decide_True by done. by rewrite new_meta_complete.
Qed.

(** The fault injector only delays or drops: it makes no callbacks. *)
Lemma delay_silent draw jitter now target fs total i :
  ∃ i' t, Faults.delay_loop draw jitter now target fs total i = (i', [], Ok t).
Proof.
  revert total i. induction fs as [|f fs IH]; intros total i; cbn [Faults.delay_loop]; [by eexists _, _|].
  destruct (_ && _); [|apply IH]. rewrite modify_bind. apply IH.
Qed.

Section follower.
Context (now rto : time) (draw : string → Q) (jitter : string → time).

Lemma in_faults_silent {A} (p : prog Faults.FaultInjector Faults.fault_event A) n i a :
  p (fault_injector n) = (i, [], Ok a) → in_faults now rto p n = (set_faults i n, [], Ok a).
Proof. intros Hp. unfold in_faults. by rewrite Hp. Qed.

(** An acknowledged commit was applied: a message that a follower answers was
    neither dropped nor failed in its handler. *)
Lemma commit_storage sender tm e p msg :
  (∀ x, dict_get (Coordinator._staged_replicates (cluster p)) (LogEntry.index e) = Some x → x = e) →
  let run := _handle_cluster_message now rto draw jitter (CoordF.phase_msg sender tm CoordF.Commit e) p in
  result_of run = Ok (Some msg) → storage (state_of run) = state_of (Storage._apply_log_entry now e (storage p)).
Proof.
  intros Hstaged. cbv zeta. unfold _handle_cluster_message.
  change (sender_id (CoordF.phase_msg sender tm CoordF.Commit e)) with sender.
  destruct (Faults.network_fault_spec draw jitter now sender (fault_injector p)) as [(b & Hdrop & _) _].
  erewrite bind_silent; [|by apply in_faults_silent]. destruct b; [done|].
  cbn [andb]. set (p1 := set_faults _ p).
  assert (∃ i t, Faults.get_network_delay draw jitter now sender (fault_injector p1) = (i, [], Ok t))
    as (i & t & Hdelay).
  { unfold Faults.get_network_delay. rewrite get_bind. destruct (Faults.enabled _); [|by eexists _, _].
    destruct (delay_silent draw jitter now sender (dict_values (Faults._faults (fault_injector p1))) 0
      (fault_injector p1)) as (i & t & Heq).
    erewrite bind_silent; [|exact Heq]. by eexists _, _. }
  erewrite bind_silent; [|by apply in_faults_silent]. unfold in_cluster.
  change (cluster (set_faults i p1)) with (cluster p). rewrite CoordF.handle_commit.
  assert (default e (dict_get (Coordinator._staged_replicates (cluster p)) (LogEntry.index e)) = e) as ->.
  { destruct (dict_get _ _) as [x|]; [by apply Hstaged|done]. }
  cbn [for_each on_coord_event]. set (p2 := set_cluster _ _).
  unfold mbind, prog_bind. rewrite in_storage_run. change (storage p2) with (storage p).
  by destruct (result_of (Storage._apply_log_entry now e (storage p))).
Qed.

Lemma commit_applied sender tm e p msg :
  aof_ready (storage p) → complete e → LogEntry.command e = "SET"%string →
  (∀ x, dict_get (Coordinator._staged_replicates (cluster p)) (LogEntry.index e) = Some x → x = e) →
  let run := _handle_cluster_message now rto draw jitter (CoordF.phase_msg sender tm CoordF.Commit e) p in
  result_of run = Ok (Some msg) → stored (state_of run) (LogEntry.key e) = Some (entry_meta e).
Proof.
  cbv zeta. intros Hready Hc Hs Hstaged Hres. unfold NodeMigrationF.stored.
  rewrite (commit_storage sender tm e p msg Hstaged Hres).
  by destruct (apply_set now e (storage p) Hready Hc Hs) as (st' & -> & Hst).
Qed.
End follower.

(** ** What an acknowledged write leaves *)

Lemma found_current now st k : (KVStore.get_with_metadata now (Storage.store st) k).2 = current now st k.
Proof.
  unfold KVStore.get_with_metadata, current, lookup.
  destruct (dict_get _ _) as [m|]; [|done]. by destruct (KVStore.is_expired now m).
Qed.

Lemma current_stored now n k m : stored n k = Some m → KVStore.is_expired now m = false →
  current now (storage n) k = Some m.
Proof. unfold NodeMigrationF.stored, current. by intros -> ->. Qed.

Section write.
Context `{RingHash}.
Context (now : time) (draw : string → Q).
Context (exchange : string → Z → Message → option Message).

Abbreviation write_of := (write_of now).

(** Does follower [f] acknowledge the commit of [e] to [n]? *)
Definition acks_commit (n : DatabaseNode) (e : LogEntry) (f : string) : bool :=
  Coordinator.send_phase (blocked now draw n) exchange (cluster n) "commit" e f.

(** The replicas that confirmed a write, its leader first. *)
Definition confirmed (n : DatabaseNode) (e : LogEntry) : list string :=
  node_id n :: base.filter (λ f, acks_commit n e f = true) (Coordinator._get_followers (cluster n)).

Lemma set_complete n key value ttl :
  json_wf value → (∀ m, stored n key = Some m → 0 <= KVStore.version m) →
  complete (write_of n "SET" key value ttl).
Proof.
  intros Hv Hver. right. unfold write_of, write_entry. cbn. rewrite found_current.
  split; [done|]. split; [done|]. split; [|split; [done|by destruct ttl]].
  unfold current. fold (stored n key). unfold NodeMigrationF.stored in *.
  destruct (lookup _ _) as [m|]; [|done]. specialize (Hver m eq_refl). destruct (KVStore.is_expired now m); [done|].
  lia.
Qed.

(** The leader answers OK only to a write that enough replicas acknowledged,
    and has then applied it once. *)
Lemma acknowledged_storage key value ttl n n' es :
  node_wf n →
  _apply_partition_write now draw exchange "SET" key value ttl n = (n', es, Ok (ok_response (JStr "OK"))) →
  let e := write_of n "SET" key value ttl in
  write_acknowledged now draw exchange n e ∧
  storage n' = state_of (Storage._apply_log_entry now e (looked_up now n key)).
Proof.
  intros Hwf Hrun. cbv zeta. set (e := write_of n "SET" key value ttl).
  destruct (decide (may_write n)) as [Hmay|Hno].
  2: { destruct (refused_write now draw exchange "SET" key value ttl n Hno) as [msg Href].
       rewrite Href in Hrun. by injection Hrun. }
  destruct (leader_outcome now draw exchange "SET" key value ttl n Hwf Hmay)
    as (n1 & es1 & r & Hrun1 & _ & Hok & Herr). fold e in Hok, Herr.
  rewrite Hrun1 in Hrun. injection Hrun as -> _ ->.
  destruct (decide (write_acknowledged now draw exchange n e)) as [Hack|Hnack].
  2: { destruct (Herr Hnack) as (_ & msg & Hmsg). by injection Hmsg. }
  split; [done|]. by destruct (Hok Hack) as [Hs _].
Qed.

Lemma acknowledged_run key value ttl n n' es :
  node_wf n → aof_ready (storage n) → complete (write_of n "SET" key value ttl) →
  _apply_partition_write now draw exchange "SET" key value ttl n = (n', es, Ok (ok_response (JStr "OK"))) →
  let e := write_of n "SET" key value ttl in
  required_total (config n) <= Z.of_nat (length (confirmed n e)) ∧ stored n' key = Some (entry_meta e).
Proof.
  intros Hwf Hready Hc Hrun. cbv zeta. set (e := write_of n "SET" key value ttl) in *.
  assert (Happ : ∃ st', Storage._apply_log_entry now e (looked_up now n key) = (st', [], Ok tt) ∧
    lookup (Storage.store st') key = Some (entry_meta e)).
  { apply (apply_set now e); [|done..]. unfold looked_up.
    by destruct (get_meta_spec now key (storage n)) as (s1 & -> & _). }
  destruct Happ as (st' & Happ & Hst).
  destruct (acknowledged_storage key value ttl n n' es Hwf Hrun) as [Hack Hs]. fold e in Hack, Hs. split.
  - destruct Hack as [_ Hcommit]. unfold confirmed. cbn [length].
    change (Z.of_nat (length (base.filter _ _))) with (confirmations now draw exchange n "commit" e) in *.
    unfold acks_commit. unfold confirmations in Hcommit. lia.
  - unfold NodeMigrationF.stored. rewrite Hs, Happ. exact Hst.
Qed.

End write.

(** ** The cluster at the time of the read *)

(** Follower [holder] handled the commit of [e] from [n] with an answer, when it
    had staged nothing else under the entry's index, and its value of the key
    is still the one of that moment. *)
Definition applied_commit (n : DatabaseNode) (e : LogEntry) (holder : DatabaseNode) : Prop :=
  ∃ now_f rto_f draw_f jitter_f p msg,
    let run := _handle_cluster_message now_f rto_f draw_f jitter_f
                 (Coordinator.create_phase (cluster n) e "commit") p in
    aof_ready (storage p) ∧
    (∀ x, dict_get (Coordinator._staged_replicates (cluster p)) (LogEntry.index e) = Some x → x = e) ∧
    result_of run = Ok (Some msg) ∧ stored holder (LogEntry.key e) = stored (state_of run) (LogEntry.key e).

(** The order of a write, as reads compare it. *)
Definition order_of_write (e : LogEntry) : Storage.order :=
  (LogEntry.version e, LogEntry.timestamp e, LogEntry.coordinator_id e).

(** What replica [t] holds is older than [w]. *)
Definition holds_older (later : time) (w : Storage.order) (t : string) (holder : DatabaseNode) (key : string) : Prop :=
  ∀ m, current later (storage holder) key = Some m →
    Storage.order_ltb (KVStore.version m, KVStore.updated_at m, str_or (KVStore.coordinator_id m) t) w = true.

Section read.
Context `{RingHash}.
Context (later : time) (exn_str : exn → string).
Context (call : string → Z → string → list string → reply) (arrival : list string → list string).
(** The nodes of the cluster by name. *)
Context (world : string → DatabaseNode).

(** A reader with the key's replicas within reach, whose answers may come in
    any order and late. *)
Record reader (r : string) (key : string) : Prop := {
  rd_name : node_id (world r) = r;
  rd_nodup : NoDup (replicas (world r) key);
  rd_full : Z.of_nat (length (replicas (world r) key)) = Config.replication_factor (config (world r));
  rd_reach : ∀ t, t ∈ replicas (world r) key → t ≠ r →
    reaches exn_str call (world r) (world t) t "__LOCAL_READ" (_handle_local_read later);
  rd_arrival : ∀ xs, arrival xs ⊆+ xs;
}.

(** The replicas whose answers come in time, the local one included. *)
Definition in_time (r key : string) : list string :=
  base.filter (λ t, t = r) (replicas (world r) key) ++
  arrival (base.filter (λ t, t ≠ r) (replicas (world r) key)).

Lemma arrival_subset r key : reader r key → ∀ xs, arrival xs ⊆ xs.
Proof. intros Hr xs x Hx. eapply elem_of_submseteq; [exact Hx|apply Hr]. Qed.

Lemma arrival_nodup r key : reader r key → ∀ xs, NoDup xs → NoDup (arrival xs).
Proof.
  intros Hr xs Hnd. destruct (submseteq_Permutation _ _ (rd_arrival _ _ Hr xs)) as [k Hk].
  rewrite Hk in Hnd. by apply NoDup_app in Hnd as [? _].
Qed.

Abbreviation remote r := (λ k t, Some (_get_remote_value_for_read call (world r) k t)).

(** Every replica answers with what it holds. *)
Lemma replica_answers r key t : reader r key → t ∈ replicas (world r) key →
  ReadF.answers (node_id (world r)) (local_answer later (world r)) (remote r) key t =
    Some (to_answer (current later (storage (world t)) key)).
Proof.
  intros Hr Ht. unfold ReadF.answers. rewrite (rd_name _ _ Hr).
  rewrite <-found_current. destruct (decide (t = r)) as [->|Hne]; [done|].
  f_equal. by apply (remote_answer later exn_str), Hr.
Qed.

Lemma value_of_answer t m b : Read.to_result t (to_answer m) true = Some b → Read.is_present b = true →
  ∃ x, m = Some x ∧ Read.value b = KVStore.value x ∧
    Read._result_sort_key b = (KVStore.version x, KVStore.updated_at x, str_or (KVStore.coordinator_id x) t).
Proof. destruct m as [x|]; intros [= <-]; [|done]. intros _. by exists x. Qed.

(** A quorum read finds the value that a majority of the replicas holds, when
    the other replicas hold older ones: it answers with it unless too few
    answers come in time. *)
Lemma majority_value_read r key w value holders (Hr : reader r key)
    (Hnd : NoDup holders) (Hsub : holders ⊆ replicas (world r) key)
    (Hmaj : Config.replication_factor (config (world r)) / 2 + 1 <= Z.of_nat (length holders))
    (Hheld : ∀ t, t ∈ holders → ∃ m, current later (storage (world t)) key = Some m ∧ KVStore.value m = value ∧
       is_none value = false ∧
       (KVStore.version m, KVStore.updated_at m, str_or (KVStore.coordinator_id m) t) = w)
    (Hother : ∀ t, t ∈ replicas (world r) key → t ∉ holders → holds_older later w t (world t) key) :
  let answer := result_of (_handle_get later call arrival [key; "QUORUM"%string] (world r)) in
  answer = Ok (ok_response value) ∨
  answer = Ok (error_response ("Quorum read failed for key " +:+ key)) ∧
    Z.of_nat (length (in_time r key)) < Config.replication_factor (config (world r)) / 2 + 1.
Proof.
  cbv zeta. rewrite get_answer. change (get_level (world r) ["QUORUM"%string]) with QUORUM.
  set (rf := Config.replication_factor (config (world r))) in *.
  set (local := local_answer later (world r)).
  pose proof (ReadF.quorum_chosen (node_id (world r)) rf local (remote r) (replicas (world r)) arrival key
    (Read.add_total (read_stats (world r)))) as Hchosen.
  destruct (Read._read_quorum _ _ _ _ _ _ _ _) as [[s repairs] [[[x failed] absent]|]] eqn:Hread; [|done].
  assert (Hres : result_of (coordinated_read later call arrival (world r) key QUORUM) =
    Ok (Read.to_outcome QUORUM x failed absent)).
  { unfold coordinated_read, Read.read. rewrite modify_bind. fold local rf.
    unfold result_of. erewrite bind_ok; [|exact Hread|reflexivity]. done. }
  rewrite Hres. destruct failed.
  - right. destruct Hchosen as ([Hfew _] & _ & Hx). destruct x as [best|]; [by destruct Hx|].
    split; [done|]. specialize (Hfew eq_refl).
    apply ReadF.collect_enough in Hfew as [Hfew _].
    assert (Hresp : ReadF.responders (node_id (world r)) (remote r) (replicas (world r)) arrival key = in_time r key).
    { unfold ReadF.responders, in_time. rewrite (rd_name _ _ Hr). f_equal. by apply pfilter_all. }
    rewrite Hresp in Hfew. unfold Read.quorum_size in Hfew.
    assert (0 <= rf) by (unfold rf; rewrite <-(rd_full _ _ Hr); lia).
    pose proof (Z.div_pos rf 2). lia.
  - left.
    destruct (ReadF.quorum_intersects (node_id (world r)) rf local (remote r) (replicas (world r)) arrival
      key w holders (Read.add_total (read_stats (world r))) s repairs x absent)
      as (best & -> & -> & Hin & Hpres & Hord); [by eapply arrival_subset|by eapply arrival_nodup|apply Hr..|
      done|done|done| |done|].
    { intros t Ht a Ha. rewrite replica_answers in Ha by auto. injection Ha as <-.
      destruct (Hheld t Ht) as (m & -> & <- & Hnn & <-). do 3 eexists. split; [reflexivity|].
      rewrite Hnn, andb_false_r. split; [done|]. apply order_ltb_irrefl. }
    cbn [res_map Read.to_outcome]. unfold get_response. cbn [Read.o_found Read.o_value]. do 2 f_equal.
    destruct (ReadF.collect_in _ _ _ _ _ _ _ _ Hin (arrival_subset _ _ Hr)) as (Ht & a & Ha & Hto).
    rewrite replica_answers in Ha by auto. injection Ha as <-.
    destruct (value_of_answer _ _ _ Hto Hpres) as (m & Hm & Hval & Hkey).
    destruct (decide (Read.node_id best ∈ holders)) as [Hh|Hno].
    + destruct (Hheld _ Hh) as (m' & Hm' & <- & _). congruence.
    + specialize (Hother _ Ht Hno m Hm). rewrite <-Hkey in Hother. congruence.
Qed.

End read.

(** ** The composition *)

Section composition.
Context `{RingHash}.
Context (now : time) (draw : string → Q) (exchange : string → Z → Message → option Message).
Context (later : time) (exn_str : exn → string).
Context (call : string → Z → string → list string → reply) (arrival : list string → list string).
Context (world : string → DatabaseNode).

(** A confirmed replica holds the written value. *)
Lemma confirmed_hold n n' es key value ttl t :
  let e := write_of now n "SET" key value ttl in
  node_wf n → aof_ready (storage n) → complete e →
  _apply_partition_write now draw exchange "SET" key value ttl n = (n', es, Ok (ok_response (JStr "OK"))) →
  stored (world (node_id n)) key = stored n' key →
  (∀ f, f ∈ Coordinator._get_followers (cluster n) → acks_commit now draw exchange n e f = true →
     applied_commit n e (world f)) →
  t ∈ confirmed now draw exchange n e → stored (world t) key = Some (entry_meta e).
Proof.
  cbv zeta. set (e := write_of now n "SET" key value ttl). intros Hwf Hready Hc Hrun Hleader Hcommits.
  intros [->|[Hack Hf]%list_elem_of_filter]%elem_of_cons.
  - rewrite Hleader. by destruct (acknowledged_run now draw exchange key value ttl n n' es) as [_ ?].
  - destruct (Hcommits _ Hf Hack) as (now_f & rto_f & draw_f & jitter_f & p & msg & Hp & Hstaged & Hres & Hst).
    change (LogEntry.key e) with key in Hst. rewrite Hst.
    by apply (commit_applied now_f rto_f draw_f jitter_f _ _ e p msg).
Qed.

(** When the confirmed replicas hold the written value and the others older
    ones, a quorum read finds it. *)
Lemma confirmed_value_read n key value ttl r (Hid : node_id n ≠ EmptyString) (Hvalue : is_none value = false) :
  let e := write_of now n "SET" key value ttl in
  Config.replication_factor (config n) / 2 + 1 <= Z.of_nat (length (confirmed now draw exchange n e)) →
  KVStore.is_expired later (entry_meta e) = false →
  (∀ t, t ∈ confirmed now draw exchange n e → stored (world t) key = Some (entry_meta e)) →
  (∀ t, t ∈ replicas (world r) key → t ∉ confirmed now draw exchange n e →
     holds_older later (order_of_write e) t (world t) key) →
  reader later exn_str call arrival world r key →
  Config.replication_factor (config (world r)) = Config.replication_factor (config n) →
  replicas (world r) key ≡ₚ node_id n :: Coordinator._get_followers (cluster n) →
  let answer := result_of (_handle_get later call arrival [key; "QUORUM"%string] (world r)) in
  answer = Ok (ok_response value) ∨
  answer = Ok (error_response ("Quorum read failed for key " +:+ key)) ∧
    Z.of_nat (length (in_time arrival world r key)) < Config.replication_factor (config n) / 2 + 1.
Proof.
  cbv zeta. set (e := write_of now n "SET" key value ttl). intros Hmaj Hlive Hheld Hother Hr Hrf Hmembers.
  rewrite <-Hrf in *.
  assert (Hnd : NoDup (node_id n :: Coordinator._get_followers (cluster n))) by (rewrite <-Hmembers; apply Hr).
  apply NoDup_cons in Hnd as [Hnid Hnd].
  apply (majority_value_read later exn_str call arrival world r key (order_of_write e) value
           (confirmed now draw exchange n e) Hr); [| |exact Hmaj|intros t Ht|exact Hother].
  - apply NoDup_cons. split; [|by apply NoDup_filter]. by intros [_ ?]%list_elem_of_filter.
  - intros t [->|[_ Ht]%list_elem_of_filter]%elem_of_cons; rewrite Hmembers; [by left|by right].
  - exists (entry_meta e). split; [|split; [done|split; [done|]]].
    + apply current_stored; [|done]. by apply Hheld.
    + change (KVStore.coordinator_id (entry_meta e)) with (node_id n). unfold str_or.
      replace (truthy_str (node_id n)) with true by (by destruct (node_id n)). done.
Qed.

(** Claim C1. Acknowledged writes are read.  A leader whose level asks for
    a majority acknowledges a SET.  Then a QUORUM read of the key at any node
    whose replica set is that membership answers with the written value,
    whatever the order in which the replicas answer, or fails because fewer
    than a majority answered in time.  The assumptions: an acknowledged commit
    came from the follower's own handler with nothing else staged under the
    index; the value has not expired, and the replicas that confirmed it still
    hold it while the others hold older ones; every replica can be reached. *)
Theorem acknowledged_write_is_read n n' es key value ttl r
    (Hwf : node_wf n) (Hready : aof_ready (storage n)) (Hid : node_id n ≠ EmptyString)
    (Hjson : json_wf value) (Hvalue : is_none value = false)
    (Hver : ∀ m, stored n key = Some m → 0 <= KVStore.version m)
    (Hlevel : Config.replication_factor (config n) / 2 + 1 <= required_total (config n))
    (Hrun : _apply_partition_write now draw exchange "SET" key value ttl n = (n', es, Ok (ok_response (JStr "OK")))) :
  let e := write_of now n "SET" key value ttl in
  KVStore.is_expired later (entry_meta e) = false →
  stored (world (node_id n)) key = stored n' key →
  (∀ f, f ∈ Coordinator._get_followers (cluster n) → acks_commit now draw exchange n e f = true →
     applied_commit n e (world f)) →
  (∀ t, t ∈ replicas (world r) key → t ∉ confirmed now draw exchange n e →
     holds_older later (order_of_write e) t (world t) key) →
  reader later exn_str call arrival world r key →
  Config.replication_factor (config (world r)) = Config.replication_factor (config n) →
  replicas (world r) key ≡ₚ node_id n :: Coordinator._get_followers (cluster n) →
  let answer := result_of (_handle_get later call arrival [key; "QUORUM"%string] (world r)) in
  answer = Ok (ok_response value) ∨
  answer = Ok (error_response ("Quorum read failed for key " +:+ key)) ∧
    Z.of_nat (length (in_time arrival world r key)) < Config.replication_factor (config n) / 2 + 1.
Proof.
  cbv zeta. intros Hlive Hleader Hcommits Hother Hr Hrf Hmembers.
  assert (Hc : complete (write_of now n "SET" key value ttl)) by by apply set_complete.
  destruct (acknowledged_run now draw exchange key value ttl n n' es Hwf Hready Hc Hrun) as [Hmaj _].
  apply (confirmed_value_read n key value ttl r); [done|done|lia|done| |done..].
  intros t Ht. by eapply confirmed_hold.
Qed.

End composition.

(** ** A crash after the acknowledgement *)

Section crash.
Context `{RingHash} (now : time) (draw : string → Q) (exchange : string → Z → Message → option Message).

(** The restart after an entry was applied. *)
Lemma applied_recovers strict at_ e st a cut later interval sn : complete e → LogEntry.command e = "SET"%string →
  Durable.covered strict st → Storage.aof (state_of (Storage._apply_log_entry at_ e st)) = Some a →
  ∃ st' c, Storage._recover_data later (restart later interval (AOF.crash cut a) sn) = (st', [], Ok c) ∧
    (alive_at later (entry_meta e) = Some (entry_meta e) →
       lookup (Storage.store st') (LogEntry.key e) = Some (entry_meta e)) ∧
    ∀ k m, lookup (Storage.store (state_of (Storage._apply_log_entry at_ e st))) k = Some m →
      Durable.whole_line a k = true → alive_at later m = Some m → lookup (Storage.store st') k = Some m.
Proof.
  intros Hc Hset Hcov Ha.
  assert (Hready : aof_ready st).
  { destruct Hcov as [_ (a0 & l & l' & Ha0 & (Ho & _) & _)]. intros a1 Ha1. congruence. }
  destruct (apply_set at_ e st Hready Hc Hset) as (st1 & Happ & Hheld).
  assert (Hcov' : Durable.covered strict (state_of (Storage._apply_log_entry at_ e st))).
  { apply Durable.keeps_applied; [|done|done]. intros _. destruct Hc as [?|(_ & ? & _)]; [congruence|done]. }
  destruct (Durable.recorded_restart strict later interval cut _ a sn (Durable.covered_recorded _ _ Hcov') Ha)
    as (st' & c & Hr & Hk).
  destruct (Durable.applied_syncs strict at_ e st a) as [Hun Hwhole]; [done|done|exact Ha|].
  rewrite Hun in Hk. exists st', c. split; [exact Hr|]. split.
  - intros Hl. apply Hk; [by rewrite Happ|apply not_elem_of_nil|by apply Hwhole|exact Hl].
  - intros k m Hm Hw Hl. apply Hk; [exact Hm|apply not_elem_of_nil|exact Hw|exact Hl].
Qed.

(** Claim C10. An acknowledged write is durable, on a leader whose append-only file
    is in order: it is open, every line of it can be read back, and for each key
    held the last line writes the value held ([Durable.covered]).  That holds
    from a first start on and every operation keeps it
    ([NodeDurable.run_on_file]); it fails on a file that an earlier crash left
    with a torn last line, where the next write is lost
    ([Durable.torn_line_swallows_next_write]).  The leader's parts agree
    ([node_wf]), the value is JSON and the key's stored version is not negative.
    When such a leader has acknowledged a SET and then crashes, whatever unsynced
    text the crash loses and whatever snapshot is found, its restart succeeds and
    holds the value with all its metadata, unless it has expired by then; and so
    it does for every other key that the leader held and whose last line is
    whole, because the write has synced their lines too. *)
Theorem acknowledged_write_survives_crash strict n n' es key value ttl a cut later interval sn
    (Hwf : node_wf n) (Hcov : Durable.covered strict (storage n)) (Hjson : json_wf value)
    (Hver : ∀ m, stored n key = Some m → 0 <= KVStore.version m)
    (Hrun : _apply_partition_write now draw exchange "SET" key value ttl n = (n', es, Ok (ok_response (JStr "OK"))))
    (Ha : Storage.aof (storage n') = Some a) :
  let e := write_of now n "SET" key value ttl in
  ∃ st' c, Storage._recover_data later (restart later interval (AOF.crash cut a) sn) = (st', [], Ok c) ∧
    (alive_at later (entry_meta e) = Some (entry_meta e) → lookup (Storage.store st') key = Some (entry_meta e)) ∧
    ∀ k m, stored n' k = Some m → Durable.whole_line a k = true → alive_at later m = Some m →
      lookup (Storage.store st') k = Some m.
Proof.
  cbv zeta. set (e := write_of now n "SET" key value ttl).
  assert (Hc : complete e) by by apply set_complete.
  destruct (acknowledged_storage now draw exchange key value ttl n n' es Hwf Hrun) as [_ Hs]. fold e in Hs.
  rewrite Hs in Ha. unfold NodeMigrationF.stored. rewrite Hs.
  apply (applied_recovers strict now e (looked_up now n key)); [done|done| |exact Ha].
  by apply Durable.keeps_look.
Qed.

End crash.

(** ** Three nodes: a write at "n1", a read at "n2" *)

#[local] Existing Instance NodeF.demo_hash.

Definition no_draw : string → Q := λ _, 0%Q.

Definition demo_write : DatabaseNode * list node_event * res Message :=
  _apply_partition_write 5 no_draw all_confirm "SET" "k" (JStr "v") None demo_leader.

Definition demo_entry : LogEntry := write_of 5 demo_leader "SET" "k" (JStr "v") None.

Definition demo_peer (id : string) : DatabaseNode :=
  demo_node id (if decide (id = "n2"%string) then 7002 else 7003) FOLLOWER.

Definition demo_world (id : string) : DatabaseNode :=
  if decide (id = "n1"%string) then state_of demo_write
  else state_of (_handle_cluster_message 5 5 no_draw (λ _, 0)
                   (Coordinator.create_phase (cluster demo_leader) demo_entry "commit") (demo_peer id)).

Definition demo_client : string → Z → string → list string → reply := λ _ port _ args,
  let id := if decide (port = 7001) then "n1" else if decide (port = 7002) then "n2" else "n3" in
  Answer (served (λ _, "error"%string) (result_of (_handle_local_read 9 args (demo_world id)))).

Lemma demo_replicas : replicas (demo_world "n2") "k" ≡ₚ ["n1"; "n2"; "n3"]%string.
Proof. apply (bool_decide_unpack _). by vm_compute. Qed.

Lemma demo_reader : reader 9 (λ _, "error"%string) demo_client (λ xs, xs) demo_world "n2" "k".
Proof.
  split.
  - by vm_compute.
  - rewrite demo_replicas. apply (bool_decide_unpack _). by vm_compute.
  - rewrite demo_replicas. by vm_compute.
  - intros t Ht Hne. rewrite demo_replicas in Ht.
    assert (t = "n1"%string ∨ t = "n3"%string) as [-> | ->] by set_solver.
    + split. exists (demo_info "n1" 7001). split; [by vm_compute|]. split; [by vm_compute|]. done.
    + split. exists (demo_info "n3" 7003). split; [by vm_compute|]. split; [by vm_compute|]. done.
  - done.
Qed.

Lemma demo_applied f : f ∈ Coordinator._get_followers (cluster demo_leader) →
  applied_commit demo_leader demo_entry (demo_world f).
Proof.
  assert (Hf : Coordinator._get_followers (cluster demo_leader) = ["n3"; "n2"]%string) by by vm_compute.
  rewrite Hf. intros Ht. exists 5, 5, no_draw, (λ _, 0), (demo_peer f), Coordinator.replicate_ok.
  assert (f = "n2"%string ∨ f = "n3"%string) as [-> | ->] by set_solver.
  all: split; [by intros a|]; split; [by intros x|]; split; by vm_compute.
Qed.

Lemma acknowledged_write_is_read_witness :
  let answer := result_of (_handle_get 9 demo_client (λ xs, xs) ["k"; "QUORUM"]%string (demo_world "n2")) in
  answer = Ok (ok_response (JStr "v")) ∨
  answer = Ok (error_response ("Quorum read failed for key " +:+ "k")) ∧
    Z.of_nat (length (in_time (λ xs, xs) demo_world "n2" "k")) < 3 / 2 + 1.
Proof.
  apply (acknowledged_write_is_read 5 no_draw all_confirm 9 (λ _, "error"%string) demo_client (λ xs, xs) demo_world
    demo_leader (state_of demo_write) (events_of demo_write) "k" (JStr "v") None "n2").
  - exact demo_leader_wf.
  - by intros a.
  - discriminate.
  - exact I.
  - reflexivity.
  - by intros m.
  - by vm_compute.
  - reflexivity.
  - reflexivity.
  - reflexivity.
  - intros f Hf _. by apply demo_applied.
  - intros t Ht Hno. rewrite demo_replicas in Ht. exfalso. apply Hno.
    assert (confirmed 5 no_draw all_confirm demo_leader demo_entry = ["n1"; "n3"; "n2"]%string) as Hall
      by by vm_compute.
    unfold demo_entry in Hall. rewrite Hall. set_solver.
  - exact demo_reader.
  - by vm_compute.
  - rewrite demo_replicas. apply (bool_decide_unpack _). by vm_compute.
Defined.

(** The leader with a file. *)
Definition file_leader : DatabaseNode := set_storage (Durable.started 0 (seconds 1) None) demo_leader.
Definition file_write : DatabaseNode * list node_event * res Message :=
  _apply_partition_write 5 no_draw all_confirm "SET" "k" (JStr "v") None file_leader.

Lemma acknowledged_write_survives_crash_witness :
  ∃ a st' c, Storage.aof (storage (state_of file_write)) = Some a ∧
    Storage._recover_data 9 (restart 9 (seconds 1) (AOF.crash 3 a) None) = (st', [], Ok c) ∧
    lookup (Storage.store st') "k" = Some (entry_meta (write_of 5 file_leader "SET" "k" (JStr "v") None)).
Proof.
  assert (Ha : is_Some (Storage.aof (storage (state_of file_write)))) by (apply (bool_decide_unpack _); by vm_compute).
  destruct Ha as [a Ha]. exists a.
  destruct (acknowledged_write_survives_crash 5 no_draw all_confirm true file_leader (state_of file_write)
    (events_of file_write) "k" (JStr "v") None a 3 9 (seconds 1) None) as (st' & c & Hr & Hk & _).
  - exact demo_leader_wf.
  - apply Durable.started_covered.
  - exact I.
  - by intros m.
  - by vm_compute.
  - exact Ha.
  - exists st', c. split; [exact Ha|]. split; [exact Hr|]. apply Hk. reflexivity.
Defined.

End RYW.
