(* ===== verification/Blackout.v ===== *)
(** An acknowledged write and a crash of the whole cluster: every node loses its
    memory and any part of its unsynced text, restarts from its own files, and the
    next quorum read still finds the written value. *)

From S2P Require Import Prelude.
From S2P Require Import PyMonad.
From S2P Require Import PyDict.
From S2P Require Import Json.
From S2P Require Import Config.
From S2P Require Import Protocol.
From S2P Require Import Store.
From S2P Require Import Ring.
From S2P Require Import Aof.
From S2P Require Import Snapshot.
From S2P Require Import Election.
From S2P Require Import Storage.
From S2P Require Import StorageFacts.
From S2P Require Import Durable.
From S2P Require Import LastWriter.
From S2P Require Import Coordinator.
From S2P Require Import CoordinatorFacts.
From S2P Require Import Node.
From S2P Require Import NodeReads.
From S2P Require Import NodeAdmin.
From S2P Require Import NodeFacts.
From S2P Require Import NodeMigrationFacts.
From S2P Require Import ReadYourWrites.
From Stdlib Require Import QArith.
#[local] Open Scope Z_scope.

Module Blackout.
Import Message Protocol Node NodeReads NodeAdmin NodeF RYW StorageF LastWriter.
Abbreviation stored := NodeMigrationF.stored.

(** [after] is what a restart at [up] makes of the files that a crash leaves of
    [before]. *)
Definition restarted (up : time) (before after : Storage.storage) : Prop :=
  ∃ a cut interval sn, Storage.aof before = Some a ∧
    after = state_of (Storage._recover_data up (restart up interval (AOF.crash cut a) sn)).

(** Follower [holder] crashed after it had answered the commit of [e] from [n],
    with nothing else staged under the entry's index, and restarted. *)
Definition recovered_commit `{RingHash} (up : time) (n : DatabaseNode) (e : LogEntry) (holder : DatabaseNode) : Prop :=
  ∃ strict now_f rto_f draw_f jitter_f p msg,
    let run := _handle_cluster_message now_f rto_f draw_f jitter_f
                 (Coordinator.create_phase (cluster n) e "commit") p in
    Durable.covered strict (storage p) ∧
    (∀ x, dict_get (Coordinator._staged_replicates (cluster p)) (LogEntry.index e) = Some x → x = e) ∧
    result_of run = Ok (Some msg) ∧ restarted up (storage (state_of run)) (storage holder).

Lemma restarted_holds strict at_ e st up after : complete e → LogEntry.command e = "SET"%string →
  Durable.covered strict st → restarted up (state_of (Storage._apply_log_entry at_ e st)) after →
  alive_at up (entry_meta e) = Some (entry_meta e) →
  lookup (Storage.store after) (LogEntry.key e) = Some (entry_meta e).
Proof.
  intros Hc Hs Hcov (a & cut & interval & sn & Ha & ->) Hl.
  destruct (applied_recovers strict at_ e st a cut up interval sn Hc Hs Hcov Ha) as (st' & c & -> & Hk & _).
  by apply Hk.
Qed.

Section blackout.
Context `{RingHash}.
Context (now : time) (draw : string → Q) (exchange : string → Z → Message → option Message).
Context (up later : time) (exn_str : exn → string).
Context (call : string → Z → string → list string → reply) (arrival : list string → list string).
(** The nodes of the cluster after their restart, by name. *)
Context (world : string → DatabaseNode).

(** Every replica that confirmed the write holds it again. *)
Lemma confirmed_recover strict n n' es key value ttl t :
  let e := write_of now n "SET" key value ttl in
  node_wf n → Durable.covered strict (storage n) → complete e →
  _apply_partition_write now draw exchange "SET" key value ttl n = (n', es, Ok (ok_response (JStr "OK"))) →
  alive_at up (entry_meta e) = Some (entry_meta e) →
  restarted up (storage n') (storage (world (node_id n))) →
  (∀ f, f ∈ Coordinator._get_followers (cluster n) → acks_commit now draw exchange n e f = true →
     recovered_commit up n e (world f)) →
  t ∈ confirmed now draw exchange n e → stored (world t) key = Some (entry_meta e).
Proof.
  cbv zeta. set (e := write_of now n "SET" key value ttl). intros Hwf Hcov Hc Hrun Hl Hleader Hcommits.
  intros [->|[Hack Hf]%list_elem_of_filter]%elem_of_cons.
  - destruct (acknowledged_storage now draw exchange key value ttl n n' es Hwf Hrun) as [_ Hs].
    rewrite Hs in Hleader. eapply (restarted_holds strict now e); [done|done| |exact Hleader|done].
    by apply Durable.keeps_look.
  - destruct (Hcommits _ Hf Hack) as (s & now_f & rto_f & draw_f & jitter_f & p & msg & Hp & Hstaged & Hres & Hst).
    change (Coordinator.create_phase (cluster n) e "commit")
      with (CoordF.phase_msg (Coordinator.node_id (cluster n)) (Election.current_term (Coordinator.election (cluster n)))
        CoordF.Commit e) in *.
    rewrite (commit_storage now_f rto_f draw_f jitter_f _ _ e p msg Hstaged Hres) in Hst.
    exact (restarted_holds s now_f e (storage p) up _ Hc eq_refl Hp Hst Hl).
Qed.

(** Claim C2. An acknowledged write survives a crash of the whole cluster.
    A leader whose level asks for a majority acknowledges a SET; then every node
    crashes, loses its memory and any part of its unsynced text, and restarts
    from its own files, whatever snapshot it finds.  A QUORUM read of the key at
    any node whose replica set is that membership then answers with the written
    value, whatever the order in which the replicas answer, or fails because
    fewer than a majority answered in time.  The assumptions are those of a read
    without the crash; each file was in line with its store, as it is after
    everything that reaches a node, and the value has not expired at the
    restart. *)
Theorem acknowledged_write_survives_blackout strict n n' es key value ttl r
    (Hwf : node_wf n) (Hcov : Durable.covered strict (storage n)) (Hid : node_id n ≠ EmptyString)
    (Hjson : json_wf value) (Hvalue : is_none value = false)
    (Hver : ∀ m, stored n key = Some m → 0 <= KVStore.version m)
    (Hlevel : Config.replication_factor (config n) / 2 + 1 <= required_total (config n))
    (Hrun : _apply_partition_write now draw exchange "SET" key value ttl n = (n', es, Ok (ok_response (JStr "OK")))) :
  let e := write_of now n "SET" key value ttl in
  alive_at up (entry_meta e) = Some (entry_meta e) → KVStore.is_expired later (entry_meta e) = false →
  restarted up (storage n') (storage (world (node_id n))) →
  (∀ f, f ∈ Coordinator._get_followers (cluster n) → acks_commit now draw exchange n e f = true →
     recovered_commit up n e (world f)) →
  (∀ t, t ∈ replicas (world r) key → t ∉ confirmed now draw exchange n e →
     holds_older later (order_of_write e) t (world t) key) →
  reader later exn_str call arrival world r key →
  Config.replication_factor (config (world r)) = Config.replication_factor (config n) →
  replicas (world r) key ≡ₚ node_id n :: Coordinator._get_followers (cluster n) →
  let answer := result_of (_handle_get later call arrival [key; "QUORUM"%string] (world r)) in
  answer = Ok (ok_response value) ∨
  answer = Ok (error_response ("Quorum read failed for key " +:+ key)) ∧
    Z.of_nat (length (in_time arrival world r key)) < Config.replication_factor (config n) / 2 + 1.
Proof.
  cbv zeta. intros Hl Hlive Hleader Hcommits Hother Hr Hrf Hmembers.
  assert (Hc : complete (write_of now n "SET" key value ttl)) by by apply set_complete.
  assert (Hready : aof_ready (storage n)).
  { destruct Hcov as [_ (a0 & l & l' & Ha0 & (Ho & _) & _)]. intros a1 Ha1. congruence. }
  destruct (acknowledged_run now draw exchange key value ttl n n' es Hwf Hready Hc Hrun) as [Hmaj _].
  apply (confirmed_value_read now draw exchange later exn_str call arrival world n key value ttl r);
    [done|done|lia|done| |done..].
  intros t Ht. by eapply confirmed_recover.
Qed.

End blackout.
(** ** Three nodes with files: a write at "n1", a crash of all, a read at "n2" *)

#[local] Existing Instance NodeF.demo_hash.

Definition file_peer (id : string) : DatabaseNode :=
  set_storage (Durable.started 0 (seconds 1) None) (demo_peer id).

Definition before (id : string) : DatabaseNode :=
  if decide (id = "n1"%string) then state_of file_write
  else state_of (_handle_cluster_message 5 5 no_draw (λ _, 0)
                   (Coordinator.create_phase (cluster file_leader) demo_entry "commit") (file_peer id)).

(** A crash that loses all unsynced text, and a restart without a snapshot. *)
Definition reborn (st : Storage.storage) : Storage.storage :=
  match Storage.aof st with
  | Some a => state_of (Storage._recover_data 8 (restart 8 (seconds 1) (AOF.crash 0 a) None))
  | None => st
  end.

Definition after (id : string) : DatabaseNode := set_storage (reborn (storage (before id))) (before id).

Lemma reborn_restarted st : is_Some (Storage.aof st) → restarted 8 st (reborn st).
Proof. intros [a Ha]. exists a, 0%nat, (seconds 1), None. split; [exact Ha|]. unfold reborn. by rewrite Ha. Qed.

Definition after_client : string → Z → string → list string → reply := λ _ port _ args,
  let id := if decide (port = 7001) then "n1" else if decide (port = 7002) then "n2" else "n3" in
  Answer (served (λ _, "error"%string) (result_of (_handle_local_read 9 args (after id)))).

Lemma after_replicas : replicas (after "n2") "k" ≡ₚ ["n1"; "n2"; "n3"]%string.
Proof. apply (bool_decide_unpack _). by vm_compute. Qed.

Lemma after_reader : reader 9 (λ _, "error"%string) after_client (λ xs, xs) after "n2" "k".
Proof.
  split.
  - by vm_compute.
  - rewrite after_replicas. apply (bool_decide_unpack _). by vm_compute.
  - rewrite after_replicas. by vm_compute.
  - intros t Ht Hne. rewrite after_replicas in Ht.
    assert (t = "n1"%string ∨ t = "n3"%string) as [-> | ->] by set_solver.
    + split. exists (demo_info "n1" 7001). split; [by vm_compute|]. split; [by vm_compute|]. done.
    + split. exists (demo_info "n3" 7003). split; [by vm_compute|]. split; [by vm_compute|]. done.
  - done.
Qed.

Lemma after_commits f : f ∈ Coordinator._get_followers (cluster file_leader) →
  recovered_commit 8 file_leader demo_entry (after f).
Proof.
  assert (Hf : Coordinator._get_followers (cluster file_leader) = ["n3"; "n2"]%string) by by vm_compute.
  rewrite Hf. intros Ht. exists true, 5, 5, no_draw, (λ _, 0), (file_peer f), Coordinator.replicate_ok.
  assert (f = "n2"%string ∨ f = "n3"%string) as [-> | ->] by set_solver.
  all: split; [apply Durable.started_covered|]; split; [by intros x|]; split; [by vm_compute|].
  all: apply reborn_restarted, (bool_decide_unpack _); by vm_compute.
Qed.

Lemma acknowledged_write_survives_blackout_witness :
  let answer := result_of (_handle_get 9 after_client (λ xs, xs) ["k"; "QUORUM"]%string (after "n2")) in
  (answer = Ok (ok_response (JStr "v")) ∨
   answer = Ok (error_response ("Quorum read failed for key " +:+ "k")) ∧
     Z.of_nat (length (in_time (λ xs, xs) after "n2" "k")) < 3 / 2 + 1) ∧
  answer = Ok (ok_response (JStr "v")).
Proof.
  cbv zeta. split; [|by vm_compute].
  apply (acknowledged_write_survives_blackout 5 no_draw all_confirm 8 9 (λ _, "error"%string) after_client (λ xs, xs) after
    true file_leader (state_of file_write) (events_of file_write) "k" (JStr "v") None "n2").
  - exact demo_leader_wf.
  - apply Durable.started_covered.
  - discriminate.
  - exact I.
  - reflexivity.
  - by intros m.
  - by vm_compute.
  - by vm_compute.
  - reflexivity.
  - reflexivity.
  - apply reborn_restarted, (bool_decide_unpack _). by vm_compute.
  - intros f Hf _. by apply after_commits.
  - intros t Ht Hno. rewrite after_replicas in Ht. exfalso. apply Hno.
    assert (confirmed 5 no_draw all_confirm file_leader demo_entry = ["n1"; "n3"; "n2"]%string) as Hall
      by by vm_compute.
    change (write_of 5 file_leader "SET" "k" (JStr "v") None) with demo_entry. rewrite Hall. set_solver.
  - exact after_reader.
  - by vm_compute.
  - rewrite after_replicas. apply (bool_decide_unpack _). by vm_compute.
Defined.

End Blackout.
