(* ===== verification/Main.v ===== *)
(** [minidb/main.py]: the settings that the command line gives a node, the peers
    it joins, what is printed, the idle loop and its end, and what an orderly end
    leaves on disk.

    [argparse] is a library: [args] is what it returns.  [idle] runs over what
    happens while the main thread sleeps: the node's threads react, or a signal
    arrives.  A signal before the idle loop, or during the last stop, is left
    out. *)

From S2P Require Import Prelude.
From S2P Require Import PyMonad.
From S2P Require Import Text.
From S2P Require Import Parse.
From S2P Require Import Config.
From S2P Require Import Protocol.
From S2P Require Import Ring.
From S2P Require Import Json.
From S2P Require Import Store.
From S2P Require Import StoreSpec.
From S2P Require Import Aof.
From S2P Require Import Snapshot.
From S2P Require Import Storage.
From S2P Require Import StorageFacts.
From S2P Require Import Durable.
From S2P Require Import Merkle.
From S2P Require Import MerkleFacts.
From S2P Require Import Node.
From S2P Require Import NodeReads.
From S2P Require Import NodeAdmin.
From S2P Require Import NodeLoop.
From S2P Require Import NodeFacts.
From S2P Require Import NodeInvariant.
From S2P Require Import NodeDurable.
From Stdlib Require Import QArith.
#[local] Open Scope Z_scope.

Module Main.
Import Node NodeLoop.

Record args := mkArgs {
  a_node_id : string;
  a_host : string;
  a_port : Z;
  a_cluster_port : Z;
  a_peers : string;
  a_seed : string;
  a_replication_factor : Z;
  a_consistency : string;
}.

(** The defaults of the options; [--node-id] has none. *)
Definition default_args (node_id : string) : args :=
  mkArgs node_id "localhost" 7001 8001 EmptyString EmptyString 3 "QUORUM".

(** [NodeConfig(...)] with the class's defaults for the other fields; a bad
    level cannot get past the choices of the option. *)
Definition config_of (a : args) : res Config.NodeConfig :=
  (c ←! enum_of (a_consistency a);
   let d := Config.get_default_config (a_node_id a) (a_port a) (a_cluster_port a) in
   Ok {| Config.node_id := a_node_id a; Config.host := a_host a; Config.client_port := a_port a;
         Config.cluster_port := a_cluster_port a; Config.aof_enabled := Config.aof_enabled d;
         Config.snapshot_enabled := Config.snapshot_enabled d;
         Config.snapshot_interval := Config.snapshot_interval d;
         Config.aof_fsync_interval := Config.aof_fsync_interval d;
         Config.heartbeat_interval := Config.heartbeat_interval d;
         Config.failure_timeout := Config.failure_timeout d; Config.dead_timeout := Config.dead_timeout d;
         Config.election_timeout_min := Config.election_timeout_min d;
         Config.election_timeout_max := Config.election_timeout_max d;
         Config.replication_factor := a_replication_factor a; Config.default_consistency := c;
         Config.virtual_nodes := Config.virtual_nodes d |})%py.

(** The addresses of both options, split at commas. *)
Definition peers_of (a : args) : list string :=
  let parts s := if truthy_str s then strip <$> split_all "," s else [] in
  parts (a_peers a) ++ parts (a_seed a).

Section main.
Context `{RingHash}.
Context (now : time) (exchange : string → Z → Message → option Message).
Context (call : string → Z → string → list string → reply).

(** The loop over the peers: empty ones are passed over, and the first that
    can be joined is the last that is tried. *)
Fixpoint join_peers (peers : list string) : proc (option string) :=
  match peers with
  | [] => mret None
  | p :: peers =>
      let p := strip p in
      if truthy_str p then
        ok ← NodeReads.join_cluster now exchange p;
        if ok : bool then mret (Some p) else join_peers peers
      else join_peers peers
  end.

(** [main] up to the idle loop: the node and the peer it joined. *)
Definition main (rto : time) (st : Storage.storage) (a : args) : res (DatabaseNode * option string) :=
  (cfg ←! config_of a;
   let started := NodeAdmin.start now call (init now rto cfg st) in
   _ ←! result_of started;
   let joined := join_peers (peers_of a) (state_of started) in
   p ←! result_of joined;
   Ok (state_of joined, p))%py.

End main.

(** ** The idle loop and its end *)

Definition rule : string := "=================================================="%string.

(** What is printed before the loop, line by line. *)
Definition banner (a : args) : list string :=
  [EmptyString; rule;
   ("Mini-Redis/Cassandra Node '" +:+ a_node_id a +:+ "' is running")%string;
   ("Client: " +:+ a_host a +:+ ":" +:+ dump_int (a_port a))%string;
   ("Cluster: " +:+ a_host a +:+ ":" +:+ dump_int (a_cluster_port a))%string;
   rule; EmptyString].

(** What the disk does to the final snapshot of a stop. *)
Record disk := mkDisk { d_gz_size : string → Z; d_failing : option nat }.

(** While the main thread sleeps: a reaction of the node's threads, a signal
    that [signal_handler] is registered for, or a [KeyboardInterrupt]. *)
Inductive moment :=
  | Reacts (w : world) (i : input)
  | Signal (now : time) (handler final : disk)
  | Interrupt (now : time) (final : disk).

Section idle.
Context `{RingHash} `{MerkleHash}.

Definition stop (now : time) (d : disk) (n : DatabaseNode) : DatabaseNode :=
  state_of (NodeAdmin.stop now (d_gz_size d) (d_failing d) n).

(** The [while True] loop with its [except] and [finally]: the node, and the
    exit code once the process has ended.  The signal handler stops the node and
    raises [SystemExit(0)] from the sleep; [finally] stops it again. *)
Fixpoint idle (ms : list moment) (n : DatabaseNode) : DatabaseNode * option Z :=
  match ms with
  | [] => (n, None)
  | Reacts w i :: ms => idle ms (state_of (react w i n))
  | Signal now handler final :: _ => (stop now final (stop now handler n), Some 0)
  | Interrupt now final :: _ => (stop now final n, Some 0)
  end.

(** What happened before the end. *)
Fixpoint reactions (ms : list moment) : list (world * input) :=
  match ms with
  | Reacts w i :: ms => (w, i) :: reactions ms
  | _ => []
  end.

(** When the stops run. *)
Fixpoint ends_at (ms : list moment) : time :=
  match ms with
  | Reacts _ _ :: ms => ends_at ms
  | Signal now _ _ :: _ | Interrupt now _ :: _ => now
  | [] => 0
  end.

(** ** An orderly end *)

Import NodeF NodeDurable.

(** The node as its file has it, open or closed in order. *)
Record saved (n : DatabaseNode) : Prop := {
  s_recorded : Durable.recorded false (storage n);
  s_ready : ∀ a, Storage.aof (storage n) = Some a → AOF.is_open a = true ∨ AOF.pending a = EmptyString;
}.

Lemma on_file_saved n : on_file n → saved n.
Proof.
  intros [Hc _]. split; [by apply Durable.covered_recorded|]. destruct Hc as [_ (a & ? & ? & Ha & (Ho & _) & _)].
  intros a' Ha'. left. congruence.
Qed.

Definition still_held (now : time) (n n' : DatabaseNode) : Prop := ∀ k m,
  StorageF.lookup (Storage.store (storage n)) k = Some m → KVFacts.live now (k, m) →
  StorageF.lookup (Storage.store (storage n')) k = Some m.

(** A stop keeps what has not expired and leaves nothing unsynced. *)
Lemma stop_saved now d n : saved n →
  saved (stop now d n) ∧ Durable.closed (storage (stop now d n)) ∧ still_held now n (stop now d n).
Proof.
  intros [Hr Ho]. unfold stop, NodeAdmin.stop. rewrite in_storage_run. unfold state_of at 1. cbn [fst snd].
  destruct (Durable.recorded_shutdown false (d_gz_size d) now (d_failing d) _ Hr Ho) as (st' & -> & Hr' & Hc & _ & Hl).
  unfold still_held. cbn. split; [split; [exact Hr'|]|split; [exact Hc|]].
  - intros a Ha. right. by apply Hc in Ha as [_ ?].
  - intros k m Hm Hlive. apply Hl. by split.
Qed.

Lemma idle_end ms n n' : on_file n → Forall decoded (reactions ms) → idle ms n = (n', Some 0) →
  saved n' ∧ Durable.closed (storage n').
Proof.
  intros Hn. revert n Hn. induction ms as [|[w i|now h f|now f] ms IH]; intros n Hn Hd Hi; cbn in Hi, Hd; [done| | |].
  - apply Forall_cons in Hd as [Hd Hds]. eapply IH; [|exact Hds|exact Hi]. by apply react_on_file.
  - injection Hi as <-. destruct (stop_saved now h n (on_file_saved _ Hn)) as (H1 & _).
    by destruct (stop_saved now f _ H1) as (? & ? & _).
  - injection Hi as <-. by destruct (stop_saved now f n (on_file_saved _ Hn)) as (? & ? & _).
Qed.

Lemma keeps_join_peers now exchange ps : keeps (join_peers now exchange ps).
Proof.
  induction ps as [|p ps IH]; cbn [join_peers]; [by apply ensures_ret|]. cbv zeta.
  destruct (truthy_str (strip p)); [|done]. apply (ensures_bind (λ _, True)).
  { unfold NodeReads.join_cluster. apply files_cluster, Staged.stages_join. }
  intros [] _; [by apply ensures_ret|done].
Qed.

Lemma idle_keeps ms n n' : on_file n → Forall decoded (reactions ms) → idle ms n = (n', Some 0) →
  still_held (ends_at ms) (run_node n (reactions ms)) n'.
Proof.
  revert n. induction ms as [|[w i|now h f|now f] ms IH]; intros n Hn Hd Hi; cbn in Hi, Hd; [done| | |].
  - apply Forall_cons in Hd as [Hd Hds]. by apply (IH (state_of (react w i n))); [apply react_on_file| |].
  - injection Hi as <-. destruct (stop_saved now h n (on_file_saved _ Hn)) as (H1 & _ & Hl1).
    destruct (stop_saved now f _ H1) as (_ & _ & Hl2). intros k m Hm Hlive. cbn in Hm, Hlive.
    apply Hl2; [by apply Hl1|done].
  - injection Hi as <-. by destruct (stop_saved now f n (on_file_saved _ Hn)) as (_ & _ & Hl).
Qed.

Lemma alive_before later now k m : StorageF.alive_at later m = Some m → now <= later → KVFacts.live now (k, m).
Proof.
  unfold StorageF.alive_at, KVFacts.live, KVStore.is_expired. cbn. destruct (KVStore.expires_at m) as [e|]; [|done].
  cbn. destruct (e =? 0); cbn; [done|]. destruct (Z.leb_spec e later); [done|]. intros _ ?. apply Z.ltb_ge. lia.
Qed.

(** The node that [main] leaves to the idle loop. *)
Lemma main_on_file now rto exchange call t0 interval sn a n p : no_snapshot now sn →
  main now exchange call rto (Durable.started t0 interval sn) a = Ok (n, p) → on_file n.
Proof.
  intros Hsn Hm. unfold main in Hm.
  apply Decoded.res_bind_ok in Hm as (cfg & _ & Hm). apply Decoded.res_bind_ok in Hm as (c & _ & Hm).
  apply Decoded.res_bind_ok in Hm as (p' & _ & Hm). injection Hm as <- _.
  apply keeps_join_peers. by apply (first_start_on_file (mkWorld now rto (λ _, EmptyString) (λ _, JNull) (λ _, 0%Q)
    (λ _, 0) 0%Q exchange call (λ xs, xs)) cfg t0 interval sn).
Qed.

(** Claim C12. An orderly end loses nothing.  When the process that [main]
    started on an empty data directory ends by a signal or an interrupt, after
    whatever its node was asked to do, both stops leave the file closed and
    complete: a restart succeeds, whatever the stops' snapshots came to, and holds
    every key that the node held before, with its value and all its metadata,
    unless it has expired by then or its last line came from another node without
    the metadata. *)
Theorem orderly_exit_keeps_everything now rto exchange call t0 interval sn a n p ms n' f later sn'
    (Hsn : no_snapshot now sn)
    (Hmain : main now exchange call rto (Durable.started t0 interval sn) a = Ok (n, p))
    (Hd : Forall decoded (reactions ms)) (Hidle : idle ms n = (n', Some 0))
    (Hf : Storage.aof (storage n') = Some f) (Hlater : ends_at ms <= later) :
  ∃ st' c, Storage._recover_data later (StorageF.restart later interval (AOF.crash 0 f) sn') = (st', [], Ok c) ∧
    ∀ k m, StorageF.lookup (Storage.store (storage (run_node n (reactions ms)))) k = Some m →
      Durable.whole_line f k = true → StorageF.alive_at later m = Some m →
      StorageF.lookup (Storage.store st') k = Some m.
Proof.
  assert (Hn : on_file n) by by eapply main_on_file.
  destruct (idle_end ms n n' Hn Hd Hidle) as [[Hr _] Hc].
  destruct (Durable.recorded_restart false later interval 0 (storage n') f sn' Hr Hf) as (st' & c & Hrec & Hk).
  exists st', c. split; [exact Hrec|]. intros k m Hm Hw Hal. apply Hk; [|..|done|done].
  - apply (idle_keeps ms n n' Hn Hd Hidle); [done|]. by apply (alive_before later).
  - destruct (Hc f Hf) as [_ Hp]. unfold Durable.unsynced_keys. rewrite Hp. apply not_elem_of_nil.
Qed.

End idle.

(** ** A concrete process *)

#[local] Existing Instance NodeF.demo_hash.

Definition demo_args : args := mkArgs "n1" "localhost" 7001 8001 EmptyString " localhost:8002" 3 "ONE".

(** A value from another node, and a signal before it is synced. *)
Definition demo_moments : list moment :=
  [Reacts (NodeInv.demo_world (seconds 1)) (ClientMessage
     (Protocol.create_command "__REPLICA_SET" (JStr <$> ["k"; "7"; "3"; ""; "1.0"; "1.0"; "n2"]) "n2"));
   Signal (seconds 2) (mkDisk (λ _, 0) None) (mkDisk (λ _, 0) (Some 1%nat))]%string.

Definition demo_main : res (DatabaseNode * option string) :=
  main 0 (λ _ _ _, None) (λ _ _ _ _, NoConnection) (seconds 3) (Durable.started 0 (seconds 5) None) demo_args.

Lemma orderly_exit_keeps_everything_witness :
  ∃ n p n' f st' c m, demo_main = Ok (n, p) ∧ idle demo_moments n = (n', Some 0) ∧ Storage.aof (storage n') = Some f ∧
    Storage._recover_data (seconds 9) (StorageF.restart (seconds 9) (seconds 5) (AOF.crash 0 f) None) = (st', [], Ok c) ∧
    StorageF.lookup (Storage.store st') "k" = Some m ∧ KVStore.value m = JInt 7.
Proof.
  assert (Hmain : ∃ n p, demo_main = Ok (n, p)).
  { assert ((match demo_main with Ok _ => true | Raise _ => false end) = true) as Hok by (by vm_compute).
    destruct demo_main as [[n p]|]; [|done]. by exists n, p. }
  destruct Hmain as (n & p & Hmain).
  set (n1 := run_node n (reactions demo_moments)). set (n' := (idle demo_moments n).1).
  assert (Hall : (match demo_main with
    | Ok (n, _) =>
        (λ m, (StorageF.alive_at (seconds 9) m, KVStore.value m)) <$>
          StorageF.lookup (Storage.store (storage (run_node n (reactions demo_moments)))) "k" =
          Some (StorageF.lookup (Storage.store (storage (run_node n (reactions demo_moments)))) "k", JInt 7) ∧
        (λ f, Durable.whole_line f "k") <$> Storage.aof (storage (idle demo_moments n).1) = Some true ∧
        (idle demo_moments n).2 = Some 0
    | Raise _ => False
    end)) by (vm_compute; by split_and!).
  rewrite Hmain in Hall. fold n1 n' in Hall. destruct Hall as (Hm & Hw & Hend).
  destruct (StorageF.lookup (Storage.store (storage n1)) "k") as [m|] eqn:Hk; [|done]. injection Hm as Hm Hv.
  destruct (Storage.aof (storage n')) as [f|] eqn:Hf; [|done]. injection Hw as Hw.
  destruct (orderly_exit_keeps_everything 0 (seconds 3) (λ _ _ _, None) (λ _ _ _ _, NoConnection) 0 (seconds 5) None
    demo_args n p demo_moments n' f (seconds 9) None) as (st' & c & Hr & Hkeys).
  - done.
  - exact Hmain.
  - apply Forall_cons. split; [by split|by apply Forall_nil].
  - unfold n'. destruct (idle demo_moments n) as [x o]. cbn in Hend |- *. by rewrite Hend.
  - exact Hf.
  - apply (bool_decide_unpack _). by vm_compute.
  - exists n, p, n', f, st', c, m. split; [exact Hmain|]. split.
    + unfold n'. destruct (idle demo_moments n) as [x o]. cbn in Hend |- *. by rewrite Hend.
    + split; [exact Hf|]. split; [exact Hr|]. split; [by apply Hkeys|exact Hv].
Defined.

End Main.
