(* ===== verification/Cli.v ===== *)
(** [minidb/cli.py]: the command line client: splitting a line into words,
    its local commands, what it sends to the server and what it prints.

    The server's answers are arguments: [answer] to the first attempt,
    [reconnect] whether a new connection succeeds, [again] to the second
    attempt.  [ms] is the measured time and [took] its text with two decimals.
    The history file is left out; an interrupt comes at the prompt. *)

From S2P Require Import Prelude.
From S2P Require Import PyMonad.
From S2P Require Import Text.
From S2P Require Import PyDict.
From S2P Require Import Json.
From S2P Require Import Fields.
From S2P Require Import Protocol.
From S2P Require Import Merkle.
From stdpp Require Import sorting.
#[local] Open Scope Z_scope.

Module CLI.
Import Message.

Definition COMMANDS : dict string string :=
  [("SET", "SET <key> <value> [ttl] - Set a key-value pair");
   ("SETEX", "SETEX <key> <ttl> <value> - Set a key with explicit TTL");
   ("GET", "GET <key> [consistency] - Get a value (consistency: ONE|ANY|QUORUM|ALL|STRONG)");
   ("DELETE", "DELETE <key> - Delete a key");
   ("DEL", "DEL <key> - Alias for DELETE");
   ("EXISTS", "EXISTS <key> - Check if key exists");
   ("KEYS", "KEYS [pattern] - List keys matching pattern");
   ("PING", "PING - Check server connectivity");
   ("NODES", "NODES - List all cluster nodes");
   ("LEADER", "LEADER - Show current leader");
   ("RING", "RING [samples] - Show consistent hash ring");
   ("SHARDS", "SHARDS - Show shard distribution");
   ("REPLICAS", "REPLICAS <key> - Show replicas for a key");
   ("ROUTE", "ROUTE <key> - Show routing info for a key");
   ("INFO", "INFO [section] - Show server information");
   ("STATS", "STATS - Show statistics");
   ("CLUSTER", "CLUSTER - Show cluster information");
   ("CONSISTENCY", "CONSISTENCY [level] - Get/set default consistency");
   ("REBALANCE", "REBALANCE - Trigger cluster rebalance");
   ("MIGRATE", "MIGRATE STATUS - Show migration status");
   ("FAILOVER", "FAILOVER - Force leader election");
   ("FAULT", "FAULT [action] - Manage fault injection");
   ("RATELIMIT", "RATELIMIT - Show rate limit statistics");
   ("DEBUG", "DEBUG <on|off> - Toggle debug mode");
   ("HELP", "HELP [command] - Show help");
   ("QUIT", "QUIT - Exit the CLI");
   ("EXIT", "EXIT - Exit the CLI")]%string.

Record DatabaseCLI := mkCli {
  debug_mode : bool;
  default_consistency : string;
}.

Definition init : DatabaseCLI := mkCli false "ANY".

(** The commands that leave the client, and the lines on the terminal. *)
Inductive cli_event :=
  | Sent (cmd : string) (args : list string)
  | Printed (line : string).

Abbreviation proc := (prog DatabaseCLI cli_event).

(** ** [_parse_line] *)

Definition is_quote (c : ascii) : bool := bool_decide (c = dquote ∨ c = "'"%char).

Definition flush (current : string) (parts : list string) : list string :=
  if truthy_str current then parts ++ [current] else parts.

(** The loop over the characters; [quote] is [quote_char] while in quotes. *)
Fixpoint parse_loop (line : string) (quote : option ascii) (current : string) (parts : list string)
    : list string :=
  match line with
  | EmptyString => flush current parts
  | String c line =>
      match quote with
      | None =>
          if is_quote c then parse_loop line (Some c) current parts
          else if decide (c = " "%char)
          then parse_loop line None EmptyString (flush current parts)
          else parse_loop line None (current +:+ chr c) parts
      | Some q =>
          if decide (c = q) then parse_loop line None current parts
          else parse_loop line quote (current +:+ chr c) parts
      end
  end.

Definition _parse_line (line : string) : list string := parse_loop line None EmptyString [].

(** ** Commands *)

Definition error_result (e : string) : json := JObj [("error", JStr e)]%string.
Definition message_result (m : string) : json := JObj [("message", JStr m)]%string.

Section server.
Context (answer again : string → list string → option Message) (reconnect : bool) (ms : json).

(** The dict made of a response. *)
Definition response_result (r : Message) : res json :=
  (s ←! get_default (payload r) "success" (JBool false);
   d ←! get_default (payload r) "data" JNull;
   e ←! get_default (payload r) "error" (JStr "Unknown error");
   Ok (JObj ([("success", s); ("time_ms", ms)]%string ++
             (if truthy s then [("data", d)] else [("error", e)])%string)))%py.

Definition _send_command (cmd : string) (args : list string) : proc json :=
  emit (Sent cmd args);;
  r ← (match answer cmd args with
       | Some r => mret (Some r)
       | None => if reconnect then emit (Sent cmd args);; mret (again cmd args) else mret None
       end);
  match r with
  | None => mret (JObj [("error", JStr "Connection failed"); ("time_ms", ms)]%string)
  | Some r => lift (response_result r)
  end.

(** [result.get("success") and "data" in result] *)
Definition has_data (result : json) : option json :=
  match result with
  | JObj d => if otruthy (dict_get d "success") then dict_get d "data" else None
  | _ => None
  end.

Definition unlines_sep (ls : list string) : string :=
  match ls with [] => EmptyString | l :: ls => foldl (λ acc x, acc +:+ String newline EmptyString +:+ x) l ls end.

Definition _cmd_help (args : list string) : json :=
  match args with
  | cmd :: _ =>
      match dict_get COMMANDS (upper cmd) with
      | Some d => message_result d
      | None => error_result ("Unknown command: " +:+ upper cmd)
      end
  | [] =>
      message_result (unlines_sep ("Available commands:" :: EmptyString ::
        ((λ k, "  " +:+ dict_get_or COMMANDS k EmptyString) <$> merge_sort String.le (dict_keys COMMANDS)))%string)
  end.

Definition _cmd_debug (args : list string) : proc json :=
  c ← get_state;
  let on := match args with
            | a :: _ => bool_decide (lower a = "on"%string ∨ lower a = "true"%string ∨ lower a = "1"%string)
            | [] => negb (debug_mode c)
            end in
  put_state (mkCli on (default_consistency c));;
  mret (message_result ("Debug mode: " +:+ if on then "ON" else "OFF")).

Definition _cmd_get (args : list string) : proc json :=
  c ← get_state;
  match args with
  | [] => mret (error_result "GET requires key")
  | key :: rest =>
      _send_command "GET" [key; match rest with l :: _ => upper l | [] => default_consistency c end]
  end.

(** [f"{s:<n}"] *)
Fixpoint spaces (n : nat) : string := match n with O => EmptyString | S n => String " " (spaces n) end.
Definition pad (n : nat) (s : string) : string := s +:+ spaces (n - String.length s).

(** A field of a member as text: a string or an integer. *)
Definition member_text (m : json) (name dflt : string) : res string :=
  res_bind (get_default m name (JStr dflt)) (λ j,
    match j with JStr s => Ok s | JInt z => Ok (dump_int z) | _ => Raise TypeError end).

Definition member_line (m : json) : res string :=
  (id ←! member_text m "node_id" "unknown";
   host ←! member_text m "host" "?";
   port ←! member_text m "client_port" "?";
   role ←! member_text m "role" "unknown";
   state ←! member_text m "state" "unknown";
   Ok (pad 20 id +:+ " " +:+ host +:+ ":" +:+ pad 18 port +:+ " " +:+ pad 12 role +:+ " " +:+ pad 10 state))%py.

Fixpoint repeat_str (n : nat) (s : string) : string :=
  match n with O => EmptyString | S n => s +:+ repeat_str n s end.

Definition _cmd_nodes : proc json :=
  result ← _send_command "CLUSTER" [];
  match has_data result with
  | Some data =>
      rows ← lift (res_bind (res_bind (get_default data "members" (JArr [])) as_list) (res_mapM member_line));
      mret (message_result (unlines_sep ("Cluster Nodes:" :: EmptyString ::
        (pad 20 "NODE ID" +:+ " " +:+ pad 25 "ADDRESS" +:+ " " +:+ pad 12 "ROLE" +:+ " " +:+ pad 10 "STATE") ::
        repeat_str 70 "-" :: rows)%string))
  | None => mret result
  end.

Definition _cmd_leader : proc json :=
  result ← _send_command "CLUSTER" [];
  match has_data result with
  | Some data =>
      leader ← lift (get_default data "leader_id" JNull);
      if truthy leader then
        l ← lift (as_str leader);
        mret (message_result ("Current leader: " +:+ l))
      else mret (message_result "No leader elected")
  | None => mret result
  end.

Definition _cmd_ring (args : list string) : proc json := _send_command "RING" args.
Definition _cmd_shards : proc json := _send_command "SHARDS" [].

Definition _cmd_replicas (args : list string) : proc json :=
  match args with
  | [] => mret (error_result "REPLICAS requires key")
  | _ => _send_command "REPLICAS" args
  end.

Definition _cmd_route (args : list string) : proc json :=
  match args with
  | [] => mret (error_result "ROUTE requires key")
  | _ => _send_command "ROUTE" args
  end.

Definition _cmd_stats : proc json := _send_command "STATS" [].

Definition _cmd_consistency (args : list string) : proc json :=
  c ← get_state;
  match args with
  | l :: _ =>
      let level := upper l in
      if decide (level ∈ ["ONE"; "QUORUM"; "ALL"; "ANY"; "STRONG"]%string) then
        put_state (mkCli (debug_mode c) level);;
        mret (message_result ("Default consistency set to: " +:+ level))
      else mret (error_result "Invalid consistency level. Valid: ONE, QUORUM, ALL, ANY, STRONG")
  | [] => mret (message_result ("Default consistency: " +:+ default_consistency c))
  end.

Definition _cmd_rebalance : proc json := _send_command "REBALANCE" [].
Definition _cmd_migrate (args : list string) : proc json := _send_command "MIGRATE" args.
Definition _cmd_failover : proc json := _send_command "FAILOVER" [].

(** [execute]: [None] leaves the client. *)
Definition execute (line : string) : proc (option json) :=
  match _parse_line line with
  | [] => mret (Some (error_result "Empty command"))
  | w :: args =>
      let cmd := upper w in
      if decide (cmd = "QUIT"%string ∨ cmd = "EXIT"%string) then mret None
      else if decide (cmd = "HELP"%string) then mret (Some (_cmd_help args))
      else
        r ← (if decide (cmd = "DEBUG"%string) then _cmd_debug args
             else if decide (cmd = "GET"%string) then _cmd_get args
             else if decide (cmd = "NODES"%string) then _cmd_nodes
             else if decide (cmd = "LEADER"%string) then _cmd_leader
             else if decide (cmd = "RING"%string) then _cmd_ring args
             else if decide (cmd = "SHARDS"%string) then _cmd_shards
             else if decide (cmd = "REPLICAS"%string) then _cmd_replicas args
             else if decide (cmd = "ROUTE"%string) then _cmd_route args
             else if decide (cmd = "STATS"%string) then _cmd_stats
             else if decide (cmd = "CONSISTENCY"%string) then _cmd_consistency args
             else if decide (cmd = "REBALANCE"%string) then _cmd_rebalance
             else if decide (cmd = "MIGRATE"%string) then _cmd_migrate args
             else if decide (cmd = "FAILOVER"%string) then _cmd_failover
             else _send_command cmd args);
        mret (Some r)
  end.

End server.

(** ** The terminal *)

(** [json.dumps(j, indent=2)] at an indentation. *)
Definition indent (n : nat) : string := String newline (spaces (2 * n)).

Definition block (n : nat) (opening closing : ascii) (items : list string) : string :=
  match items with
  | [] => String opening (chr closing)
  | x :: xs =>
      String opening (indent (S n) +:+ foldl (λ acc y, acc +:+ "," +:+ indent (S n) +:+ y) x xs +:+
                      indent n +:+ chr closing)
  end.

Fixpoint dumps_indent (n : nat) (j : json) : string :=
  match j with
  | JArr xs => block n "[" "]" (dumps_indent (S n) <$> xs)
  | JObj d => block n "{" "}" ((λ p, dump_str p.1 +:+ ": " +:+ dumps_indent (S n) p.2) <$> d)
  | j => dumps j
  end.

Definition is_container (j : json) : bool := match j with JArr _ | JObj _ => true | _ => false end.

(** The text of a result: an error, the data, a message, or all of it. *)
Definition result_text (result : dict string json) : string :=
  match dict_get result "error", dict_get result "data", dict_get result "message" with
  | Some e, _, _ => "ERROR: " +:+ py_str e
  | None, Some d, _ => if is_container d then dumps_indent 0 d else py_str d
  | None, None, Some m => py_str m
  | None, None, None => dumps_indent 0 (JObj result)
  end.

Definition _print_result (took : string) (result : json) : proc () :=
  c ← get_state;
  match result with
  | JObj r =>
      emit (Printed (result_text r));;
      if debug_mode c && dict_mem "time_ms"%string r
      then emit (Printed ("(took " +:+ took +:+ "ms)")) else mret ()
  | j => emit (Printed (py_str j))
  end.

(** What the server and the clock do during one command. *)
Record world := mkWorld {
  w_answer : string → list string → option Message;
  w_again : string → list string → option Message;
  w_reconnect : bool;
  w_ms : json;
  w_took : string;
}.

(** What comes at a prompt; the end of the list is the end of the input. *)
Inductive input :=
  | Line (w : world) (text : string)
  | Interrupt.

(** The loop of [run]. *)
Fixpoint loop (inputs : list input) : proc () :=
  match inputs with
  | [] => mret ()
  | Interrupt :: inputs => emit (Printed EmptyString);; loop inputs
  | Line w text :: inputs =>
      let line := strip text in
      if truthy_str line then
        result ← execute (w_answer w) (w_again w) (w_reconnect w) (w_ms w) line;
        match result with
        | None => mret ()
        | Some result => _print_result (w_took w) result;; loop inputs
        end
      else loop inputs
  end.

(** [try: p finally: q], for a [q] that does not raise. *)
Definition finally (p q : proc ()) : proc () := λ c,
  match p c with
  | (c, es, r) => match q c with (c, es', _) => (c, es ++ es', r) end
  end.

Section run.
Context (host : string) (port : Z).

Definition connect (connects : bool) : proc bool :=
  emit (Printed ((if connects then "Connected to " else "Failed to connect to ") +:+ host +:+ ":" +:+ dump_int port));;
  mret connects.

Definition run (connects : bool) (inputs : list input) : proc () :=
  ok ← connect connects;
  if ok : bool then
    emit (Printed "Mini-Redis/Cassandra CLI. Type 'HELP' for commands.");;
    emit (Printed EmptyString);;
    finally (loop inputs) (emit (Printed "Goodbye!"))
  else mret ().

End run.

(** ** The command line of the client *)

(** What [argparse] returns: the positional host and port, and the options. *)
Record args := mkArgs {
  host_pos : option string;
  port_pos : option Z;
  host : string;
  port : Z;
}.

Definition default_args : args := mkArgs None None "localhost" 7001.

Definition final_host (a : args) : string :=
  match host_pos a with Some h => if truthy_str h then h else host a | None => host a end.

Definition final_port (a : args) : Z :=
  match port_pos a with Some p => if p =? 0 then port a else p | None => port a end.

(** [run_cli] on a new client. *)
Definition run_cli (host : string) (port : Z) (connects : bool) (inputs : list input) : DatabaseCLI * list cli_event * res () :=
  run host port connects inputs init.

Definition main (a : args) : bool → list input → DatabaseCLI * list cli_event * res () :=
  run_cli (final_host a) (final_port a).

End CLI.
