(* ===== verification/CliFacts.v ===== *)
(** The command line client: which lists of words can be typed, which
    consistency level a GET asks for, and how a session ends. *)

From S2P Require Import Prelude.
From S2P Require Import PyMonad.
From S2P Require Import Text.
From S2P Require Import PyDict.
From S2P Require Import Json.
From S2P Require Import Config.
From S2P Require Import Protocol.
From S2P Require Import Ring.
From S2P Require Import Store.
From S2P Require Import Storage.
From S2P Require Import Node.
From S2P Require Import NodeReads.
From S2P Require Import Cli.
#[local] Open Scope Z_scope.

Module CLIF.
Import CLI.

(** A character that stands for itself outside quotes. *)
Definition plain (c : ascii) : bool := negb (is_quote c) && bool_decide (c ≠ " "%char).

(** How to type a character: as it is, or in quotes of the other kind. *)
Definition typed_char (c : ascii) : string :=
  if plain c then chr c
  else if decide (c = dquote) then String "'" (String c (String "'" EmptyString))
  else String dquote (String c (String dquote EmptyString)).

Fixpoint typed (w : string) : string :=
  match w with EmptyString => EmptyString | String c w => typed_char c +:+ typed w end.

Fixpoint typed_line (ws : list string) : string :=
  match ws with
  | [] => EmptyString
  | w :: ws => typed w +:+ String " " (typed_line ws)
  end.

Lemma parse_char c rest cur parts :
  parse_loop (typed_char c +:+ rest) None cur parts = parse_loop rest None (cur +:+ chr c) parts.
Proof.
  unfold typed_char. destruct (plain c) eqn:Ep.
  - apply andb_true_iff in Ep as [Hq%negb_true_iff Hs%bool_decide_eq_true_1].
    unfold chr at 1. rewrite str_app_cons, str_app_nil_l. cbn [parse_loop]. by rewrite Hq, decide_False.
  - destruct (decide (c = dquote)) as [->|Hc]; [reflexivity|].
    rewrite !str_app_cons, str_app_nil_l. cbn [parse_loop]. change (is_quote dquote) with true. cbv iota.
    rewrite decide_False by done. cbn [parse_loop]. by rewrite decide_True.
Qed.

Lemma parse_word w rest cur parts :
  parse_loop (typed w +:+ rest) None cur parts = parse_loop rest None (cur +:+ w) parts.
Proof.
  revert cur. induction w as [|c w IH]; intros cur; [by rewrite str_app_nil_r|].
  cbn [typed]. rewrite <-str_app_assoc, parse_char, IH. unfold chr.
  by rewrite <-?str_app_assoc, ?str_app_cons, ?str_app_nil_l.
Qed.

Lemma parse_typed_line ws parts : Forall (λ w, w ≠ EmptyString) ws →
  parse_loop (typed_line ws) None EmptyString parts = parts ++ ws.
Proof.
  intros Hws. revert parts. induction Hws as [|w ws Hw Hws IH]; intros parts; [by rewrite app_nil_r|].
  cbn [typed_line]. rewrite parse_word, str_app_nil_l. cbn [parse_loop].
  change (is_quote " ") with false. cbv iota. rewrite decide_True by done.
  unfold flush. destruct w; [done|]. cbn [truthy_str]. rewrite IH. cbn. by rewrite <-app_assoc.
Qed.

(** No word that the loop adds is empty. *)
Lemma parse_nonempty line quote cur parts : Forall (λ w, w ≠ EmptyString) parts →
  Forall (λ w, w ≠ EmptyString) (parse_loop line quote cur parts).
Proof.
  assert (Hflush : ∀ cur parts, Forall (λ w, w ≠ EmptyString) parts →
    Forall (λ w, w ≠ EmptyString) (flush cur parts)).
  { intros [|c w] ps Hps; [done|]. apply Forall_app. split; [done|]. by apply Forall_singleton. }
  revert quote cur parts. induction line as [|c line IH]; intros quote cur parts Hps; cbn [parse_loop]; [auto|].
  repeat case_match; auto.
Qed.

(** What can be typed at the prompt: the word lists that some line
    splits into are exactly those without an empty word.  Spaces and both
    kinds of quotes can occur in a word; an empty argument, such as an empty
    value for SET, cannot be given. *)
Theorem typable_words ws : (∃ line, _parse_line line = ws) ↔ Forall (λ w, w ≠ EmptyString) ws.
Proof.
  split; [intros [line <-]; by apply parse_nonempty, Forall_nil|].
  intros Hws. exists (typed_line ws). by apply parse_typed_line.
Qed.

(** The client's own default level hides the node's.  A GET typed
    without a level asks for ANY, and the node serves it at ANY whatever its
    configured default is. *)
Theorem client_default_hides_node_default (answer again : string → list string → option Message)
    reconnect ms line word key (n : Node.DatabaseNode)
    (Hline : _parse_line line = [word; key]) (Hget : upper word = "GET"%string) :
  (∃ es, events_of (execute answer again reconnect ms line init) = Sent "GET" [key; "ANY"%string] :: es) ∧
  NodeReads.get_level n ["ANY"%string] = ANY.
Proof.
  split; [|by vm_compute]. unfold execute. rewrite Hline, Hget.
  unfold _cmd_get, _send_command, mbind, prog_bind, get_state, emit, mret, prog_ret, lift. cbn.
  repeat case_match; simplify_eq; cbn; by eexists.
Qed.

Lemma client_default_hides_node_default_witness :
  (∃ es, events_of (execute (λ _ _, None) (λ _ _, None) false JNull "get  k" init) =
     Sent "GET" ["k"; "ANY"]%string :: es) ∧
  NodeReads.get_level (Node.init 0 5 (Config.get_default_config "n1" 7001 8001)
    (Storage.mkStorage (KVStore.init 0) None None)) ["ANY"%string] = ANY.
Proof.
  apply (client_default_hides_node_default (λ _ _, None) (λ _ _, None) false JNull "get  k" "get" "k"); reflexivity.
Defined.

(** ** Sessions *)

(** A line that leaves the client. *)
Definition quits (text : string) : Prop :=
  match _parse_line (strip text) with
  | w :: _ => upper w = "QUIT"%string ∨ upper w = "EXIT"%string
  | [] => False
  end.

Lemma bind_ext {S E A B} (m : prog S E A) (k k' : A → prog S E B) s :
  (∀ a s', k a s' = k' a s') → (m ≫= k) s = (m ≫= k') s.
Proof.
  intros Hk. unfold mbind, prog_bind. destruct (m s) as [[s1 e1] [a|x]]; [|done]. by rewrite Hk.
Qed.

Lemma execute_quits answer again reconnect ms line c : quits line →
  execute answer again reconnect ms (strip line) c = (c, [], Ok None).
Proof.
  unfold quits, execute. destruct (_parse_line (strip line)) as [|w ws]; [done|].
  intros Hq. by rewrite decide_True.
Qed.

(** After a line that quits, as after the end of the input, nothing is read. *)
Lemma loop_quit before w text after c : quits text →
  loop (before ++ Line w text :: after) c = loop before c.
Proof.
  intros Hq. revert c. induction before as [|[w' text'|] before IH]; intros c; cbn [app loop].
  - assert (Ht : truthy_str (strip text) = true).
    { unfold quits in Hq. by destruct (strip text). }
    rewrite Ht. unfold mbind, prog_bind. by rewrite execute_quits.
  - destruct (truthy_str (strip text')); [|apply IH].
    apply bind_ext. intros [result|] s'; [|done]. apply bind_ext. intros [] s''. apply IH.
  - apply bind_ext. intros [] s'. apply IH.
Qed.

(** A session ends at QUIT or EXIT as at the end of its input: what
    follows is neither sent nor answered.  And however it ends, an exception
    included, the last thing it prints is its farewell. *)
Theorem session_end host port before w text after c (Hq : quits text) :
  run host port true (before ++ Line w text :: after) c = run host port true before c ∧
  ∃ es, events_of (run host port true before c) = es ++ [Printed "Goodbye!"].
Proof.
  unfold run, connect, finally, mbind, prog_bind, emit, mret, prog_ret. cbn.
  rewrite loop_quit by done. destruct (loop before c) as [[c' es] r]. split; [done|].
  cbn. exists (Printed ("Connected to " +:+ host +:+ ":" +:+ dump_int port) ::
    Printed "Mini-Redis/Cassandra CLI. Type 'HELP' for commands." :: Printed EmptyString :: es). by simpl.
Qed.

Definition demo_world : world :=
  mkWorld (λ cmd args, Some (Protocol.create_response true (JArr [JStr cmd; JInt 2]) None)) (λ _ _, None) false
    (JInt 1) "1.00".

Lemma session_end_witness :
  run "localhost" 7001 true ([Line demo_world "DEBUG on"; Line demo_world "KEYS *"] ++
      Line demo_world " quit " :: [Line demo_world "PING"]) init =
  run "localhost" 7001 true [Line demo_world "DEBUG on"; Line demo_world "KEYS *"] init ∧
  ∃ es, events_of (run "localhost" 7001 true [Line demo_world "DEBUG on"; Line demo_world "KEYS *"] init) =
    es ++ [Printed "Goodbye!"].
Proof. apply session_end. left. reflexivity. Defined.

(** What the terminal shows for it. *)
Example demo_session :
  events_of (run "localhost" 7001 true [Line demo_world "DEBUG on"; Line demo_world "KEYS *"] init) =
  [Printed "Connected to localhost:7001"; Printed "Mini-Redis/Cassandra CLI. Type 'HELP' for commands.";
   Printed ""; Printed "Debug mode: ON"; Sent "KEYS" ["*"];
   Printed ("[" +:+ String newline "  " +:+ dump_str "KEYS" +:+ "," +:+ String newline "  2" +:+ String newline "]");
   Printed "(took 1.00ms)"; Printed "Goodbye!"]%string.
Proof. vm_compute. reflexivity. Qed.

End CLIF.
