(* ===== verification/Showcase.v ===== *)
(** [examples/failure_demo.py] and [examples/demo_cluster.py]: the showcase of
    the parts and the tour of a cluster.  Each demonstration is a program that
    prints, and asks nodes over their client ports; the first five and the
    limiters run the components themselves.

    Text is the sequence of its UTF-8 bytes, which only the width of a table's
    column has to tell from its code points.  The n-th reading of the clock of a
    demonstration is [clock n]; [answer] is what the nodes' client ports answer,
    [percent] and [fixed1] the formats [.1%] and [.1f].  [run_showcase], which
    prints between the demonstrations and waits for the user, and the start and
    stop of the nodes are left out. *)

From S2P Require Import Prelude.
From S2P Require Import PyMonad.
From S2P Require Import Text.
From S2P Require Import PyDict.
From S2P Require Import Json.
From S2P Require Import Fields.
From S2P Require Import Config.
From S2P Require Import Protocol.
From S2P Require Import Store.
From S2P Require Import Ring.
From S2P Require Import RingFacts.
From S2P Require Import Merkle.
From S2P Require Import MerkleFacts.
From S2P Require Import VersionVector.
From S2P Require Import Membership.
From S2P Require Import Election.
From S2P Require Import Coordinator.
From S2P Require Import RateLimiter.
From S2P Require Import RateLimiterFacts.
From S2P Require Import Storage.
From S2P Require Import Node.
From S2P Require Import Cli.
From stdpp Require Import sorting.
From Stdlib Require Import QArith Lqa.
#[local] Open Scope Z_scope.

Module Showcase.
Import Message.

Inductive event :=
  | Printed (text : string)
  | Rewritten (text : string) (** without an end of line *)
  | Slept (t : time)
  | Asked (port : Z) (cmd : string) (args : list string).

Abbreviation proc := (prog () event).

Definition print (text : string) : proc () := emit (Printed text).

(** A text of the source, written here with single quotes for its double ones. *)
Fixpoint double_quotes (s : string) : string :=
  match s with
  | EmptyString => EmptyString
  | String c s => String (if decide (c = "'"%char) then dquote else c) (double_quotes s)
  end.

(** ** Printing *)

Definition escape (code : string) : string := String "027" code.
Definition HEADER : string := escape "[95m".
Definition BLUE : string := escape "[94m".
Definition CYAN : string := escape "[96m".
Definition GREEN : string := escape "[92m".
Definition YELLOW : string := escape "[93m".
Definition RED : string := escape "[91m".
Definition BOLD : string := escape "[1m".
Definition UNDERLINE : string := escape "[4m".
Definition END_ : string := escape "[0m".

Definition color (text color_code : string) : string := color_code +:+ text +:+ END_.

Definition eol : string := String newline EmptyString.

Definition print_banner (text char : string) : proc () :=
  print (eol +:+ color (CLI.repeat_str 70 char) CYAN);;
  print (color (" " +:+ text) (BOLD +:+ CYAN));;
  print (color (CLI.repeat_str 70 char) CYAN).

Definition print_section (text : string) : proc () := print (eol +:+ color (">>> " +:+ text) GREEN).

Definition print_step (step : Z) (text : string) : proc () :=
  print (eol +:+ color ("[Step " +:+ dump_int step +:+ "]") YELLOW +:+ " " +:+ text).

Definition status (success : bool) : string := if success then color "OK" GREEN else color "FAIL" RED.

Definition result_line (label value : string) (success : bool) : string :=
  "  " +:+ label +:+ ": " +:+ value +:+ " [" +:+ status success +:+ "]".

Definition print_result (label value : string) (success : bool) : proc () := print (result_line label value success).

(** The code points of a UTF-8 text. *)
Fixpoint code_points (s : string) : nat :=
  match s with
  | EmptyString => 0
  | String c s => let n := N_of_ascii c in
      if ((128 <=? n) && (n <? 192))%N then code_points s else S (code_points s)
  end.

Definition ljust (w : nat) (s : string) : string := s +:+ CLI.spaces (w - code_points s).

Definition join (sep : string) (xs : list string) : string :=
  match xs with [] => EmptyString | x :: xs => foldl (λ acc y, acc +:+ sep +:+ y) x xs end.

(** The rows are as long as the headers. *)
Definition widths (headers : list string) (rows : list (list string)) : list nat :=
  (λ i, foldr Nat.max 0%nat ((λ row, code_points (row !!! i)) <$> headers :: rows)) <$> seq 0 (length headers).

Definition table_row (ws : list nat) (row : list string) : string := join " | " (zip_with ljust ws row).

Definition print_table (headers : list string) (rows : list (list string)) : proc () :=
  let ws := widths headers rows in
  print ("  " +:+ color (table_row ws headers) BOLD);;
  print ("  " +:+ join "-+-" ((λ w, CLI.repeat_str w "-") <$> ws));;
  for_each (λ row, print ("  " +:+ table_row ws row)) rows.

(** [frames] is the number of rounds before the clock passes the end. *)
Definition wait_with_spinner (frames : nat) (message : string) : proc () :=
  for_each (λ i, emit (Rewritten (String "013" ("  " +:+ ["|"; "/"; "-"; "\"]%string !!! (i mod 4)%nat +:+ " " +:+ message +:+ "...")));;
                 emit (Slept 100000)) (seq 0 frames);;
  print (String "013" ("  " +:+ color "✓" GREEN +:+ " " +:+ message +:+ "... Done!   ")).

(** ** The cluster of the demonstrations *)

(** The index of the first node that is the leader. *)
Definition find_leader (nodes : list Node.DatabaseNode) : option nat :=
  fst <$> list_find (λ n, Coordinator.is_leader (Node.cluster n) = true) nodes.

(** The port that [get_client] connects to. *)
Definition get_client (leader_idx node_idx : option nat) : Z :=
  7001 + match node_idx with
         | Some i => Z.of_nat i
         | None => match leader_idx with Some i => Z.of_nat i | None => 0 end
         end.

Record node_state := mkState { name : string; port : Z; role : string; term : Z; keys : nat }.

Definition get_node_states (nodes : list Node.DatabaseNode) : list node_state :=
  imap (λ i n, mkState ("node" +:+ pretty (S i)) (7001 + Z.of_nat i)
                 (if Coordinator.is_leader (Node.cluster n) then "LEADER" else "FOLLOWER")
                 (Election.current_term (Coordinator.election (Node.cluster n)))
                 (KVStore.size (Storage.store (Node.storage n)))) nodes.

(** ** The parts *)
Section parts.
Context (clock : nat → time) (percent fixed1 : Q → string).

Definition demo_kv_store (frames : nat) : proc () :=
  print_banner "DEMO 1: Core Storage Engine" "=";;
  let s := KVStore.init (clock 0) in
  print_section "Basic SET/GET Operations";;
  let s := (KVStore.set (clock 1) s "user:alice"
              (JStr (double_quotes "{'name': 'Alice', 'email': 'alice@example.com'}")) KVStore.no_opts).1 in
  let s := (KVStore.set (clock 2) s "user:bob"
              (JStr (double_quotes "{'name': 'Bob', 'email': 'bob@example.com'}")) KVStore.no_opts).1 in
  let s := (KVStore.set (clock 3) s "counter" (JStr "100") KVStore.no_opts).1 in
  let '(s, (value, found)) := KVStore.get (clock 4) s "user:alice" in
  v ← lift (as_str value);
  print_result "SET/GET user:alice" (str_take 50 v +:+ "...") found;;
  print_section "Pattern Matching with KEYS";;
  let '(s, ks) := KVStore.keys (clock 5) s "user:*" in
  print_result "KEYS user:*" (py_str (JArr (JStr <$> ks))) (length ks =? 2)%nat;;
  print_section "TTL (Time-To-Live) Support";;
  let s := (KVStore.set (clock 6) s "temp:session" (JStr "abc123")
              (KVStore.mkOpts (Some 2) None None None None None)).1 in
  let '(s, (value, found)) := KVStore.get (clock 7) s "temp:session" in
  print_result "GET before expiry" (py_str value) found;;
  wait_with_spinner frames "Waiting for TTL expiration";;
  let '(s, (_, found)) := KVStore.get (clock 8) s "temp:session" in
  print_result "GET after expiry" ("found=" +:+ py_str (JBool found)) (negb found);;
  print_section "Store Statistics";;
  let stats := KVStore._stats s in
  print_table ["Metric"; "Value"]
    [["Keys"; pretty (KVStore.size s)]; ["Hits"; dump_int (KVStore.hits stats)];
     ["Misses"; dump_int (KVStore.misses stats)]; ["Hit Rate"; percent (KVStore.hit_rate stats)];
     ["Sets"; dump_int (KVStore.sets stats)]].

(** How often each node owns one of the keys. *)
Definition count_owners `{RingHash} (ring : Ring.ConsistentHashRing) (n : nat) : dict (option string) Z :=
  fold_left (λ d i, let node := Ring.get_node ring ("key:" +:+ pretty i) in
                    dict_set node (dict_get_or d node 0 + 1) d) (seq 0 n) [].

(** [before]: the owners of the keys. *)
Definition owners `{RingHash} (ring : Ring.ConsistentHashRing) (n : nat) : list (option string) :=
  (λ i, Ring.get_node ring ("key:" +:+ pretty i)) <$> seq 0 n.

(** The keys that the demonstration counts as remapped, to print a fixed text. *)
Definition remapped `{RingHash} (before after : Ring.ConsistentHashRing) (n : nat) : nat :=
  length (base.filter (λ i, Ring.get_node after ("key:" +:+ pretty i) ≠ Some "server-2"%string ∧
                            Some ("key:" +:+ pretty i) ∈ owners before n) (seq 0 n)).

Definition servers `{RingHash} : Ring.ConsistentHashRing :=
  fold_left Ring.add_node ["server-1"; "server-2"; "server-3"]%string (Ring.init 150).

(** [sorted] on the items: the nodes are distinct names. *)
Definition distribution_rows `{RingHash} (ring : Ring.ConsistentHashRing) : list (list string) :=
  let d := count_owners ring (Z.to_nat 10000) in
  (λ node, let count := dict_get_or d (Some node) 0 in
           [node; dump_int count; fixed1 (inject_Z count / 100) +:+ "%"]) <$>
    merge_sort String.le (omap id (dict_keys d)).

(** The nodes are printed as a list, in the order of the set. *)
Definition demo_consistent_hashing `{RingHash} : proc () :=
  print_banner "DEMO 2: Consistent Hashing & Sharding" "=";;
  let ring := servers in
  print_section "Creating Hash Ring with Virtual Nodes";;
  print_result "Virtual nodes per server" "150" true;;
  print_result "Total ring positions" (pretty (length (Ring._ring ring))) true;;
  print_section "Key Distribution Analysis (10,000 keys)";;
  print_table ["Server"; "Keys"; "Percentage"] (distribution_rows ring);;
  print_section "Replica Placement";;
  let replicas := Ring.get_nodes ring "important-data" 3 in
  print_result "Replicas for 'important-data'" (py_str (JArr (JStr <$> replicas))) (length replicas =? 3)%nat;;
  print_section "Node Failure Simulation";;
  let ring := Ring.remove_node ring "server-2" in
  print_result "Nodes after failure" (py_str (JArr (JStr <$> Ring.get_all_nodes ring))) true;;
  print_result "Minimal data movement" "Only ~1/3 of keys remapped" true.

(** The data of the two replicas. *)
Definition data1 : dict string (json * Z) :=
  (λ i, ("key:" +:+ pretty i, (JStr ("value-" +:+ pretty i), Z.of_nat i))) <$> seq 0 1000.
Definition data2 : dict string (json * Z) :=
  dict_set "key:501" (JStr "ANOTHER-MODIFICATION", 1000) (dict_set "key:500" (JStr "MODIFIED-VALUE", 999) data1).

Definition tree1 `{MerkleHash} : Merkle.MerkleTree := Merkle.build (Merkle.init 50) data1.
Definition tree2 `{MerkleHash} : Merkle.MerkleTree := Merkle.build (Merkle.init 50) data1.
Definition modified_tree `{MerkleHash} : Merkle.MerkleTree := Merkle.build tree2 data2.

Definition root_text `{MerkleHash} (t : Merkle.MerkleTree) : res string :=
  match Merkle.get_root_hash t with
  | Some h => Ok (str_take 16 h +:+ "...")
  | None => Raise TypeError
  end.

Definition same_root `{MerkleHash} (t t' : Merkle.MerkleTree) : json :=
  JBool (bool_decide (Merkle.get_root_hash t = Merkle.get_root_hash t')).

Definition demo_merkle_trees `{MerkleHash} : proc () :=
  print_banner "DEMO 3: Merkle Trees & Anti-Entropy Repair" "=";;
  print_section "Building Merkle Trees on Two Replicas";;
  h1 ← lift (root_text tree1);
  print_result "Replica 1 root hash" h1 true;;
  h2 ← lift (root_text tree2);
  print_result "Replica 2 root hash" h2 true;;
  print_result "Hashes match" (py_str (same_root tree1 tree2)) true;;
  print_section "Simulating Data Divergence";;
  print_result "After modification" "2 keys changed" true;;
  print_result "Hashes now match?" (py_str (same_root tree1 modified_tree)) false;;
  print_section "Efficient Difference Detection";;
  let differences := length (Merkle.compare tree1 modified_tree) in
  print_result "Divergent ranges found" (pretty differences) true;;
  print_result "Data scanned" ("Only " +:+ pretty differences +:+ " buckets vs 1000 keys") true.

Definition east : VersionVector.VersionVector := Nat.iter 2 (λ v, VersionVector.increment v "datacenter-east") [].
Definition west : VersionVector.VersionVector := Nat.iter 3 (λ v, VersionVector.increment v "datacenter-west") [].

Definition versions_text (v : VersionVector.VersionVector) : string := py_str (JObj (dict_map_values JInt v)).

Definition demo_version_vectors : proc () :=
  print_banner "DEMO 4: Version Vectors & Conflict Resolution" "=";;
  print_section "Tracking Concurrent Updates";;
  print_result "DC-East version" (versions_text east) true;;
  print_result "DC-West version" (versions_text west) true;;
  print_section "Conflict Detection";;
  let comparison := VersionVector.compare east west in
  print_result "Comparison result" comparison (bool_decide (comparison = "concurrent"%string));;
  print ("  " +:+ color "→ CONFLICT DETECTED: Both versions are concurrent!" YELLOW);;
  print_section "Conflict Resolution via Merge";;
  print_result "Merged version" (versions_text (VersionVector.merge east west)) true;;
  print ("  " +:+ color "→ After merge, both replicas converge to same state" GREEN).

(** The managers of the simulated election, with the timeouts they drew. *)
Definition managers (rto : nat → time) : list Election.ElectionManager :=
  imap (λ i id, Election.init id 3000000 (clock i) (rto i)) ["node-1"; "node-2"; "node-3"]%string.

(** The requests of node-1, and the managers after them. *)
Fixpoint ask_votes (i : nat) (ms : list Election.ElectionManager) (votes : Z)
    : res (list Election.ElectionManager * Z) :=
  match ms with
  | [] => Ok ([], votes)
  | m :: ms =>
      match Election.handle_vote_request (clock i) "node-1" 1 0 0 m with
      | (m, _, Ok (_, granted)) =>
          res_map (λ r, (m :: r.1, r.2)) (ask_votes (S i) ms (if granted : bool then votes + 1 else votes))
      | (_, _, Raise e) => Raise e
      end
  end.

Definition election_result (rto : nat → time) : res (list Election.ElectionManager * Z) :=
  let ms := managers rto in
  res_map (λ r, (take 1 ms ++ r.1, r.2)) (ask_votes 3 (drop 1 ms) 0).

Definition demo_raft_election (rto : nat → time) : proc () :=
  print_banner "DEMO 5: Leader Election (Raft-lite)" "=";;
  print_section "Election Protocol Overview";;
  print (join eol [""; "  The Raft consensus algorithm ensures:"; "  • Only one leader at a time";
    "  • Leaders are elected by majority vote"; "  • Elections use randomized timeouts to prevent split-brain";
    "  • Term numbers ensure consistency"; "    "]);;
  print_section "Simulating 3-Node Election";;
  r ← lift (election_result rto);
  print_result "Votes received by node-1" (dump_int (r.2 + 1) +:+ "/3 (including self)") (1 <=? r.2);;
  print_result "Majority achieved" "Yes (2+ votes)" (1 <=? r.2);;
  print_section "Term-based Leadership";;
  print_table ["Node"; "Term"; "Voted For"; "Role"]
    [["node-1"; "1"; "node-1"; "CANDIDATE → LEADER"]; ["node-2"; "1"; "node-1"; "FOLLOWER"];
     ["node-3"; "1"; "node-1"; "FOLLOWER"]].

(** How many of [n] requests a limiter admits, from the [i]-th clock reading on. *)
Fixpoint count_allowed {L} (try_acquire : time → L → string → L * bool) (i n : nat) (l : L) : Z :=
  match n with
  | O => 0
  | S n => match try_acquire (clock i) l "default"%string with
           | (l, ok) => (if ok : bool then 1 else 0) + count_allowed try_acquire (S i) n l
           end
  end.

Definition burst_allowed : Z := count_allowed RateLimit.token_try_acquire 0 15 (RateLimit.token_init 100 10).
Definition window_allowed : Z := count_allowed RateLimit.sliding_try_acquire 15 10 (RateLimit.sliding_init 5 1000000).

Definition commands : list (list string) :=
  [["SET/GET/DELETE"; "Basic key-value operations"]; ["KEYS"; "Pattern matching for keys"];
   ["PING"; "Health check"]; ["INFO"; "Node information"]; ["CLUSTER"; "Cluster state"];
   ["NODES"; "List all nodes"]; ["LEADER"; "Show current leader"]; ["RING"; "Consistent hash ring"];
   ["SHARDS"; "Shard distribution"]; ["REPLICAS"; "Key replica locations"]; ["ROUTE"; "Routing information"];
   ["STATS"; "Comprehensive statistics"]; ["REBALANCE"; "Trigger rebalancing"];
   ["FAILOVER"; "Force leader election"]; ["FAULT"; "Fault injection control"];
   ["RATELIMIT"; "Rate limiting stats"]].

Definition demo_extended_cli : proc () :=
  print_banner "DEMO 11: Extended CLI Commands" "=";;
  print_section "Available Commands";;
  print_table ["Command"; "Description"] commands.

End parts.

(** ** The cluster over its client ports *)
Section cluster.
Context (answer : Z → string → list string → option Message).
Context (leader_idx : option nat) (percent : json → res string).

Definition ask (port : Z) (cmd : string) (args : list string) : proc (option Message) :=
  emit (Asked port cmd args);; mret (answer port cmd args).

(** [response and response.payload.get("success")] *)
Definition succeeded (response : option Message) : res bool :=
  match response with
  | None => Ok false
  | Some r => res_map truthy (get_default (payload r) "success" JNull)
  end.

(** [response.payload.get("data") if response else None] *)
Definition data_of (response : option Message) : res json :=
  match response with None => Ok JNull | Some r => get_default (payload r) "data" JNull end.

(** [if response and response.payload.get("success"):] with the data. *)
Definition on_success (response : option Message) (p : json → proc ()) : proc () :=
  match response with
  | None => mret ()
  | Some r =>
      ok ← lift (succeeded response);
      if ok : bool then info ← lift (subscript (payload r) "data"); p info else mret ()
  end.

(** [str(info.get(name, dflt))] *)
Definition cell (info : json) (name : string) (dflt : json) : res string := res_map py_str (get_default info name dflt).

Definition is_none (j : json) : bool := bool_decide (j = JNull).

Definition test_data : list (string * string) :=
  [("user:1", double_quotes "{'name': 'Alice', 'score': 100}"); ("user:2", double_quotes "{'name': 'Bob', 'score': 85}");
   ("user:3", double_quotes "{'name': 'Charlie', 'score': 92}"); ("config:app", "production"); ("counter:visits", "1000")]%string.

Definition demo_cluster_operations (nodes : list Node.DatabaseNode) (frames : nat) : proc () :=
  print_banner "DEMO 6: Distributed Cluster Operations" "=";;
  print_section "Cluster Topology";;
  print_table ["Node"; "Port"; "Role"; "Term"; "Keys"]
    ((λ s, [name s; dump_int (port s); role s; dump_int (term s); pretty (keys s)]) <$> get_node_states nodes);;
  print_section "Writing Data Through Leader";;
  let client := get_client leader_idx None in
  for_each (λ kv, response ← ask client "SET" [kv.1; kv.2];
                  success ← lift (succeeded response);
                  print_result ("SET " +:+ kv.1) (if success : bool then "OK" else "FAIL") success) test_data;;
  wait_with_spinner frames "Waiting for replication";;
  print_section "Verifying Replication to Followers";;
  for_each (λ i, response ← ask (get_client leader_idx (Some i)) "GET" ["user:1"]%string;
                 value ← lift (data_of response);
                 print_result ("node" +:+ pretty (S i) +:+ " GET user:1")
                   (if truthy value then "Found" else "Not found") (negb (is_none value))) (seq 0 (length nodes));;
  print_section "Cluster Statistics";;
  response ← ask client "CLUSTER" [];
  on_success response (λ info,
    leader ← lift (cell info "leader_id" (JStr "N/A"));
    trm ← lift (cell info "term" (JInt 0));
    len ← lift (cell info "log_length" (JInt 0));
    commit ← lift (cell info "commit_index" (JInt 0));
    alive ← lift (cell info "alive_count" (JInt 0));
    print_table ["Metric"; "Value"]
      [["Leader"; leader]; ["Current Term"; trm]; ["Log Length"; len]; ["Commit Index"; commit]; ["Alive Nodes"; alive]]).

(** [took] is the measured time of each read, in milliseconds. *)
Definition demo_consistency_levels (took : string → string) : proc () :=
  print_banner "DEMO 7: Tunable Consistency Levels" "=";;
  print_section "Consistency Levels Explained";;
  print (join eol [""; "  • ONE    - Read from any single replica (fastest, may be stale)";
    "  • QUORUM - Read from majority of replicas (balanced)"; "  • ALL    - Read from all replicas (slowest, strongest)";
    "  • STRONG - Read only from leader (linearizable)"; "    "]);;
  let client := get_client leader_idx None in
  _ ← ask client "SET" ["consistency:test"; "test-value"]%string;
  print_section "Reading with Different Consistency Levels";;
  for_each (λ level, response ← ask client "GET" ["consistency:test"%string; level];
                     value ← lift (data_of response);
                     print_result (level +:+ " read") (py_str value +:+ " (" +:+ took level +:+ "ms)") (negb (is_none value)))
    ["ANY"; "QUORUM"; "STRONG"]%string.

Definition demo_fault_injection : proc () :=
  print_banner "DEMO 8: Fault Injection & Resilience Testing" "=";;
  print_section "Fault Injection Capabilities";;
  print (join eol [""; "  The system supports simulating:"; "  • Network delays and packet drops"; "  • Network partitions";
    "  • Disk failures"; "  • Process pauses and crashes"; "  • Clock skew"; "    "]);;
  let client := get_client leader_idx None in
  print_section "Enabling Fault Injection Mode";;
  _ ← ask client "FAULT" ["ENABLE"]%string;
  print_result "Fault injection" "Enabled" true;;
  response ← ask client "FAULT" [];
  on_success response (λ stats,
    enabled ← lift (cell stats "enabled" (JBool false));
    total ← lift (cell stats "total_faults" (JInt 0));
    delays ← lift (cell stats "network_delays" (JInt 0));
    dropped ← lift (cell stats "packets_dropped" (JInt 0));
    print_table ["Metric"; "Value"]
      [["Enabled"; enabled]; ["Total Faults"; total]; ["Network Delays"; delays]; ["Packets Dropped"; dropped]]);;
  _ ← ask client "FAULT" ["DISABLE"]%string;
  print_result "Fault injection" "Disabled (safe mode)" true.

Definition demo_rate_limiting (clock : nat → time) : proc () :=
  print_banner "DEMO 9: Rate Limiting & Backpressure" "=";;
  print_section "Rate Limiting Mechanisms";;
  print (join eol [""; "  • Token Bucket - Allows bursts up to bucket size"; "  • Sliding Window - Fixed rate over time window";
    "  • Adaptive - Adjusts based on system load"; "  • Backpressure - Monitors queue depths"; "    "]);;
  print_section "Token Bucket Limiter (100 req/s, burst=10)";;
  print_result "Burst test (15 rapid requests)" (dump_int (burst_allowed clock) +:+ " allowed") (burst_allowed clock =? 10);;
  print_section "Sliding Window Limiter (5 req/s)";;
  print_result "Window test (10 rapid requests)" (dump_int (window_allowed clock) +:+ " allowed") (window_allowed clock =? 5);;
  response ← ask (get_client leader_idx None) "RATELIMIT" [];
  on_success response (λ stats,
    print_section "Cluster Rate Limit Stats";;
    level ← lift (res_bind (get_default stats "backpressure_level" (JInt 0)) percent);
    print_result "Backpressure level" level true).

(** The row of a key. *)
Definition route_row (key : string) (info : json) : res (list string) :=
  (primary ←! cell info "primary_owner" (JStr "?");
   replicas ←! res_bind (get_default info "replicas" (JArr [])) as_list;
   names ←! res_mapM as_str (take 2 replicas);
   local ←! get_default info "is_local" JNull;
   Ok [key; primary; join ", " names; if truthy local then "Yes" else "No"])%py.

Fixpoint route_rows (client : Z) (ks : list string) : proc (list (list string)) :=
  match ks with
  | [] => mret []
  | key :: ks =>
      response ← ask client "ROUTE" [key];
      ok ← lift (succeeded response);
      row ← lift (if ok : bool then
                    res_bind (res_bind (default (Raise AttributeError) ((λ r, Ok (payload r)) <$> response))
                                (λ p, subscript p "data")) (λ info, res_map (λ r, [r]) (route_row key info))
                  else Ok []);
      rows ← route_rows client ks;
      mret (row ++ rows)
  end.

Definition bar (count : Z) : string := CLI.repeat_str (Z.to_nat (Z.min (count * 2) 20)) "█".

Definition demo_shard_routing : proc () :=
  print_banner "DEMO 10: Shard Routing & Data Distribution" "=";;
  let client := get_client leader_idx None in
  print_section "Key Routing Information";;
  rows ← route_rows client ["user:1"; "user:2"; "config:app"; "counter:visits"]%string;
  print_table ["Key"; "Primary"; "Replicas"; "Local"] rows;;
  print_section "Shard Distribution";;
  response ← ask client "SHARDS" [];
  on_success response (λ info,
    total ← lift (cell info "total_keys" (JInt 0));
    print_result "Total keys" total true;;
    local ← lift (cell info "local_keys" (JInt 0));
    print_result "Local keys" local true;;
    dist ← lift (get_default info "distribution" (JObj []));
    if truthy dist then
      print (eol +:+ "  Key distribution across nodes:");;
      d ← lift (as_dict dist);
      for_each (λ p, count ← lift (as_int p.2);
                     print ("    " +:+ p.1 +:+ ": " +:+ bar count +:+ " (" +:+ dump_int count +:+ ")")) d
    else mret ()).

End cluster.

(** ** [demo_cluster.py]

    [nodes] is the cluster when its leader is looked up. *)

Definition print_header (text : string) : proc () :=
  print (eol +:+ CLI.repeat_str 60 "=");;
  print (" " +:+ text);;
  print (CLI.repeat_str 60 "=").

Definition wait_and_print (seconds : nat) (message : string) : proc () :=
  for_each (λ i, emit (Rewritten (String "013" (message +:+ " (" +:+ pretty i +:+ "s)...")));; emit (Slept 1000000))
    (rev (seq 1 seconds));;
  print (String "013" (message +:+ "... Done!          ")).

(** The last node that is the leader, after a line for each. *)
Fixpoint show_roles (i : nat) (nodes : list Node.DatabaseNode) (leader_idx : option nat) : proc (option nat) :=
  match nodes with
  | [] => mret leader_idx
  | n :: nodes =>
      let leads := Coordinator.is_leader (Node.cluster n) in
      print ("  node" +:+ pretty (S i) +:+ ": " +:+ (if leads then "LEADER" else "FOLLOWER") +:+ " (term: " +:+
             dump_int (Election.current_term (Coordinator.election (Node.cluster n))) +:+ ")");;
      show_roles (S i) nodes (if leads then Some i else leader_idx)
  end.

Section demo.
Context (answer : Z → string → list string → option Message) (connects : nat → bool).

Definition demo_data : list (string * string) :=
  [("user:alice", double_quotes "{'name': 'Alice', 'age': 30}"); ("user:bob", double_quotes "{'name': 'Bob', 'age': 25}");
   ("user:charlie", double_quotes "{'name': 'Charlie', 'age': 35}"); ("config:app", "production"); ("counter", "100")]%string.

Definition write_data (port : Z) : proc () :=
  print_header "Step 4: Writing Data Through Leader";;
  for_each (λ kv, response ← ask answer port "SET" [kv.1; kv.2];
                  ok ← lift (succeeded response);
                  print ("  SET " +:+ kv.1 +:+ ": " +:+ if ok : bool then "OK" else "FAIL")) demo_data.

Definition read_all : proc () :=
  print_header "Step 5: Reading Data from All Nodes";;
  for_each (λ i, if connects i then
                   response ← ask answer (7001 + Z.of_nat i) "GET" ["user:alice"]%string;
                   value ← lift (data_of response);
                   print ("  node" +:+ pretty (S i) +:+ " GET user:alice: " +:+ py_str value)
                 else mret ()) (seq 0 3).

(** [info.get(name)] printed after its label. *)
Definition show_field (info : json) (label name : string) : proc () :=
  v ← lift (cell info name JNull); print (label +:+ v).

Definition cluster_state (port : Z) : proc () :=
  print_header "Step 6: Cluster State";;
  response ← ask answer port "CLUSTER" [];
  (match response with
   | None => mret ()
   | Some r =>
       info ← lift (get_default (payload r) "data" (JObj []));
       show_field info "  Current term: " "term";;
       show_field info "  Leader: " "leader_id";;
       show_field info "  Alive nodes: " "alive_count";;
       show_field info "  Log entries: " "log_length";;
       show_field info "  Commit index: " "commit_index"
   end);;
  response ← ask answer port "INFO" [];
  match response with
  | None => mret ()
  | Some r =>
      info ← lift (get_default (payload r) "data" (JObj []));
      show_field info (eol +:+ "  Key count: ") "keys";;
      stats ← lift (get_default info "stats" (JObj []));
      sets ← lift (res_bind (get_default stats "sets" (JInt 0)) as_int);
      hits ← lift (res_bind (get_default stats "hits" (JInt 0)) as_int);
      print ("  Total operations: " +:+ dump_int (sets + hits))
  end.

Definition all_keys (port : Z) : proc () :=
  print_header "Step 7: All Keys";;
  response ← ask answer port "KEYS" ["*"]%string;
  match response with
  | None => mret ()
  | Some r =>
      ks ← lift (res_bind (get_default (payload r) "data" (JArr [])) as_list);
      print ("  Total keys: " +:+ pretty (length ks));;
      for_each (λ k, print ("    - " +:+ py_str k)) ks
  end.

(** From the election to the list of keys. *)
Definition demo (nodes : list Node.DatabaseNode) : proc () :=
  print_header "Step 3: Leader Election Result";;
  leader_idx ← show_roles 0 nodes None;
  match leader_idx with
  | None => print "  ERROR: No leader elected!"
  | Some i =>
      let port := 7001 + Z.of_nat i in
      write_data port;;
      wait_and_print 1 "Waiting for replication";;
      read_all;;
      cluster_state port;;
      all_keys port;;
      print_header "Demo Complete!"
  end.
End demo.

(** ** What the demonstrations show *)

(** *** Hashing *)

Lemma servers_wf `{RingHash} : RingF.wf servers ∧ Ring.virtual_nodes servers = 150%nat.
Proof.
  unfold servers. cbn [fold_left]. split; [repeat apply RingF.add_node_wf; apply RingF.init_wf|].
  unfold Ring.add_node. by repeat case_decide.
Qed.

Lemma servers_nodes `{RingHash} : ∀ x, x ∈ Ring._nodes servers → x ∈ ["server-1"; "server-2"; "server-3"]%string.
Proof. intros x. unfold servers. cbn [fold_left]. unfold Ring.add_node. repeat case_decide; set_solver. Qed.

Lemma owner_is_server `{RingHash} key x : Ring.get_node servers key = Some x →
  x ∈ ["server-1"; "server-2"; "server-3"]%string.
Proof.
  destruct servers_wf as [Hwf Hvn]. rewrite RingF.get_node_preference by done. intros Hx.
  apply servers_nodes, (RingF.elem_of_preference _ key); [done|lia|]. by apply head_Some_elem_of.
Qed.

(** The demonstration of minimal movement counts no key, whatever the hash: it
    looks for the keys in the set of their owners. *)
Theorem showcase_counts_no_key `{RingHash} n :
  remapped servers (Ring.remove_node servers "server-2") n = 0%nat.
Proof.
  unfold remapped. rewrite pfilter_none; [done|]. intros i _ [_ Hin].
  apply list_elem_of_fmap in Hin as (j & Hj & _). symmetry in Hj. apply owner_is_server in Hj.
  repeat (apply elem_of_cons in Hj as [Hj|Hj]; [discriminate Hj|]). by apply not_elem_of_nil in Hj.
Qed.

(** *** Hash trees *)

Lemma data1_keys : dict_keys data1 = (λ i, "key:" +:+ pretty i)%string <$> seq 0 1000.
Proof. unfold dict_keys, data1. by rewrite <-list_fmap_compose. Qed.

Lemma data_wf : dict_wf data1 ∧ dict_wf data2 ∧ dict_keys data1 = dict_keys data2.
Proof.
  assert (Hwf : dict_wf data1).
  { unfold dict_wf. rewrite data1_keys. apply NoDup_fmap_2; [|apply NoDup_seq].
    intros i j Hij. apply (inj pretty). by apply (inj (String.append "key:")). }
  split; [done|]. split; [by apply dict_wf_set, dict_wf_set|].
  assert (Hin : ∀ i, (i < 1000)%nat → ("key:" +:+ pretty i)%string ∈ dict_keys data1).
  { intros i Hi. rewrite data1_keys. apply list_elem_of_fmap. exists i. split; [done|]. apply elem_of_seq. lia. }
  unfold data2. rewrite !dict_keys_set.
  rewrite (proj2 (dict_mem_keys "key:500"%string data1)) by (apply (Hin 500%nat); lia).
  rewrite (proj2 (dict_mem_keys "key:501"%string _)); [done|]. rewrite dict_keys_set.
  rewrite (proj2 (dict_mem_keys "key:500"%string data1)) by (apply (Hin 500%nat); lia). apply (Hin 501%nat). lia.
Qed.

(** Of disjoint lists, at most as many hold one of the [ks] as there are [ks]. *)
Lemma holders_le {A} `{EqDecision A} (P : list A → Prop) `{!∀ b, Decision (P b)} (ks : list A) bs : NoDup (concat bs) →
  (∀ b, b ∈ bs → P b → ∃ k, k ∈ b ∧ k ∈ ks) → (length (base.filter P bs) <= length ks)%nat.
Proof.
  revert ks. induction bs as [|b bs IH]; intros ks Hnd HP; [simpl; lia|]. cbn [concat] in Hnd.
  apply NoDup_app in Hnd as (_ & Hdis & Hnd). rewrite filter_cons. case_decide as Hb.
  2: { apply IH; [done|]. intros c Hc. apply HP. by right. }
  destruct (HP b ltac:(by left) Hb) as (k & Hkb & Hk).
  assert (Hle : (length (base.filter P bs) <= length (base.filter (λ x, x ≠ k) ks))%nat).
  { apply IH; [done|]. intros c Hc Hpc. destruct (HP c ltac:(by right) Hpc) as (x & Hxc & Hx).
    exists x. split; [done|]. apply list_elem_of_filter. split; [|done]. intros ->. apply (Hdis k Hkb).
    apply MerkleF.elem_of_concat. by exists c. }
  assert (Hlt : (length (base.filter (λ x, x ≠ k) ks) < length ks)%nat).
  { apply list_elem_of_split in Hk as (l1 & l2 & ->). rewrite filter_app, filter_cons_False by (intros Hn; by apply Hn).
    pose proof (length_filter (λ x, x ≠ k) l1). pose proof (length_filter (λ x, x ≠ k) l2).
    rewrite !length_app. cbn [length]. lia. }
  cbn [length]. lia.
Qed.

Lemma entry_unchanged (d : dict string (json * Z)) k k1 k2 v1 v2 : k1 ≠ k → k2 ≠ k →
  MerkleF.entry_of d k = MerkleF.entry_of (dict_set k1 v1 (dict_set k2 v2 d)) k.
Proof. intros H1 H2. unfold MerkleF.entry_of. by rewrite !dict_get_set_ne. Qed.

(** The comparison reports at most two of the twenty buckets, whatever the hash. *)
Theorem showcase_ranges `{MerkleHash} : (length (Merkle.compare tree1 modified_tree) <= 2)%nat.
Proof.
  destruct data_wf as (Hwf1 & Hwf2 & Hkeys).
  pose proof (MerkleF.compare_sound (Merkle.init 50) data1 data2 ltac:(simpl; lia) Hwf1 Hwf2 ltac:(by rewrite Hkeys)) as Hs.
  apply sublist_length in Hs. rewrite length_fmap in Hs.
  assert (Hle : (length (MerkleF.differing 50 data1 data2) <= length ["key:500"; "key:501"]%string)%nat).
  { apply holders_le.
    - rewrite MerkleF.key_buckets_concat by lia. unfold MerkleF.sorted_keys. by rewrite merge_sort_Permutation.
    - intros b _ (k & Hk & Hne)%Exists_exists. exists k. split; [done|].
      destruct (decide (k ∈ ["key:500"; "key:501"]%string)) as [|Hn]; [done|]. destruct Hne.
      unfold data2. apply entry_unchanged; intros <-; apply Hn; [right|]; left. }
  exact (Nat.le_trans _ _ _ Hs Hle).
Qed.

(** *** Votes *)

(** Both voters grant their vote, so the candidate counts a majority, and its own
    manager, which the printed table calls the leader, is as it was created. *)
Theorem showcase_votes clock rto :
  ∃ m2 m3, election_result clock rto = Ok (Election.init "node-1" 3000000 (clock 0%nat) (rto 0%nat) :: [m2; m3], 2) ∧
    Election.voted_for m2 = Some "node-1"%string ∧ Election.voted_for m3 = Some "node-1"%string.
Proof. by eexists _, _. Qed.

(** *** Limiters *)

Definition requests (clock : nat → time) (i n : nat) : list RateLimitF.request :=
  (λ j, ("default"%string, clock j)) <$> seq i n.

Lemma count_allowed_admitted {L} clock (step : time → L → string → L * bool) i n l :
  count_allowed clock step i n l = Z.of_nat (length (RateLimitF.admitted step l (requests clock i n) "default")).
Proof.
  revert i l. induction n as [|n IH]; intros i l; [done|]. cbn [count_allowed]. unfold requests. cbn [seq].
  rewrite fmap_cons, RateLimitF.admitted_cons, length_app, Nat2Z.inj_add. rewrite decide_True by done.
  fold (requests clock (S i) n). destruct (step (clock i) l "default"%string) as [l' ok]. rewrite IH. by destruct ok.
Qed.

Section limits.
Context (clock : nat → time).
Hypothesis clock_mono : ∀ i, clock i <= clock (S i).

Lemma requests_ordered i n lo hi : lo <= clock i → clock (i + n)%nat <= hi → RateLimitF.ordered lo hi (requests clock i n).
Proof.
  revert i lo. induction n as [|n IH]; intros i lo Hlo Hhi; [rewrite Nat.add_0_r in Hhi; simpl; lia|].
  split; [done|]. apply (IH (S i)); [done|]. by replace (S i + n)%nat with (i + S n)%nat by lia.
Qed.

Lemma requests_key i n : Forall (λ p, p.1 = "default"%string) (requests clock i n).
Proof. apply Forall_fmap, Forall_true. done. Qed.

(** Within ten milliseconds the bucket admits its burst and nothing else. *)
Theorem showcase_burst : clock 15%nat - clock 0%nat < 10000 → burst_allowed clock = 10.
Proof.
  intros Hfast. unfold burst_allowed. rewrite count_allowed_admitted. set (rs := requests clock 0 15).
  set (l := RateLimit.token_init 100 10).
  assert (Hord : RateLimitF.ordered (clock 0%nat) (clock 15%nat) rs) by (by apply requests_ordered).
  assert (Hmin : (Nat.min (length rs) 10 <= length (RateLimitF.admitted RateLimit.token_try_acquire l rs "default"))%nat).
  { apply RateLimitF.admits_first; [apply requests_key|]. intros rs1 t rs2 Hrs Hlt.
    apply (RateLimitF.token_first _ _ _ _ _ rs2 (clock 0%nat) (clock 15%nat)); [done|by rewrite <-Hrs|]. change (Z.of_nat _) with
      (Z.of_nat (length (RateLimitF.admitted RateLimit.token_try_acquire l rs1 "default"))). lia. }
  pose proof (RateLimitF.token_bound_gen l _ _ rs "default" ltac:(simpl; lia) ltac:(discriminate) ltac:(done) Hord) as Hmax.
  unfold RateLimitF.allowance in Hmax. cbn [dict_get RateLimit._buckets RateLimit.burst RateLimit.rate l RateLimit.token_init] in Hmax.
  change (length rs) with 15%nat in Hmin. set (a := length _) in *. clearbody a.
  assert (Hlt : (RateLimit.to_seconds (clock 15%nat - clock 0%nat) < 1 # 100)%Q).
  { unfold RateLimit.to_seconds, Qlt, Qdiv, Qmult, Qinv, inject_Z. simpl. lia. }
  assert (Ha : (inject_Z (Z.of_nat a) < inject_Z 11)%Q) by (change (inject_Z 11) with 11%Q; change (inject_Z 10) with 10%Q in Hmax; lra).
  rewrite <-Zlt_Qlt in Ha. lia.
Qed.

(** Within a second the window admits its five requests and nothing else. *)
Theorem showcase_window : clock 25%nat - clock 15%nat <= 1000000 → window_allowed clock = 5.
Proof.
  intros Hfast. unfold window_allowed. rewrite count_allowed_admitted. set (rs := requests clock 15 10).
  set (l := RateLimit.sliding_init 5 1000000).
  assert (Hord : RateLimitF.ordered (clock 15%nat) (clock 25%nat) rs) by (by apply requests_ordered).
  set (times := RateLimitF.admitted RateLimit.sliding_try_acquire l rs "default").
  assert (Hmin : (Nat.min (length rs) 5 <= length times)%nat).
  { apply RateLimitF.admits_first; [apply requests_key|]. intros rs1 t rs2 Hrs Hlt.
    apply (RateLimitF.sliding_exact 5 1000000 rs1 _ t rs2 (clock 15%nat) (clock 25%nat)); [done|done|by rewrite <-Hrs|].
    eapply Z.le_lt_trans; [apply inj_le, length_filter|]. fold l. lia. }
  destruct (RateLimitF.sliding_after l _ _ "default" [] rs [] ltac:(done) ltac:(by rewrite app_nil_r)
    (RateLimitF.sliding_init_inv 5 1000000 (clock 15%nat) _ ltac:(done))) as (now & _ & Hm & Hw & _ & Hok).
  specialize (Hok (clock 15%nat)). rewrite Hw, Hm in Hok.
  unfold RateLimitF.in_window in Hok. rewrite pfilter_all in Hok.
  - change (length rs) with 10%nat in Hmin. change (Z.of_nat (length times) <= 5) in Hok. lia.
  - intros t Ht. apply (RateLimitF.admitted_between _ _ _ _ _ _ _ Hord) in Ht. change (RateLimit.window_seconds l) with 1000000. lia.
Qed.
End limits.

End Showcase.
